(* ===== verification/_CoqProject ===== *)
-Q . S2P
Prelude.v
StdSet.v
Timers.v
TimerFacts.v
Fibers.v
FiberFacts.v
Schedulers.v
SchedulerFacts.v
SchedulerRuns.v
Workers.v
WorkerFacts.v
PoolFacts.v
WorkerRaces.v
FdManagers.v
IOManagers.v
IOManagerFacts.v
IOManagerSim.v
Hooks.v
HookFacts.v
HookSim.v
IdleFacts.v
Systems.v
Wakeups.v
SystemSteps.v
SystemHooks.v
SystemFacts.v
SystemRuns.v
SystemEnds.v
SystemSim.v
SystemPool.v
StoppingReads.v
UnlockedEvents.v
LogFormats.v
LogFormatFacts.v
Loggers.v
LoggerFacts.v
Yamls.v
YamlTrees.v
LogYamls.v
LogYamlFacts.v
Casts.v
Configs.v
ConfigFacts.v
Reloads.v
ReloadFacts.v
HookInits.v
EntryPoints.v
Threads.v
ThreadFacts.v
Locks.v
LockFacts.v
Addresses.v
Utils.v
Singletons.v
LogStatements.v
