(* ===== verification/Prelude.v ===== *)
(** * The sylar server framework, modelled and verified

    ** The program and its parts

    The sources under src/sylar are a C++ framework for network servers: coroutines
    ([Fiber]), a scheduler that runs coroutines and callbacks from a queue
    ([Scheduler]), an IO manager that derives from the scheduler and from the timer
    manager and whose idle coroutine waits on epoll ([IOManager]), hooks that turn
    blocking system calls into a wait on the IO manager, and beside them a logging
    library, configuration variables loaded from YAML, and wrappers of pthreads.

    A hooked call ([read], [sleep], ...) registers the running fiber with the IO manager
    or arms a timer, and switches to the scheduler's main fiber; the scheduler runs
    what its queue holds; with an empty queue it runs the idle fiber, which waits on
    epoll for no longer than the next timer and puts the waiters of what has
    happened, and the callbacks of expired timers, on the queue.

    ** How it is modelled

    - This file: machine integers, faults, the state monad [M] with its notations and
      the tactics that take computations apart ([inv_ok], [step_ok], [step_in]), and
      lemmas on lists shared by the components.
    - Timers.v with StdSet.v (timer.h, timer.cc): [Timer.Timer] objects in a store
      indexed by address and the ordered set of their addresses; [add_timer], [cancel],
      [refresh], [reset], [get_next_timeout], [list_expired_cbs] and
      [detect_clock_rollover], each a critical section.  [StdSet] is [std::set] located
      through the comparator.  The class [TimerHost] stands for the derived class.
    - Fibers.v (fiber.h, fiber.cc): fibers in a store, the thread-local pointers, and
      [swapcontext] as the saving of one point of control and the transfer to another.
      [swapIn], [call], [reset], the destructor and the yields are as in the code.
    - Schedulers.v (scheduler.h, scheduler.cc): the queue, [schedule], the search through
      the queue ([pick]), a round of [run] ([run_iter]), [start] and [stop].  The virtual
      functions of a derived class are the class [SchedulerHost].
    - Workers.v: [run] on several threads.  [place] says where a thread is in the loop, a
      step ([advance]) goes to the next place where another thread can act, and [step] is
      the relation of a pool of threads over the state they share, with calls of
      [schedule] and [stop] from outside.
    - FdManagers.v (fd_manager.h, fd_manager.cc): descriptor contexts and their table.
    - IOManagers.v (iomanager.h, iomanager.cc): [Process] is an IO manager with the
      fibers, timers and descriptors it works on and the kernel, the class [Kernel];
      [add_event], [del_event], [cancel_event], [cancel_all], and a segment of [idle]
      up to its yield.  It implements [TimerHost] and [SchedulerHost].
    - Hooks.v (hook.h, hook.cc): each hooked function, cut in two where it yields; the
      functions of the C library are arguments.  EntryPoints.v: the twenty-one functions
      that are hooked, with the arguments of their prototypes.
    - Systems.v: the clients.  [code] is a language of functions that call the hooked
      functions, schedule functions, set timers, and register functions for events and cancel
      events, and [exec] runs what stands in a fiber, the idle function and the lambdas of the
      hooks among it, so that the loop of Schedulers.v becomes the whole program on one
      thread.  Wakeups.v, SystemSteps.v and SystemHooks.v follow the wake-ups of fibers
      through each operation such a function can make.
    - LogFormats.v and Loggers.v (log.h, log.cc): levels, events, the pattern parser and
      the format items; loggers, appenders, the manager and the listener that applies
      a new log configuration.
    - Configs.v (config.h, config.cc): variables, lookup and the loading of a document, over
      the classes [Yaml] (a YAML node) and [Values] (conversions).  A listener is a function
      on what lies outside the variables, run inside [setValue], which may throw or fault.
    - Yamls.v (the interface to YAML nodes), YamlTrees.v (an instance of it), Casts.v (the
      conversions of containers in config.h) and LogYamls.v (the conversions of log.h and
      log.cc: definitions of loggers from and to YAML, [toYamlString]).
    - Reloads.v: the variable of the log configuration with its listener, and the loading of
      a document in a process of variables and loggers.
    - HookInits.v (hook.cc): [hook_init] and the static object that calls it.
    - Threads.v (thread.h, thread.cc): the calls of a scoped lock, semaphores with their
      failures, the start of a thread as a step relation of its creator and itself, its
      names, [join] and the destructor.
    - Locks.v (thread.h): the mutex classes over the objects of pthreads (the class
      [PthreadRwlock] and others), the scoped locks, and threads that execute critical
      sections a step at a time.
    - Utils.v (util.cc): the clock, the fiber id and backtraces.
    - Addresses.v (address.h, address.cc): the comparisons of addresses and their family.
    - LogStatements.v (log.h, macro.h): the macros that log and the assertions, with the
      event a statement makes.  Singletons.v (singleton.h): the object behind
      [GetInstance].

    An operation is a function of type [M S A]: it returns a value and a new state, or a
    fault for a failed assertion, a null pointer or an access out of range.  A thread
    id, the clock, a fresh address and the answer of a system call are arguments or
    come from the interface of the kernel.

    ** What is proved

    The theorems are in the files named ...Facts; the files named ...Sim and ...Runs
    hold concrete instances and the theorems' applications to them.
    - TimerFacts: the set of armed timers with their deadlines is refined by every
      operation, [list_expired_cbs] among them: the timers whose time has passed fire, in
      order, and of those due at this very moment the ones below the address of the
      temporary it compares with; a cancelled timer stays cancelled; the race of
      [list_expired_cbs].
    - FiberFacts: the invariant of the fiber pool, kept by every operation; [swapIn] runs
      one segment; driving a fiber to its end is running its function.
    - SchedulerFacts, SchedulerRuns: what [pick] takes; queueing and tickling; [run]
      drains the queue in order and returns only when it should; [stop] on a caller
      and a callback that yields ready do not work.
    - WorkerFacts: a thread of the pool that is left alone is [run], step for step, which
      ties the two translations of the loop to each other.  PoolFacts: in every order of steps no task is lost or begun twice, the counters are
      the numbers of threads they should be, and a task pinned to a thread that has left
      stays in the queue.  WorkerRaces: such a state is reached by a race with [stop], and
      a fiber woken before it has switched out runs its segment twice.
    - IOManagerFacts with IOManagerSim: the invariant that ties contexts, pending count
      and epoll's interest list; when each operation succeeds, and that it wakes or
      forgets exactly the waiter it names; how long [idle] waits and when it stops.
    - HookFacts with HookSim: when a call waits, how a timeout or an event ends the wait,
      sleeping, closing, flags; that no descriptor is ever taken for a socket.
    - IdleFacts: a whole round of the idle loop, for a kernel that does not refuse to change
      what it has: the timers that are due and the waiters of all reported events are on
      the queue, in that order, when the idle fiber gives up control, and such a round ends.
    - SystemFacts, SystemRuns with SystemSim: clients of [code] on one thread.  Every fiber that waits
      has one wake-up under way and no other fiber has any, in whatever order its calls,
      events and timers come; a sleeper is not resumed before its time; when the loop ends
      nobody waits.  SystemEnds: where clients only sleep, schedule and set timers the loop
      does end, by a measure of what is left to do, how far the next deadline is and how
      many bytes are in the pipe.
    - SystemPool: the bodies use the scheduler through [schedule] alone, so that PoolFacts
      holds of a manager with several threads.  StoppingReads: the tests at the top of
      [idle], each a step of its own; when they come out for leaving, no thread was
      counted as running a task at the last of them, but a timer set between them may be
      armed.
    - UnlockedEvents: [del_event] and [cancel_event] in the parts between which, for want of
      their lock, other threads act, and two orders of such parts that go wrong.
    - LogFormatFacts, LoggerFacts: a rendered pattern is parsed to its items; where an
      event goes; what the listener does to loggers and their appenders.
    - ConfigFacts: lookup and loading, whatever the conversions and listeners throw.
    - Casts, LogYamlFacts: what is written is read back, and what is read can be used.
    - ReloadFacts: from a document to the loggers.
    - ThreadFacts, Addresses: the constructor of a thread waits for it, and what becomes of
      both when a call on the semaphore fails; a thread is joined or detached once; the order
      on addresses.
    - LockFacts: scoped locks make critical sections atomic: any interleaving of their
      steps is a sequence of whole sections, and none is stuck for good.
    - EntryPoints: on a thread without the hooks a hooked function is the function of the
      C library.  LogStatements: from a statement in the source to what is written.

    ** Bounds and fuel

    [grow] enlarges the table of contexts by half until it covers the descriptor:
    [grow_fuel], 200 rounds, covers every [int] from the initial size ([room_ok]).
    [log_fuel] is 2, a logger and its root.  [ListAllMember] is given the depth of the
    node.  [call_again], [wait_loop] and [drain_pipe] repeat a call that was
    interrupted, or while the pipe has bytes: nothing in the code bounds them, so
    their theorems name the number of repetitions.  [run] takes a list with one
    environment for each round; the theorems on it show that some number suffices (as
    many as the queue has tasks, or, in SystemEnds, as the measure allows).
    [round] of Workers.v needs eleven steps, the longest way round the loop.
    ** Not modelled

    Stacks and registers: a context is the place control was saved at.  The write and the
    read of the IO manager's pipe go through the hooked functions, which pass them on to
    the kernel since the pipe has no descriptor context; they are one call of the
    kernel here.  The locks of the IO manager: outside UnlockedEvents.v
    and StoppingReads.v its operations are taken one at a time, and clients (Systems.v) run
    on one thread of the manager.  Clients that call [del_event], [Yield_to_Hold],
    [schedule] with a fiber, or [cancel], [reset] and [refresh] of timers themselves: the
    operations are modelled, their effect on a whole process is not followed.
    In the pool of threads what a body does between two switches is one step, memory is
    sequentially consistent, and the tests of a fiber's state in one chain of conditions
    read it once.
    The diagnostics the code prints or logs about itself.  [dlsym], yaml-cpp, boost, epoll
    and pthreads are parameters.  [Address::toString] has no body, and the IP address
    classes are only declared.  The programs under tests/ are examples without
    assertions.

    ** To come

    The clients of Systems.v on several threads: the operations of the IO manager
    interleaved as the scheduler's threads are, with the locks they take; and clients that
    hold handles of timers and of fibers. *)
From stdpp Require Import base gmap list strings sorting.
From Stdlib Require Import ZArith Lia.

Declare Scope sylar_scope.
Delimit Scope sylar_scope with sylar.

(** ** Machine integers

    [uint64_t], [uint32_t] and [int] values are [Z]; every place where the code
    can wrap around writes the wrap with one of these. *)
Definition u64 (z : Z) : Z := (z mod 2 ^ 64)%Z.
Definition u32 (z : Z) : Z := (z mod 2 ^ 32)%Z.
Definition i32 (z : Z) : Z := ((z + 2 ^ 31) mod 2 ^ 32 - 2 ^ 31)%Z.
Definition i64 (z : Z) : Z := ((z + 2 ^ 63) mod 2 ^ 64 - 2 ^ 63)%Z.

(** [~0ull] and [(uint64_t) -1]. *)
Definition UINT64_MAX : Z := (2 ^ 64 - 1)%Z.

Definition is_u64 (z : Z) : Prop := (0 <= z < 2 ^ 64)%Z.
Definition is_i32 (z : Z) : Prop := (- 2 ^ 31 <= z < 2 ^ 31)%Z.

Lemma u64_range z : is_u64 (u64 z).
Proof. apply Z.mod_pos_bound. lia. Qed.

Lemma u64_id z : is_u64 z → u64 z = z.
Proof. apply Z.mod_small. Qed.

Lemma u64_neg z : (- 2 ^ 64 <= z < 0)%Z → u64 z = (z + 2 ^ 64)%Z.
Proof.
  intros Hz. unfold u64.
  rewrite <- (Z.mod_add z 1) by lia. rewrite Z.mul_1_l.
  apply Z.mod_small. lia.
Qed.

Lemma i64_of_u64_max : i64 UINT64_MAX = (-1)%Z.
Proof. reflexivity. Qed.

(** ** Outcomes and the state monad

    The code stops abnormally in the ways listed here: a failed
    [SYLAR_ASSERT] (macro.h, calls [assert]), a null or dangling pointer
    dereferenced, [*end()], an index past a vector, and an uncaught exception.
    [StillRunning] is not a stop: the inputs given to the model (clock readings,
    epoll results, loop rounds) ran out before the code returned. *)
Inductive fault :=
  | AssertFailed (what : string)
  | NullDeref (what : string)
  | EndDeref (what : string)
  | OutOfRange (what : string)
  | Uncaught (what : string)
  | StillRunning.

Inductive outcome (A : Type) :=
  | Ok (a : A)
  | Fault (f : fault).
Arguments Ok {A} a.
Arguments Fault {A} f.

Arguments AssertFailed what%_string.
Arguments NullDeref what%_string.
Arguments EndDeref what%_string.
Arguments OutOfRange what%_string.
Arguments Uncaught what%_string.

(** An operation on a state [S] that returns an [A] or stops with a fault. *)
Definition M (S A : Type) : Type := S → outcome (A * S).

Section monad.
Context {S : Type}.

Definition ret {A} (a : A) : M S A := λ s, Ok (a, s).
Definition bind {A B} (m : M S A) (f : A → M S B) : M S B :=
  λ s, match m s with
       | Ok (a, s') => f a s'
       | Fault e => Fault e
       end.
Definition fail {A} (e : fault) : M S A := λ _, Fault e.
Definition gets {A} (f : S → A) : M S A := λ s, Ok (f s, s).
Definition modify (f : S → S) : M S unit := λ s, Ok (tt, f s).
(** [SYLAR_ASSERT(b)] *)
Definition assert_ (b : bool) (what : string) : M S unit :=
  λ s, if b then Ok (tt, s) else Fault (AssertFailed what).
(** [*p] for a pointer that may be null. *)
Definition deref {A} (o : option A) (what : string) : M S A :=
  λ s, match o with
       | Some a => Ok (a, s)
       | None => Fault (NullDeref what)
       end.
Definition when (b : bool) (m : M S unit) : M S unit :=
  if b then m else ret tt.
End monad.
Arguments assert_ {S} b what%_string.
Arguments deref {S A} o what%_string.

Notation "'let*' x := m 'in' k" := (bind m (λ x, k))
  (at level 10, x pattern, m at level 100, k at level 200) : sylar_scope.
Notation "m ;;; k" := (bind m (λ _, k))
  (at level 100, k at level 200, right associativity) : sylar_scope.
#[global] Open Scope sylar_scope.

(** Inversion of a computation that returned, and its converse. *)
Section monad_laws.
Context {S : Type}.

Lemma bind_ok {A B} (m : M S A) (f : A → M S B) s b s2 :
  bind m f s = Ok (b, s2) ↔
  ∃ a s1, m s = Ok (a, s1) ∧ f a s1 = Ok (b, s2).
Proof.
  unfold bind. destruct (m s) as [[a s1]|e] eqn:E; split.
  - intros H. by exists a, s1.
  - intros (a' & s1' & H1 & H2). by inversion H1; subst.
  - done.
  - by intros (? & ? & ? & ?).
Qed.

Lemma bind_step {A B} (m : M S A) (f : A → M S B) s a s1 :
  m s = Ok (a, s1) → bind m f s = f a s1.
Proof. unfold bind. by intros ->. Qed.

Lemma bind_assoc {A B C} (m : M S A) (f : A → M S B) (g : B → M S C) s :
  bind (bind m f) g s = bind m (λ a, bind (f a) g) s.
Proof. unfold bind. by destruct (m s) as [[]|]. Qed.

Lemma bind_cong {A B} (m : M S A) (f g : A → M S B) s :
  (∀ a s1, m s = Ok (a, s1) → f a s1 = g a s1) → bind m f s = bind m g s.
Proof. intros H. unfold bind. destruct (m s) as [[a s1]|] eqn:E; [by apply H|done]. Qed.

Lemma bind_ret {A B} (a : A) (f : A → M S B) s : bind (ret a) f s = f a s.
Proof. done. Qed.

Lemma ret_ok {A} (a b : A) (s s' : S) :
  ret a s = Ok (b, s') ↔ b = a ∧ s' = s.
Proof. unfold ret. split; [by inversion 1 | by intros [-> ->]]. Qed.

Lemma gets_ok {A} (f : S → A) b s s' :
  gets f s = Ok (b, s') ↔ b = f s ∧ s' = s.
Proof. unfold gets. split; [by inversion 1 | by intros [-> ->]]. Qed.

Lemma modify_ok (f : S → S) u s s' :
  modify f s = Ok (u, s') ↔ s' = f s.
Proof. unfold modify. destruct u. split; [by inversion 1 | by intros ->]. Qed.

Lemma assert_ok b w u (s s' : S) :
  assert_ b w s = Ok (u, s') ↔ b = true ∧ s' = s.
Proof.
  unfold assert_. destruct u, b; split; try done.
  - by inversion 1.
  - by intros [_ ->].
  - by intros [? _].
Qed.

Lemma deref_ok {A} (o : option A) w a (s s' : S) :
  deref o w s = Ok (a, s') ↔ o = Some a ∧ s' = s.
Proof.
  unfold deref. destruct o; split; try done.
  - by inversion 1.
  - by intros [[= ->] ->].
  - by intros [? _].
Qed.

Lemma fail_ok {A} e (a : A) (s s' : S) : fail e s = Ok (a, s') ↔ False.
Proof. done. Qed.
End monad_laws.

(** A computation that does not fault from [s]. *)
Definition safe {S A} (m : M S A) (s : S) : Prop := ∃ a s', m s = Ok (a, s').

Section safe.
Context {S : Type}.

Lemma safe_bind {A B} (m : M S A) (f : A → M S B) s :
  safe m s → (∀ a s', m s = Ok (a, s') → safe (f a) s') → safe (bind m f) s.
Proof.
  intros (a & s1 & H) Hf. destruct (Hf a s1 H) as (b & s2 & H2).
  exists b, s2. apply bind_ok. eauto.
Qed.
Lemma safe_ret {A} (a : A) (s : S) : safe (ret a) s.
Proof. by exists a, s. Qed.
Lemma safe_gets {A} (f : S → A) s : safe (gets f) s.
Proof. by exists (f s), s. Qed.
Lemma safe_modify (f : S → S) s : safe (modify f) s.
Proof. by exists tt, (f s). Qed.
Lemma safe_assert b w (s : S) : b = true → safe (assert_ b w) s.
Proof. intros ->. by exists tt, s. Qed.
Lemma safe_deref {A} (o : option A) w (s : S) : is_Some o → safe (deref o w) s.
Proof. intros [a ->]. by exists a, s. Qed.
Lemma safe_when b (m : M S unit) s : (b = true → safe m s) → safe (when b m) s.
Proof. destruct b; simpl; [auto|]. intros _. apply safe_ret. Qed.
End safe.

(** ** Sums over maps *)
Section sums.
Context {A : Type} (g : A → nat).
Implicit Types (h : gmap Z A).

Definition size_of (o : option A) : nat := match o with Some x => g x | None => 0 end.
Definition map_sum h : nat := map_fold (λ _ x n, g x + n)%nat 0%nat h.

Lemma map_sum_insert h l x : h !! l = None → map_sum (<[l := x]> h) = (g x + map_sum h)%nat.
Proof. intros Hl. unfold map_sum. rewrite map_fold_insert_L; [done| |done]. intros. lia. Qed.
Lemma map_sum_split h l : map_sum h = (size_of (h !! l) + map_sum (base.delete l h))%nat.
Proof.
  destruct (h !! l) as [x|] eqn:E; simpl; [|by rewrite delete_id].
  rewrite <- (map_sum_insert (base.delete l h) l x) by apply lookup_delete_eq. by rewrite insert_delete_id.
Qed.
Lemma map_sum_ext h : ∀ h', (∀ l, size_of (h' !! l) = size_of (h !! l)) → map_sum h' = map_sum h.
Proof.
  induction h as [|l x h Hl IH] using map_ind; intros h' H.
  - induction h' as [|l x h' Hl IH] using map_ind; [done|]. rewrite map_sum_insert by done.
    pose proof (H l) as Hx. rewrite lookup_insert_eq, lookup_empty in Hx. simpl in Hx. rewrite IH; [lia|].
    intros l'. destruct (decide (l' = l)) as [->|Hne]; [by rewrite Hl|].
    specialize (H l'). by rewrite lookup_insert_ne in H.
  - rewrite map_sum_insert by done. rewrite (map_sum_split h' l), (H l), lookup_insert_eq. simpl. f_equal.
    apply IH. intros l'. destruct (decide (l' = l)) as [->|Hne]; [by rewrite lookup_delete_eq, Hl|].
    rewrite lookup_delete_ne, H by done. by rewrite lookup_insert_ne.
Qed.
(** Two maps that differ at one key. *)
Lemma map_sum_one h h' l : (∀ l', l' ≠ l → size_of (h' !! l') = size_of (h !! l')) →
  (map_sum h' + size_of (h !! l) = map_sum h + size_of (h' !! l))%nat.
Proof.
  intros H. rewrite (map_sum_split h' l), (map_sum_split h l), (map_sum_ext (base.delete l h) (base.delete l h')); [lia|].
  intros l'. destruct (decide (l' = l)) as [->|Hne]; [by rewrite !lookup_delete_eq|]. rewrite !lookup_delete_ne by done. by apply H.
Qed.
End sums.
Lemma map_sum_same {A} (g g' : A → nat) (h : gmap Z A) :
  (∀ l x, h !! l = Some x → g' x = g x) → map_sum g' h = map_sum g h.
Proof.
  induction h as [|l x h Hl IH] using map_ind; [done|]. intros H. rewrite !map_sum_insert by done. f_equal.
  - apply (H l). by rewrite lookup_insert_eq.
  - apply IH. intros l' x' Hx'. apply (H l'). rewrite lookup_insert_ne; [done|]. intros ->. by rewrite Hl in Hx'.
Qed.

(** [inv_ok H] takes a computation [m s = Ok (a, s')] apart into its steps;
    [inv_ok] does so for every such hypothesis. *)
Ltac inv_ok_step H :=
  first
    [ apply bind_ok in H; destruct H as (? & ? & ? & H)
    | apply ret_ok in H; destruct H as [? ?]
    | apply gets_ok in H; destruct H as [? ?]
    | apply modify_ok in H
    | apply assert_ok in H; destruct H as [? ?]
    | apply deref_ok in H; destruct H as [? ?]
    | apply fail_ok in H; destruct H ].
Ltac inv_ok :=
  repeat match goal with
    | H : bind _ _ _ = Ok _ |- _ =>
        apply bind_ok in H;
        let H1 := fresh "Hm" in let H2 := fresh "Hk" in
        destruct H as (? & ? & H1 & H2)
    | H : ret _ _ = Ok _ |- _ => apply ret_ok in H; destruct H as [? ?]
    | H : gets _ _ = Ok _ |- _ => apply gets_ok in H; destruct H as [? ?]
    | H : modify _ _ = Ok _ |- _ => apply modify_ok in H
    | H : assert_ _ _ _ = Ok _ |- _ => apply assert_ok in H; destruct H as [? ?]
    | H : deref _ _ _ = Ok _ |- _ => apply deref_ok in H; destruct H as [? ?]
    | H : fail _ _ = Ok _ |- _ => apply fail_ok in H; destruct H
    | H : Fault _ = Ok _ |- _ => discriminate H
    | H : Ok _ = Ok _ |- _ => injection H as H; subst
    | H : (?a, ?b) = (?c, ?d) |- _ => injection H as H; subst
    end; subst.

(** [step_ok] runs the first operation of a [bind] whose result is known. *)
Ltac step_ok :=
  match goal with
  | |- bind _ _ _ = _ => erewrite bind_step; [ | eassumption || reflexivity ]
  end.

(** [align] compares two computations that begin with the same operations. *)
Ltac align := repeat first [rewrite bind_assoc | rewrite bind_ret | apply bind_cong; intros].

(** The same under an existential quantifier. *)
Ltac step_in := erewrite bind_step; [ | first [eassumption | reflexivity] ].

Create HintDb sylar.
Create Rewrite HintDb sylar.
#[export] Hint Resolve u64_range safe_ret safe_gets safe_modify safe_assert : sylar.
#[export] Hint Rewrite @bind_ok @ret_ok @gets_ok @modify_ok @assert_ok @deref_ok : sylar.

(** ** Lists *)
Lemma take_drop_delete {A} (l : list A) i :
  base.delete i l = take i l ++ drop (S i) l.
Proof. apply delete_take_drop. Qed.

Lemma elem_of_delete_NoDup {A} (l : list A) i x y :
  NoDup l → l !! i = Some x → (y ∈ base.delete i l ↔ y ∈ l ∧ y ≠ x).
Proof.
  intros Hnd Hi. rewrite delete_take_drop.
  rewrite <- (take_drop_middle l i x Hi) in Hnd. rewrite <- (take_drop_middle l i x Hi) at 3.
  apply NoDup_app in Hnd as (Hn1 & Hd & Hn2). apply NoDup_cons in Hn2 as [Hx Hn2].
  rewrite !elem_of_app, elem_of_cons. split.
  - intros [Hy|Hy]; split; auto.
    + intros ->. apply (Hd x Hy). by left.
    + congruence.
  - intros [[Hy|[->|Hy]] Hne]; auto; congruence.
Qed.

Lemma Permutation_delete {A} (l : list A) i x :
  l !! i = Some x → l ≡ₚ x :: base.delete i l.
Proof.
  intros Hi. rewrite delete_take_drop, Permutation_middle.
  by rewrite take_drop_middle.
Qed.

(** Least element of a list. *)
Fixpoint min_list (l : list Z) : option Z :=
  match l with
  | [] => None
  | x :: l' => Some (match min_list l' with Some m => Z.min x m | None => x end)
  end.

Lemma min_list_Some l m :
  min_list l = Some m ↔ m ∈ l ∧ ∀ x, x ∈ l → (m <= x)%Z.
Proof.
  revert m. induction l as [|x l IH]; intros m; simpl.
  { split; [done|]. intros [H _]. by apply not_elem_of_nil in H. }
  destruct (min_list l) as [k|] eqn:E.
  - destruct (proj1 (IH k) eq_refl) as [Hk Hle]. split.
    + intros [= <-]. split.
      * destruct (Z.min_spec x k) as [[_ ->]|[_ ->]]; [by left|by right].
      * intros y Hy. apply elem_of_cons in Hy as [->|Hy]; [lia|]. specialize (Hle y Hy). lia.
    + intros [Hm Hmin]. f_equal.
      assert (m <= x)%Z by (apply Hmin; by left). assert (m <= k)%Z by (apply Hmin; by right).
      apply elem_of_cons in Hm as [->|Hm]; [lia|]. specialize (Hle m Hm). lia.
  - assert (l = []) as -> by (destruct l; [done|]; discriminate E). split.
    + intros [= <-]. split; [by left|]. intros y Hy. apply list_elem_of_singleton in Hy. lia.
    + intros [Hm _]. apply list_elem_of_singleton in Hm. by subst.
Qed.

Lemma min_list_None l : min_list l = None ↔ l = [].
Proof. by destruct l. Qed.
