(* ===== verification/StdSet.v ===== *)
(** * [std::set] with a user-supplied comparator

    [TimerManager::m_timers] (timer.h) and the set of logger definitions
    (log.cc) are [std::set]s.  A set is the list of its keys in iteration order;
    [find], [insert], [lower_bound] and [upper_bound] locate a key with the
    comparator only, the way the standard specifies them, so a comparator whose
    answers change while a key is inside makes them go wrong here as well. *)
From stdpp Require Import base list sorting.
From Stdlib Require Import Lia.
From S2P Require Import Prelude.

Module StdSet.

(** What the standard requires of the comparator. *)
Class StrictWeakOrder {A : Type} (ltb : A → A → bool) := {
  swo_irrefl : ∀ x, ltb x x = false;
  swo_trans : ∀ x y z, ltb x y = true → ltb y z = true → ltb x z = true;
  swo_cotrans : ∀ x y z, ltb x z = true → ltb x y = true ∨ ltb y z = true;
}.

Section ops.
Context {A : Type} (ltb : A → A → bool).

(** First position whose key is not less than [x]. *)
Fixpoint lower_bound (x : A) (l : list A) : nat :=
  match l with
  | [] => 0
  | e :: l' => if ltb e x then S (lower_bound x l') else 0
  end.

(** First position whose key is greater than [x]. *)
Fixpoint upper_bound (x : A) (l : list A) : nat :=
  match l with
  | [] => 0
  | e :: l' => if ltb x e then 0 else S (upper_bound x l')
  end.

Definition find (x : A) (l : list A) : option nat :=
  let i := lower_bound x l in
  match l !! i with
  | Some e => if ltb x e then None else Some i
  | None => None
  end.

(** [insert(x)]: the set and the position of [.first]; an equivalent key that
    is already there is kept. *)
Definition insert (x : A) (l : list A) : list A * nat :=
  let i := lower_bound x l in
  match l !! i with
  | Some e => if ltb x e then (take i l ++ x :: drop i l, i) else (l, i)
  | None => (take i l ++ [x], i)
  end.

Definition sorted (l : list A) : Prop := StronglySorted (λ x y, ltb x y = true) l.
End ops.

Section laws.
Context {A : Type} (ltb : A → A → bool) `{!StrictWeakOrder ltb}.
Implicit Types (x e : A) (l : list A).

Lemma swo_asym x y : ltb x y = true → ltb y x = false.
Proof.
  intros H. destruct (ltb y x) eqn:E; [|done].
  pose proof (swo_trans _ _ _ H E) as Hc. by rewrite swo_irrefl in Hc.
Qed.

Lemma lower_bound_take x l : Forall (λ e, ltb e x = true) (take (lower_bound ltb x l) l).
Proof. induction l as [|e l IH]; simpl; [constructor|]. by destruct (ltb e x) eqn:E; constructor. Qed.

Lemma upper_bound_take x l : Forall (λ e, ltb x e = false) (take (upper_bound ltb x l) l).
Proof. induction l as [|e l IH]; simpl; [constructor|]. by destruct (ltb x e) eqn:E; constructor. Qed.

Lemma upper_bound_all x l :
  Forall (λ e, ltb x e = false) l → upper_bound ltb x l = length l.
Proof. induction 1 as [|e l He _ IH]; simpl; [done|]. by rewrite He, IH. Qed.

Lemma upper_bound_drop x l :
  sorted ltb l → Forall (λ e, ltb x e = true) (drop (upper_bound ltb x l) l).
Proof.
  induction 1 as [|e l Hs IH He]; simpl; [constructor|].
  destruct (ltb x e) eqn:E; [|done]. constructor; [done|].
  eapply Forall_impl; [exact He|]. intros y Hy. by eapply swo_trans.
Qed.

Lemma lower_bound_drop x l :
  sorted ltb l → Forall (λ e, ltb e x = false) (drop (lower_bound ltb x l) l).
Proof.
  induction 1 as [|e l Hs IH He]; simpl; [constructor|].
  destruct (ltb e x) eqn:E; [done|]. constructor; [done|].
  eapply Forall_impl; [exact He|]. intros y Hy.
  destruct (ltb y x) eqn:E2; [|done]. by rewrite (swo_trans _ _ _ Hy E2) in E.
Qed.

(** A sorted set holds each key once. *)
Lemma sorted_NoDup l : sorted ltb l → NoDup l.
Proof.
  induction 1 as [|e l Hs IH He]; constructor; [|done].
  intros Hin. rewrite Forall_forall in He. specialize (He _ Hin). by rewrite swo_irrefl in He.
Qed.

Lemma sorted_app l1 l2 :
  sorted ltb (l1 ++ l2) ↔
  sorted ltb l1 ∧ sorted ltb l2 ∧ ∀ x y, x ∈ l1 → y ∈ l2 → ltb x y = true.
Proof.
  unfold sorted. induction l1 as [|a l1 IH]; simpl.
  { split; [|by intros (?&?&?)]. intros Hs. split_and!; [constructor|done|].
    intros x y Hin. by apply not_elem_of_nil in Hin. }
  split.
  - intros H. inversion H as [|?? H1 H2]; subst. apply IH in H1 as (?&?&Hx).
    apply Forall_app in H2 as [H2 H3]. split_and!; [by constructor|done|].
    intros x y Hin Hy. apply elem_of_cons in Hin as [->|Hin]; [|auto].
    rewrite Forall_forall in H3. auto.
  - intros (H1&H2&Hx). inversion H1 as [|?? H3 H4]; subst. constructor.
    + apply IH. split_and!; [done|done|]. intros. apply Hx; [by right|done].
    + apply Forall_app. split; [done|]. apply Forall_forall. intros. apply Hx; [by left|done].
Qed.

Lemma sorted_take_drop i l : sorted ltb l → sorted ltb (take i l) ∧ sorted ltb (drop i l).
Proof. intros H. rewrite <- (take_drop i l) in H. by apply sorted_app in H as (?&?&_). Qed.

Lemma sorted_delete i l : sorted ltb l → sorted ltb (base.delete i l).
Proof.
  intros H. rewrite delete_take_drop. destruct (l !! i) as [e|] eqn:E.
  - rewrite <- (take_drop_middle l i e E) in H. apply sorted_app in H as (H1&H2&H3).
    inversion H2; subst. apply sorted_app. split_and!; [done|done|].
    intros x y Hx Hy. apply H3; [done|by right].
  - apply lookup_ge_None in E. rewrite (drop_ge l (S i)) by lia. by rewrite app_nil_r, take_ge.
Qed.

(** A key of the set is found, at a position that holds an equivalent key; when
    the comparator separates distinct keys, at its own position. *)
Lemma lower_bound_elem x l :
  sorted ltb l → x ∈ l →
  (∀ y, y ∈ l → ltb x y = false → ltb y x = false → y = x) →
  l !! lower_bound ltb x l = Some x.
Proof.
  induction 1 as [|e l Hs IH He]; intros Hin Htot; [by inversion Hin|]. simpl.
  destruct (ltb e x) eqn:E; simpl.
  - apply elem_of_cons in Hin as [->|Hin]; [by rewrite swo_irrefl in E|].
    apply IH; [done|]. intros y Hy. apply Htot. by right.
  - apply elem_of_cons in Hin as [->|Hin]; [done|].
    rewrite Forall_forall in He. rewrite (He _ Hin) in E. done.
Qed.

Lemma find_elem x l :
  sorted ltb l → x ∈ l →
  (∀ y, y ∈ l → ltb x y = false → ltb y x = false → y = x) →
  find ltb x l = Some (lower_bound ltb x l) ∧ l !! lower_bound ltb x l = Some x.
Proof.
  intros Hs Hin Htot. pose proof (lower_bound_elem x l Hs Hin Htot) as Hl.
  unfold find. by rewrite Hl, swo_irrefl.
Qed.

Lemma find_Some x l i :
  sorted ltb l → find ltb x l = Some i →
  i = lower_bound ltb x l ∧ ∃ e, l !! i = Some e ∧ ltb x e = false ∧ ltb e x = false.
Proof.
  intros Hs. unfold find. destruct (l !! lower_bound ltb x l) as [e|] eqn:E; [|done].
  destruct (ltb x e) eqn:E2; [done|]. intros [= <-]. split; [done|]. exists e. split_and!; auto.
  pose proof (lower_bound_drop x l Hs) as Hd.
  rewrite (drop_S _ _ _ E) in Hd. by inversion Hd.
Qed.

(** Inserting a key that has no equivalent puts it at its sorted place. *)
Lemma insert_new x l :
  sorted ltb l →
  (∀ y, y ∈ l → ltb x y = true ∨ ltb y x = true) →
  insert ltb x l =
    (take (lower_bound ltb x l) l ++ x :: drop (lower_bound ltb x l) l, lower_bound ltb x l).
Proof.
  intros Hs Hne. unfold insert. set (i := lower_bound ltb x l).
  destruct (l !! i) as [e|] eqn:E.
  - destruct (ltb x e) eqn:E2; [done|]. exfalso.
    pose proof (lower_bound_drop x l Hs) as Hd. fold i in Hd. rewrite (drop_S _ _ _ E) in Hd.
    inversion Hd as [|?? Hd1 _]; subst.
    destruct (Hne e (list_elem_of_lookup_2 _ _ _ E)); congruence.
  - apply lookup_ge_None in E. by rewrite (drop_ge l i).
Qed.

Lemma insert_sorted x l :
  sorted ltb l →
  (∀ y, y ∈ l → ltb x y = true ∨ ltb y x = true) →
  sorted ltb (insert ltb x l).1.
Proof.
  intros Hs Hne. rewrite insert_new by done. simpl. set (i := lower_bound ltb x l).
  pose proof (lower_bound_take x l) as Ht. fold i in Ht.
  pose proof (lower_bound_drop x l Hs) as Hd. fold i in Hd.
  destruct (sorted_take_drop i l Hs) as [Hs1 Hs2].
  rewrite Forall_forall in Ht. rewrite Forall_forall in Hd.
  assert (Hgt : ∀ y, y ∈ drop i l → ltb x y = true).
  { intros y Hy. destruct (Hne y) as [|H']; [|done|].
    - rewrite <- (take_drop i l). apply elem_of_app. by right.
    - rewrite Hd in H'; done. }
  apply sorted_app. split_and!; [done| |].
  - constructor; [done|]. by apply Forall_forall.
  - intros a b Ha Hb. apply elem_of_cons in Hb as [->|Hb]; [auto|].
    eapply swo_trans; [by apply Ht|]. auto.
Qed.

Lemma insert_perm x l :
  sorted ltb l →
  (∀ y, y ∈ l → ltb x y = true ∨ ltb y x = true) →
  (insert ltb x l).1 ≡ₚ x :: l.
Proof.
  intros Hs Hne. rewrite insert_new by done. simpl.
  by rewrite <- Permutation_middle, take_drop.
Qed.

Lemma insert_elem x y l : y ∈ (insert ltb x l).1 → y = x ∨ y ∈ l.
Proof.
  unfold insert. set (i := lower_bound ltb x l).
  assert (Hdrop : ∀ e, e ∈ take i l ∨ e ∈ drop i l → e ∈ l).
  { intros e He. rewrite <- (take_drop i l). by apply elem_of_app. }
  destruct (l !! i) as [e|]; [destruct (ltb x e)|]; simpl; [..|by right|];
    rewrite elem_of_app, ?elem_of_cons, ?elem_of_nil; naive_solver.
Qed.

(** Whatever is inserted, the set stays sorted. *)
Lemma insert_any_sorted x l : sorted ltb l → sorted ltb (insert ltb x l).1.
Proof.
  intros Hs. pose proof (lower_bound_take x l) as Ht. set (i := lower_bound ltb x l) in *.
  assert (Hcase : (insert ltb x l).1 = l ∨ ∀ y, y ∈ drop i l → ltb x y = true).
  { unfold insert. fold i. destruct (l !! i) as [e|] eqn:E.
    - destruct (ltb x e) eqn:E2; [|by left]. right. rewrite (drop_S _ _ _ E). intros y Hy.
      apply elem_of_cons in Hy as [->|Hy]; [done|].
      pose proof (proj2 (sorted_take_drop i l Hs)) as Hd. rewrite (drop_S _ _ _ E) in Hd.
      inversion Hd as [|?? _ Hlt]; subst. rewrite Forall_forall in Hlt. eapply swo_trans; eauto.
    - right. apply lookup_ge_None in E. rewrite drop_ge by done. intros y Hy. by apply not_elem_of_nil in Hy. }
  destruct Hcase as [->|Hd]; [done|]. apply insert_sorted; [done|].
  intros y Hy. rewrite <- (take_drop i l) in Hy. apply elem_of_app in Hy as [Hy|Hy]; [right|left; auto].
  rewrite Forall_forall in Ht. auto.
Qed.

Lemma lower_bound_all x l : (∀ y, y ∈ l → ltb y x = true) → lower_bound ltb x l = length l.
Proof.
  induction l as [|e l IH]; intros H; simpl; [done|]. rewrite (H e) by left. f_equal. apply IH. intros y Hy.
  apply H. by right.
Qed.
Lemma insert_last x l : (∀ y, y ∈ l → ltb y x = true) → (insert ltb x l).1 = l ++ [x].
Proof.
  intros H. unfold insert. rewrite (lower_bound_all x l H).
  rewrite lookup_ge_None_2 by lia. simpl. by rewrite firstn_all.
Qed.

(** [.first == begin()] exactly when every other key is greater. *)
Lemma insert_front x l :
  sorted ltb l →
  (∀ y, y ∈ l → ltb x y = true ∨ ltb y x = true) →
  (insert ltb x l).2 = 0 ↔ ∀ y, y ∈ l → ltb x y = true.
Proof.
  intros Hs Hne. rewrite insert_new by done. simpl. split.
  - intros E y Hy. pose proof (lower_bound_drop x l Hs) as Hd. rewrite E in Hd. simpl in Hd.
    rewrite Forall_forall in Hd. destruct (Hne y Hy) as [|Hl]; [done|].
    rewrite Hd in Hl; done.
  - intros H. destruct l as [|e l]; [done|]. simpl.
    by rewrite (swo_asym x e) by (apply H; left).
Qed.
End laws.

(** The comparator may be replaced by one that agrees on the keys present. *)
Lemma sorted_ext {A} (f g : A → A → bool) l :
  (∀ x y, x ∈ l → y ∈ l → f x y = g x y) → sorted f l → sorted g l.
Proof.
  intros Heq Hs. induction Hs as [|e l Hs IH He]; constructor.
  - apply IH. intros. apply Heq; by right.
  - rewrite Forall_forall in *. intros y Hy. rewrite <- Heq; [auto|by left|by right].
Qed.
End StdSet.
