(* ===== verification/Timers.v ===== *)
(** * Timers (timer.h, timer.cc)

    [Timer] objects live in a store indexed by address, because the code shares
    them through [Timer::ptr] handles, compares them by address, and mutates
    them through handles while [TimerManager::m_timers] holds their pointers.
    [new Timer] takes the address the allocator returns and
    [Get_current_ms()] the clock reading, both as arguments.  The virtual method
    [on_timer_insert_at_front] and the embedding of the manager in its derived
    class are the interface [TimerHost]. *)
From stdpp Require Import base gmap list strings sorting.
From Stdlib Require Import ZArith Lia.
From S2P Require Import Prelude StdSet.
Open Scope Z_scope.

Module Timer.

(** [std::function<void()>] values a timer can hold: a function of the caller,
    or [std::bind(&Cond_cb, weak_cond, cb)]. *)
Inductive closure (Cb : Type) :=
  | Fun (c : Cb)
  | BindCond (weak_cond : Z) (cb : option Cb).
Arguments Fun {Cb} c.
Arguments BindCond {Cb} weak_cond cb.

(** [class Timer]; [m_manager] is the one manager the state holds. *)
Record Timer (Cb : Type) := MkTimer {
  m_recurring : bool;
  m_ms : Z;
  m_next : Z;
  m_cb : option (closure Cb);
}.
Arguments MkTimer {Cb} _ _ _ _.
Arguments m_recurring {Cb} _.
Arguments m_ms {Cb} _.
Arguments m_next {Cb} _.
Arguments m_cb {Cb} _.

Definition set_next {Cb} (z : Z) (t : Timer Cb) : Timer Cb :=
  MkTimer (m_recurring t) (m_ms t) z (m_cb t).
Definition set_ms {Cb} (z : Z) (t : Timer Cb) : Timer Cb :=
  MkTimer (m_recurring t) z (m_next t) (m_cb t).
Definition clear_cb {Cb} (t : Timer Cb) : Timer Cb :=
  MkTimer (m_recurring t) (m_ms t) (m_next t) None.

(** [class TimerManager], with the store of the timers it manages. *)
Record TimerManager (Cb : Type) := MkTimerManager {
  store : gmap Z (Timer Cb);
  m_timers : list Z;
  m_previous_time : Z;
}.
Arguments MkTimerManager {Cb} _ _ _.
Arguments store {Cb} _.
Arguments m_timers {Cb} _.
Arguments m_previous_time {Cb} _.

Definition set_store {Cb} (h : gmap Z (Timer Cb)) (t : TimerManager Cb) : TimerManager Cb :=
  MkTimerManager h (m_timers t) (m_previous_time t).
Definition set_timers {Cb} (ts : list Z) (t : TimerManager Cb) : TimerManager Cb :=
  MkTimerManager (store t) ts (m_previous_time t).
Definition set_previous_time {Cb} (z : Z) (t : TimerManager Cb) : TimerManager Cb :=
  MkTimerManager (store t) (m_timers t) z.

(** What a class that derives from [TimerManager] provides. *)
Class TimerHost (Cb S : Type) := {
  manager : S → TimerManager Cb;
  set_manager : TimerManager Cb → S → S;
  on_timer_insert_at_front : M S unit;
}.

(** The embedding is a field of the derived object, and the virtual method does
    not touch the timers. *)
Class TimerHostLaws (Cb S : Type) `{!TimerHost Cb S} := {
  manager_set : ∀ t s, manager (set_manager t s) = t;
  manager_front : ∀ s u s', on_timer_insert_at_front s = Ok (u, s') → manager s' = manager s;
}.

Section comparator.
Context {Cb : Type}.

(** [next->m_next]; a [Timer::ptr] keeps its object alive. *)
Definition next_of (h : gmap Z (Timer Cb)) (l : Z) : Z :=
  match h !! l with Some t => m_next t | None => 0 end.

(** [Timer::Comparator::operator()] on handles that may be null. *)
Definition Comparator (h : gmap Z (Timer Cb)) (lhs rhs : option Z) : bool :=
  match lhs, rhs with
  | None, None => false
  | None, Some _ => true
  | Some _, None => false
  | Some l, Some r =>
      if next_of h l <? next_of h r then true
      else if next_of h l >? next_of h r then false
      else l <? r
  end.

(** The order of [m_timers], whose keys are never null. *)
Definition before (h : gmap Z (Timer Cb)) (l r : Z) : bool :=
  Comparator h (Some l) (Some r).
End comparator.

Section operations.
Context {Cb S : Type} `{!TimerHost Cb S}.
Local Abbreviation TM := (TimerManager Cb).

Definition get_tm {A} (f : TM → A) : M S A := gets (λ s, f (manager s)).
Definition modify_tm (f : TM → TM) : M S unit :=
  modify (λ s, set_manager (f (manager s)) s).
(** [p->field] for a timer handle. *)
Definition timer_at (l : Z) : M S (Timer Cb) :=
  let* h := get_tm store in deref (h !! l) "timer".
Definition update_timer (f : Timer Cb → Timer Cb) (l : Z) : M S unit :=
  modify_tm (λ t, set_store (alter f l (store t)) t).

(** [Timer::Timer(ms, cb, recurring, manager)] *)
Definition Timer_ctor (now ms : Z) (cb : option (closure Cb)) (recurring : bool) : Timer Cb :=
  MkTimer recurring ms (u64 (now + ms)) cb.

(** [Timer::Timer(next_time)]: a probe for [upper_bound]. *)
Definition Timer_probe (next_time : Z) : Timer Cb := MkTimer false 0 next_time None.

(** [TimerManager::add_timer(Timer::ptr, WriteLock&)] *)
Definition add_timer_locked (timer : Z) : M S Z :=
  let* t := get_tm id in
  let '(ts, it) := StdSet.insert (before (store t)) timer (m_timers t) in
  modify_tm (set_timers ts) ;;;
  let at_front := Nat.eqb it 0 in
  when at_front on_timer_insert_at_front ;;;
  ret timer.

(** [TimerManager::add_timer(ms, cb, recurring)]; [a] is the address of the
    new timer. *)
Definition add_timer (a now ms : Z) (cb : option (closure Cb)) (recurring : bool) : M S Z :=
  modify_tm (λ t, set_store (<[a := Timer_ctor now ms cb recurring]> (store t)) t) ;;;
  add_timer_locked a.

(** [Cond_cb]: the function it calls, if the condition is still alive. *)
Definition Cond_cb (lock : Z → bool) (weak_con : Z) (cb : option Cb) : outcome (option Cb) :=
  if lock weak_con then
    match cb with
    | Some c => Ok (Some c)
    | None => Fault (Uncaught "bad_function_call")
    end
  else Ok None.

Definition add_condition_timer (a now ms : Z) (cb : option Cb) (weak_cond : Z)
    (recurring : bool) : M S Z :=
  add_timer a now ms (Some (BindCond weak_cond cb)) recurring.

(** [Timer::cancel] *)
Definition cancel (this : Z) : M S bool :=
  let* t := timer_at this in
  match m_cb t with
  | Some _ =>
      update_timer clear_cb this ;;;
      let* tm := get_tm id in
      match StdSet.find (before (store tm)) this (m_timers tm) with
      | Some it => modify_tm (set_timers (base.delete it (m_timers tm)))
      | None => ret tt
      end ;;;
      ret true
  | None => ret false
  end.

(** [Timer::refresh] *)
Definition refresh (now this : Z) : M S bool :=
  let* t := timer_at this in
  match m_cb t with
  | None => ret false
  | Some _ =>
      let* tm := get_tm id in
      match StdSet.find (before (store tm)) this (m_timers tm) with
      | None => ret false
      | Some it =>
          modify_tm (set_timers (base.delete it (m_timers tm))) ;;;
          update_timer (λ t, set_next (u64 (now + m_ms t)) t) this ;;;
          add_timer_locked this ;;;
          ret true
      end
  end.

(** [Timer::reset] *)
Definition reset (now this ms : Z) (from_now : bool) : M S bool :=
  let* t := timer_at this in
  if (ms =? m_ms t) && negb from_now then ret true
  else
    let* tm := get_tm id in
    match StdSet.find (before (store tm)) this (m_timers tm) with
    | None => ret false
    | Some it =>
        modify_tm (set_timers (base.delete it (m_timers tm))) ;;;
        (if from_now
         then update_timer (λ t, set_next (u64 (now + ms)) t) this
         else update_timer (λ t, set_next (u64 (m_next t - m_ms t + ms)) t) this) ;;;
        update_timer (set_ms ms) this ;;;
        add_timer_locked this ;;;
        ret true
    end.

(** [TimerManager::get_next_timeout] *)
Definition get_next_timeout (now_ms : Z) : M S Z :=
  let* tm := get_tm id in
  match m_timers tm with
  | [] => ret UINT64_MAX
  | next :: _ =>
      let n := next_of (store tm) next in
      if now_ms >=? n then ret 0 else ret (u64 (n - now_ms))
  end.

(** The loop over [expired_timers] in [list_expired_cbs]. *)
Fixpoint push_expired (now_ms : Z) (expired_timers : list Z)
    (cbs : list (option (closure Cb))) : M S (list (option (closure Cb))) :=
  match expired_timers with
  | [] => ret cbs
  | timer :: rest =>
      let* t := timer_at timer in
      (if m_recurring t then
         update_timer (λ t, set_next (u64 (now_ms + m_ms t)) t) timer ;;;
         add_timer_locked timer ;;;
         ret tt
       else update_timer clear_cb timer) ;;;
      push_expired now_ms rest (cbs ++ [m_cb t])
  end.

(** [list_expired_cbs] under its write lock; [probe] is the address of
    [now_timer]. *)
Definition list_expired_write (now_ms probe : Z)
    (cbs : list (option (closure Cb))) : M S (list (option (closure Cb))) :=
  let* tm := get_tm id in
  match m_timers tm with
  | [] => fail (EndDeref "m_timers.begin()")
  | begin :: _ =>
      if next_of (store tm) begin >? now_ms then ret cbs
      else
        let h := <[probe := Timer_probe now_ms]> (store tm) in
        let it := StdSet.upper_bound (before h) probe (m_timers tm) in
        let n := if Nat.eqb it 0 then 1%nat else it in
        modify_tm (set_timers (drop n (m_timers tm))) ;;;
        push_expired now_ms (take n (m_timers tm)) cbs
  end.

(** [TimerManager::list_expired_cbs]: the emptiness test under the read lock,
    then the rest under the write lock. *)
Definition list_expired_empty : M S bool :=
  get_tm (λ t, match m_timers t with [] => true | _ => false end).

Definition list_expired_cbs (now_ms probe : Z)
    (cbs : list (option (closure Cb))) : M S (list (option (closure Cb))) :=
  let* empty := list_expired_empty in
  if empty then ret cbs else list_expired_write now_ms probe cbs.

(** [TimerManager::detect_clock_rollover] *)
Definition detect_clock_rollover (now_ms : Z) : M S bool :=
  let* tm := get_tm id in
  let rollover := (now_ms <? m_previous_time tm)
                  && (now_ms <? u64 (m_previous_time tm - 60 * 60 * 1000)) in
  modify_tm (set_previous_time now_ms) ;;;
  ret rollover.

(** [TimerManager::has_timer] *)
Definition has_timer : M S bool :=
  get_tm (λ t, match m_timers t with [] => false | _ => true end).
End operations.
End Timer.
