(* ===== verification/TimerFacts.v ===== *)
(** * Timers: invariant, abstract specification and refinement

    [wf] is the invariant of [TimerManager]: the set is sorted by the
    comparator, and a timer is in it exactly when it holds a callback.  The
    abstract specification [spec_op] never looks at the set: it relates the
    store of timers before and after an operation and its answer, a timer with
    a callback being due at its [m_next]. *)
From stdpp Require Import base gmap list strings sorting.
From Stdlib Require Import ZArith Lia.
From S2P Require Import Prelude StdSet Timers.
Open Scope Z_scope.

Module TimerFacts.
Import Timer.

Section invariant.
Context {Cb : Type}.
Implicit Types (h : gmap Z (Timer Cb)) (t : TimerManager Cb) (x : Timer Cb).

(** The timer at [l] holds a callback. *)
Definition armed h (l : Z) : Prop := ∃ x : Timer Cb, h !! l = Some x ∧ m_cb x ≠ None.

#[global] Instance armed_dec h l : Decision (armed h l).
Proof.
  unfold armed. destruct (h !! l) as [x|]; [|by right; intros (?&?&?)].
  destruct (m_cb x) eqn:E; [left | right].
  - exists x. by rewrite E.
  - intros (?&[= <-]&?). done.
Defined.

Record wf t : Prop := {
  wf_sorted : StdSet.sorted (before (store t)) (m_timers t);
  wf_armed : ∀ l, l ∈ m_timers t ↔ armed (store t) l;
}.

Lemma before_true h l r :
  before h l r = true ↔ next_of h l < next_of h r ∨ (next_of h l = next_of h r ∧ l < r).
Proof.
  unfold before, Comparator.
  destruct (Z.ltb_spec (next_of h l) (next_of h r)); [by split; [lia|]|].
  destruct (Z.gtb_spec (next_of h l) (next_of h r)); [by split; [|lia]|].
  rewrite Z.ltb_lt. lia.
Qed.

Lemma before_false h l r :
  before h l r = false ↔ next_of h r < next_of h l ∨ (next_of h l = next_of h r ∧ r <= l).
Proof. rewrite <- not_true_iff_false, before_true. lia. Qed.

#[global] Instance before_swo h : StdSet.StrictWeakOrder (before h).
Proof.
  split.
  - intros x. apply before_false. lia.
  - intros x y z. rewrite !before_true. lia.
  - intros x y z. rewrite !before_true. lia.
Qed.

Lemma before_total h l r : l ≠ r → before h l r = true ∨ before h r l = true.
Proof. rewrite !before_true. lia. Qed.

Lemma before_eq h l r : before h l r = false → before h r l = false → r = l.
Proof. rewrite !before_false. lia. Qed.

(** Only the keys' own [m_next] matter to the order. *)
Lemma sorted_store h h' (ts : list Z) :
  (∀ l, l ∈ ts → next_of h l = next_of h' l) →
  StdSet.sorted (before h) ts → StdSet.sorted (before h') ts.
Proof.
  intros Heq. apply StdSet.sorted_ext. intros x y Hx Hy.
  unfold before, Comparator. by rewrite (Heq x Hx), (Heq y Hy).
Qed.

Lemma next_of_alter_ne h f l l' : l ≠ l' → next_of (alter f l h) l' = next_of h l'.
Proof. intros. unfold next_of. by rewrite lookup_alter_ne. Qed.

Lemma armed_alter_ne h f l l' : l ≠ l' → armed (alter f l h) l' ↔ armed h l'.
Proof. intros. unfold armed. by rewrite lookup_alter_ne. Qed.

Lemma armed_clear h l : ¬ armed (alter clear_cb l h) l.
Proof.
  intros (x & Hx & Hc). rewrite lookup_alter_eq in Hx.
  destruct (h !! l); by simplify_eq/=.
Qed.

Lemma armed_keep h f l :
  (∀ x, m_cb (f x) = m_cb x) → armed (alter f l h) l ↔ armed h l.
Proof.
  intros Hf. unfold armed. rewrite lookup_alter_eq. destruct (h !! l) as [x|]; simpl; [|naive_solver].
  split; intros (? & [= <-] & Hc); eexists; (split; [done|]); congruence.
Qed.

(** In a well-formed manager [find] answers membership, and the position it
    returns is the one that holds the handle. *)
Lemma wf_find t l :
  wf t → armed (store t) l →
  ∃ i, StdSet.find (before (store t)) l (m_timers t) = Some i ∧ m_timers t !! i = Some l.
Proof.
  intros Hwf Ha. exists (StdSet.lower_bound (before (store t)) l (m_timers t)).
  apply StdSet.find_elem; [apply _|apply Hwf|by apply Hwf|]. intros. by apply (before_eq (store t)).
Qed.

Lemma wf_find_None t l :
  wf t → ¬ armed (store t) l → StdSet.find (before (store t)) l (m_timers t) = None.
Proof.
  intros Hwf Ha. destruct (StdSet.find _ _ _) as [i|] eqn:E; [|done].
  apply StdSet.find_Some in E as (_ & e & He & H1 & H2); [|apply _|apply Hwf].
  assert (e = l) as -> by (eapply before_eq; eauto).
  destruct Ha. apply Hwf. by eapply list_elem_of_lookup_2.
Qed.

(** Changing [m_cb] or any timer outside the set keeps the search results. *)
Lemma find_store h h' l (ts : list Z) :
  (∀ k, next_of h k = next_of h' k) →
  StdSet.find (before h) l ts = StdSet.find (before h') l ts.
Proof.
  intros Heq. assert (Hb : ∀ k1 k2, before h k1 k2 = before h' k1 k2).
  { intros. unfold before, Comparator. by rewrite !Heq. }
  assert (Hl : StdSet.lower_bound (before h) l ts = StdSet.lower_bound (before h') l ts).
  { induction ts as [|e ts IH]; simpl; [done|]. by rewrite Hb, IH. }
  unfold StdSet.find. rewrite Hl. destruct (ts !! _); [|done]. by rewrite Hb.
Qed.

(** Taking a pending timer out: the rest is sorted and lacks exactly it. *)
Lemma wf_delete t l i :
  wf t → m_timers t !! i = Some l →
  StdSet.sorted (before (store t)) (base.delete i (m_timers t)) ∧
  ∀ k, k ∈ base.delete i (m_timers t) ↔ armed (store t) k ∧ k ≠ l.
Proof.
  intros [Hs Ha] Hi. split; [by apply (StdSet.sorted_delete (before (store t)))|].
  intros k. by rewrite (elem_of_delete_NoDup _ i l k (StdSet.sorted_NoDup _ _ Hs) Hi), Ha.
Qed.

(** Putting an armed timer in that is not there yet. *)
Lemma wf_insert h (ts : list Z) l p :
  StdSet.sorted (before h) ts →
  (∀ k, k ∈ ts ↔ armed h k ∧ k ≠ l) → armed h l →
  wf (MkTimerManager h (StdSet.insert (before h) l ts).1 p).
Proof.
  intros Hs Hts Hl.
  assert (Hne : ∀ y, y ∈ ts → before h l y = true ∨ before h y l = true).
  { intros y Hy. apply before_total. intros ->. by apply Hts in Hy as [_ ?]. }
  split; simpl; [apply StdSet.insert_sorted; [apply _|done|done]|].
  intros k. rewrite (StdSet.insert_perm (before h)) by done.
  rewrite elem_of_cons, Hts. destruct (decide (k = l)) as [->|]; tauto.
Qed.
End invariant.
#[export] Hint Resolve wf_sorted wf_armed : sylar.

(** ** The operations, one at a time *)
Section operations.
Context {Cb S : Type} `{!TimerHost Cb S} `{!TimerHostLaws Cb S}.
Implicit Types (s : S) (l : Z) (h : gmap Z (Timer Cb)).

Lemma get_tm_ok {A} (f : TimerManager Cb → A) s a s' :
  get_tm f s = Ok (a, s') ↔ a = f (manager s) ∧ s' = s.
Proof. unfold get_tm. by rewrite gets_ok. Qed.

Lemma modify_tm_ok (f : TimerManager Cb → TimerManager Cb) s u s' :
  modify_tm f s = Ok (u, s') → manager s' = f (manager s).
Proof. intros H. apply modify_ok in H as ->. apply manager_set. Qed.

Lemma update_timer_ok f l s u s' :
  update_timer f l s = Ok (u, s') →
  manager s' = set_store (alter f l (store (manager s))) (manager s).
Proof. intros H. by apply modify_tm_ok in H. Qed.

Lemma timer_at_ok l s x s' :
  timer_at l s = Ok (x, s') ↔ store (manager s) !! l = Some x ∧ s' = s.
Proof.
  unfold timer_at. rewrite bind_ok. split.
  - intros (h & s1 & H1 & H2). apply get_tm_ok in H1 as [-> ->].
    by apply deref_ok in H2.
  - intros [H ->]. exists (store (manager s)), s. by rewrite get_tm_ok, deref_ok.
Qed.

Lemma when_front_ok b s u s' :
  when b on_timer_insert_at_front s = Ok (u, s') → manager s' = manager s.
Proof.
  destruct b; simpl; [apply manager_front|]. intros H. by apply ret_ok in H as [_ ->].
Qed.

Lemma add_timer_locked_ok l s r s' :
  add_timer_locked l s = Ok (r, s') →
  r = l ∧
  manager s' = set_timers (StdSet.insert (before (store (manager s))) l (m_timers (manager s))).1
                 (manager s).
Proof.
  unfold add_timer_locked. rewrite bind_ok. intros (t & s1 & H1 & H2).
  apply get_tm_ok in H1 as [-> ->]. unfold id in H2.
  destruct (StdSet.insert _ _ _) as [ts it].
  apply bind_ok in H2 as (? & s2 & H2 & H3). apply modify_tm_ok in H2.
  apply bind_ok in H3 as (? & s3 & H3 & H4). apply when_front_ok in H3.
  apply ret_ok in H4 as [-> ->]. split; [done|]. by rewrite H3, H2.
Qed.

(** Re-inserting a timer that was taken out, once its fields are updated. *)
Lemma wf_add_locked l s r s' (h : gmap Z (Timer Cb)) :
  add_timer_locked l s = Ok (r, s') → store (manager s) = h →
  StdSet.sorted (before h) (m_timers (manager s)) →
  (∀ k, k ∈ m_timers (manager s) ↔ armed h k ∧ k ≠ l) → armed h l →
  r = l ∧ wf (manager s') ∧ store (manager s') = h.
Proof.
  intros H <- Hs Hin Ha. apply add_timer_locked_ok in H as [-> E]. rewrite E.
  split_and!; [done| |done]. by apply wf_insert.
Qed.

(** Changing the fields of a timer outside the set leaves the set sorted. *)
Lemma sorted_alter h f l (ts : list Z) :
  l ∉ ts → StdSet.sorted (before h) ts → StdSet.sorted (before (alter f l h)) ts.
Proof.
  intros Hl. apply sorted_store. intros k Hk. symmetry. apply next_of_alter_ne. by intros ->.
Qed.

Lemma pending_alter h f l (ts : list Z) :
  (∀ x, m_cb (f x) = m_cb x) →
  (∀ k, k ∈ ts ↔ armed h k ∧ k ≠ l) → ∀ k, k ∈ ts ↔ armed (alter f l h) k ∧ k ≠ l.
Proof.
  intros Hf Hts k. rewrite Hts. destruct (decide (k = l)) as [->|Hne]; [naive_solver|].
  by rewrite armed_alter_ne.
Qed.
End operations.

(** ** Abstract specification

    Each public operation as a relation on the store of timers alone. *)
Inductive op (Cb : Type) :=
  | OpAdd (a now ms : Z) (cb : option (closure Cb)) (recurring : bool)
  | OpAddCondition (a now ms : Z) (cb : option Cb) (weak_cond : Z) (recurring : bool)
  | OpCancel (l : Z)
  | OpRefresh (now l : Z)
  | OpReset (now l ms : Z) (from_now : bool)
  | OpNextTimeout (now : Z)
  | OpHasTimer
  | OpExpired (now probe : Z) (cbs : list (option (closure Cb))).
Arguments OpAdd {Cb}. Arguments OpAddCondition {Cb}. Arguments OpCancel {Cb}.
Arguments OpRefresh {Cb}. Arguments OpReset {Cb}. Arguments OpNextTimeout {Cb}.
Arguments OpHasTimer {Cb}. Arguments OpExpired {Cb}.

Inductive answer (Cb : Type) :=
  | AHandle (l : Z) | ABool (b : bool) | ATime (z : Z)
  | ACallbacks (cbs : list (option (closure Cb))).
Arguments AHandle {Cb}. Arguments ABool {Cb}. Arguments ATime {Cb}.
Arguments ACallbacks {Cb}.

Section spec.
Context {Cb : Type}.
Implicit Types h : gmap Z (Timer Cb).

(** Earliest due time among the timers that hold a callback. *)
Definition earliest h : option Z :=
  min_list (m_next ∘ snd <$> filter (λ p, armed h p.1) (map_to_list h)).

Definition spec_timeout (now : Z) h : Z :=
  match earliest h with
  | None => UINT64_MAX
  | Some n => if now >=? n then 0 else u64 (n - now)
  end.

Definition cb_of h l : option (closure Cb) := h !! l ≫= m_cb.

(** What expiry does to one timer: a recurring one is due again a period from
    now, a one-shot one loses its callback. *)
Definition fire (now : Z) (x : Timer Cb) : Timer Cb :=
  if m_recurring x then set_next (u64 (now + m_ms x)) x else clear_cb x.

(** The time of [l] is past for a call that reads the clock at [now] and puts
    its own timer at [probe]: among those due exactly now the address decides. *)
Definition past (now probe : Z) h (l : Z) : Prop :=
  next_of h l < now ∨ (next_of h l = now ∧ l < probe).

(** The timers a call fires: those whose time is past, or, when there are none,
    the first of those due exactly now. *)
Definition expires (now probe : Z) h (l : Z) : Prop :=
  armed h l ∧
  (past now probe h l ∨
   (next_of h l <= now ∧
    ∀ k, armed h k → ¬ past now probe h k ∧ (k = l ∨ before h l k = true))).

(** [E] lists exactly those timers, in firing order, and the store [h'] is [h]
    with each of them fired. *)
Definition expiry_result (now probe : Z) h h' (E : list Z) : Prop :=
  StdSet.sorted (before h) E ∧
  (∀ l, l ∈ E ↔ expires now probe h l) ∧
  (∀ l, h' !! l = if decide (l ∈ E) then fire now <$> h !! l else h !! l).

Definition spec_op (o : op Cb) h (r : answer Cb) h' : Prop :=
  match o with
  | OpAdd a now ms cb rec => (r, h') = (AHandle a, <[a := MkTimer rec ms (u64 (now + ms)) cb]> h)
  | OpAddCondition a now ms cb w rec =>
      (r, h') = (AHandle a, <[a := MkTimer rec ms (u64 (now + ms)) (Some (BindCond w cb))]> h)
  | OpCancel l =>
      (r, h') = if decide (armed h l) then (ABool true, alter clear_cb l h) else (ABool false, h)
  | OpRefresh now l =>
      (r, h') =
      if decide (armed h l)
      then (ABool true, alter (λ t, set_next (u64 (now + m_ms t)) t) l h)
      else (ABool false, h)
  | OpReset now l ms from_now =>
      (r, h') =
      if bool_decide (m_ms <$> h !! l = Some ms) && negb from_now then (ABool true, h)
      else if decide (armed h l)
      then (ABool true,
            alter (λ t, MkTimer (m_recurring t) ms
                     (u64 ((if from_now then now else m_next t - m_ms t) + ms)) (m_cb t)) l h)
      else (ABool false, h)
  | OpNextTimeout now => (r, h') = (ATime (spec_timeout now h), h)
  | OpHasTimer => (r, h') = (ABool (bool_decide (is_Some (earliest h))), h)
  | OpExpired now probe cbs =>
      ∃ E, r = ACallbacks (cbs ++ (cb_of h <$> E)) ∧ expiry_result now probe h h' E
  end.

(** What the caller owes: a fresh address for a new timer and a callback in it,
    a live handle for the others, and a fresh address for the timer a call of
    [list_expired_cbs] makes. *)
Definition op_pre (o : op Cb) h : Prop :=
  match o with
  | OpAdd a _ _ cb _ => h !! a = None ∧ cb ≠ None
  | OpAddCondition a _ _ _ _ _ => h !! a = None
  | OpCancel l | OpRefresh _ l | OpReset _ l _ _ => is_Some (h !! l)
  | OpNextTimeout _ | OpHasTimer => True
  | OpExpired _ probe _ => h !! probe = None
  end.
End spec.

(** The code's operation for each. *)
Definition run_op {Cb S} `{!TimerHost Cb S} (o : op Cb) : M S (answer Cb) :=
  match o with
  | OpAdd a now ms cb r => let* l := add_timer a now ms cb r in ret (AHandle l)
  | OpAddCondition a now ms cb w r =>
      let* l := add_condition_timer a now ms cb w r in ret (AHandle l)
  | OpCancel l => let* b := cancel l in ret (ABool b)
  | OpRefresh now l => let* b := refresh now l in ret (ABool b)
  | OpReset now l ms f => let* b := reset now l ms f in ret (ABool b)
  | OpNextTimeout now => let* z := get_next_timeout now in ret (ATime z)
  | OpHasTimer => let* b := has_timer in ret (ABool b)
  | OpExpired now probe cbs =>
      let* r := list_expired_cbs now probe cbs in ret (ACallbacks r)
  end.

(** ** Refinement *)
Section refinement.
Context {Cb S : Type} `{!TimerHost Cb S} `{!TimerHostLaws Cb S}.
Implicit Types (s : S) (l : Z) (h : gmap Z (Timer Cb)) (t : TimerManager Cb).

(** Splits a run of an operation into its primitive steps. *)
Ltac run_inv :=
  repeat (match goal with
  | H : bind _ _ _ = Ok _ |- _ =>
      let H1 := fresh "H" in let H2 := fresh "H" in
      apply bind_ok in H as (? & ? & H1 & H2)
  | H : get_tm _ _ = Ok _ |- _ => apply get_tm_ok in H as [-> ->]
  | H : timer_at _ _ = Ok _ |- _ => apply timer_at_ok in H as [? ->]
  | H : ret _ _ = Ok _ |- _ => apply ret_ok in H as [-> ->]
  | H : modify_tm _ _ = Ok _ |- _ => apply modify_tm_ok in H
  | H : update_timer _ _ _ = Ok _ |- _ => apply update_timer_ok in H
  end; unfold id in * ).

Ltac use_find Hi :=
  match goal with
  | H : ?m = Ok _ |- _ =>
      match m with context [StdSet.find _ _ _] => rewrite Hi in H end
  end.

Lemma add_refines a now ms cb r s v s' :
  wf (manager s) → store (manager s) !! a = None → cb ≠ None →
  add_timer a now ms cb r s = Ok (v, s') →
  v = a ∧ wf (manager s') ∧
  store (manager s') = <[a := MkTimer r ms (u64 (now + ms)) cb]> (store (manager s)).
Proof.
  intros Hwf Ha Hcb H. unfold add_timer in H. run_inv.
  assert (Hna : a ∉ m_timers (manager s)).
  { rewrite (wf_armed _ Hwf). intros (y & Hy & _). congruence. }
  eapply wf_add_locked; [done| | | |].
  - by rewrite H0.
  - rewrite H0. simpl. eapply sorted_store; [|apply Hwf]. intros k Hk.
    unfold next_of. rewrite lookup_insert_ne; [done|]. by intros ->.
  - intros k. rewrite H0. simpl. rewrite (wf_armed _ Hwf). unfold armed.
    destruct (decide (k = a)) as [->|Hne].
    + rewrite Ha. naive_solver.
    + rewrite lookup_insert_ne by done. naive_solver.
  - eexists. by rewrite lookup_insert_eq.
Qed.

Lemma cancel_refines l s b s' :
  wf (manager s) → cancel l s = Ok (b, s') →
  wf (manager s') ∧
  spec_op (OpCancel l) (store (manager s)) (ABool b) (store (manager s')).
Proof.
  intros Hwf H. unfold spec_op. unfold cancel in H. run_inv.
  destruct (m_cb _) as [c|] eqn:Hc; run_inv; simpl.
  - assert (Ha : armed (store (manager s)) l) by (eexists; rewrite Hc; eauto).
    rewrite decide_True by done. destruct (wf_find _ _ Hwf Ha) as (i & Hi & Hli).
    rewrite H0 in H2. simpl in H2.
    rewrite (find_store _ (store (manager s))), Hi in H2; cycle 1.
    { intros k. unfold next_of. destruct (decide (k = l)) as [->|].
      - rewrite lookup_alter_eq. by destruct (_ !! l).
      - by rewrite lookup_alter_ne. }
    run_inv. rewrite H2, H0. simpl. split; [|done].
    destruct (wf_delete _ _ _ Hwf Hli) as [Hs Hd]. split; simpl.
    + apply sorted_alter; [|done]. rewrite Hd. naive_solver.
    + intros k. rewrite Hd. destruct (decide (k = l)) as [->|Hne].
      * split; [naive_solver|]. intros Hx. by apply armed_clear in Hx.
      * rewrite armed_alter_ne by done. naive_solver.
  - rewrite decide_False; [done|]. intros (y & Hy & Hn). simplify_eq.
Qed.

(** The part [refresh] and [reset] share: take out, update, put back. *)
Lemma rearm_refines l f i s s1 s2 v s3 :
  wf (manager s) → armed (store (manager s)) l → m_timers (manager s) !! i = Some l →
  (∀ x, m_cb (f x) = m_cb x) →
  manager s1 = set_timers (base.delete i (m_timers (manager s))) (manager s) →
  manager s2 = set_store (alter f l (store (manager s1))) (manager s1) →
  add_timer_locked l s2 = Ok (v, s3) →
  wf (manager s3) ∧ store (manager s3) = alter f l (store (manager s)).
Proof.
  intros Hwf Ha Hi Hf E1 E2 H. destruct (wf_delete _ _ _ Hwf Hi) as [Hs Hd].
  rewrite E1 in E2. simpl in E2.
  eapply wf_add_locked in H as (_ & Hw & Hst).
  - split; [exact Hw|]. rewrite Hst. reflexivity.
  - by rewrite E2.
  - rewrite E2. simpl. apply sorted_alter; [|done]. rewrite Hd. naive_solver.
  - rewrite E2. simpl. by apply pending_alter.
  - by apply armed_keep.
Qed.

Ltac use_rearm l i :=
  match goal with
  | H : add_timer_locked l _ = Ok _ |- _ => eapply (rearm_refines l _ i) in H as [? ->]
  end.

Lemma refresh_refines now l s b s' :
  wf (manager s) → refresh now l s = Ok (b, s') →
  wf (manager s') ∧
  spec_op (OpRefresh now l) (store (manager s)) (ABool b) (store (manager s')).
Proof.
  intros Hwf H. unfold spec_op. unfold refresh in H. run_inv. simpl.
  destruct (m_cb _) as [c|] eqn:Hc; run_inv.
  - assert (Ha : armed (store (manager s)) l) by (eexists; rewrite Hc; eauto).
    rewrite decide_True by done. destruct (wf_find _ _ Hwf Ha) as (i & Hi & Hli).
    use_find Hi. run_inv.
    use_rearm l i; eauto.
  - rewrite decide_False; [done|]. intros (y & Hy & Hn). simplify_eq.
Qed.

Lemma reset_refines now l ms fn s b s' :
  wf (manager s) → reset now l ms fn s = Ok (b, s') →
  wf (manager s') ∧
  spec_op (OpReset now l ms fn) (store (manager s)) (ABool b) (store (manager s')).
Proof.
  intros Hwf H. unfold spec_op. unfold reset in H. run_inv. simpl. rewrite H. simpl.
  replace (bool_decide (Some (m_ms x) = Some ms)) with (ms =? m_ms x); cycle 1.
  { destruct (Z.eqb_spec ms (m_ms x)); case_bool_decide; congruence. }
  destruct (_ && _); run_inv; [done|].
  destruct (decide (armed (store (manager s)) l)) as [Ha|Ha]; cycle 1.
  { use_find (wf_find_None _ _ Hwf Ha). by run_inv. }
  destruct (wf_find _ _ Hwf Ha) as (i & Hi & Hli). use_find Hi. run_inv.
  match goal with
  | H1 : manager ?s1 = set_timers _ _, H3 : add_timer_locked l ?s2 = _ |- _ =>
      assert (E : manager s2 = set_store (alter (λ y, MkTimer (m_recurring y) ms
        (u64 ((if fn then now else m_next y - m_ms y) + ms)) (m_cb y)) l
        (store (manager s1))) (manager s1))
  end.
  { match goal with H : (if _ then _ else _) _ = Ok _ |- _ => rename H into Hu end.
    destruct fn; apply update_timer_ok in Hu;
      repeat match goal with H : manager ?y = set_store _ _ |- _ => rewrite H; clear H end;
      unfold set_store; simpl; by rewrite alter_alter_eq. }
  use_rearm l i; eauto.
Qed.

Lemma elem_of_due h z :
  z ∈ (m_next ∘ snd <$> filter (λ p, armed h p.1) (map_to_list h)) ↔
  ∃ l, armed h l ∧ next_of h l = z.
Proof.
  rewrite list_elem_of_fmap. split.
  - intros ([l x] & -> & Hin). apply list_elem_of_filter in Hin as [Ha Hin].
    apply elem_of_map_to_list in Hin. exists l. split; [done|]. unfold next_of. by rewrite Hin.
  - intros (l & (x & Hx & Hc) & <-). exists (l, x). split; [unfold next_of; by rewrite Hx|].
    apply list_elem_of_filter. split; [by exists x|]. by apply elem_of_map_to_list.
Qed.

(** The first key of the set is the earliest armed timer. *)
Lemma wf_head t l ts :
  wf t → m_timers t = l :: ts →
  armed (store t) l ∧ ∀ k, armed (store t) k → next_of (store t) l <= next_of (store t) k.
Proof.
  intros Hwf E. split; [apply (wf_armed _ Hwf); rewrite E; by left|].
  intros k Hk. apply (wf_armed _ Hwf) in Hk. pose proof (wf_sorted _ Hwf) as Hs.
  rewrite E in Hk, Hs. apply elem_of_cons in Hk as [->|Hk]; [lia|].
  inversion Hs as [|?? _ Hall]; subst. rewrite Forall_forall in Hall.
  specialize (Hall k Hk). apply before_true in Hall. lia.
Qed.

Lemma earliest_head t :
  wf t → earliest (store t) = match m_timers t with [] => None | l :: _ => Some (next_of (store t) l) end.
Proof.
  intros Hwf. destruct (m_timers t) as [|l ts] eqn:E.
  - apply min_list_None. destruct (_ <$> _) as [|z zs] eqn:Ez; [done|].
    assert (Hz : z ∈ z :: zs) by (by left). rewrite <- Ez in Hz.
    apply elem_of_due in Hz as (l & Hl & _). apply (wf_armed _ Hwf) in Hl.
    rewrite E in Hl. by apply not_elem_of_nil in Hl.
  - destruct (wf_head _ _ _ Hwf E) as [Ha Hmin]. apply min_list_Some.
    split; [apply elem_of_due; by exists l|]. intros z Hz.
    apply elem_of_due in Hz as (k & Hk & <-). by apply Hmin.
Qed.

Lemma next_timeout_refines now s z s' :
  wf (manager s) → get_next_timeout now s = Ok (z, s') →
  s' = s ∧ z = spec_timeout now (store (manager s)).
Proof.
  intros Hwf H. unfold get_next_timeout in H. run_inv. unfold spec_timeout.
  rewrite (earliest_head _ Hwf). destruct (m_timers (manager s)); run_inv; [done|].
  destruct (now >=? _); by run_inv.
Qed.

(** Progress: with a live handle and a derived class whose
    [on_timer_insert_at_front] returns, no operation faults. *)
Section progress.
Hypothesis front_returns : ∀ s, safe on_timer_insert_at_front s.

Lemma safe_get_tm {A} (f : TimerManager Cb → A) s : safe (get_tm f) s.
Proof. apply safe_gets. Qed.
Lemma safe_modify_tm f s : safe (modify_tm f) s.
Proof. apply safe_modify. Qed.
Lemma safe_update_timer f l s : safe (update_timer f l) s.
Proof. apply safe_modify. Qed.
Lemma safe_timer_at l s : is_Some (store (manager s) !! l) → safe (timer_at l) s.
Proof. intros [x Hx]. exists x, s. by apply timer_at_ok. Qed.

Lemma safe_add_timer_locked l s : safe (add_timer_locked l) s.
Proof.
  unfold add_timer_locked. apply safe_bind; [apply safe_get_tm|]. intros t s1 _.
  destruct (StdSet.insert _ _ _) as [ts it]. apply safe_bind; [apply safe_modify_tm|].
  intros ? s2 _. apply safe_bind; [by apply safe_when|]. intros. apply safe_ret.
Qed.

Ltac go_safe :=
  repeat first
    [ apply safe_ret | apply safe_get_tm | apply safe_modify_tm | apply safe_update_timer
    | apply safe_add_timer_locked | by apply safe_timer_at
    | match goal with
      | |- safe (bind _ _) _ => apply safe_bind
      | |- safe (match ?x with _ => _ end) _ => destruct x
      | |- safe (match ?x with _ => _ end _) _ => destruct x
      | |- ∀ _, _ => intros
      end ].

Lemma cancel_returns l s : is_Some (store (manager s) !! l) → safe (cancel l) s.
Proof. intros. unfold cancel. go_safe. Qed.

Lemma safe_push_expired now (E : list Z) cbs s :
  (∀ l, l ∈ E → is_Some (store (manager s) !! l)) → safe (push_expired now E cbs) s.
Proof.
  revert s cbs. induction E as [|l E IH]; intros s cbs Hl; simpl; [apply safe_ret|].
  apply safe_bind; [apply safe_timer_at, Hl; by left|]. intros x s1 Hx.
  apply timer_at_ok in Hx as [Hx ->]. apply safe_bind; [destruct (m_recurring x); go_safe|].
  intros u s2 H2. apply IH. intros k Hk.
  assert (Hd : ∀ f, is_Some (alter f l (store (manager s)) !! k)).
  { intros f. apply lookup_alter_is_Some, Hl. by right. }
  destruct (m_recurring x); run_inv.
  - match goal with H : add_timer_locked _ _ = _ |- _ => apply add_timer_locked_ok in H as [_ ->] end.
    match goal with H : manager _ = set_store _ _ |- _ => rewrite H end. apply Hd.
  - match goal with H : manager _ = set_store _ _ |- _ => rewrite H end. apply Hd.
Qed.

Lemma safe_list_expired now probe cbs s :
  wf (manager s) → safe (list_expired_cbs now probe cbs) s.
Proof.
  intros Hwf. unfold list_expired_cbs, list_expired_empty, list_expired_write.
  apply safe_bind; [apply safe_get_tm|]. intros e s1 H1. apply get_tm_ok in H1 as [-> ->].
  destruct (m_timers (manager s)) as [|b ts] eqn:E; [apply safe_ret|].
  apply safe_bind; [apply safe_get_tm|]. intros t s1 H1. apply get_tm_ok in H1 as [-> ->].
  unfold id. rewrite E. destruct (_ >? _); [apply safe_ret|].
  apply safe_bind; [apply safe_modify_tm|]. intros u s1 H1. apply modify_tm_ok in H1.
  apply safe_push_expired. intros l Hl. rewrite H1. simpl.
  apply subseteq_take in Hl. rewrite <- E in Hl.
  apply (wf_armed _ Hwf) in Hl as (x & Hx & _). by exists x.
Qed.

Lemma safe_run_op (o : op Cb) s :
  wf (manager s) → op_pre o (store (manager s)) → safe (run_op o) s.
Proof.
  intros Hwf Hpre. destruct o; simpl in *;
    unfold add_condition_timer, add_timer, cancel, refresh, reset, get_next_timeout, has_timer;
    try (apply safe_bind; [by apply safe_list_expired|intros; apply safe_ret]); go_safe.
Qed.
End progress.

(** A timer that exists and holds no callback. *)
Definition disarmed h l : Prop := ∃ x, h !! l = Some x ∧ m_cb x = None.

Lemma disarmed_not_armed h l : disarmed h l → ¬ armed h l.
Proof. intros (x & Hx & Hn) (y & Hy & ?). congruence. Qed.

Lemma disarmed_alter h f l k :
  disarmed h k → (k ≠ l ∨ ∀ x, m_cb x = None → m_cb (f x) = None) → disarmed (alter f l h) k.
Proof.
  intros (x & Hx & Hn) Hf. destruct (decide (k = l)) as [->|Hne].
  - exists (f x). rewrite lookup_alter_eq, Hx. split; [done|]. destruct Hf as [|Hf]; [done|auto].
  - exists x. by rewrite lookup_alter_ne.
Qed.

(** Cancelling leaves the timer disarmed, whether or not it was armed. *)
Lemma cancel_disarms l b s s' :
  wf (manager s) → cancel l s = Ok (b, s') →
  wf (manager s') ∧ disarmed (store (manager s')) l.
Proof.
  intros Hwf H. destruct (cancel_refines l s b s' Hwf H) as [Hw E]. split; [done|].
  unfold cancel in H. run_inv. simpl in E. case_decide as Ha.
  - injection E as _ ->. destruct Ha as (y & Hy & _). exists (clear_cb y).
    by rewrite lookup_alter_eq, Hy.
  - injection E as _ ->. exists x. split; [done|]. destruct (m_cb x) eqn:Ec; [|done].
    destruct Ha. exists x. by rewrite Ec.
Qed.

Lemma cancel_disarmed l s : disarmed (store (manager s)) l → cancel l s = Ok (false, s).
Proof.
  intros (x & Hx & Hn). unfold cancel. erewrite bind_step; [|by apply timer_at_ok].
  by rewrite Hn.
Qed.

(** No operation of the specification arms a disarmed timer. *)
Lemma spec_op_disarmed (o : op Cb) h r h' l :
  op_pre o h → disarmed h l → spec_op o h r h' → disarmed h' l.
Proof.
  intros Hpre Hd H. pose proof Hd as (x & Hx & Hn).
  destruct o; simpl in *; try (case_decide as Ha); simplify_eq/=; try done.
  - exists x. rewrite lookup_insert_ne; [done|]. intros ->. naive_solver congruence.
  - exists x. rewrite lookup_insert_ne; [done|]. intros ->. congruence.
  - apply disarmed_alter; auto.
  - apply disarmed_alter; auto.
  - destruct (_ && _); simplify_eq; [done|]. apply disarmed_alter; auto.
  - destruct (_ && _); by simplify_eq.
  - destruct H as (E & -> & _ & HE & Hst). unfold disarmed. rewrite Hst, decide_False; [done|].
    intros Hl. apply HE in Hl as [Ha _]. by apply disarmed_not_armed in Hd.
Qed.
End refinement.

(** ** Expiry *)
Section expiry.
Context {Cb S : Type} `{!TimerHost Cb S} `{!TimerHostLaws Cb S}.
Implicit Types (s : S) (l : Z) (h : gmap Z (Timer Cb)) (x : Timer Cb)
  (t : TimerManager Cb).

Lemma add_locked_sorted l s r s' :
  add_timer_locked l s = Ok (r, s') →
  StdSet.sorted (before (store (manager s))) (m_timers (manager s)) →
  l ∉ m_timers (manager s) →
  store (manager s') = store (manager s) ∧
  StdSet.sorted (before (store (manager s))) (m_timers (manager s')) ∧
  ∀ k, k ∈ m_timers (manager s') ↔ k = l ∨ k ∈ m_timers (manager s).
Proof.
  intros H Hs Hl. apply add_timer_locked_ok in H as [_ ->]. simpl.
  assert (Hne : ∀ y, y ∈ m_timers (manager s) →
    before (store (manager s)) l y = true ∨ before (store (manager s)) y l = true).
  { intros y Hy. apply before_total. by intros ->. }
  split_and!; [done|by apply (StdSet.insert_sorted (before (store (manager s))))|].
  intros k. by rewrite (StdSet.insert_perm (before (store (manager s)))), elem_of_cons.
Qed.

(** One iteration of the loop: the timer is fired and the set holds it again
    exactly when it is still armed. *)
Lemma fire_step now l x s u s' (E : list Z) :
  (if m_recurring x
   then update_timer (λ y, set_next (u64 (now + m_ms y)) y) l ;;;
        add_timer_locked l ;;; ret tt
   else update_timer clear_cb l) s = Ok (u, s') →
  store (manager s) !! l = Some x → l ∉ E → armed (store (manager s)) l →
  StdSet.sorted (before (store (manager s))) (m_timers (manager s)) →
  (∀ k, k ∈ m_timers (manager s) ↔ armed (store (manager s)) k ∧ k ∉ l :: E) →
  store (manager s') = <[l := fire now x]> (store (manager s)) ∧
  StdSet.sorted (before (store (manager s'))) (m_timers (manager s')) ∧
  (∀ k, k ∈ m_timers (manager s') ↔ armed (store (manager s')) k ∧ k ∉ E).
Proof.
  intros H Hx HlE Ha Hs Hts.
  assert (Hl : l ∉ m_timers (manager s)) by (rewrite Hts, elem_of_cons; naive_solver).
  assert (Hins : ∀ f, alter f l (store (manager s)) = <[l := f x]> (store (manager s))).
  { intros f. apply map_eq. intros k. destruct (decide (k = l)) as [->|Hne].
    - by rewrite lookup_alter_eq, Hx, lookup_insert_eq.
    - by rewrite lookup_alter_ne, lookup_insert_ne. }
  unfold fire. destruct (m_recurring x).
  - apply bind_ok in H as (? & s1 & H1 & H). apply bind_ok in H as (? & s2 & H2 & H).
    apply ret_ok in H as [_ ->]. apply update_timer_ok in H1.
    apply add_locked_sorted in H2 as (Es & Hs' & Hm).
    + rewrite H1 in Es, Hs', Hm. simpl in *. rewrite Es.
      split_and!; [by rewrite Hins|done|]. intros k. rewrite Hm, Hts, elem_of_cons.
      destruct (decide (k = l)) as [->|Hne].
      * rewrite armed_keep by done. tauto.
      * rewrite armed_alter_ne by done. tauto.
    + rewrite H1. simpl. by apply sorted_alter.
    + by rewrite H1.
  - apply update_timer_ok in H. rewrite H. simpl. split_and!; [by rewrite Hins|by apply sorted_alter|].
    intros k. rewrite Hts, elem_of_cons. destruct (decide (k = l)) as [->|Hne].
    + split; [tauto|]. intros [Hc _]. by apply armed_clear in Hc.
    + rewrite armed_alter_ne by done. tauto.
Qed.

Lemma push_expired_ok now (E : list Z) s cbs r s' :
  push_expired now E cbs s = Ok (r, s') → NoDup E →
  StdSet.sorted (before (store (manager s))) (m_timers (manager s)) →
  (∀ k, k ∈ m_timers (manager s) ↔ armed (store (manager s)) k ∧ k ∉ E) →
  (∀ l, l ∈ E → armed (store (manager s)) l) →
  wf (manager s') ∧ r = cbs ++ (cb_of (store (manager s)) <$> E) ∧
  ∀ l, store (manager s') !! l =
       if decide (l ∈ E) then fire now <$> store (manager s) !! l else store (manager s) !! l.
Proof.
  revert s cbs. induction E as [|l E IH]; intros s cbs H Hnd Hs Hts Ha; simpl in H.
  { apply ret_ok in H as [-> ->]. split_and!; [|by rewrite app_nil_r|done].
    split; [done|]. intros k. rewrite Hts. split; [tauto|]. split; [done|]. apply not_elem_of_nil. }
  apply bind_ok in H as (x & s0 & Hx & H). apply timer_at_ok in Hx as [Hx ->].
  apply bind_ok in H as (u & s1 & H1 & H). apply NoDup_cons in Hnd as [HlE Hnd].
  eapply fire_step in H1 as (Hst & Hs1 & Hts1); [|done|done|apply Ha; by left|done|done].
  eapply IH in H as (Hwf & -> & Hl'); [|done|done|done|].
  - split_and!; [done| |].
    + rewrite <- app_assoc. simpl. do 2 f_equal; [unfold cb_of; by rewrite Hx|].
      apply list_fmap_ext. intros i k Hk. unfold cb_of. rewrite Hst, lookup_insert_ne; [done|].
      intros ->. by eapply HlE, list_elem_of_lookup_2.
    + intros k. rewrite Hl', Hst. destruct (decide (k = l)) as [->|Hne].
      * rewrite lookup_insert_eq. rewrite (decide_False (P := l ∈ E)) by done.
        rewrite decide_True by (by left). by rewrite Hx.
      * rewrite lookup_insert_ne by done.
        destruct (decide (k ∈ E)) as [Hk|Hk]; [rewrite decide_True by (by right); done|].
        rewrite decide_False; [done|]. rewrite elem_of_cons. tauto.
  - intros k Hk. unfold armed. rewrite Hst, lookup_insert_ne.
    + apply Ha. by right.
    + by intros ->.
Qed.

(** The timers a call fires are due, and none whose time has passed is left out. *)
Lemma expires_due now probe h l : expires now probe h l → armed h l ∧ next_of h l <= now.
Proof. intros [Ha [[?|[? _]]|[? _]]]; split; solve [done | lia]. Qed.

Lemma expires_past now probe h l : armed h l → next_of h l < now → expires now probe h l.
Proof. intros Ha Hl. split; [done|]. left. by left. Qed.

Lemma expiry_due now probe h h' (E : list Z) l :
  expiry_result now probe h h' E → l ∈ E → armed h l ∧ next_of h l <= now.
Proof. intros (_ & HE & _) Hl. by eapply expires_due, HE. Qed.

(** The first of the set expires when it is due. *)
Lemma head_expires t now probe b ts :
  wf t → m_timers t = b :: ts → next_of (store t) b <= now → expires now probe (store t) b.
Proof.
  intros Hwf E Hb. destruct (wf_head _ _ _ Hwf E) as [Hab _]. split; [done|].
  destruct (Z.lt_ge_cases (next_of (store t) b) now) as [|Hge]; [by left; left|].
  destruct (Z.lt_ge_cases b probe); [left; right; split; [lia|done]|].
  right. split; [done|]. intros k Hk.
  assert (Hbk : k = b ∨ before (store t) b k = true).
  { apply (wf_armed _ Hwf) in Hk. pose proof (wf_sorted _ Hwf) as Hs. rewrite E in Hk, Hs.
    apply elem_of_cons in Hk as [->|Hk]; [by left|right].
    inversion Hs as [|?? _ Hall]; subst. rewrite Forall_forall in Hall. by apply Hall. }
  split; [|done]. unfold past. destruct Hbk as [->|Hbk]; [lia|]. apply before_true in Hbk. lia.
Qed.

(** Where a timer stands with respect to the probe. *)
Lemma probe_past now probe h l :
  l ≠ probe → before (<[probe := Timer_probe now]> h) probe l = false ↔ past now probe h l.
Proof.
  intros Hne. rewrite before_false. unfold past, next_of. rewrite lookup_insert_eq, lookup_insert_ne by done.
  simpl. lia.
Qed.

(** The keys the call takes out of the set when the first one is due. *)
Definition expired_keys now probe t : list Z :=
  let h := <[probe := Timer_probe now]> (store t) in
  let it := StdSet.upper_bound (before h) probe (m_timers t) in
  take (if Nat.eqb it 0 then 1%nat else it) (m_timers t).

(** They are the timers that expire. *)
Lemma elem_of_expired_keys t now probe b ts l :
  wf t → m_timers t = b :: ts → store t !! probe = None → next_of (store t) b <= now →
  l ∈ expired_keys now probe t ↔ expires now probe (store t) l.
Proof.
  intros Hwf E Hp Hb. unfold expired_keys. set (h := <[probe := Timer_probe now]> (store t)).
  assert (Hpt : ∀ k, k ∈ m_timers t → k ≠ probe).
  { intros k Hk ->. apply (wf_armed _ Hwf) in Hk as (y & Hy & _). congruence. }
  assert (Hs : StdSet.sorted (before h) (m_timers t)).
  { eapply sorted_store; [|apply Hwf]. intros k Hk. unfold next_of, h.
    rewrite lookup_insert_ne; [done|]. intros <-. by apply (Hpt probe). }
  pose proof (StdSet.upper_bound_take (before h) probe (m_timers t)) as Ht.
  pose proof (StdSet.upper_bound_drop (before h) probe (m_timers t) Hs) as Hd.
  set (it := StdSet.upper_bound (before h) probe (m_timers t)) in *. rewrite Forall_forall in Ht, Hd.
  assert (Ht' : ∀ k, k ∈ take it (m_timers t) → past now probe (store t) k).
  { intros k Hk. apply probe_past; [apply Hpt; by eapply subseteq_take|by apply Ht]. }
  assert (Hd' : ∀ k, k ∈ drop it (m_timers t) → ¬ past now probe (store t) k).
  { intros k Hk Hpast. apply probe_past in Hpast; [|apply Hpt; by eapply subseteq_drop].
    unfold h in Hd. rewrite Hd in Hpast; done. }
  assert (Hin : ∀ k, armed (store t) k ↔ k ∈ take it (m_timers t) ∨ k ∈ drop it (m_timers t)).
  { intros k. rewrite <- (wf_armed _ Hwf k), <- elem_of_app. by rewrite take_drop. }
  destruct (wf_head _ _ _ Hwf E) as [Hab Hmin].
  destruct (Nat.eqb_spec it 0) as [E0|E0].
  - rewrite E0, take_0, drop_0 in *. rewrite E. simpl. rewrite list_elem_of_singleton. split.
    + intros ->. by eapply head_expires.
    + intros [Ha [Hpast|[_ Hfirst]]]; [apply Hin in Ha as [[]%not_elem_of_nil|Ha]; by apply Hd' in Ha|].
      destruct (Hfirst b Hab) as [_ [->|Hbl]]; [done|].
      apply (wf_armed _ Hwf) in Ha. pose proof (wf_sorted _ Hwf) as Hsb. rewrite E in Ha, Hsb.
      apply elem_of_cons in Ha as [->|Ha]; [done|]. inversion Hsb as [|?? _ Hall]; subst.
      rewrite Forall_forall in Hall. specialize (Hall l Ha). apply before_true in Hbl, Hall. lia.
  - split.
    + intros Hl. split; [apply Hin; by left|]. left. by apply Ht'.
    + intros [Ha [Hpast|[_ Hfirst]]]; [apply Hin in Ha as [?|Ha]; [done|]; by apply Hd' in Ha|].
      destruct (Hfirst b Hab) as [[] _]. apply Ht'. rewrite E. destruct it; [done|]. by left.
Qed.

Lemma list_expired_ok now probe cbs s r s' :
  wf (manager s) → store (manager s) !! probe = None →
  list_expired_cbs now probe cbs s = Ok (r, s') →
  wf (manager s') ∧
  ∃ E, r = cbs ++ (cb_of (store (manager s)) <$> E) ∧
       expiry_result now probe (store (manager s)) (store (manager s')) E ∧
       (∀ b ts, m_timers (manager s) = b :: ts → next_of (store (manager s)) b <= now →
                E = expired_keys now probe (manager s)).
Proof.
  intros Hwf Hp H. unfold list_expired_cbs, list_expired_empty, list_expired_write in H.
  apply bind_ok in H as (e & s0 & H0 & H). apply get_tm_ok in H0 as [-> ->].
  assert (Hnone : (∀ l, armed (store (manager s)) l → now < next_of (store (manager s)) l) →
    wf (manager s) ∧ ∃ E, cbs = cbs ++ (cb_of (store (manager s)) <$> E) ∧
       expiry_result now probe (store (manager s)) (store (manager s)) E ∧
       (∀ b ts, m_timers (manager s) = b :: ts → next_of (store (manager s)) b <= now →
                E = expired_keys now probe (manager s))).
  { intros Hlt. split; [done|]. exists []. split; [by rewrite app_nil_r|]. split; [|].
    2: { intros b ts E Hb. destruct (wf_head _ _ _ Hwf E) as [Ha _]. specialize (Hlt b Ha). lia. }
    split_and!.
    - constructor.
    - intros l. split; [by intros []%not_elem_of_nil|]. intros [Ha Hl]%expires_due.
      specialize (Hlt l Ha). lia.
    - intros l. rewrite decide_False; [done|]. apply not_elem_of_nil. }
  destruct (m_timers (manager s)) as [|b ts] eqn:Em.
  { apply ret_ok in H as [-> ->]. apply Hnone. intros l Hl.
    apply (wf_armed _ Hwf) in Hl. rewrite Em in Hl. by apply not_elem_of_nil in Hl. }
  apply bind_ok in H as (tm & s0 & H0 & H). apply get_tm_ok in H0 as [-> ->].
  unfold id in H. rewrite Em in H. destruct (Z.gtb_spec (next_of (store (manager s)) b) now) as [Hgt|Hle].
  { apply ret_ok in H as [-> ->]. apply Hnone. intros l Hl.
    destruct (wf_head _ _ _ Hwf Em) as [_ Hmin]. specialize (Hmin l Hl). lia. }
  rewrite <- Em in H.
  pose proof (λ l, elem_of_expired_keys _ now probe b ts l Hwf Em Hp Hle) as HE. unfold expired_keys in *.
  set (n := if Nat.eqb _ 0 then 1%nat else _) in *.
  apply bind_ok in H as (u & s1 & H1 & H). apply modify_tm_ok in H1.
  pose proof (wf_sorted _ Hwf) as Hs. pose proof (StdSet.sorted_NoDup _ _ Hs) as Hnd.
  rewrite <- (take_drop n) in Hnd. apply NoDup_app in Hnd as (Hnd & Hdis & _).
  assert (Hin : ∀ k, k ∈ drop n (m_timers (manager s)) ↔
    armed (store (manager s)) k ∧ k ∉ take n (m_timers (manager s))).
  { intros k. rewrite <- (wf_armed _ Hwf k). rewrite <- (take_drop n (m_timers _)) at 2.
    rewrite elem_of_app. specialize (Hdis k). tauto. }
  assert (Harm : ∀ k, k ∈ take n (m_timers (manager s)) → armed (store (manager s)) k).
  { intros k Hk. apply HE in Hk. apply Hk. }
  pose proof (StdSet.sorted_take_drop (before (store (manager s))) n _ Hs) as [Hst1 Hst2].
  eapply push_expired_ok in H as (Hw & -> & Hst); [rewrite H1 in Hst; rewrite H1|done|by rewrite H1..].
  split; [done|]. by exists (take n (m_timers (manager s))).
Qed.
End expiry.

(** ** Histories *)
Section histories.
Context {Cb S : Type} `{!TimerHost Cb S} `{!TimerHostLaws Cb S}.
Implicit Types (s : S) (l : Z).

(** Partial correctness: an operation that returns did what the specification
    says and kept the invariant. *)
Lemma op_refines (o : op Cb) s r s' :
  wf (manager s) → op_pre o (store (manager s)) → run_op o s = Ok (r, s') →
  wf (manager s') ∧ spec_op o (store (manager s)) r (store (manager s')).
Proof.
  intros Hwf Hpre H. destruct o; simpl in Hpre, H; apply bind_ok in H as (v & s1 & H & E);
    apply ret_ok in E as [-> ->].
  - destruct Hpre as [Hn Hc]. eapply add_refines in H as (-> & ? & ?); simpl; eauto with f_equal.
  - unfold add_condition_timer in H. eapply add_refines in H as (-> & ? & ?); simpl; eauto with f_equal.
  - by eapply cancel_refines.
  - by eapply refresh_refines.
  - by eapply reset_refines.
  - eapply next_timeout_refines in H as [-> ->]; eauto. done.
  - unfold has_timer in H. apply get_tm_ok in H as [-> ->]. simpl. rewrite (earliest_head _ Hwf).
    by destruct (m_timers (manager s)).
  - apply list_expired_ok in H as (Hw & E & -> & HE & _); [|done..]. simpl. eauto.
Qed.

(** One operation by some thread; each holds the manager's lock throughout. *)
Definition tm_step s s' : Prop :=
  ∃ (o : op Cb) r, op_pre o (store (manager s)) ∧ run_op o s = Ok (r, s').

Lemma step_disarmed l s s' :
  tm_step s s' → wf (manager s) → disarmed (store (manager s)) l →
  wf (manager s') ∧ disarmed (store (manager s')) l.
Proof.
  intros (o & r & Hpre & H) Hwf Hd. destruct (op_refines o s r s' Hwf Hpre H) as [Hw E].
  split; [done|]. by eapply spec_op_disarmed.
Qed.

Lemma steps_disarmed l s s' :
  rtc tm_step s s' → wf (manager s) → disarmed (store (manager s)) l →
  wf (manager s') ∧ disarmed (store (manager s')) l.
Proof.
  induction 1 as [|s s1 s2 H1 _ IH]; [done|]. intros Hwf Hd.
  destruct (step_disarmed l _ _ H1 Hwf Hd) as [Hw1 Hd1]. by apply IH.
Qed.
End histories.

(** ** Properties *)
Section properties.
Context {Cb S : Type} `{!TimerHost Cb S} `{!TimerHostLaws Cb S}.
Implicit Types (s : S) (l : Z).

(** C1: every operation on the set of timers (adding a plain or conditional
    timer, [cancel], [refresh], [reset], [get_next_timeout], [has_timer] and
    [list_expired_cbs]) returns, with an answer and a store that the abstract,
    store-only specification allows, and keeps the invariant: the set stays
    sorted by the comparator and holds exactly the timers that have a callback.
    The callers' part: a fresh address for a new timer or probe, a callback in a
    new timer, and a live handle. *)
Theorem timer_manager_refines_spec (o : op Cb) s :
  (∀ s, safe on_timer_insert_at_front s) →
  wf (manager s) → op_pre o (store (manager s)) →
  ∃ r s', run_op o s = Ok (r, s') ∧
          spec_op o (store (manager s)) r (store (manager s')) ∧
          wf (manager s').
Proof.
  intros Hf Hwf Hpre. destruct (safe_run_op Hf o s Hwf Hpre) as (r & s' & H).
  destruct (op_refines o s r s' Hwf Hpre H) as [Hw E]. by exists r, s'.
Qed.

(** C2: [list_expired_cbs] returns, after what the vector held, the callbacks of
    the timers that expire, in firing order.  A timer with a callback expires
    when its time is before now, or is now and its address is below that of the
    probe the call allocates; when there is no such timer and the first of the
    set is due exactly now, that one expires alone.  Each recurring timer that
    expires is due again one period after now, each one-shot one loses its
    callback, no other timer changes; whatever still has a callback and was due
    before now has been listed; and the invariant is kept. *)
Theorem list_expired_fires_due now probe cbs s :
  (∀ s, safe on_timer_insert_at_front s) →
  wf (manager s) → store (manager s) !! probe = None →
  ∃ s' E, list_expired_cbs now probe cbs s =
            Ok (cbs ++ (cb_of (store (manager s)) <$> E), s') ∧
          StdSet.sorted (before (store (manager s))) E ∧
          (∀ l, l ∈ E ↔ expires now probe (store (manager s)) l) ∧
          (∀ l, store (manager s') !! l =
                if decide (l ∈ E) then fire now <$> store (manager s) !! l
                else store (manager s) !! l) ∧
          (∀ l, armed (store (manager s)) l → next_of (store (manager s)) l < now → l ∈ E) ∧
          wf (manager s').
Proof.
  intros Hf Hwf Hp. destruct (safe_list_expired Hf now probe cbs s Hwf) as (r & s' & H).
  destruct (list_expired_ok now probe cbs s r s' Hwf Hp H) as (Hw & E & -> & (Hs & HE & Hst) & _).
  exists s', E. split_and!; [done..| |done]. intros l Ha Hl. by apply HE, expires_past.
Qed.

(** Cancelling is final.  After [cancel], whatever sequence of operations
    follows (timers added, refreshed, reset, expired), the timer never holds a
    callback again and is never in the set, so no later expiry can list it; and
    a second [cancel] reports that there was nothing to cancel. *)
Theorem cancel_is_final l b s s1 s2 :
  wf (manager s) → cancel l s = Ok (b, s1) → rtc tm_step s1 s2 →
  ¬ armed (store (manager s2)) l ∧ l ∉ m_timers (manager s2) ∧
  cancel l s2 = Ok (false, s2).
Proof.
  intros Hwf Hc Hs. destruct (cancel_disarms l b s s1 Hwf Hc) as [Hw Hd].
  destruct (steps_disarmed l s1 s2 Hs Hw Hd) as [Hw2 Hd2].
  pose proof (disarmed_not_armed _ _ Hd2) as Hn.
  split_and!; [done|by rewrite (wf_armed _ Hw2)|by apply cancel_disarmed].
Qed.

(** The emptiness test of [list_expired_cbs] is made under a read lock that
    is released before the write lock is taken.  If another thread cancels the
    last pending timer in between, the code dereferences [m_timers.begin()] of an
    empty set. *)
Theorem list_expired_race l now probe cbs s :
  wf (manager s) → m_timers (manager s) = [l] →
  ∃ s', list_expired_empty s = Ok (false, s) ∧ cancel l s = Ok (true, s') ∧
        list_expired_write now probe cbs s' = Fault (EndDeref "m_timers.begin()").
Proof.
  intros Hwf Hm. assert (Ha : armed (store (manager s)) l).
  { apply (wf_armed _ Hwf). rewrite Hm. by left. }
  destruct (cancel_returns l s) as (b & s' & Hc); [by destruct Ha as (x & -> & _)|].
  destruct (cancel_refines l s b s' Hwf Hc) as [Hw E]. simpl in E.
  rewrite decide_True in E by done. injection E as -> E.
  exists s'. split_and!; [unfold list_expired_empty, get_tm, gets; by rewrite Hm|done|].
  assert (He : m_timers (manager s') = []).
  { destruct (m_timers (manager s')) as [|k ks] eqn:Ek; [done|]. exfalso.
    assert (Hk : armed (store (manager s')) k) by (apply (wf_armed _ Hw); rewrite Ek; by left).
    rewrite E in Hk. destruct (decide (k = l)) as [->|Hne]; [by apply armed_clear in Hk|].
    rewrite armed_alter_ne in Hk by done. apply (wf_armed _ Hwf) in Hk.
    rewrite Hm in Hk. by apply list_elem_of_singleton in Hk. }
  unfold list_expired_write, get_tm, gets, bind, id. by rewrite He.
Qed.

(** Among timers due exactly at [now_ms] the code compares addresses with
    the probe it allocates.  When every pending timer is due at [now_ms] and lies
    above the probe, one call fires only the first of them and leaves the others
    as they were; when all lie below it, every one fires. *)
Theorem expiry_tie_depends_on_address now probe b ts s r s' :
  wf (manager s) → store (manager s) !! probe = None →
  m_timers (manager s) = b :: ts →
  (∀ l, l ∈ b :: ts → next_of (store (manager s)) l = now) →
  list_expired_cbs now probe [] s = Ok (r, s') →
  ((∀ l, l ∈ b :: ts → probe < l) → r = [cb_of (store (manager s)) b]) ∧
  ((∀ l, l ∈ b :: ts → l < probe) → r = cb_of (store (manager s)) <$> b :: ts).
Proof.
  intros Hwf Hp Hm Hall H.
  apply list_expired_ok in H as (_ & E & -> & _ & HE); [|done|done].
  rewrite (HE b ts Hm) by (rewrite Hall; [lia|by left]). clear HE.
  assert (Hb : ∀ l, l ∈ b :: ts → probe ≠ l →
    before (<[probe := Timer_probe now]> (store (manager s))) probe l = (probe <? l)).
  { intros l Hl Hne. unfold before, Comparator, next_of at 1 3. rewrite lookup_insert_eq. simpl.
    replace (next_of _ l) with now; [by rewrite Z.ltb_irrefl, Z.gtb_ltb, Z.ltb_irrefl|].
    rewrite <- (Hall l Hl). unfold next_of. by rewrite lookup_insert_ne. }
  unfold expired_keys. rewrite Hm. split; intros Hl.
  - assert (Hpb : probe < b) by (apply Hl; by left).
    simpl. rewrite (Hb b) by first [by left | lia].
    by rewrite (proj2 (Z.ltb_lt probe b)) by done.
  - rewrite StdSet.upper_bound_all; [by rewrite app_nil_l, (take_ge (b :: ts))|].
    apply Forall_forall. intros l Hin. specialize (Hl l Hin). rewrite Hb by first [done | lia]. lia.
Qed.

(** [detect_clock_rollover] reports a clock that went back by more than an
    hour, and, because the subtraction [m_previous_time - 3600000] is unsigned,
    any step back at all while the previous reading is within the first hour;
    either way the reading is remembered. *)
Theorem detect_clock_rollover_spec now s :
  is_u64 (m_previous_time (manager s)) → is_u64 now →
  ∃ b s', detect_clock_rollover now s = Ok (b, s') ∧
    m_previous_time (manager s') = now ∧ store (manager s') = store (manager s) ∧
    (b = true ↔ now < m_previous_time (manager s) ∧
                (now + 3600000 < m_previous_time (manager s) ∨
                 m_previous_time (manager s) < 3600000)).
Proof.
  intros Hp Hn. unfold is_u64 in *.
  unfold detect_clock_rollover, get_tm, modify_tm, bind, gets, modify, ret.
  eexists _, _. split; [reflexivity|].
  rewrite manager_set. unfold id. simpl. split_and!; [done|done|].
  rewrite andb_true_iff, !Z.ltb_lt. set (p := m_previous_time (manager s)) in *.
  destruct (Z.lt_ge_cases p 3600000).
  - rewrite u64_neg by lia. lia.
  - rewrite u64_id by (unfold is_u64; lia). lia.
Qed.
End properties.

(** ** Concrete instances

    A derived class whose [on_timer_insert_at_front] counts its calls. *)
Section plain_host.
#[global] Instance plain_host : TimerHost nat (TimerManager nat * nat) := {
  manager := fst;
  set_manager := λ t s, (t, snd s);
  on_timer_insert_at_front := modify (λ s, (fst s, S (snd s)));
}.

#[global] Instance plain_host_laws : TimerHostLaws nat (TimerManager nat * nat).
Proof. split; [done|]. intros s u s' H. by apply modify_ok in H as ->. Qed.

Lemma plain_front (s : TimerManager nat * nat) : safe on_timer_insert_at_front s.
Proof. by eexists _, _. Qed.

Lemma wf_intro (h : gmap Z (Timer nat)) (ts : list Z) p :
  StdSet.sorted (before h) ts → Forall (armed h) ts →
  map_Forall (λ l x, m_cb x = None ∨ l ∈ ts) h → wf (MkTimerManager h ts p).
Proof.
  intros Hs Ha Hm. split; [done|]. simpl. intros l. split.
  - rewrite Forall_forall in Ha. auto.
  - intros (x & Hx & Hn). by destruct (Hm l x Hx).
Qed.

(** Timer 1 is one-shot, 2 recurring, both due at 100; 3 is due at 200 and 4 has
    fired already. *)
Definition sample_store : gmap Z (Timer nat) :=
  {[ 1 := MkTimer false 50 100 (Some (Fun 10%nat)); 2 := MkTimer true 30 100 (Some (BindCond 7 (Some 20%nat)));
     3 := MkTimer false 150 200 (Some (Fun 30%nat)); 4 := MkTimer false 10 60 None ]}.
Definition sample : TimerManager nat * nat := (MkTimerManager sample_store [1; 2; 3] 90, 0%nat).
Definition sample_one : TimerManager nat * nat :=
  (MkTimerManager {[ 1 := MkTimer false 50 100 (Some (Fun 10%nat)) ]} [1] 90, 0%nat).
Definition sample_tie : TimerManager nat * nat :=
  (MkTimerManager {[ 5 := MkTimer false 50 100 (Some (Fun 10%nat));
                     6 := MkTimer false 50 100 (Some (Fun 20%nat)) ]} [5; 6] 90, 0%nat).

Lemma sample_wf : wf (manager sample).
Proof.
  apply wf_intro; [repeat constructor|repeat constructor; by eexists|].
  refine (bool_decide_unpack _ _). by vm_compute.
Qed.
Lemma sample_one_wf : wf (manager sample_one).
Proof.
  apply wf_intro; [repeat constructor|repeat constructor; by eexists|].
  refine (bool_decide_unpack _ _). by vm_compute.
Qed.
Lemma sample_tie_wf : wf (manager sample_tie).
Proof.
  apply wf_intro; [repeat constructor|repeat constructor; by eexists|].
  refine (bool_decide_unpack _ _). by vm_compute.
Qed.
End plain_host.

Lemma timer_manager_refines_spec_witness :
  ∃ s', run_op (OpReset 120 3 40 true) sample = Ok (ABool true, s') ∧
        m_timers (manager s') = [1; 2; 3] ∧ next_of (store (manager s')) 3 = 160.
Proof.
  destruct (timer_manager_refines_spec (OpReset 120 3 40 true) sample) as (r & s' & H & Hs & _).
  - exact plain_front.
  - exact sample_wf.
  - by eexists.
  - exists s'. vm_compute in H. injection H as <- <-. by vm_compute.
Defined.

Lemma list_expired_fires_due_witness :
  ∃ s' E, list_expired_cbs 100 77 [] sample = Ok ([] ++ (cb_of sample_store <$> E), s') ∧
          1 ∈ E ∧ 2 ∈ E ∧ 3 ∉ E.
Proof.
  destruct (list_expired_fires_due 100 77 [] sample) as (s' & E & H & _ & HE & _).
  - exact plain_front.
  - exact sample_wf.
  - by vm_compute.
  - exists s', E. split; [exact H|]. rewrite !HE. split_and!.
    + split; [by eexists|]. left. right. by vm_compute.
    + split; [by eexists|]. left. right. by vm_compute.
    + intros [_ Hl]. change (next_of (store (manager sample)) 3) with 200 in Hl.
      unfold past in Hl. change (next_of (store (manager sample)) 3) with 200 in Hl. lia.
Defined.

Lemma cancel_is_final_witness :
  ∃ s1 s2, cancel 1 sample = Ok (true, s1) ∧ rtc tm_step s1 s2 ∧
           ¬ armed (store (manager s2)) 1 ∧ cancel 1 s2 = Ok (false, s2).
Proof.
  destruct (cancel 1 sample) as [[b s1]|] eqn:Hc; [|vm_compute in Hc; discriminate Hc].
  assert (b = true) as -> by (vm_compute in Hc; congruence).
  destruct (list_expired_cbs 100 77 [] s1) as [[r s2]|] eqn:H; cycle 1.
  { vm_compute in Hc. injection Hc as <-. vm_compute in H. discriminate H. }
  assert (Hs : rtc tm_step s1 s2).
  { apply rtc_once. exists (OpExpired 100 77 []), (ACallbacks r). split; [|simpl; by rewrite (bind_step _ _ _ _ _ H)].
    vm_compute in Hc. injection Hc as <-. by vm_compute. }
  exists s1, s2.
  destruct (cancel_is_final 1 true sample s1 s2 sample_wf Hc Hs) as (H1 & _ & H2).
  by split_and!.
Defined.

Lemma list_expired_race_witness :
  ∃ s', cancel 1 sample_one = Ok (true, s') ∧
        list_expired_write 100 77 [] s' = Fault (EndDeref "m_timers.begin()").
Proof.
  destruct (list_expired_race 1 100 77 [] sample_one sample_one_wf eq_refl) as (s' & _ & H1 & H2).
  exact (ex_intro _ s' (conj H1 H2)).
Defined.

Lemma expiry_tie_depends_on_address_witness :
  (∃ s', list_expired_cbs 100 2 [] sample_tie = Ok ([Some (Fun 10%nat)], s')) ∧
  (∃ s', list_expired_cbs 100 9 [] sample_tie = Ok ([Some (Fun 10%nat); Some (Fun 20%nat)], s')).
Proof.
  assert (Hall : ∀ l, l ∈ [5; 6] → next_of (store (manager sample_tie)) l = 100).
  { intros l Hl. repeat (apply elem_of_cons in Hl as [->|Hl]; [by vm_compute|]).
    by apply not_elem_of_nil in Hl. }
  assert (Hcmp : ∀ l, l ∈ [5; 6] → 2 < l ∧ l < 9).
  { intros l Hl. repeat (apply elem_of_cons in Hl as [->|Hl]; [lia|]). by apply not_elem_of_nil in Hl. }
  split.
  - destruct (list_expired_cbs 100 2 [] sample_tie) as [[r s']|] eqn:H; [|vm_compute in H; discriminate H].
    destruct (expiry_tie_depends_on_address 100 2 5 [6] sample_tie r s') as [H1 _]; auto.
    + exact sample_tie_wf.
    + exists s'. rewrite H1; [done|]. intros. by apply Hcmp.
  - destruct (list_expired_cbs 100 9 [] sample_tie) as [[r s']|] eqn:H; [|vm_compute in H; discriminate H].
    destruct (expiry_tie_depends_on_address 100 9 5 [6] sample_tie r s') as [_ H1]; auto.
    + exact sample_tie_wf.
    + exists s'. rewrite H1; [done|]. intros. by apply Hcmp.
Defined.

Lemma detect_clock_rollover_spec_witness :
  ∃ b s', detect_clock_rollover 80 sample = Ok (b, s') ∧ m_previous_time (manager s') = 80 ∧ b = true.
Proof.
  destruct (detect_clock_rollover_spec 80 sample) as (b & s' & H & H1 & _ & H2).
  - unfold is_u64. simpl. lia.
  - unfold is_u64. lia.
  - exists b, s'. split_and!; [exact H|exact H1|]. apply H2. simpl. lia.
Defined.
End TimerFacts.
