(* ===== verification/Fibers.v ===== *)
(** * Fibers (fiber.h, fiber.cc)

    [Fiber] objects live in a store indexed by address; the two thread-local
    variables of fiber.cc and the one of scheduler.cc are tables indexed by thread
    id.  A saved [ucontext_t] is the point of the program where control was saved
    ([point]); [swapcontext] saves one point and yields the point it jumps to.

    The function a fiber runs is an element of a parameter type [B] of resumable
    bodies; [exec] runs a body up to its next transfer of control.  A transfer to
    a context other than the one that is waiting is reported as the fault
    [AssertFailed diverted]: [FiberFacts] shows it does not happen. *)
From stdpp Require Import base gmap list strings.
From Stdlib Require Import ZArith Lia.
From S2P Require Import Prelude.
Open Scope Z_scope.

Module Fiber.

(** [Fiber::State] *)
Inductive State := INIT | HOLD | EXEC | TERM | READY | EXCPT.
#[global] Instance State_eq_dec : EqDecision State.
Proof. solve_decision. Defined.

(** Which function [makecontext] binds. *)
Inductive entry := MainFunc | Caller_MainFunc.
#[global] Instance entry_eq_dec : EqDecision entry.
Proof. solve_decision. Defined.

(** Where a saved context resumes:
    - at the start of an entry function;
    - inside [cur->m_cb()], with [cur] the local variable of the entry function;
    - after the last [swapOut] or [back] of the entry function;
    - in [swapIn] or [call], waiting for fiber [f];
    - on a stack the model knows nothing of (a thread's own, after [getcontext]). *)
Inductive point (B : Type) :=
  | PEntry (e : entry)
  | PBody (e : entry) (cur : Z) (k : B)
  | PEnd (e : entry) (cur : Z)
  | PWait (f : Z)
  | PHost.
Arguments PEntry {B} e.
Arguments PBody {B} e cur k.
Arguments PEnd {B} e cur.
Arguments PWait {B} f.
Arguments PHost {B}.

(** What a body does when it gives up control: it returns, throws, calls
    [Yield_to_Ready] or [Yield_to_Hold], or calls [swapOut] itself. *)
Inductive segment (B : Type) :=
  | Returned
  | Threw
  | YieldedReady (k : B)
  | YieldedHold (k : B)
  | SwappedOut (k : B).
Arguments Returned {B}.
Arguments Threw {B}.
Arguments YieldedReady {B} k.
Arguments YieldedHold {B} k.
Arguments SwappedOut {B} k.

(** [class Fiber]; [m_stack] tells whether the stack pointer is non-null. *)
Record Fiber (B : Type) := MkFiber {
  m_id : Z;
  m_stacksize : Z;
  m_state : State;
  m_ctx : option (point B);
  m_stack : bool;
  m_cb : option B;
}.
Arguments MkFiber {B} _ _ _ _ _ _.
Arguments m_id {B} _.
Arguments m_stacksize {B} _.
Arguments m_state {B} _.
Arguments m_ctx {B} _.
Arguments m_stack {B} _.
Arguments m_cb {B} _.

Definition set_state {B} (st : State) (f : Fiber B) : Fiber B :=
  MkFiber (m_id f) (m_stacksize f) st (m_ctx f) (m_stack f) (m_cb f).
Definition set_ctx {B} (c : point B) (f : Fiber B) : Fiber B :=
  MkFiber (m_id f) (m_stacksize f) (m_state f) (Some c) (m_stack f) (m_cb f).
Definition set_cb {B} (cb : option B) (f : Fiber B) : Fiber B :=
  MkFiber (m_id f) (m_stacksize f) (m_state f) (m_ctx f) (m_stack f) cb.

(** Thread-local variables: [t_fiber] and [t_threadFiber] of fiber.cc and
    [t_fiber] of scheduler.cc, which [Scheduler::GetMainFiber] returns. *)
Record thread_locals := MkLocals {
  t_fiber : option Z;
  t_threadFiber : option Z;
  t_main : option Z;
}.
Definition no_locals : thread_locals := MkLocals None None None.

(** The store, the allocator, the static counters and the thread-local tables. *)
Record Fibers (B : Type) := MkFibers {
  heap : gmap Z (Fiber B);
  next_address : Z;
  s_fiber_id : Z;
  s_fiber_count : Z;
  fiber_stack_size : Z;
  locals : gmap Z thread_locals;
}.
Arguments MkFibers {B} _ _ _ _ _ _.
Arguments heap {B} _.
Arguments next_address {B} _.
Arguments s_fiber_id {B} _.
Arguments s_fiber_count {B} _.
Arguments fiber_stack_size {B} _.
Arguments locals {B} _.

Definition locals_of {B} (F : Fibers B) (t : Z) : thread_locals :=
  default no_locals (locals F !! t).
Definition upd_heap {B} (g : gmap Z (Fiber B) → gmap Z (Fiber B)) (F : Fibers B) : Fibers B :=
  MkFibers (g (heap F)) (next_address F) (s_fiber_id F) (s_fiber_count F) (fiber_stack_size F) (locals F).
Definition upd_locals {B} (t : Z) (g : thread_locals → thread_locals) (F : Fibers B) : Fibers B :=
  MkFibers (heap F) (next_address F) (s_fiber_id F) (s_fiber_count F) (fiber_stack_size F)
    (<[t := g (locals_of F t)]> (locals F)).

(** The operations of fiber.cc that do not run a body, on the fibers alone. *)
Section operations.
Context {B : Type}.
Local Abbreviation FM := (M (Fibers B)).

(** [p->...] for a fiber handle. *)
Definition fiber_at (f : Z) : FM (Fiber B) :=
  let* h := gets heap in deref (h !! f) "fiber".
Definition update_fiber (g : Fiber B → Fiber B) (f : Z) : FM unit :=
  modify (upd_heap (alter g f)).
Definition get_local {A} (t : Z) (g : thread_locals → A) : FM A :=
  gets (λ F, g (locals_of F t)).

Definition getId (f : Z) : FM Z := let* x := fiber_at f in ret (m_id x).
Definition getState (f : Z) : FM State := let* x := fiber_at f in ret (m_state x).
Definition setState (st : State) (f : Z) : FM unit :=
  fiber_at f ;;; update_fiber (set_state st) f.

(** [Fiber::SetThis] *)
Definition SetThis (t : Z) (f : option Z) : FM unit :=
  modify (upd_locals t (λ l, MkLocals f (t_threadFiber l) (t_main l))).

(** [new Fiber]: the object at a fresh address. *)
Definition allocate (x : Fiber B) : FM Z :=
  let* a := gets next_address in
  modify (λ F, MkFibers (<[a := x]> (heap F)) (a + 1) (s_fiber_id F) (s_fiber_count F)
                        (fiber_stack_size F) (locals F)) ;;;
  ret a.
Definition count (d : Z) : FM unit :=
  modify (λ F, MkFibers (heap F) (next_address F) (s_fiber_id F)
                        (u64 (s_fiber_count F + d)) (fiber_stack_size F) (locals F)).

(** [Fiber::Fiber()], the main fiber of a thread. *)
Definition Fiber_main (t : Z) : FM Z :=
  let* this := allocate (MkFiber 0 0 EXEC None false None) in
  SetThis t (Some this) ;;;
  update_fiber (set_ctx PHost) this ;;;
  count 1 ;;;
  ret this.

(** [Fiber::Fiber(cb, stacksize, use_caller)] *)
Definition Fiber_ctor (cb : option B) (stacksize : Z) (use_caller : bool) : FM Z :=
  modify (λ F, MkFibers (heap F) (next_address F) (u64 (s_fiber_id F + 1))
                        (s_fiber_count F) (fiber_stack_size F) (locals F)) ;;;
  let* id := gets s_fiber_id in
  let* this := allocate (MkFiber id 0 INIT None false cb) in
  count 1 ;;;
  let* conf := gets fiber_stack_size in
  let size := u32 (if stacksize =? 0 then conf else stacksize) in
  let e := if use_caller then Caller_MainFunc else MainFunc in
  update_fiber (λ x, MkFiber (m_id x) size INIT (Some (PEntry e)) true (m_cb x)) this ;;;
  ret this.

Definition settled (st : State) : bool :=
  match st with INIT | TERM | EXCPT => true | _ => false end.

(** [Fiber::~Fiber] *)
Definition Fiber_dtor (t this : Z) : FM unit :=
  count (-1) ;;;
  let* x := fiber_at this in
  (if m_stack x then
     assert_ (settled (m_state x)) "m_state == INIT || m_state == TERM || m_state == EXCPT"
   else
     assert_ (bool_decide (m_cb x = None)) "!m_cb" ;;;
     assert_ (bool_decide (m_state x = EXEC)) "m_state == EXEC" ;;;
     let* cur := get_local t t_fiber in
     when (bool_decide (cur = Some this)) (SetThis t None)) ;;;
  modify (upd_heap (base.delete this)).

(** [Fiber::reset] *)
Definition reset (cb : option B) (this : Z) : FM unit :=
  let* x := fiber_at this in
  assert_ (m_stack x) "m_stack" ;;;
  assert_ (settled (m_state x)) "m_state == INIT || m_state == TERM || m_state == EXCPT" ;;;
  update_fiber (λ x, MkFiber (m_id x) (m_stacksize x) INIT (Some (PEntry MainFunc)) (m_stack x) cb) this.

(** [Fiber::GetThis] *)
Definition GetThis (t : Z) : FM Z :=
  let* cur := get_local t t_fiber in
  match cur with
  | Some f => ret f
  | None =>
      let* main_fiber := Fiber_main t in
      let* now := get_local t t_fiber in
      assert_ (bool_decide (now = Some main_fiber)) "t_fiber == main_fiber.get()" ;;;
      modify (upd_locals t (λ l, MkLocals (t_fiber l) (Some main_fiber) (t_main l))) ;;;
      ret main_fiber
  end.

Definition GetFiberId (t : Z) : FM Z :=
  let* cur := get_local t t_fiber in
  match cur with Some f => getId f | None => ret 0 end.

Definition Total_Fibers : FM Z := gets s_fiber_count.

(** [swapcontext(&from->m_ctx, &to->m_ctx)] when [from]'s control is at [here]:
    the point control goes to. *)
Definition swapcontext (from : Z) (here : point B) (to : Z) : FM (point B) :=
  fiber_at from ;;;
  update_fiber (set_ctx here) from ;;;
  let* y := fiber_at to in
  deref (m_ctx y) "ucontext_t".

(** [Fiber::swapOut] *)
Definition swapOut (t this : Z) (here : point B) : FM (point B) :=
  let* main := get_local t t_main in
  SetThis t main ;;;
  let* m := deref main "Scheduler::GetMainFiber()" in
  swapcontext this here m.

(** [Fiber::back] *)
Definition back (t this : Z) (here : point B) : FM (point B) :=
  let* tf := get_local t t_threadFiber in
  let* m := deref tf "t_threadFiber" in
  SetThis t (Some m) ;;;
  swapcontext this here m.

(** [Fiber::Yield_to_Ready], [Fiber::Yield_to_Hold] *)
Definition Yield_to_Ready (t : Z) (here : point B) : FM (point B) :=
  let* cur := GetThis t in
  setState READY cur ;;;
  swapOut t cur here.
Definition Yield_to_Hold (t : Z) (here : point B) : FM (point B) :=
  let* cur := GetThis t in
  setState HOLD cur ;;;
  swapOut t cur here.

(** How the entry functions leave: [MainFunc] by [swapOut], [Caller_MainFunc] by
    [back]. *)
Definition leave (t : Z) (e : entry) (cur : Z) : FM (point B) :=
  match e with
  | MainFunc => swapOut t cur (PEnd e cur)
  | Caller_MainFunc => back t cur (PEnd e cur)
  end.

(** What the entry function and the yielding functions do once the body has
    given up control. *)
Definition after_segment (t : Z) (e : entry) (cur : Z) (seg : segment B) : FM (point B) :=
  match seg with
  | Returned =>
      update_fiber (set_cb None) cur ;;;
      setState TERM cur ;;;
      leave t e cur
  | Threw => setState EXCPT cur ;;; leave t e cur
  | YieldedReady k => Yield_to_Ready t (PBody e cur k)
  | YieldedHold k => Yield_to_Hold t (PBody e cur k)
  | SwappedOut k => let* c := GetThis t in swapOut t c (PBody e cur k)
  end.

(** The part of [swapIn] up to the [swapcontext]. *)
Definition swapIn_save (t this : Z) : FM (point B) :=
  SetThis t (Some this) ;;;
  let* x := fiber_at this in
  assert_ (bool_decide (m_state x ≠ EXEC)) "m_state != EXEC" ;;;
  setState EXEC this ;;;
  let* main := get_local t t_main in
  let* m := deref main "Scheduler::GetMainFiber()" in
  swapcontext m (PWait this) this.

(** The part of [call] up to the [swapcontext]. *)
Definition call_save (t this : Z) : FM (point B) :=
  SetThis t (Some this) ;;;
  let* x := fiber_at this in
  assert_ (bool_decide (m_state x ≠ EXEC)) "m_state != EXEC" ;;;
  setState EXEC this ;;;
  let* tf := get_local t t_threadFiber in
  let* m := deref tf "t_threadFiber" in
  swapcontext m (PWait this) this.
End operations.

(** The object that holds the fibers (the process), and the fiber operations
    carried out on it. *)
Class FiberHost (B S : Type) := {
  fibers : S → Fibers B;
  set_fibers : Fibers B → S → S;
}.
Class FiberHostLaws (B S : Type) `{!FiberHost B S} := {
  fibers_set : ∀ F s, fibers (set_fibers F s) = F;
  set_set_fibers : ∀ F F' s, set_fibers F (set_fibers F' s) = set_fibers F s;
}.

Definition on_fibers {B S A} `{!FiberHost B S} (m : M (Fibers B) A) : M S A := λ s,
  match m (fibers s) with
  | Ok (a, F) => Ok (a, set_fibers F s)
  | Fault e => Fault e
  end.

Section execution.
Context {B S : Type} `{!FiberHost B S}.
(** Runs a body to its next transfer of control, on the fiber's stack. *)
Variable exec : B → M S (segment B).

(** The [try] block of the entry functions, from inside [cur->m_cb()]. *)
Definition run_body (t : Z) (e : entry) (cur : Z) (b : B) : M S (point B) :=
  let* seg := exec b in on_fibers (after_segment t e cur seg).

(** [Fiber::MainFunc], [Fiber::Caller_MainFunc]; calling an empty
    [std::function] throws [bad_function_call]. *)
Definition enter (t : Z) (e : entry) : M S (point B) :=
  let* cur := on_fibers (GetThis t) in
  let* x := on_fibers (fiber_at cur) in
  match m_cb x with
  | Some b => run_body t e cur b
  | None => on_fibers (after_segment t e cur Threw)
  end.

(** Control arrives at a saved point; the result is the point it moves on to. *)
Definition resume (t : Z) (p : point B) : M S (point B) :=
  match p with
  | PEntry e => enter t e
  | PBody e cur k => run_body t e cur k
  | PEnd e cur => fail (AssertFailed "Should not reach here.")
  | PWait _ | PHost => fail (AssertFailed "diverted")
  end.

(** Control comes back to the [swapcontext] that waits for [f]. *)
Definition arrive (f : Z) (p : point B) : M S unit :=
  match p with
  | PWait g => assert_ (bool_decide (g = f)) "diverted"
  | _ => fail (AssertFailed "diverted")
  end.

(** [Fiber::swapIn] *)
Definition swapIn (t this : Z) : M S unit :=
  let* p := on_fibers (swapIn_save t this) in
  let* q := resume t p in
  arrive this q.

(** [Fiber::call] *)
Definition call (t this : Z) : M S unit :=
  let* p := on_fibers (call_save t this) in
  let* q := resume t p in
  arrive this q.
End execution.

(** ** Functions a client hands to a fiber

    A finite program over actions of type [A] that may give up control: what the
    examples under tests/ pass as callbacks. *)
Inductive script (A : Type) :=
  | Return
  | Throw
  | YieldReady (k : script A)
  | YieldHold (k : script A)
  | Act (a : A) (k : script A).
Arguments Return {A}.
Arguments Throw {A}.
Arguments YieldReady {A} k.
Arguments YieldHold {A} k.
Arguments Act {A} a k.

(** Runs a script up to the next point where it gives up control. *)
Fixpoint exec_script {A S} (act : A → M S unit) (k : script A) : M S (segment (script A)) :=
  match k with
  | Return => ret Returned
  | Throw => ret Threw
  | YieldReady k' => ret (YieldedReady k')
  | YieldHold k' => ret (YieldedHold k')
  | Act a k' => act a ;;; exec_script act k'
  end.
End Fiber.
