(* ===== verification/FiberFacts.v ===== *)
(** * Fibers: what switching does, and the life of a fiber

    [fiber_ok] ties the state of a fiber to the point its context was saved at;
    [swapIn] is given a functional specification from which the coroutine
    behaviour (a body runs exactly as if it had never been interrupted) follows. *)
From stdpp Require Import base gmap list strings.
From Stdlib Require Import ZArith Lia.
From S2P Require Import Prelude Fibers.
Open Scope Z_scope.

Module FiberFacts.
Import Fiber.

(** ** The invariant of one fiber *)
Section invariant.
Context {B : Type}.
Implicit Types (x y : Fiber B) (F : Fibers B).

(** A fiber with a stack resumes at the start of its entry function while [INIT],
    inside its function while suspended, and past its end once it has ended; a
    thread's main fiber, which has none, is always [EXEC]. *)
Definition fiber_ok (a : Z) x : Prop :=
  match m_state x with
  | INIT => m_stack x = true ∧ ∃ e, m_ctx x = Some (PEntry e)
  | HOLD | READY => m_stack x = true ∧ ∃ e k, m_ctx x = Some (PBody e a k)
  | TERM | EXCPT => m_stack x = true ∧ ∃ e, m_ctx x = Some (PEnd e a)
  | EXEC => True
  end.

(** All fibers of the process: addresses come from the allocator, the counter is
    the number of live fibers, ids of fibers with a stack are positive, unique
    and issued, and every fiber is well formed. *)
Record pool_ok F : Prop := {
  pool_fresh : ∀ a x, heap F !! a = Some x → a < next_address F;
  pool_count : s_fiber_count F = u64 (Z.of_nat (size (heap F)));
  pool_ids : ∀ a x, heap F !! a = Some x → m_stack x = true → 0 < m_id x <= s_fiber_id F;
  pool_unique : ∀ a b x y, heap F !! a = Some x → heap F !! b = Some y →
    m_stack x = true → m_stack y = true → m_id x = m_id y → a = b;
  pool_fibers : ∀ a x, heap F !! a = Some x → fiber_ok a x;
  pool_issued : is_u64 (s_fiber_id F);
}.

Lemma locals_of_upd t g F : locals_of (upd_locals t g F) t = g (locals_of F t).
Proof. unfold locals_of, upd_locals. simpl. by rewrite lookup_insert_eq. Qed.

Lemma locals_of_upd_ne t t' g F : t ≠ t' → locals_of (upd_locals t g F) t' = locals_of F t'.
Proof. intros. unfold locals_of, upd_locals. simpl. by rewrite lookup_insert_ne. Qed.

Lemma fiber_at_ok a F x F' : fiber_at a F = Ok (x, F') ↔ heap F !! a = Some x ∧ F' = F.
Proof.
  unfold fiber_at. rewrite bind_ok. split.
  - intros (h & F1 & H1 & H2). apply gets_ok in H1 as [-> ->]. by apply deref_ok in H2.
  - intros [H ->]. exists (heap F), F. by rewrite gets_ok, deref_ok.
Qed.
End invariant.

(** ** Switching *)
Section switching.
Context {B : Type}.
Implicit Types (x y : Fiber B) (F : Fibers B).

(** The fibers once [swapIn] has jumped: [f] is current and executing, the main
    fiber's context waits for it. *)
Definition swapped (t f m : Z) F : Fibers B :=
  upd_heap (alter (set_ctx (PWait f)) m)
    (upd_heap (alter (set_state EXEC) f)
      (upd_locals t (λ l, MkLocals (Some f) (t_threadFiber l) (t_main l)) F)).

(** What a segment leaves in the fiber that ran it. *)
Definition segment_state (seg : segment B) (st : State) : State :=
  match seg with
  | Returned => TERM | Threw => EXCPT
  | YieldedReady _ => READY | YieldedHold _ => HOLD
  | SwappedOut _ => st
  end.
Definition segment_point (e : entry) (f : Z) (seg : segment B) : point B :=
  match seg with
  | Returned | Threw => PEnd e f
  | YieldedReady k | YieldedHold k | SwappedOut k => PBody e f k
  end.
Definition segment_cb (seg : segment B) (cb : option B) : option B :=
  match seg with Returned => None | _ => cb end.
Definition after_fiber (e : entry) (f : Z) (seg : segment B) x : Fiber B :=
  MkFiber (m_id x) (m_stacksize x) (segment_state seg (m_state x))
    (Some (segment_point e f seg)) (m_stack x) (segment_cb seg (m_cb x)).
Definition settle (t f m : Z) (seg : segment B) F : Fibers B :=
  upd_heap (alter (after_fiber MainFunc f seg) f)
    (upd_locals t (λ l, MkLocals (Some m) (t_threadFiber l) (t_main l)) F).

Lemma swapIn_save_ok t f m F x y p :
  t_main (locals_of F t) = Some m → m ≠ f →
  heap F !! f = Some x → m_state x ≠ EXEC → m_ctx x = Some p →
  heap F !! m = Some y →
  swapIn_save t f F = Ok (p, swapped t f m F).
Proof.
  intros Hm Hne Hx Hst Hp Hy. unfold swapIn_save, SetThis, setState, get_local, update_fiber, swapcontext.
  rewrite (bind_step _ _ _ tt _ eq_refl).
  erewrite bind_step by (by apply fiber_at_ok).
  rewrite bool_decide_true by done. rewrite (bind_step _ _ _ tt _ eq_refl).
  erewrite bind_step; [|erewrite bind_step by (by apply fiber_at_ok); reflexivity].
  rewrite (bind_step _ _ _ _ _ eq_refl).
  unfold locals_of. simpl. rewrite lookup_insert_eq. simpl. rewrite Hm.
  rewrite (bind_step _ _ _ m _ eq_refl).
  erewrite bind_step; [|apply fiber_at_ok; split; [|done]; simpl; by rewrite lookup_alter_ne].
  rewrite (bind_step _ _ _ tt _ eq_refl).
  erewrite bind_step; cycle 1.
  { apply fiber_at_ok. split; [|done]. simpl. rewrite lookup_alter_ne, lookup_alter_eq by done.
    by rewrite Hx. }
  simpl. rewrite Hp. reflexivity.
Qed.

Lemma swapOut_ok t f m here F x y q :
  t_main (locals_of F t) = Some m → m ≠ f →
  heap F !! f = Some x → heap F !! m = Some y → m_ctx y = Some q →
  swapOut t f here F =
    Ok (q, upd_heap (alter (set_ctx here) f)
             (upd_locals t (λ l, MkLocals (Some m) (t_threadFiber l) (t_main l)) F)).
Proof.
  intros Hm Hne Hx Hy Hq. unfold swapOut, get_local, SetThis, swapcontext, update_fiber.
  rewrite (bind_step _ _ _ _ _ eq_refl), Hm. rewrite (bind_step _ _ _ tt _ eq_refl).
  rewrite (bind_step _ _ _ m _ eq_refl).
  erewrite bind_step by (by apply fiber_at_ok). rewrite (bind_step _ _ _ tt _ eq_refl).
  erewrite bind_step; [|apply fiber_at_ok; split; [|done]; simpl; by rewrite lookup_alter_ne].
  by rewrite Hq.
Qed.

Lemma setState_ok st f F x :
  heap F !! f = Some x → setState st f F = Ok (tt, upd_heap (alter (set_state st) f) F).
Proof. intros Hx. unfold setState. by erewrite bind_step by (by apply fiber_at_ok). Qed.

Lemma GetThis_ok t f F : t_fiber (locals_of F t) = Some f → GetThis t F = Ok (f, F).
Proof. intros Hf. unfold GetThis, get_local. rewrite (bind_step _ _ _ _ _ eq_refl). by rewrite Hf. Qed.

Lemma after_segment_ok t f m F x y q (seg : segment B) :
  t_fiber (locals_of F t) = Some f → t_main (locals_of F t) = Some m → m ≠ f →
  heap F !! f = Some x → heap F !! m = Some y → m_ctx y = Some q →
  after_segment t MainFunc f seg F = Ok (q, settle t f m seg F).
Proof.
  intros Hf Hm Hne Hx Hy Hq.
  assert (Hout : ∀ g here,
    swapOut t f here (upd_heap (alter g f) F) =
    Ok (q, upd_heap (alter (set_ctx here ∘ g) f)
      (upd_locals t (λ l, MkLocals (Some m) (t_threadFiber l) (t_main l)) F))).
  { intros g here. erewrite (swapOut_ok t f m here _ (g x) y q).
    - unfold upd_heap. simpl. by rewrite alter_alter_eq.
    - done.
    - done.
    - simpl. by rewrite lookup_alter_eq, Hx.
    - simpl. by rewrite lookup_alter_ne.
    - done. }
  destruct seg; simpl; unfold Yield_to_Ready, Yield_to_Hold, update_fiber.
  - rewrite (bind_step _ _ _ tt _ eq_refl).
    erewrite bind_step by (eapply setState_ok; simpl; by rewrite lookup_alter_eq, Hx).
    unfold upd_heap at 1. simpl. rewrite alter_alter_eq. by rewrite (Hout (set_state TERM ∘ set_cb None)).
  - erewrite bind_step by (by eapply setState_ok). by rewrite Hout.
  - erewrite bind_step by (by apply GetThis_ok).
    erewrite bind_step by (by eapply setState_ok). by rewrite Hout.
  - erewrite bind_step by (by apply GetThis_ok).
    erewrite bind_step by (by eapply setState_ok). by rewrite Hout.
  - erewrite bind_step by (by apply GetThis_ok).
    erewrite (swapOut_ok t f m _ F x y q) by done. reflexivity.
Qed.
End switching.

(** ** [swapIn] on a host *)
Section swap_in.
Context {B S : Type} `{!FiberHost B S} `{!FiberHostLaws B S}.
Variable exec : B → M S (segment B).
Implicit Types (F : Fibers B) (s : S).

(** What running a body may do to the fibers: create new ones. *)
Definition frame F F' : Prop :=
  locals F' = locals F ∧ ∀ a x, heap F !! a = Some x → heap F' !! a = Some x.

(** The fiber at [f] is suspended or new, its next segment is [b], and the thread
    has a main fiber to come back to. *)
Record runnable (t f m : Z) (b : B) F : Prop := {
  run_main : t_main (locals_of F t) = Some m;
  run_ne : m ≠ f;
  run_main_live : is_Some (heap F !! m);
  run_point : ∃ x, heap F !! f = Some x ∧ m_state x ≠ EXEC ∧
    ((m_ctx x = Some (PEntry MainFunc) ∧ m_cb x = Some b) ∨ m_ctx x = Some (PBody MainFunc f b));
}.

Lemma on_fibers_ok {A} (m : M (Fibers B) A) s a F :
  m (fibers s) = Ok (a, F) → on_fibers m s = Ok (a, set_fibers F s).
Proof. unfold on_fibers. by intros ->. Qed.

Lemma on_fibers_inv {A} (m : M (Fibers B) A) s a s' :
  on_fibers m s = Ok (a, s') → ∃ F, m (fibers s) = Ok (a, F) ∧ s' = set_fibers F s.
Proof.
  unfold on_fibers. destruct (m (fibers s)) as [[a' F]|]; [|done]. intros [= -> <-]. by exists F.
Qed.

Lemma swapped_lookup t f m F (x : Fiber B) :
  m ≠ f → heap F !! f = Some x → heap (swapped t f m F) !! f = Some (set_state EXEC x).
Proof. intros. simpl. rewrite lookup_alter_ne, lookup_alter_eq by done. by simplify_option_eq. Qed.

Lemma swapped_main t f m F (y : Fiber B) :
  m ≠ f → heap F !! m = Some y → heap (swapped t f m F) !! m = Some (set_ctx (PWait f) y).
Proof.
  intros Hne Hy. simpl. rewrite lookup_alter_eq, lookup_alter_ne by done. by rewrite Hy.
Qed.

Lemma locals_swapped t f m F :
  locals_of (swapped t f m F) t = MkLocals (Some f) (t_threadFiber (locals_of F t)) (t_main (locals_of F t)).
Proof. unfold locals_of. simpl. by rewrite lookup_insert_eq. Qed.

(** Control reaches the body. *)
Lemma resume_body t f m b F p s :
  runnable t f m b F → (∃ x, heap F !! f = Some x ∧ m_ctx x = Some p) →
  fibers s = swapped t f m F →
  resume exec t p s =
    bind (exec b) (λ seg, on_fibers (after_segment t MainFunc f seg)) (set_fibers (swapped t f m F) s)
  ∨ resume exec t p s = bind (exec b) (λ seg, on_fibers (after_segment t MainFunc f seg)) s.
Proof.
  intros [Hm Hne [y Hy] (x & Hx & Hst & Hpt)] (x' & Hx' & Hp) Hs. simplify_eq.
  destruct Hpt as [[Hc Hb]|Hc]; rewrite Hc in Hp; injection Hp as <-; simpl; [left|by right].
  unfold enter.
  assert (Ht : t_fiber (locals_of (fibers s) t) = Some f) by (by rewrite Hs, locals_swapped).
  assert (Hf : heap (fibers s) !! f = Some (set_state EXEC x)) by (rewrite Hs; by apply swapped_lookup).
  erewrite bind_step by (apply on_fibers_ok, GetThis_ok, Ht).
  assert (Hat : fiber_at f (fibers (set_fibers (fibers s) s)) = Ok (set_state EXEC x, fibers s))
    by (rewrite fibers_set; by apply fiber_at_ok).
  erewrite bind_step by (apply on_fibers_ok, Hat).
  simpl. rewrite Hb. unfold run_body. by rewrite set_set_fibers, Hs.
Qed.

Lemma swapIn_ok t f m b seg s s1 :
  runnable t f m b (fibers s) →
  exec b (set_fibers (swapped t f m (fibers s)) s) = Ok (seg, s1) →
  frame (swapped t f m (fibers s)) (fibers s1) →
  swapIn exec t f s = Ok (tt, set_fibers (settle t f m seg (fibers s1)) s1).
Proof.
  intros Hr He [Hloc Hfr]. pose proof Hr as [Hm Hne [y Hy] (x & Hx & Hst & Hpt)].
  assert (∃ p, m_ctx x = Some p) as [p Hp] by (destruct Hpt as [[-> _]| ->]; eauto).
  unfold swapIn. erewrite bind_step by (apply on_fibers_ok; by eapply swapIn_save_ok).
  set (F0 := swapped t f m (fibers s)) in *.
  assert (Hres : resume exec t p (set_fibers F0 s) =
    bind (exec b) (λ seg, on_fibers (after_segment t MainFunc f seg)) (set_fibers F0 s)).
  { destruct (resume_body t f m b (fibers s) p (set_fibers F0 s)) as [H|H]; eauto.
    - by rewrite fibers_set.
    - by rewrite H, set_set_fibers. }
  unfold bind at 1. rewrite Hres. erewrite bind_step by done.
  assert (Hl : locals_of (fibers s1) t = locals_of F0 t) by (unfold locals_of; by rewrite Hloc).
  erewrite on_fibers_ok; cycle 1.
  { apply (after_segment_ok t f m (fibers s1) (set_state EXEC x) (set_ctx (PWait f) y) (PWait f)).
    - rewrite Hl. unfold F0. by rewrite locals_swapped.
    - rewrite Hl. unfold F0. by rewrite locals_swapped.
    - done.
    - apply Hfr. by apply swapped_lookup.
    - apply Hfr. by apply swapped_main.
    - done. }
  simpl. unfold assert_. by rewrite bool_decide_true.
Qed.
(** A switch that comes back has run the body. *)
Lemma swapIn_inv t f m b s u s' :
  runnable t f m b (fibers s) → swapIn exec t f s = Ok (u, s') →
  ∃ seg s1, exec b (set_fibers (swapped t f m (fibers s)) s) = Ok (seg, s1).
Proof.
  intros Hr H. pose proof Hr as [Hm Hne [y Hy] (x & Hx & Hst & Hpt)].
  assert (∃ p, m_ctx x = Some p) as [p Hp] by (destruct Hpt as [[-> _]| ->]; eauto).
  unfold swapIn in H. erewrite bind_step in H by (apply on_fibers_ok; by eapply swapIn_save_ok).
  set (s0 := set_fibers (swapped t f m (fibers s)) s) in *.
  assert (Hres : resume exec t p s0 = bind (exec b) (λ seg, on_fibers (after_segment t MainFunc f seg)) s0).
  { destruct (resume_body t f m b (fibers s) p s0) as [H0|H0]; eauto.
    - unfold s0. by rewrite fibers_set.
    - rewrite H0. unfold s0. by rewrite set_set_fibers. }
  apply bind_ok in H as (q & s2 & H & _). rewrite Hres in H.
  apply bind_ok in H as (seg & s1 & H & _). by exists seg, s1.
Qed.
End swap_in.

(** ** The pool invariant under every operation *)
Section pool.
Context {B : Type}.
Implicit Types (x y : Fiber B) (F : Fibers B).

(** The invariant does not look at the thread-local tables. *)
Lemma pool_locals F F' :
  heap F' = heap F → next_address F' = next_address F →
  s_fiber_id F' = s_fiber_id F → s_fiber_count F' = s_fiber_count F → pool_ok F → pool_ok F'.
Proof. intros Eh En Ei Ec []. split; rewrite ?Eh, ?En, ?Ei, ?Ec; auto. Qed.

Lemma size_alter (g : Fiber B → Fiber B) a (h : gmap Z (Fiber B)) : size (alter g a h) = size h.
Proof.
  rewrite <- !size_dom. f_equal. apply set_eq. intros k. rewrite !elem_of_dom.
  apply lookup_alter_is_Some.
Qed.

Lemma pool_alter g a F :
  (∀ x, m_id (g x) = m_id x ∧ m_stack (g x) = m_stack x) →
  (∀ x, heap F !! a = Some x → fiber_ok a (g x)) →
  pool_ok F → pool_ok (upd_heap (alter g a) F).
Proof.
  intros Hg Hok [Hfr Hc Hid Hu Hf Hi].
  assert (Hl : ∀ k y, alter g a (heap F) !! k = Some y →
    ∃ x, heap F !! k = Some x ∧ m_id y = m_id x ∧ m_stack y = m_stack x ∧
         ((k = a ∧ y = g x) ∨ (k ≠ a ∧ y = x))).
  { intros k y Hk. apply lookup_alter_Some in Hk as [(-> & x & Hx & ->)|[Hne Hx]].
    - exists x. destruct (Hg x). split_and!; auto.
    - exists y. split_and!; auto. }
  split; simpl.
  - intros k y Hk. apply Hl in Hk as (x & Hx & _). eauto.
  - by rewrite size_alter.
  - intros k y Hk. apply Hl in Hk as (x & Hx & -> & -> & _). eauto.
  - intros k1 k2 y1 y2 H1 H2. apply Hl in H1 as (x1 & ? & -> & -> & _).
    apply Hl in H2 as (x2 & ? & -> & -> & _). eauto.
  - intros k y Hk. apply Hl in Hk as (x & Hx & _ & _ & [[-> ->]|[_ ->]]); auto.
  - done.
Qed.

(** A new object at the allocator's address. *)
Definition allocated (x : Fiber B) (id : Z) F : Fibers B :=
  MkFibers (<[next_address F := x]> (heap F)) (next_address F + 1) id
    (u64 (s_fiber_count F + 1)) (fiber_stack_size F) (locals F).

Lemma pool_allocated x id F :
  is_u64 id → s_fiber_id F <= id → (m_stack x = true → m_id x = id ∧ s_fiber_id F < id) →
  fiber_ok (next_address F) x → pool_ok F → pool_ok (allocated x id F).
Proof.
  intros Hid64 Hle Hid Hok [Hfr Hc Hids Hu Hf Hi]. unfold is_u64 in *.
  assert (Hn : heap F !! next_address F = None).
  { destruct (heap F !! next_address F) eqn:E; [|done]. apply Hfr in E. lia. }
  split; simpl.
  - intros a y Ha. apply lookup_insert_Some in Ha as [[<- _]|[_ Ha]]; [lia|].
    apply Hfr in Ha. lia.
  - rewrite map_size_insert_None, Hc by done. unfold u64. rewrite Zplus_mod_idemp_l. f_equal. lia.
  - intros a y Ha Hs. apply lookup_insert_Some in Ha as [[_ <-]|[_ Ha]].
    + destruct (Hid Hs). lia.
    + pose proof (Hids a y Ha Hs). lia.
  - intros a b y z Ha Hb Hsy Hsz Hyz.
    apply lookup_insert_Some in Ha as [[<- <-]|[Hne Ha]], Hb as [[<- <-]|[Hne' Hb]].
    + done.
    + pose proof (Hids b z Hb Hsz). destruct (Hid Hsy). lia.
    + pose proof (Hids a y Ha Hsy). destruct (Hid Hsz). lia.
    + eauto.
  - intros a y Ha. apply lookup_insert_Some in Ha as [[<- <-]|[_ Ha]]; eauto.
  - done.
Qed.

Lemma Fiber_ctor_eq cb size uc F :
  Fiber_ctor cb size uc F =
    Ok (next_address F,
        allocated (MkFiber (u64 (s_fiber_id F + 1))
                     (u32 (if size =? 0 then fiber_stack_size F else size)) INIT
                     (Some (PEntry (if uc then Caller_MainFunc else MainFunc))) true cb)
          (u64 (s_fiber_id F + 1)) F).
Proof.
  unfold Fiber_ctor, allocate, count, update_fiber, bind, gets, modify, ret, allocated, upd_heap. simpl.
  rewrite alter_insert_eq. by destruct uc.
Qed.

Lemma Fiber_main_eq t F :
  Fiber_main t F =
    Ok (next_address F,
        upd_locals t (λ l, MkLocals (Some (next_address F)) (t_threadFiber l) (t_main l))
          (allocated (MkFiber 0 0 EXEC (Some PHost) false None) (s_fiber_id F) F)).
Proof.
  unfold Fiber_main, allocate, SetThis, count, update_fiber, bind, gets, modify, ret, allocated,
    upd_heap, upd_locals. simpl. by rewrite alter_insert_eq.
Qed.

(** [GetThis] creates the thread's main fiber once, and then returns it. *)
Lemma GetThis_new t F :
  t_fiber (locals_of F t) = None →
  GetThis t F =
    Ok (next_address F,
        upd_locals t (λ l, MkLocals (Some (next_address F)) (Some (next_address F)) (t_main l))
          (allocated (MkFiber 0 0 EXEC (Some PHost) false None) (s_fiber_id F) F)).
Proof.
  intros Hn. unfold GetThis, get_local. rewrite (bind_step _ _ _ _ _ eq_refl), Hn.
  rewrite (bind_step _ _ _ _ _ (Fiber_main_eq t F)). rewrite (bind_step _ _ _ _ _ eq_refl).
  rewrite locals_of_upd. simpl. unfold assert_, bind, modify, ret.
  rewrite bool_decide_true by done. unfold upd_locals. simpl.
  do 3 f_equal. unfold locals_of. simpl. rewrite lookup_insert_eq. simpl.
  by rewrite insert_insert_eq.
Qed.

Lemma swapcontext_inv cur here to F q F' :
  swapcontext cur here to F = Ok (q, F') →
  is_Some (heap F !! cur) ∧ F' = upd_heap (alter (set_ctx here) cur) F.
Proof.
  unfold swapcontext, update_fiber. intros H. inv_ok.
  repeat match goal with H : fiber_at _ _ = _ |- _ => apply fiber_at_ok in H as [? ->] end.
  split; [by eexists|done].
Qed.

(** Leaving a segment changes the fiber that ran it and the current fiber. *)
Lemma after_segment_inv t e cur (seg : segment B) F q F' :
  t_fiber (locals_of F t) = Some cur → after_segment t e cur seg F = Ok (q, F') →
  is_Some (heap F !! cur) ∧ ∃ o,
  F' = upd_heap (alter (after_fiber e cur seg) cur)
         (upd_locals t (λ l, MkLocals o (t_threadFiber l) (t_main l)) F).
Proof.
  intros Ht H.
  assert (Halt : ∀ g here G o (G0 : Fibers B),
    is_Some (heap G0 !! cur) ∧ G = upd_heap (alter (set_ctx here) cur) G0 →
    G0 = upd_locals t (λ l, MkLocals o (t_threadFiber l) (t_main l)) (upd_heap (alter g cur) F) →
    is_Some (heap F !! cur) ∧ ∃ o, G = upd_heap (alter (set_ctx here ∘ g) cur)
      (upd_locals t (λ l, MkLocals o (t_threadFiber l) (t_main l)) F)).
  { intros g here G o G0 [Hs ->] ->. split; [by apply (lookup_alter_is_Some g (heap F) cur cur)|].
    exists o. unfold upd_heap, upd_locals. simpl. by rewrite alter_alter_eq. }
  assert (Hout : ∀ g here G, swapOut t cur here (upd_heap (alter g cur) F) = Ok (q, G) →
    is_Some (heap F !! cur) ∧ ∃ o, G = upd_heap (alter (set_ctx here ∘ g) cur)
      (upd_locals t (λ l, MkLocals o (t_threadFiber l) (t_main l)) F)).
  { intros g here G HG. unfold swapOut, SetThis, get_local in HG. inv_ok.
    eapply Halt; [by eapply swapcontext_inv|reflexivity]. }
  assert (Hback : ∀ g here G, back t cur here (upd_heap (alter g cur) F) = Ok (q, G) →
    is_Some (heap F !! cur) ∧ ∃ o, G = upd_heap (alter (set_ctx here ∘ g) cur)
      (upd_locals t (λ l, MkLocals o (t_threadFiber l) (t_main l)) F)).
  { intros g here G HG. unfold back, SetThis, get_local in HG. inv_ok.
    eapply Halt; [by eapply swapcontext_inv|reflexivity]. }
  assert (Hst : ∀ st (G G' : Fibers B) u, setState st cur G = Ok (u, G') → G' = upd_heap (alter (set_state st) cur) G).
  { intros st G G' u HG. unfold setState, update_fiber in HG. inv_ok.
    by match goal with H : fiber_at _ _ = _ |- _ => apply fiber_at_ok in H as [_ ->] end. }
  destruct seg; simpl in H; unfold Yield_to_Ready, Yield_to_Hold, update_fiber in H.
  - apply bind_ok in H as (u & F1 & H1 & H). apply modify_ok in H1 as ->.
    apply bind_ok in H as (u' & F1 & H1 & H). apply Hst in H1 as ->.
    unfold upd_heap at 1 2 in H. simpl in H. rewrite alter_alter_eq in H.
    destruct e; [by apply (Hout (set_state TERM ∘ set_cb None)) in H
                |by apply (Hback (set_state TERM ∘ set_cb None)) in H].
  - apply bind_ok in H as (u' & F1 & H1 & H). apply Hst in H1 as ->.
    destruct e; [by apply Hout in H|by apply Hback in H].
  - rewrite (bind_step _ _ _ _ _ (GetThis_ok _ _ _ Ht)) in H.
    apply bind_ok in H as (u' & F1 & H1 & H). apply Hst in H1 as ->. by apply Hout in H.
  - rewrite (bind_step _ _ _ _ _ (GetThis_ok _ _ _ Ht)) in H.
    apply bind_ok in H as (u' & F1 & H1 & H). apply Hst in H1 as ->. by apply Hout in H.
  - rewrite (bind_step _ _ _ _ _ (GetThis_ok _ _ _ Ht)) in H.
    assert (HF : upd_heap (alter (λ x, x) cur) F = F).
    { destruct F. unfold upd_heap. simpl. f_equal. by apply alter_id. }
    rewrite <- HF in H. by apply Hout in H.
Qed.

Lemma pool_delete a F : is_Some (heap F !! a) →
  pool_ok F → pool_ok (upd_heap (base.delete a) (MkFibers (heap F) (next_address F) (s_fiber_id F)
                         (u64 (s_fiber_count F + -1)) (fiber_stack_size F) (locals F))).
Proof.
  intros [x Hx] [Hfr Hc Hids Hu Hf Hi].
  assert (Hl : ∀ k y, base.delete a (heap F) !! k = Some y → heap F !! k = Some y).
  { intros k y Hk. by apply lookup_delete_Some in Hk as [_ Hk]. }
  split; simpl; eauto.
  rewrite Hc, map_size_delete_Some by eauto. unfold u64. rewrite Zplus_mod_idemp_l. f_equal.
  assert (size (heap F) ≠ 0%nat); [|lia].
  intros E. apply map_size_empty_inv in E. by rewrite E, lookup_empty in Hx.
Qed.

Lemma Fiber_dtor_inv t a F u F' :
  Fiber_dtor t a F = Ok (u, F') →
  is_Some (heap F !! a) ∧ heap F' = base.delete a (heap F) ∧
  next_address F' = next_address F ∧ s_fiber_id F' = s_fiber_id F ∧
  s_fiber_count F' = u64 (s_fiber_count F + -1).
Proof.
  unfold Fiber_dtor, count, get_local, SetThis. intros H.
  apply bind_ok in H as (u1 & F1 & H1 & H). apply modify_ok in H1 as ->.
  apply bind_ok in H as (x & F1 & H1 & H). apply fiber_at_ok in H1 as [Hx ->].
  apply bind_ok in H as (u2 & F1 & H1 & H). apply modify_ok in H as ->.
  split; [by eexists|]. destruct (m_stack x); inv_ok; [done|].
  match type of Hk with when ?b _ _ = _ => destruct b end; simpl in Hk; by inv_ok.
Qed.

Lemma switch_save_inv t this o F p F' (sel : thread_locals → option Z) w :
  (SetThis t (Some this) ;;;
   let* x := fiber_at this in
   assert_ (bool_decide (m_state x ≠ EXEC)) "m_state != EXEC" ;;;
   setState EXEC this ;;;
   let* main := get_local t sel in
   let* m := deref main w in
   swapcontext m (PWait this) this) F = Ok (p, F') →
  o = sel (MkLocals (Some this) (t_threadFiber (locals_of F t)) (t_main (locals_of F t))) →
  ∃ m x, o = Some m ∧ heap F !! this = Some x ∧ m_state x ≠ EXEC ∧ F' = swapped t this m F.
Proof.
  intros H ->. unfold SetThis, setState, get_local, update_fiber in H.
  apply bind_ok in H as (u1 & F1 & H1 & H). apply modify_ok in H1 as ->.
  apply bind_ok in H as (x & F1 & H1 & H). apply fiber_at_ok in H1 as [Hx ->].
  apply bind_ok in H as (u2 & F1 & H1 & H). apply assert_ok in H1 as [Hst%bool_decide_eq_true ->].
  apply bind_ok in H as (u3 & F1 & H1 & H).
  apply bind_ok in H1 as (x' & F2 & H1 & H2). apply fiber_at_ok in H1 as [_ ->].
  apply modify_ok in H2 as ->.
  apply bind_ok in H as (o & F1 & H1 & H). apply gets_ok in H1 as [-> ->].
  apply bind_ok in H as (m & F1 & H1 & H). apply deref_ok in H1 as [Hm ->].
  apply swapcontext_inv in H as [_ ->].
  exists m, x. split_and!; [|exact Hx|exact Hst|reflexivity].
  rewrite <- Hm. f_equal. unfold locals_of. simpl. by rewrite lookup_insert_eq.
Qed.

Lemma pool_swapped t f m F :
  (∀ y, heap F !! m = Some y → m_state y = EXEC) →
  pool_ok F → pool_ok (swapped t f m F).
Proof.
  intros Hm HF. apply pool_alter; [by intros []| |apply pool_alter; [by intros []| |]].
  - intros x Hx. simpl in Hx. unfold fiber_ok. simpl.
    apply lookup_alter_Some in Hx as [(_ & y & _ & ->)|[_ Hy]]; [done|by rewrite (Hm x)].
  - intros x _. exact I.
  - by apply (pool_locals F).
Qed.

(** One operation on the fibers of the process.  The premises say: ids have not
    wrapped around; the fiber that switches is the current one; the
    main fiber it switches from is executing and the one that leaves has a stack; the scheduler only puts on hold a
    fiber that is suspended inside its function. *)
Inductive pool_step F F' : Prop :=
  | step_ctor cb size uc a :
      s_fiber_id F + 1 < 2 ^ 64 → Fiber_ctor cb size uc F = Ok (a, F') → pool_step F F'
  | step_this t a : GetThis t F = Ok (a, F') → pool_step F F'
  | step_dtor t a u : Fiber_dtor t a F = Ok (u, F') → pool_step F F'
  | step_reset cb a u : reset cb a F = Ok (u, F') → pool_step F F'
  | step_swapIn t a p :
      (∀ m y, t_main (locals_of F t) = Some m → heap F !! m = Some y →
              m_state y = EXEC) →
      swapIn_save t a F = Ok (p, F') → pool_step F F'
  | step_call t a p :
      (∀ m y, t_threadFiber (locals_of F t) = Some m → heap F !! m = Some y →
              m_state y = EXEC) →
      call_save t a F = Ok (p, F') → pool_step F F'
  | step_leave t e cur seg p :
      t_fiber (locals_of F t) = Some cur →
      (∀ x, heap F !! cur = Some x → m_state x = EXEC ∧ m_stack x = true) →
      after_segment t e cur seg F = Ok (p, F') → pool_step F F'
  | step_hold a x e k u :
      heap F !! a = Some x → m_stack x = true → m_ctx x = Some (PBody e a k) →
      setState HOLD a F = Ok (u, F') → pool_step F F'.

Lemma pool_step_ok F F' : pool_step F F' → pool_ok F → pool_ok F'.
Proof.
  intros H HF. destruct H as [cb size uc a Hid H|t a H|t a u H|cb a u H|t a p Hm H|t a p Hm H
    |t e cur seg p Ht Hx H|a x e k u Hx Hs Hc H].
  - rewrite Fiber_ctor_eq in H. injection H as _ <-.
    pose proof (pool_issued _ HF) as Hi. unfold is_u64 in Hi.
    rewrite !u64_id by (unfold is_u64; lia).
    apply pool_allocated; unfold is_u64; simpl; try lia; try done. split; [done|by eexists].
  - destruct (t_fiber (locals_of F t)) as [f|] eqn:E.
    + rewrite (GetThis_ok _ _ _ E) in H. by injection H as _ <-.
    + rewrite (GetThis_new _ _ E) in H. injection H as _ <-.
      eapply (pool_locals (allocated _ (s_fiber_id F) F)); [done|done|done|done|].
      apply pool_allocated; [apply HF|lia|done|done|done].
  - apply Fiber_dtor_inv in H as (Ha & Hh & Hn & Hi & Hc).
    eapply pool_locals; [| | | |by apply (pool_delete a F)]; done.
  - unfold reset, update_fiber in H. inv_ok.
    apply (pool_alter (λ x, MkFiber (m_id x) (m_stacksize x) INIT (Some (PEntry MainFunc)) (m_stack x) cb)).
    + by intros [].
    + intros y Hy. split; [|by eexists].
      match goal with H : fiber_at _ _ = _ |- _ => apply fiber_at_ok in H as [Hy' ->] end. by simplify_eq.
    + by match goal with H : fiber_at _ _ = _ |- _ => apply fiber_at_ok in H as [_ ->] end.
  - unfold swapIn_save in H. eapply switch_save_inv in H as (m & x & Ho & _ & _ & ->); [|done].
    apply pool_swapped; [|done]. intros y. by apply Hm.
  - unfold call_save in H. eapply switch_save_inv in H as (m & x & Ho & _ & _ & ->); [|done].
    apply pool_swapped; [|done]. intros y. by apply Hm.
  - apply after_segment_inv in H as [_ [o ->]]; [|done].
    apply pool_alter; [by intros []| |by apply (pool_locals F)].
    intros x Hx'. simpl in Hx'. destruct (Hx x Hx') as [Hst Hs]. unfold fiber_ok.
    destruct seg; simpl; rewrite ?Hst; eauto.
  - rewrite (setState_ok _ _ _ _ Hx) in H. injection H as _ <-.
    apply pool_alter; [by intros []| |done]. intros x' Hx'. simplify_eq. split; simpl; eauto.
Qed.
End pool.

(** ** Coroutines *)
Section coroutine.
Context {A E : Type} (step : A → E → E).
Local Abbreviation host := (Fibers (script A) * E)%type.

(** A process whose scripts act on a state of their own. *)
#[global] Instance script_host : FiberHost (script A) host := {
  fibers := fst;
  set_fibers := λ F s, (F, snd s);
}.
#[global] Instance script_host_laws : FiberHostLaws (script A) host.
Proof. by split. Qed.

Definition act (a : A) : M host unit := modify (λ s, (s.1, step a s.2)).

(** The script run in one go, as an ordinary function would. *)
Fixpoint straight (k : script A) (e : E) : E :=
  match k with
  | Return | Throw => e
  | YieldReady k' | YieldHold k' => straight k' e
  | Act a k' => straight k' (step a e)
  end.
Fixpoint yields (k : script A) : nat :=
  match k with
  | Return | Throw => 0
  | YieldReady k' | YieldHold k' => Datatypes.S (yields k')
  | Act _ k' => yields k'
  end.
Fixpoint final_state (k : script A) : State :=
  match k with
  | Return => TERM
  | Throw => EXCPT
  | YieldReady k' | YieldHold k' | Act _ k' => final_state k'
  end.

(** Switching the fiber in [n] times. *)
Fixpoint drive (t f : Z) (n : nat) : M host unit :=
  match n with
  | O => ret tt
  | Datatypes.S n' => swapIn (exec_script act) t f ;;; drive t f n'
  end.

(** The segment of a script up to its first yield. *)
Lemma exec_script_segment k F e :
  ∃ seg e', exec_script act k (F, e) = Ok (seg, (F, e')) ∧
    match seg with
    | Returned => yields k = 0%nat ∧ straight k e = e' ∧ final_state k = TERM
    | Threw => yields k = 0%nat ∧ straight k e = e' ∧ final_state k = EXCPT
    | YieldedReady k' | YieldedHold k' =>
        yields k = Datatypes.S (yields k') ∧ straight k e = straight k' e' ∧
        final_state k = final_state k'
    | SwappedOut _ => False
    end.
Proof.
  revert e. induction k as [| |k IH|k IH|a k IH]; intros e; simpl.
  - by exists Returned, e.
  - by exists Threw, e.
  - by exists (YieldedReady k), e.
  - by exists (YieldedHold k), e.
  - destruct (IH (step a e)) as (seg & e' & H & Hs). by exists seg, e'.
Qed.

Lemma frame_refl {B} (F : Fibers B) : frame F F.
Proof. by split. Qed.

(** After a yield the fiber can be switched in again. *)
Lemma settle_runnable {B} t f m (b b' : B) (seg : segment B) (F : Fibers B) :
  runnable t f m b F → seg = YieldedReady b' ∨ seg = YieldedHold b' →
  runnable t f m b' (settle t f m seg (swapped t f m F)).
Proof.
  intros [Hm Hne [y Hy] (x & Hx & Hst & Hpt)] Hseg. split.
  - unfold locals_of. simpl. rewrite !lookup_insert_eq. simpl. unfold locals_of. simpl.
    rewrite lookup_insert_eq. done.
  - done.
  - simpl. rewrite !lookup_alter_is_Some. by eexists.
  - eexists. split; [simpl; rewrite lookup_alter_eq, lookup_alter_ne, lookup_alter_eq, Hx by done; done|].
    destruct Hseg as [-> | ->]; simpl; (split; [done|by right]).
Qed.

Lemma swapIn_script t f m k F e :
  runnable t f m k F →
  ∃ seg e', exec_script act k (F, e) = Ok (seg, (F, e')) ∧
    swapIn (exec_script act) t f (F, e) = Ok (tt, (settle t f m seg (swapped t f m F), e')).
Proof.
  intros Hr. destruct (exec_script_segment k (swapped t f m F) e) as (seg & e' & H & _).
  destruct (exec_script_segment k F e) as (seg2 & e2 & H2 & _).
  assert (Hsame : ∀ k0 F1 F2 e0 sg er, exec_script act k0 (F1, e0) = Ok (sg, (F1, er)) →
    exec_script act k0 (F2, e0) = Ok (sg, (F2, er))).
  { clear. intros k0 F1 F2. induction k0; intros e0 sg er Hk; simpl in *; try (by injection Hk as <- <-).
    unfold bind, act, modify in *. simpl in *. by apply IHk0. }
  pose proof (Hsame _ _ F _ _ _ H) as H'. exists seg, e'. split; [done|].
  exact (swapIn_ok (exec_script act) t f m k seg (F, e) (swapped t f m F, e') Hr H (frame_refl _)).
Qed.

Lemma drive_script t f m n k F e :
  runnable t f m k F → n = yields k →
  ∃ F' x, drive t f (Datatypes.S n) (F, e) = Ok (tt, (F', straight k e)) ∧
          heap F' !! f = Some x ∧ m_state x = final_state k ∧
          t_fiber (locals_of F' t) = Some m.
Proof.
  revert k F e. induction n as [|n IH]; intros k F e Hr Hn;
    destruct (exec_script_segment k F e) as (seg & e' & He & Hseg);
    destruct (swapIn_script t f m k F e Hr) as (seg2 & e2 & He2 & Hs);
    rewrite He2 in He; injection He as -> ->.
  - assert (Hdone : ∀ st, m_state (after_fiber MainFunc f seg (MkFiber 0 0 st None false None)) = final_state k ∧ e' = straight k e).
    { intros st. destruct seg; simpl in *; try done; destruct Hseg as (H1 & H2 & H3);
        first [by split | lia]. }
    destruct (run_point _ _ _ _ _ Hr) as (x & Hx & _).
    eexists _, _. split_and!.
    + simpl. rewrite (bind_step _ _ _ _ _ Hs). destruct (Hdone INIT) as [_ <-]. reflexivity.
    + simpl. rewrite lookup_alter_eq, lookup_alter_ne, lookup_alter_eq by (by destruct Hr).
      by rewrite Hx.
    + destruct (Hdone EXEC) as [<- _]. by destruct seg.
    + unfold locals_of. simpl. by rewrite lookup_insert_eq.
  - assert (∃ k', (seg = YieldedReady k' ∨ seg = YieldedHold k') ∧ n = yields k' ∧
      straight k e = straight k' e' ∧ final_state k = final_state k') as (k' & Hk' & Hy & Hst & Hfin).
    { destruct seg as [| |k'|k'|k']; [| | | |done]; destruct Hseg as (H1 & H2 & H3); try lia;
        exists k'; (split_and!; [auto|lia|done|done]). }
    destruct (IH k' _ e' (settle_runnable _ _ _ _ _ _ _ Hr Hk') Hy) as (F' & x & Hd & Hx & Hf & Ht).
    exists F', x. rewrite Hst, Hfin. split_and!; try done.
    change (drive t f (Datatypes.S (Datatypes.S n))) with
      (swapIn (exec_script act) t f ;;; drive t f (Datatypes.S n)).
    by rewrite (bind_step _ _ _ _ _ Hs).
Qed.
End coroutine.

(** ** Properties *)

(** The process before any fiber exists. *)
Definition no_fibers {B} (stack_size : Z) : Fibers B := MkFibers ∅ 1 0 0 stack_size ∅.

(** C15: in every process state reachable by creating fibers, asking for the current
    one, switching them in and out, resetting and destroying them:
    [Total_Fibers] is the number of live fiber objects, the ids of fibers with a
    stack are pairwise distinct and have been issued, new objects do not overlap
    live ones, and the state of a fiber matches the point where it resumes (an
    [INIT] fiber at its entry function, a [HOLD] or [READY] one inside its
    function, a [TERM] or [EXCPT] one past its end). *)
Theorem fiber_pool_invariant {B} (stack_size : Z) (F : Fibers B) :
  rtc pool_step (no_fibers stack_size) F → pool_ok F.
Proof.
  assert (H0 : pool_ok (no_fibers (B := B) stack_size)).
  { by split; simpl; try (intros *; rewrite lookup_empty). }
  revert H0. generalize (no_fibers (B := B) stack_size) as G. intros G H0 H.
  induction H as [|G G1 G2 H1 _ IH]; [done|]. apply IH. by eapply pool_step_ok.
Qed.

Section properties.
Context {B S : Type} `{!FiberHost B S} `{!FiberHostLaws B S}.
Variable exec : B → M S (segment B).

(** Switching in a new or suspended fiber runs exactly one segment of its
    function, on the fiber (the current-fiber variable names it, it is [EXEC] and
    the main fiber's context waits for it while the segment runs), and returns
    with the main fiber current again.  The fiber is left [TERM] without a
    callback if the function returned, [EXCPT] if it threw, [READY] or [HOLD] if it
    yielded, with its context at the place to resume; no other fiber and no other
    thread's variables are changed by the switch. *)
Theorem swapIn_runs_one_segment t f m b seg s s1 :
  runnable t f m b (fibers s) →
  exec b (set_fibers (swapped t f m (fibers s)) s) = Ok (seg, s1) →
  frame (swapped t f m (fibers s)) (fibers s1) →
  ∃ s', swapIn exec t f s = Ok (tt, s') ∧
    t_fiber (locals_of (fibers s') t) = Some m ∧
    (∀ t', t' ≠ t → locals_of (fibers s') t' = locals_of (fibers s1) t') ∧
    heap (fibers s') !! f = after_fiber MainFunc f seg <$> (set_state EXEC <$> heap (fibers s) !! f) ∧
    (∀ g, g ≠ f → heap (fibers s') !! g = heap (fibers s1) !! g).
Proof.
  intros Hr He Hfr. exists (set_fibers (settle t f m seg (fibers s1)) s1).
  split; [by eapply swapIn_ok|]. rewrite fibers_set.
  destruct Hr as [_ Hne _ (x & Hx & _)]. destruct Hfr as [_ Hfr].
  specialize (Hfr f _ (swapped_lookup t f m _ x Hne Hx)). split_and!.
  - unfold settle, upd_heap, locals_of at 1. simpl. by rewrite lookup_insert_eq.
  - intros t' Ht'. unfold locals_of. simpl. by rewrite lookup_insert_ne.
  - simpl. by rewrite lookup_alter_eq, Hfr, Hx.
  - intros g Hg. simpl. by rewrite lookup_alter_ne.
Qed.

(** The ways switching in stops the process: a fiber that is already
    executing fails the assertion; a thread on which no scheduler has set a main
    fiber dereferences a null pointer; and a fiber whose function has ended and
    that was not reset runs into the code past its end, which asserts false. *)
Theorem swapIn_faults t f s x :
  heap (fibers s) !! f = Some x →
  (m_state x = EXEC → swapIn exec t f s = Fault (AssertFailed "m_state != EXEC")) ∧
  (m_state x ≠ EXEC → t_main (locals_of (fibers s) t) = None →
     swapIn exec t f s = Fault (NullDeref "Scheduler::GetMainFiber()")) ∧
  (∀ m e cur, m_state x ≠ EXEC → t_main (locals_of (fibers s) t) = Some m → m ≠ f →
     is_Some (heap (fibers s) !! m) → m_ctx x = Some (PEnd e cur) →
     swapIn exec t f s = Fault (AssertFailed "Should not reach here.")).
Proof.
  intros Hx. unfold swapIn, on_fibers. split_and!.
  - intros Hst. unfold bind at 1, swapIn_save.
    rewrite (bind_step _ _ _ tt _ eq_refl). erewrite bind_step by (by apply fiber_at_ok).
    unfold bind, assert_. rewrite bool_decide_false; [done|]. intros Hn. by apply Hn.
  - intros Hst Hm. unfold bind at 1, swapIn_save.
    rewrite (bind_step _ _ _ tt _ eq_refl). erewrite bind_step by (by apply fiber_at_ok).
    rewrite bool_decide_true by done. rewrite (bind_step _ _ _ tt _ eq_refl).
    erewrite bind_step by (by eapply setState_ok). unfold get_local.
    rewrite (bind_step _ _ _ _ _ eq_refl). unfold locals_of. simpl. rewrite lookup_insert_eq.
    simpl. by rewrite Hm.
  - intros m e cur Hst Hm Hne [y Hy] Hc. unfold bind at 1.
    by rewrite (swapIn_save_ok t f m _ x y _ Hm Hne Hx Hst Hc Hy).
Qed.
End properties.

(** C16: a script that runs in a fiber computes what it would compute if it were
    called as an ordinary function: for a script that yields [n] times, switching
    its fiber in [n + 1] times performs all its actions, in order, each once, and
    leaves the fiber [TERM] (or [EXCPT] if the script throws) with the thread back on
    its main fiber. *)
Theorem coroutine_is_straight_line {A E} (step : A → E → E) t f m k (F : Fibers (script A)) e :
  runnable t f m k F →
  ∃ F' x, drive step t f (S (yields k)) (F, e) = Ok (tt, (F', straight step k e)) ∧
          heap F' !! f = Some x ∧ m_state x = final_state k ∧
          t_fiber (locals_of F' t) = Some m.
Proof. intros Hr. by apply drive_script. Qed.

(** ** Concrete instances *)
Section instances.
(** Thread 1 with its main fiber at address 1 and a fiber at address 2 that runs
    a script recording numbers. *)
Definition demo_script : script nat :=
  Act 1%nat (YieldReady (Act 2%nat (YieldHold (Act 3%nat Return)))).
Definition demo_main : Fiber (script nat) := MkFiber 0 0 EXEC (Some PHost) false None.
Definition demo_fiber (st : State) (c : point (script nat)) : Fiber (script nat) :=
  MkFiber 1 1024 st (Some c) true (Some demo_script).
Definition demo_fibers (st : State) (c : point (script nat)) : Fibers (script nat) :=
  MkFibers {[ 1 := demo_main; 2 := demo_fiber st c ]}
    3 1 2 1024 {[ 1 := MkLocals (Some 1) (Some 1) (Some 1) ]}.
Definition demo_step (n : nat) (log : list nat) : list nat := log ++ [n].
Definition demo_exec := exec_script (act demo_step).

Lemma demo_runnable : runnable 1 2 1 demo_script (demo_fibers INIT (PEntry MainFunc)).
Proof. split; [done|done|by eexists|]. eexists. split; [done|]. split; [done|by left]. Qed.
End instances.

Lemma fiber_pool_invariant_witness :
  ∃ F : Fibers (script nat),
    rtc pool_step (no_fibers 1024) F ∧ size (heap F) = 2%nat ∧ pool_ok F.
Proof.
  destruct (GetThis 1 (no_fibers (B := script nat) 1024)) as [[a F1]|] eqn:H1;
    [|vm_compute in H1; discriminate H1].
  destruct (Fiber_ctor (Some demo_script) 0 false F1) as [[b F2]|] eqn:H2;
    [|vm_compute in H1; injection H1 as <- <-; vm_compute in H2; discriminate H2].
  assert (Hs : rtc pool_step (no_fibers 1024) F2).
  { eapply rtc_l; [by eapply step_this|]. eapply rtc_once, step_ctor; [|exact H2].
    vm_compute in H1. injection H1 as <- <-. by vm_compute. }
  exists F2. split_and!; [exact Hs| |exact (fiber_pool_invariant 1024 F2 Hs)].
  vm_compute in H1. injection H1 as <- <-. vm_compute in H2. injection H2 as <- <-. by vm_compute.
Defined.

Lemma swapIn_runs_one_segment_witness :
  ∃ s', swapIn demo_exec 1 2 (demo_fibers INIT (PEntry MainFunc), []) = Ok (tt, s') ∧
        t_fiber (locals_of (fibers s') 1) = Some 1.
Proof.
  destruct (swapIn_runs_one_segment demo_exec 1 2 1 demo_script
    (YieldedReady (Act 2%nat (YieldHold (Act 3%nat Return))))
    (demo_fibers INIT (PEntry MainFunc), [])
    (swapped 1 2 1 (demo_fibers INIT (PEntry MainFunc)), [1%nat])) as (s' & H & Ht & _).
  - exact demo_runnable.
  - reflexivity.
  - apply frame_refl.
  - exact (ex_intro _ s' (conj H Ht)).
Defined.

Lemma swapIn_faults_witness :
  swapIn demo_exec 1 2 (demo_fibers EXEC PHost, []) = Fault (AssertFailed "m_state != EXEC") ∧
  swapIn demo_exec 9 2 (demo_fibers HOLD PHost, []) = Fault (NullDeref "Scheduler::GetMainFiber()") ∧
  swapIn demo_exec 1 2 (demo_fibers TERM (PEnd MainFunc 2), []) =
    Fault (AssertFailed "Should not reach here.").
Proof.
  assert (Hl : ∀ st c, heap (fibers (demo_fibers st c, @nil nat)) !! 2 = Some (demo_fiber st c))
    by (intros; by vm_compute).
  split_and!.
  - by apply (swapIn_faults demo_exec 1 2 (demo_fibers EXEC PHost, []) _ (Hl EXEC PHost)).
  - by apply (swapIn_faults demo_exec 9 2 (demo_fibers HOLD PHost, []) _ (Hl HOLD PHost)).
  - apply (proj2 (proj2 (swapIn_faults demo_exec 1 2 (demo_fibers TERM (PEnd MainFunc 2), []) _
      (Hl TERM (PEnd MainFunc 2)))) 1 MainFunc 2); by try eexists.
Defined.

Lemma coroutine_is_straight_line_witness :
  ∃ F' x, drive demo_step 1 2 3 (demo_fibers INIT (PEntry MainFunc), []) = Ok (tt, (F', [1%nat; 2%nat; 3%nat])) ∧
          heap F' !! 2 = Some x ∧ m_state x = TERM.
Proof.
  destruct (coroutine_is_straight_line demo_step 1 2 1 demo_script _ [] demo_runnable)
    as (F' & x & H & Hx & Hf & _).
  exists F', x. exact (conj H (conj Hx Hf)).
Defined.
End FiberFacts.
