(* ===== verification/Schedulers.v ===== *)
(** * The coroutine scheduler (scheduler.h, scheduler.cc)

    [Scheduler] is the base class; [tickle], [stopping] and [idle] are virtual, so
    a derived class provides them through the interface [SchedulerHost].  A
    callback handed to the scheduler is an element of the parameter type [B] of
    resumable bodies (see Fibers.v).  [run_iter] is one round of the loop in
    [Scheduler::run] on one thread; the parts of it that take the scheduler's lock
    are single steps. *)
From stdpp Require Import base gmap list strings.
From Stdlib Require Import ZArith Lia.
From S2P Require Import Prelude Fibers.
Open Scope Z_scope.

Module Scheduler.
Import Fiber.

(** [std::variant<Fiber::ptr, std::function<void()>>]; both may be null. *)
Inductive fiber_or_cb (B : Type) :=
  | IsFiber (f : option Z)
  | IsCb (cb : option B).
Arguments IsFiber {B} f.
Arguments IsCb {B} cb.

(** [struct Fiber_and_Thread] *)
Record Fiber_and_Thread (B : Type) := MkTask {
  what : fiber_or_cb B;
  thread : Z;
}.
Arguments MkTask {B} what thread.
Arguments what {B} _.
Arguments thread {B} _.

(** [Fiber_and_Thread::reset] *)
Definition task_reset {B} : Fiber_and_Thread B := MkTask (IsCb None) (-1).

(** [class Scheduler]: its members, with the threads on which [t_scheduler] is this
    scheduler and those on which [run] has enabled the system-call hooks. *)
Record Scheduler (B : Type) := MkScheduler {
  m_fibers : list (Fiber_and_Thread B);
  m_threads : list Z;
  m_thread_ids : list Z;
  m_thread_count : Z;
  m_root_fiber : option Z;
  m_root_thread_id : Z;
  m_active_thread_count : Z;
  m_idle_thread_count : Z;
  m_stopping : bool;
  m_auto_stop : bool;
  t_scheduler : gset Z;
  t_hook_enable : gset Z;
}.
Arguments MkScheduler {B} _ _ _ _ _ _ _ _ _ _ _ _.
Arguments m_fibers {B} _.
Arguments m_threads {B} _.
Arguments m_thread_ids {B} _.
Arguments m_thread_count {B} _.
Arguments m_root_fiber {B} _.
Arguments m_root_thread_id {B} _.
Arguments m_active_thread_count {B} _.
Arguments m_idle_thread_count {B} _.
Arguments m_stopping {B} _.
Arguments m_auto_stop {B} _.
Arguments t_scheduler {B} _.
Arguments t_hook_enable {B} _.

Section setters.
Context {B : Type}.
Definition with_fibers (q : list (Fiber_and_Thread B)) (c : Scheduler B) : Scheduler B :=
  MkScheduler q (m_threads c) (m_thread_ids c) (m_thread_count c)
    (m_root_fiber c) (m_root_thread_id c) (m_active_thread_count c) (m_idle_thread_count c)
    (m_stopping c) (m_auto_stop c) (t_scheduler c) (t_hook_enable c).
Definition with_threads (ts ids : list Z) (c : Scheduler B) : Scheduler B :=
  MkScheduler (m_fibers c) ts ids (m_thread_count c)
    (m_root_fiber c) (m_root_thread_id c) (m_active_thread_count c) (m_idle_thread_count c)
    (m_stopping c) (m_auto_stop c) (t_scheduler c) (t_hook_enable c).
Definition with_counts (a i : Z) (c : Scheduler B) : Scheduler B :=
  MkScheduler (m_fibers c) (m_threads c) (m_thread_ids c)
    (m_thread_count c) (m_root_fiber c) (m_root_thread_id c) a i
    (m_stopping c) (m_auto_stop c) (t_scheduler c) (t_hook_enable c).
Definition with_stop (st auto : bool) (c : Scheduler B) : Scheduler B :=
  MkScheduler (m_fibers c) (m_threads c) (m_thread_ids c)
    (m_thread_count c) (m_root_fiber c) (m_root_thread_id c) (m_active_thread_count c)
    (m_idle_thread_count c) st auto (t_scheduler c) (t_hook_enable c).
Definition with_root (r : option Z) (id : Z) (ids : list Z) (n : Z) (c : Scheduler B) : Scheduler B :=
  MkScheduler (m_fibers c) (m_threads c) ids n
    r id (m_active_thread_count c) (m_idle_thread_count c)
    (m_stopping c) (m_auto_stop c) (t_scheduler c) (t_hook_enable c).
Definition with_locals (sch hook : gset Z) (c : Scheduler B) : Scheduler B :=
  MkScheduler (m_fibers c) (m_threads c) (m_thread_ids c)
    (m_thread_count c) (m_root_fiber c) (m_root_thread_id c) (m_active_thread_count c)
    (m_idle_thread_count c) (m_stopping c) (m_auto_stop c) sch hook.
End setters.

(** The members as their initialisers leave them. *)
Definition Scheduler_init {B} : Scheduler B := MkScheduler [] [] [] 0 None 0 0 0 true true ∅ ∅.

(** What the search of [run] through [m_fibers] leaves: the task taken, if any, the
    list without it, and [tickle_me]. *)
Record pick_result (B : Type) := MkPick {
  picked : option (Fiber_and_Thread B);
  left_over : list (Fiber_and_Thread B);
  tickle_me : bool;
}.
Arguments MkPick {B} _ _ _.
Arguments picked {B} _.
Arguments left_over {B} _.
Arguments tickle_me {B} _.

(** [Scheduler::hasIdleThread] *)
Definition hasIdleThread {B} (c : Scheduler B) : bool := m_idle_thread_count c >? 0.

(** [Scheduler::tickle] and [Scheduler::stopping] of the base class. *)
Definition base_tickle {S} : M S unit := ret tt.
Definition base_stopping {B} (c : Scheduler B) : bool :=
  m_auto_stop c && m_stopping c && bool_decide (length (m_fibers c) = 0%nat)
  && (m_active_thread_count c =? 0).

(** The class that derives from [Scheduler] and the process around it: its virtual
    functions [tickle] and [stopping], and the closures [[this]{ idle(); }] and
    [[this]{ run(); }]. *)
Class SchedulerHost (B S : Type) := {
  sched_fibers :: FiberHost B S;
  sched : S → Scheduler B;
  set_sched : Scheduler B → S → S;
  tickle : M S unit;
  stopping : M S bool;
  idle_fun : B;
  run_fun : B;
}.

Section operations.
Context {B S : Type} `{!SchedulerHost B S}.

Definition get_sched {A} (f : Scheduler B → A) : M S A := gets (λ s, f (sched s)).
Definition modify_sched (f : Scheduler B → Scheduler B) : M S unit :=
  modify (λ s, set_sched (f (sched s)) s).

(** [Scheduler::idle] of the base class, up to its next transfer of control. *)
Definition base_idle : M S (segment B) :=
  let* st := stopping in
  ret (if st then Returned else YieldedHold idle_fun).


(** [Scheduler::Scheduler(thread_count, use_caller, name)] on thread [t]. *)
Definition Scheduler_ctor (t thread_count : Z) (use_caller : bool) : M S unit :=
  assert_ (thread_count >? 0) "thread_count > 0" ;;;
  modify_sched (λ c, with_locals (t_scheduler c) (t_hook_enable c) Scheduler_init) ;;;
  if use_caller then
    on_fibers (GetThis t) ;;;
    let* here := get_sched t_scheduler in
    assert_ (bool_decide (t ∉ here)) "GetThis() == nullptr" ;;;
    modify_sched (λ c, with_locals ({[t]} ∪ t_scheduler c) (t_hook_enable c) c) ;;;
    let* root := on_fibers (Fiber_ctor (Some run_fun) 0 true) in
    on_fibers (modify (upd_locals t (λ l, MkLocals (t_fiber l) (t_threadFiber l) (Some root)))) ;;;
    modify_sched (λ c, with_root (Some root) t (m_thread_ids c ++ [t]) (thread_count - 1) c)
  else
    modify_sched (λ c, with_root None (-1) (m_thread_ids c) thread_count c).

(** [Scheduler::~Scheduler] on thread [t]. *)
Definition Scheduler_dtor (t : Z) : M S unit :=
  let* st := get_sched m_stopping in
  assert_ st "m_stopping" ;;;
  modify_sched (λ c, with_locals (t_scheduler c ∖ {[t]}) (t_hook_enable c) c).

(** [schedule_no_lock]: whether the queue was empty. *)
Definition schedule_no_lock (fc : fiber_or_cb B) (thread : Z) : M S bool :=
  let* need_tickle := get_sched (λ c, bool_decide (length (m_fibers c) = 0%nat)) in
  modify_sched (λ c, with_fibers (m_fibers c ++ [MkTask fc thread]) c) ;;;
  ret need_tickle.

(** [schedule(fc, thread)] *)
Definition schedule (fc : fiber_or_cb B) (thread : Z) : M S unit :=
  let* need_tickle := schedule_no_lock fc thread in
  when need_tickle tickle.

(** [schedule(begin, end)]: the loop under the lock, then one [tickle].  The
    constructor of [Fiber_and_Thread] swaps each element out of the caller's
    range; the result is what the range holds afterwards. *)
Definition swapped_from (fc : fiber_or_cb B) : fiber_or_cb B :=
  match fc with IsFiber _ => IsFiber None | IsCb _ => IsCb None end.
Fixpoint schedule_loop (items : list (fiber_or_cb B)) (need_tickle : bool) : M S bool :=
  match items with
  | [] => ret need_tickle
  | fc :: rest =>
      let* n := schedule_no_lock fc (-1) in
      schedule_loop rest (n || need_tickle)
  end.
Definition schedule_range (items : list (fiber_or_cb B)) : M S (list (fiber_or_cb B)) :=
  let* need_tickle := schedule_loop items false in
  when need_tickle tickle ;;;
  ret (map swapped_from items).

(** The search of [run] through [m_fibers] on thread [t].  A task pinned to another thread is
    passed over and asks for a tickle; a fiber that is executing is passed over;
    [*f] of a null fiber handle is dereferenced. *)
Definition pass (x : Fiber_and_Thread B) (tk : bool) (r : pick_result B) : pick_result B :=
  MkPick (picked r) (x :: left_over r) (tk || tickle_me r).

Fixpoint pick (state_of : Z → option State) (t : Z) (l : list (Fiber_and_Thread B))
    : outcome (pick_result B) :=
  match l with
  | [] => Ok (MkPick None [] false)
  | it :: rest =>
      let skip tk :=
        match pick state_of t rest with
        | Ok r => Ok (pass it tk r)
        | Fault e => Fault e
        end in
      let take := Ok (MkPick (Some it) rest (negb (bool_decide (length rest = 0%nat)))) in
      if negb (thread it =? -1) && negb (thread it =? t) then skip true
      else
        match what it with
        | IsFiber None => Fault (NullDeref "fiber")
        | IsFiber (Some f) =>
            match state_of f with
            | None => Fault (NullDeref "fiber")
            | Some EXEC => skip false
            | Some _ => take
            end
        | IsCb _ => take
        end
  end.

Definition state_of (F : Fibers B) (f : Z) : option State := m_state <$> heap F !! f.

(** The critical section at the top of the loop. *)
Definition take_task (t : Z) : M S (pick_result B) := λ s,
  match pick (state_of (fibers s)) t (m_fibers (sched s)) with
  | Ok r => Ok (r, set_sched (with_fibers (left_over r) (sched s)) s)
  | Fault e => Fault e
  end.

Definition add_active (d : Z) : M S unit :=
  modify_sched (λ c, with_counts (u64 (m_active_thread_count c + d)) (m_idle_thread_count c) c).
Definition add_idle (d : Z) : M S unit :=
  modify_sched (λ c, with_counts (m_active_thread_count c) (u64 (m_idle_thread_count c + d)) c).

Definition ended (st : State) : bool := match st with TERM | EXCPT => true | _ => false end.
End operations.

(** The run loop.  [Env] is what the outside world supplies for one round of it;
    [exec e t b] runs the body [b] on thread [t] up to its next transfer of
    control. *)
Section run.
Context {B Env S : Type} `{!SchedulerHost B S}.
Variable exec : Env → Z → B → M S (segment B).

(** The branch for a fiber. *)
Definition run_fiber (e : Env) (t f : Z) : M S unit :=
  let* st := on_fibers (getState f) in
  if bool_decide (st = TERM) then ret tt
  else
    add_active 1 ;;;
    swapIn (exec e t) t f ;;;
    add_active (-1) ;;;
    let* st := on_fibers (getState f) in
    if bool_decide (st = READY) then schedule (IsFiber (Some f)) (-1)
    else if ended st then ret tt
    else on_fibers (setState HOLD f).

(** The branch for a callback, run in [cb_fiber]; the result is the new value of
    [cb_fiber]. *)
Definition run_callback (e : Env) (t : Z) (cb_fiber : option Z) (cb : B) : M S (option Z) :=
  let* c :=
    match cb_fiber with
    | Some c => on_fibers (reset (Some cb) c) ;;; ret c
    | None => on_fibers (Fiber_ctor (Some cb) 0 false)
    end in
  add_active 1 ;;;
  let* x := on_fibers (fiber_at c) in
  assert_ (bool_decide (is_Some (m_cb x))) "cb_fiber->m_cb" ;;;
  swapIn (exec e t) t c ;;;
  add_active (-1) ;;;
  let* st := on_fibers (getState c) in
  if bool_decide (st = READY) then schedule (IsFiber (Some c)) (-1) ;;; ret (Some c)
  else if ended st then on_fibers (reset None c) ;;; ret (Some c)
  else on_fibers (setState HOLD c) ;;; ret None.

(** The branch for no task: whether the loop ends. *)
Definition run_idle (e : Env) (t idle_fiber : Z) : M S bool :=
  let* st := on_fibers (getState idle_fiber) in
  if bool_decide (st = TERM) then ret true
  else
    add_idle 1 ;;;
    swapIn (exec e t) t idle_fiber ;;;
    add_idle (-1) ;;;
    let* st := on_fibers (getState idle_fiber) in
    (if ended st then ret tt else on_fibers (setState HOLD idle_fiber)) ;;;
    ret false.

(** One round of the loop: the new [cb_fiber] and whether the loop ends. *)
Definition run_iter (e : Env) (t idle_fiber : Z) (cb_fiber : option Z) : M S (option Z * bool) :=
  let* r := take_task t in
  when (tickle_me r) tickle ;;;
  match what (default task_reset (picked r)) with
  | IsFiber (Some f) => run_fiber e t f ;;; ret (cb_fiber, false)
  | IsCb (Some cb) => let* c := run_callback e t cb_fiber cb in ret (c, false)
  | _ => let* stop := run_idle e t idle_fiber in ret (cb_fiber, stop)
  end.

Fixpoint run_loop (envs : list Env) (t idle_fiber : Z) (cb_fiber : option Z) : M S unit :=
  match envs with
  | [] => fail StillRunning
  | e :: envs' =>
      let* r := run_iter e t idle_fiber cb_fiber in
      if snd r then ret tt else run_loop envs' t idle_fiber (fst r)
  end.

(** [Scheduler::run] up to the loop: the idle fiber. *)
Definition run_setup (t : Z) : M S Z :=
  modify_sched (λ c, with_locals (t_scheduler c) ({[t]} ∪ t_hook_enable c) c) ;;;
  modify_sched (λ c, with_locals ({[t]} ∪ t_scheduler c) (t_hook_enable c) c) ;;;
  let* root := get_sched m_root_thread_id in
  (if negb (t =? root) then
     let* m := on_fibers (GetThis t) in
     on_fibers (modify (upd_locals t (λ l, MkLocals (t_fiber l) (t_threadFiber l) (Some m))))
   else ret tt) ;;;
  on_fibers (Fiber_ctor (Some idle_fun) 0 false).

(** [Scheduler::run] on thread [t]. *)
Definition run (envs : list Env) (t : Z) : M S unit :=
  let* idle_fiber := run_setup t in
  run_loop envs t idle_fiber None.

End run.

Section start_stop.
Context {B Env S : Type} `{!SchedulerHost B S}.
Variable exec : Env → Z → B → M S (segment B).

(** [Scheduler::start]; [ids] are the ids of the threads it creates, which then
    execute [run]. *)
Definition start (ids : list Z) : M S unit :=
  let* st := get_sched m_stopping in
  if negb st then ret tt
  else
    modify_sched (λ c, with_stop false (m_auto_stop c) c) ;;;
    let* ts := get_sched m_threads in
    assert_ (bool_decide (ts = [])) "m_threads.empty()" ;;;
    let* n := get_sched m_thread_count in
    let created := take (Z.to_nat n) ids in
    modify_sched (λ c, with_threads created (m_thread_ids c ++ created) c).

Fixpoint tickle_times (n : nat) : M S unit :=
  match n with
  | O => ret tt
  | Datatypes.S n' => tickle ;;; tickle_times n'
  end.

(** [Scheduler::stop] on thread [t]; [envs] drives the run loop it calls on the
    root fiber.  The joins at its end return when the other threads' [run] has. *)
Definition stop (envs : list Env) (t : Z) : M S unit :=
  modify_sched (λ c, with_stop (m_stopping c) true c) ;;;
  let* root := get_sched m_root_fiber in
  let* n := get_sched m_thread_count in
  let* early :=
    match root with
    | Some r =>
        let* st := on_fibers (getState r) in
        if (n =? 0) && (bool_decide (st = TERM) || bool_decide (st = INIT))
        then stopping else ret false
    | None => ret false
    end in
  if early then ret tt
  else
    let* root_id := get_sched m_root_thread_id in
    let* here := get_sched t_scheduler in
    (if negb (root_id =? -1)
     then assert_ (bool_decide (t ∈ here)) "GetThis() == this"
     else assert_ (bool_decide (t ∉ here)) "GetThis() != this") ;;;
    match root with
    | Some r =>
        let* st := stopping in
        if st then ret tt
        else call (λ _, run exec envs t ;;; ret Returned) t r
    | None => ret tt
    end ;;;
    modify_sched (λ c, with_stop true (m_auto_stop c) c) ;;;
    tickle_times (Z.to_nat n) ;;;
    match root with Some _ => tickle | None => ret tt end ;;;
    modify_sched (λ c, with_threads [] (m_thread_ids c) c) ;;;
    stopping ;;;
    ret tt.
End start_stop.
End Scheduler.
