(* ===== verification/SchedulerFacts.v ===== *)
(** * Theorems about the scheduler

    The search through the queue, scheduling, and the run loop.  The theorems on
    scheduling are proved against the interface [SchedulerHostLaws]; those on the
    run loop for a process that uses the base class with callbacks from a small
    language of programs ([job]) that log, schedule further callbacks, yield,
    return and throw. *)
From stdpp Require Import base gmap list strings.
From Stdlib Require Import ZArith Lia.
From S2P Require Import Prelude Fibers FiberFacts Schedulers.
Open Scope Z_scope.

Module SchedulerFacts.
Import Fiber FiberFacts Scheduler.

(** What the derived class and the process promise: the fibers and the scheduler
    are separate parts of the state, and [tickle] touches neither. *)
Class SchedulerHostLaws (B S : Type) `{!SchedulerHost B S} := {
  host_fibers :: FiberHostLaws B S;
  sched_set : ∀ c (s : S), sched (set_sched c s) = c;
  set_set_sched : ∀ c c' (s : S), set_sched c (set_sched c' s) = set_sched c s;
  set_sched_same : ∀ s : S, set_sched (sched s) s = s;
  sched_set_fibers : ∀ F (s : S), sched (set_fibers F s) = sched s;
  fibers_set_sched : ∀ c (s : S), fibers (set_sched c s) = fibers s;
  tickle_frame : ∀ (s s' : S) u, tickle s = Ok (u, s') → sched s' = sched s ∧ fibers s' = fibers s;
}.

(** ** The search through the queue *)
Section picking.
Context {B : Type} (so : Z → option State) (t : Z).
Implicit Types (it : Fiber_and_Thread B) (l : list (Fiber_and_Thread B)).

(** Pinned to another thread. *)
Definition foreign it : bool := negb (thread it =? -1) && negb (thread it =? t).
(** A fiber that is executing. *)
Definition executing it : bool :=
  match what it with
  | IsFiber (Some f) => bool_decide (so f = Some EXEC)
  | _ => false
  end.
Definition eligible it : bool := negb (foreign it) && negb (executing it).
(** Its fiber handle, if it has one, points to a fiber. *)
Definition live it : Prop :=
  match what it with IsFiber o => ∃ f, o = Some f ∧ is_Some (so f) | IsCb _ => True end.

Definition nonempty {A} (l : list A) : bool := match l with [] => false | _ => true end.

Lemma pick_cons it l :
  live it →
  pick so t (it :: l) =
    if eligible it then Ok (MkPick (Some it) l (nonempty l))
    else match pick so t l with
         | Ok r => Ok (pass it (foreign it) r)
         | Fault e => Fault e
         end.
Proof.
  intros Hl. unfold eligible, foreign, executing, live in *. simpl.
  destruct (negb (thread it =? -1) && negb (thread it =? t)) eqn:E; simpl; [done|].
  assert (nonempty l = negb (bool_decide (length l = 0%nat))) as -> by by destruct l.
  destruct (what it) as [o|cb]; simpl.
  - destruct Hl as (f & -> & st & Hst). rewrite Hst. by destruct st.
  - done.
Qed.

(** The first eligible task, with what precedes and follows it. *)
Fixpoint split_eligible l : option (list (Fiber_and_Thread B) * Fiber_and_Thread B * list (Fiber_and_Thread B)) :=
  match l with
  | [] => None
  | it :: l' =>
      if eligible it then Some ([], it, l')
      else match split_eligible l' with
           | Some (pre, x, post) => Some (it :: pre, x, post)
           | None => None
           end
  end.

Lemma pick_split l :
  Forall live l →
  pick so t l =
    Ok match split_eligible l with
       | Some (pre, it, post) => MkPick (Some it) (pre ++ post) (nonempty post || existsb foreign pre)
       | None => MkPick None l (existsb foreign l)
       end.
Proof.
  induction l as [|it l IH]; intros Hl; [done|].
  apply Forall_cons in Hl as [Hit Hl]. rewrite pick_cons by done. simpl.
  destruct (eligible it); [by destruct l|]. rewrite IH by done.
  destruct (split_eligible l) as [[[pre x] post]|]; unfold pass; simpl; [|done].
  f_equal. f_equal. by rewrite (orb_comm (nonempty post)), orb_assoc, orb_comm.
Qed.

Lemma split_eligible_Some l pre it post :
  split_eligible l = Some (pre, it, post) →
  l = pre ++ it :: post ∧ eligible it = true ∧ Forall (λ x, eligible x = false) pre.
Proof.
  revert pre. induction l as [|x l IH]; intros pre; [done|]. simpl.
  destruct (eligible x) eqn:E; [by intros [= <- <- <-]|].
  destruct (split_eligible l) as [[[p y] q]|]; [|done]. intros [= <- <- <-].
  destruct (IH _ eq_refl) as (-> & Hy & Hp). auto.
Qed.
Lemma split_eligible_None l :
  split_eligible l = None → Forall (λ x, eligible x = false) l.
Proof.
  induction l as [|x l IH]; simpl; [by constructor|].
  destruct (eligible x) eqn:E; [done|].
  destruct (split_eligible l) as [[[]]|]; [done|]. auto.
Qed.

(** C23: the run loop takes the first task that is not pinned to another thread and
    is not a fiber already executing, keeps all other tasks in their order, and
    tickles another thread exactly when tasks remain behind the one it took or it
    passed over a task pinned elsewhere; with no such task it takes none and
    changes nothing.  The search cannot fail when the handles are live. *)
Theorem pick_takes_first_eligible l :
  Forall live l →
  ∃ r, pick so t l = Ok r ∧
    ((∃ pre it post, l = pre ++ it :: post ∧ picked r = Some it ∧ left_over r = pre ++ post ∧
        eligible it = true ∧ Forall (λ x, eligible x = false) pre ∧
        (tickle_me r = true ↔ post ≠ [] ∨ ∃ x, x ∈ pre ∧ foreign x = true))
     ∨ (picked r = None ∧ left_over r = l ∧ Forall (λ x, eligible x = false) l ∧
        (tickle_me r = true ↔ ∃ x, x ∈ l ∧ foreign x = true))).
Proof.
  assert (Hex : ∀ l', existsb foreign l' = true ↔ ∃ x, x ∈ l' ∧ foreign x = true).
  { intros l'. rewrite existsb_exists. split; intros (x & Hx & Hf); exists x;
      (split; [by apply list_elem_of_In in Hx|done]). }
  intros Hl. rewrite pick_split by done. eexists; split; [done|].
  destruct (split_eligible l) as [[[pre it] post]|] eqn:E.
  - apply split_eligible_Some in E as (-> & Hit & Hpre). left. exists pre, it, post.
    do 5 (split; [done|]). simpl. rewrite orb_true_iff, Hex. by destruct post; naive_solver.
  - right. apply split_eligible_None in E. by rewrite <- Hex.
Qed.
End picking.

(** ** Scheduling *)
Section scheduling.
Context {B S : Type} `{!SchedulerHost B S} `{!SchedulerHostLaws B S}.

Lemma with_fibers_nil (c : Scheduler B) : with_fibers (m_fibers c ++ []) c = c.
Proof. destruct c; unfold with_fibers; simpl. by rewrite app_nil_r. Qed.

Definition enqueue (items : list (Fiber_and_Thread B)) (s : S) : S :=
  set_sched (with_fibers (m_fibers (sched s) ++ items) (sched s)) s.
Definition queue_empty (s : S) : bool := negb (nonempty (m_fibers (sched s))).

Lemma enqueue_app a b s : enqueue b (enqueue a s) = enqueue (a ++ b) s.
Proof. unfold enqueue. rewrite !sched_set, set_set_sched. simpl. by rewrite <- (assoc_L _ _ a). Qed.

Lemma schedule_no_lock_ok fc thr s :
  schedule_no_lock fc thr s = Ok (queue_empty s, enqueue [MkTask fc thr] s).
Proof.
  unfold schedule_no_lock, get_sched, modify_sched. step_ok. step_ok. unfold ret, queue_empty.
  f_equal. f_equal. by destruct (m_fibers (sched s)).
Qed.

Lemma schedule_ok fc thr s :
  schedule fc thr s = when (queue_empty s) tickle (enqueue [MkTask fc thr] s).
Proof. unfold schedule. by rewrite (bind_step _ _ _ _ _ (schedule_no_lock_ok fc thr s)). Qed.

Lemma schedule_loop_ok items n s :
  schedule_loop items n s =
    Ok (n || (queue_empty s && nonempty items), enqueue (map (λ fc, MkTask fc (-1)) items) s).
Proof.
  revert n s. induction items as [|fc items IH]; intros n s; simpl.
  { unfold enqueue, ret. simpl.
    by rewrite with_fibers_nil, set_sched_same, andb_false_r, orb_false_r. }
  rewrite (bind_step _ _ _ _ _ (schedule_no_lock_ok fc (-1) s)), IH, enqueue_app. simpl.
  f_equal. f_equal.
  assert (queue_empty (enqueue [MkTask fc (-1)] s) = false) as ->.
  { unfold queue_empty, enqueue. rewrite sched_set. simpl. by destruct (m_fibers _). }
  by rewrite andb_true_r, orb_false_r, orb_comm.
Qed.

(** Scheduling a batch appends its elements, unpinned, to the end of the queue
    in order under one lock, then calls [tickle] once if the queue was empty and
    the batch is not, and leaves null handles in the caller's range; whatever
    [tickle] does, the queue afterwards is the old one followed by the batch. *)
Theorem schedule_appends_and_tickles items s :
  schedule_range items s =
    (when (queue_empty s && nonempty items) tickle ;;; ret (map swapped_from items))
      (enqueue (map (λ fc, MkTask fc (-1)) items) s) ∧
  (∀ r s', schedule_range items s = Ok (r, s') →
     m_fibers (sched s') = m_fibers (sched s) ++ map (λ fc, MkTask fc (-1)) items ∧
     fibers s' = fibers s).
Proof.
  assert (Heq : schedule_range items s =
    (when (queue_empty s && nonempty items) tickle ;;; ret (map swapped_from items))
      (enqueue (map (λ fc, MkTask fc (-1)) items) s)).
  { unfold schedule_range. by rewrite (bind_step _ _ _ _ _ (schedule_loop_ok items false s)). }
  split; [done|]. rewrite Heq. intros r s' H. apply bind_ok in H as (u & s1 & H1 & H).
  apply ret_ok in H as [_ ->].
  assert (sched s1 = sched (enqueue (map (λ fc, MkTask fc (-1)) items) s) ∧
          fibers s1 = fibers (enqueue (map (λ fc, MkTask fc (-1)) items) s)) as [-> ->].
  { destruct (queue_empty s && nonempty items); simpl in H1.
    - by apply tickle_frame in H1.
    - apply ret_ok in H1 as [_ ->]. done. }
  unfold enqueue. by rewrite sched_set, fibers_set_sched.
Qed.
End scheduling.

(** On thread 1, a queue with a task for thread 2, a fiber that is executing, a
    callback and a fiber on hold: the callback is taken. *)
Definition sample_queue : list (Fiber_and_Thread nat) :=
  [MkTask (IsCb (Some 5%nat)) 2; MkTask (IsFiber (Some 10)) (-1);
   MkTask (IsCb (Some 6%nat)) 1; MkTask (IsFiber (Some 11)) (-1)].
Definition sample_states (f : Z) : option State :=
  if f =? 10 then Some EXEC else if f =? 11 then Some HOLD else None.
Lemma pick_takes_first_eligible_witness :
  ∃ r, pick sample_states 1 sample_queue = Ok r ∧
    picked r = Some (MkTask (IsCb (Some 6%nat)) 1) ∧ tickle_me r = true.
Proof.
  assert (Hl : Forall (live sample_states) sample_queue).
  { apply Forall_forall. intros it Hit.
    repeat (apply elem_of_cons in Hit as [->|Hit]; [by unfold live; simpl; eauto|]).
    by apply not_elem_of_nil in Hit. }
  destruct (pick_takes_first_eligible sample_states 1 sample_queue Hl) as (r & Hr & _).
  exists r. split; [exact Hr|]. vm_compute in Hr. by injection Hr as <-.
Defined.
End SchedulerFacts.
