(* ===== verification/SchedulerRuns.v ===== *)
(** * Runs of the scheduler's loop

    A process that uses the base class [Scheduler] and hands it callbacks written
    in a small language ([job]), and what [Scheduler::run] and [Scheduler::stop] do
    for it: the order in which callbacks run, when the loop ends, and when it does
    not. *)
From stdpp Require Import base gmap list strings.
From Stdlib Require Import ZArith Lia.
From S2P Require Import Prelude Fibers FiberFacts Schedulers SchedulerFacts.
Open Scope Z_scope.

Module SchedulerRuns.
Import Fiber FiberFacts Scheduler SchedulerFacts.

(** ** A process with a base-class scheduler *)

(** Callbacks: return, throw, yield either way, log a number, schedule another
    callback on a thread (-1: any). *)
Inductive job :=
  | JReturn
  | JThrow
  | JYieldReady (k : job)
  | JYieldHold (k : job)
  | JEmit (n : Z) (k : job)
  | JSchedule (j : job) (thread : Z) (k : job).
Inductive body := Idle | Run | Job (k : job).

Record process := MkProcess {
  p_fibers : Fibers body;
  p_sched : Scheduler body;
  p_log : list Z;
}.

#[export] Instance process_fibers : FiberHost body process := {
  fibers := p_fibers;
  set_fibers := λ F s, MkProcess F (p_sched s) (p_log s);
}.
#[export] Instance process_host : SchedulerHost body process := {
  sched := p_sched;
  set_sched := λ c s, MkProcess (p_fibers s) c (p_log s);
  tickle := base_tickle;
  stopping := gets (λ s, base_stopping (p_sched s));
  idle_fun := Idle;
  run_fun := Run;
}.
#[export] Instance process_laws : SchedulerHostLaws body process.
Proof.
  split; try done.
  - by intros [].
  - intros s s' u H. apply ret_ok in H as [_ ->]. done.
Qed.

Fixpoint exec_job (k : job) : M process (segment body) :=
  match k with
  | JReturn => ret Returned
  | JThrow => ret Threw
  | JYieldReady k' => ret (YieldedReady (Job k'))
  | JYieldHold k' => ret (YieldedHold (Job k'))
  | JEmit n k' => modify (λ s, MkProcess (p_fibers s) (p_sched s) (p_log s ++ [n])) ;;; exec_job k'
  | JSchedule j thr k' => schedule (IsCb (Some (Job j))) thr ;;; exec_job k'
  end.
Definition exec_body (e : unit) (t : Z) (b : body) : M process (segment body) :=
  match b with
  | Idle => base_idle
  | Run => fail (AssertFailed "diverted")
  | Job k => exec_job k
  end.

(** What a job does up to its next transfer of control. *)
Fixpoint job_out (k : job) : list Z :=
  match k with
  | JEmit n k' => n :: job_out k'
  | JSchedule _ _ k' => job_out k'
  | _ => []
  end.
Fixpoint job_tasks (k : job) : list (Fiber_and_Thread body) :=
  match k with
  | JEmit _ k' => job_tasks k'
  | JSchedule j thr k' => MkTask (IsCb (Some (Job j))) thr :: job_tasks k'
  | _ => []
  end.
Fixpoint job_end (k : job) : segment body :=
  match k with
  | JReturn => Returned
  | JThrow => Threw
  | JYieldReady k' => YieldedReady (Job k')
  | JYieldHold k' => YieldedHold (Job k')
  | JEmit _ k' | JSchedule _ _ k' => job_end k'
  end.

Definition push (q : list (Fiber_and_Thread body)) (c : Scheduler body) : Scheduler body :=
  with_fibers (m_fibers c ++ q) c.
Definition did (q : list (Fiber_and_Thread body)) (out : list Z) (s : process) : process :=
  MkProcess (p_fibers s) (push q (p_sched s)) (p_log s ++ out).

Lemma push_push a b c : push b (push a c) = push (a ++ b) c.
Proof. unfold push. simpl. by rewrite (assoc_L (++)). Qed.
Lemma push_nil c : push [] c = c.
Proof. apply with_fibers_nil. Qed.

Lemma schedule_push fc thr s :
  schedule fc thr s = Ok (tt, did [MkTask fc thr] [] s).
Proof.
  rewrite schedule_ok. unfold did. rewrite app_nil_r. by destruct (queue_empty s).
Qed.

Lemma exec_job_ok k s : exec_job k s = Ok (job_end k, did (job_tasks k) (job_out k) s).
Proof.
  revert s. induction k; intros s; simpl;
    try by unfold ret, did; rewrite push_nil, app_nil_r; destruct s.
  - step_ok. rewrite IHk. unfold did. simpl. by rewrite <- (assoc_L (++)).
  - rewrite (bind_step _ _ _ _ _ (schedule_push _ _ _)), IHk2. unfold did. simpl.
    by rewrite push_push, app_nil_r.
Qed.

(** ** What one switch does to the fibers *)

Lemma lookup_alter_live {A} (h : gmap Z A) (g : A → A) f a :
  is_Some (alter g f h !! a) ↔ is_Some (h !! a).
Proof. by rewrite lookup_alter_is_Some. Qed.

(** [F'] is [F] after fiber [f] ran on thread [t] and came back as [x]. *)
Record fib_step (t m f : Z) (x : Fiber body) (F F' : Fibers body) : Prop := {
  fs_at : heap F' !! f = Some x;
  fs_other : ∀ g, g ≠ f → g ≠ m → heap F' !! g = heap F !! g;
  fs_live : is_Some (heap F' !! m);
  fs_main : t_main (locals_of F' t) = Some m;
  fs_fresh : (∀ a, is_Some (heap F !! a) → a < next_address F) →
             ∀ a, is_Some (heap F' !! a) → a < next_address F';
}.

Lemma fib_step_refl t m f x F :
  heap F !! f = Some x → is_Some (heap F !! m) → t_main (locals_of F t) = Some m →
  fib_step t m f x F F.
Proof. by split. Qed.

Lemma fib_step_trans t m f x y F F1 F2 :
  fib_step t m f x F F1 → fib_step t m f y F1 F2 → fib_step t m f y F F2.
Proof.
  intros [A1 O1 L1 M1 N1] [A2 O2 L2 M2 N2]. split; auto.
  intros g Hf Hm. by rewrite O2, O1.
Qed.

Lemma fib_step_alter t m f x g F :
  m ≠ f → heap F !! f = Some x → is_Some (heap F !! m) → t_main (locals_of F t) = Some m →
  fib_step t m f (g x) F (upd_heap (alter g f) F).
Proof.
  intros Hne Hx Hm Ht. split; simpl; try done.
  - by rewrite lookup_alter_eq, Hx.
  - intros h Hf _. by rewrite lookup_alter_ne.
  - by rewrite lookup_alter_live.
  - intros Hfr a. rewrite lookup_alter_live. auto.
Qed.

(** The fiber a switch leaves behind when its segment ended in [seg]. *)
Definition left_by (f : Z) (seg : segment body) (x : Fiber body) : Fiber body :=
  after_fiber MainFunc f seg (set_state EXEC x).

Lemma fib_step_settle t m f x seg F :
  m ≠ f → heap F !! f = Some x → is_Some (heap F !! m) → t_main (locals_of F t) = Some m →
  fib_step t m f (left_by f seg x) F (settle t f m seg (swapped t f m F)).
Proof.
  intros Hne Hx Hm Ht. split.
  - unfold settle. simpl. rewrite lookup_alter_eq, lookup_alter_ne, lookup_alter_eq by done.
    by rewrite Hx.
  - intros g Hf Hgm. unfold settle. simpl. by rewrite !lookup_alter_ne by done.
  - unfold settle. simpl. rewrite lookup_alter_ne, lookup_alter_eq by done.
    rewrite lookup_alter_ne by done. by destruct Hm as [y ->].
  - unfold settle. change (locals_of (upd_heap ?h ?G) t) with (locals_of G t).
    rewrite locals_of_upd, locals_swapped. done.
  - intros Hfr a. simpl. rewrite !lookup_alter_live. auto.
Qed.

Lemma swapIn_job e t f m k s :
  runnable t f m (Job k) (p_fibers s) →
  swapIn (exec_body e t) t f s =
    Ok (tt, MkProcess (settle t f m (job_end k) (swapped t f m (p_fibers s)))
              (push (job_tasks k) (p_sched s)) (p_log s ++ job_out k)).
Proof.
  intros Hr. exact (swapIn_ok (exec_body e t) t f m (Job k) _ s _ Hr (exec_job_ok k _) (frame_refl _)).
Qed.

Lemma swapIn_idle e t f m s :
  runnable t f m Idle (p_fibers s) →
  swapIn (exec_body e t) t f s =
    Ok (tt, MkProcess (settle t f m (if base_stopping (p_sched s) then Returned else YieldedHold Idle)
                         (swapped t f m (p_fibers s))) (p_sched s) (p_log s)).
Proof.
  intros Hr. exact (swapIn_ok (exec_body e t) t f m Idle _ s _ Hr eq_refl (frame_refl _)).
Qed.

(** ** The branches of a round *)
Lemma getState_at f x s :
  heap (p_fibers s) !! f = Some x → on_fibers (getState f) s = Ok (m_state x, s).
Proof.
  intros Hx. unfold on_fibers, getState, fiber_at, bind, gets, ret, deref. simpl.
  rewrite Hx. by destruct s.
Qed.
Lemma fiber_at_at f x s :
  heap (p_fibers s) !! f = Some x → on_fibers (fiber_at f) s = Ok (x, s).
Proof.
  intros Hx. unfold on_fibers, fiber_at, bind, gets, deref. simpl.
  rewrite Hx. by destruct s.
Qed.
Lemma setState_at st f x s :
  heap (p_fibers s) !! f = Some x →
  on_fibers (setState st f) s =
    Ok (tt, MkProcess (upd_heap (alter (set_state st) f) (p_fibers s)) (p_sched s) (p_log s)).
Proof. intros Hx. unfold on_fibers. simpl. by rewrite (setState_ok st f _ x Hx). Qed.

Lemma reset_at cb f x s :
  heap (p_fibers s) !! f = Some x → m_stack x = true → settled (m_state x) = true →
  on_fibers (reset cb f) s =
    Ok (tt, MkProcess (upd_heap (alter (λ x, MkFiber (m_id x) (m_stacksize x) INIT
                                   (Some (PEntry MainFunc)) (m_stack x) cb) f) (p_fibers s))
              (p_sched s) (p_log s)).
Proof.
  intros Hx Hs Hst. unfold on_fibers, reset, fiber_at, bind, gets, deref, assert_. simpl.
  rewrite Hx. simpl. by rewrite Hs, Hst.
Qed.

Lemma count_there_and_back a : is_u64 a → u64 (u64 (a + 1) + -1) = a.
Proof.
  intros Ha. unfold u64. rewrite Zplus_mod_idemp_l. replace (a + 1 + -1) with a by lia.
  by apply Z.mod_small.
Qed.

Lemma add_active_back q c a i :
  is_u64 (m_active_thread_count c) →
  a = u64 (m_active_thread_count c + 1) → i = m_idle_thread_count c →
  with_counts (u64 (a + -1)) i (push q (with_counts a i c)) = push q c.
Proof. intros Hu -> ->. rewrite count_there_and_back by done. by destruct c. Qed.

Definition requeue (f : Z) (seg : segment body) : list (Fiber_and_Thread body) :=
  match seg with YieldedReady _ => [MkTask (IsFiber (Some f)) (-1)] | _ => [] end.

Lemma job_end_not_swapped k b : job_end k ≠ SwappedOut b.
Proof. by induction k. Qed.

Lemma job_end_job k b : job_end k = YieldedReady b → ∃ k', b = Job k'.
Proof. induction k; simpl; try done; auto. intros [= <-]. eauto. Qed.

(** A fiber that yielded runs its next segment and goes back to the queue if it
    yields ready again. *)
Lemma run_fiber_job e t f m k x s :
  heap (p_fibers s) !! f = Some x → m_state x = READY → m_ctx x = Some (PBody MainFunc f (Job k)) →
  m ≠ f → is_Some (heap (p_fibers s) !! m) → t_main (locals_of (p_fibers s) t) = Some m →
  is_u64 (m_active_thread_count (p_sched s)) →
  ∃ F', run_fiber exec_body e t f s =
    Ok (tt, MkProcess F' (push (job_tasks k ++ requeue f (job_end k)) (p_sched s))
              (p_log s ++ job_out k)) ∧
    fib_step t m f (left_by f (job_end k) x) (p_fibers s) F'.
Proof.
  intros Hx Hst Hctx Hne Hm Hmain Hu.
  pose (s1 := MkProcess (p_fibers s)
                (with_counts (u64 (m_active_thread_count (p_sched s) + 1))
                   (m_idle_thread_count (p_sched s)) (p_sched s)) (p_log s)).
  assert (Hr : runnable t f m (Job k) (p_fibers s1)).
  { split; try done. exists x. rewrite Hst. auto. }
  pose proof (fib_step_settle t m f x (job_end k) _ Hne Hx Hm Hmain) as Hf.
  unfold run_fiber. rewrite (bind_step _ _ _ _ _ (getState_at _ _ _ Hx)), Hst. simpl.
  unfold add_active, modify_sched. step_in. fold s1.
  rewrite (bind_step _ _ _ _ _ (swapIn_job e t f m k s1 Hr)). step_in. simpl.
  erewrite bind_step; [|apply getState_at; exact (fs_at _ _ _ _ _ _ Hf)].
  rewrite add_active_back by done.
  destruct (job_end k) as [| |b|b|b] eqn:E; simpl.
  - eexists; split; [by rewrite app_nil_r|done].
  - eexists; split; [by rewrite app_nil_r|done].
  - rewrite schedule_push. unfold did. simpl. rewrite push_push, app_nil_r. by eexists.
  - erewrite setState_at by exact (fs_at _ _ _ _ _ _ Hf). simpl. rewrite app_nil_r.
    eexists; split; [done|]. eapply fib_step_trans; [exact Hf|].
    exact (fib_step_alter t m f _ (set_state HOLD) _ Hne (fs_at _ _ _ _ _ _ Hf)
             (fs_live _ _ _ _ _ _ Hf) (fs_main _ _ _ _ _ _ Hf)).
  - by apply job_end_not_swapped in E.
Qed.
(** The fiber a callback ran in, and the loop's [cb_fiber] afterwards. *)
Definition finished (c : Z) (seg : segment body) (x : Fiber body) : Fiber body :=
  match seg with
  | Returned | Threw => MkFiber (m_id x) (m_stacksize x) INIT (Some (PEntry MainFunc)) (m_stack x) None
  | _ => left_by c seg x
  end.
Definition cb_after (c : Z) (seg : segment body) : option Z :=
  match seg with YieldedHold _ => None | _ => Some c end.

Definition fresh (F : Fibers body) : Prop := ∀ a, is_Some (heap F !! a) → a < next_address F.

(** A new fiber, or the old one reset, holds the callback. *)
Lemma cb_fiber_ready t m cb k F (r : Scheduler body) (l : list Z) :
  fresh F → is_Some (heap F !! m) → t_main (locals_of F t) = Some m →
  (∀ a, cb = Some a → a ≠ m ∧ ∃ x, heap F !! a = Some x ∧ m_stack x = true ∧ settled (m_state x) = true) →
  ∃ c x F', match cb with
            | Some c => on_fibers (reset (Some (Job k)) c) ;;; ret c
            | None => on_fibers (Fiber_ctor (Some (Job k)) 0 false)
            end (MkProcess F r l) = Ok (c, MkProcess F' r l) ∧
    fib_step t m c x F F' ∧ c ≠ m ∧ (cb = Some c ∨ cb = None ∧ c = next_address F) ∧
    m_state x = INIT ∧ m_ctx x = Some (PEntry MainFunc) ∧ m_cb x = Some (Job k) ∧ m_stack x = true.
Proof.
  intros Hfr Hm Hmain Hcb. destruct cb as [a|].
  - destruct (Hcb a eq_refl) as (Hne & x & Hx & Hs & Hst).
    eexists a, (MkFiber (m_id x) (m_stacksize x) INIT (Some (PEntry MainFunc)) (m_stack x) (Some (Job k))), _.
    rewrite (bind_step _ _ _ _ _ (reset_at (Some (Job k)) a x (MkProcess F r l) Hx Hs Hst)).
    simpl. split; [done|]. split; [|by auto 7].
    apply (fib_step_alter t m a x (λ x, MkFiber (m_id x) (m_stacksize x) INIT
             (Some (PEntry MainFunc)) (m_stack x) (Some (Job k)))); auto.
  - eexists (next_address F), (MkFiber (u64 (s_fiber_id F + 1)) (u32 (fiber_stack_size F)) INIT
               (Some (PEntry MainFunc)) true (Some (Job k))), _. unfold on_fibers. cbn [fibers process_fibers p_fibers].
    rewrite Fiber_ctor_eq.
    split; [done|].
    assert (next_address F ≠ m) by (specialize (Hfr m Hm); lia).
    split; [|by auto 7]. split; simpl; try done.
    + by rewrite lookup_insert_eq.
    + intros g Hg _. by rewrite lookup_insert_ne.
    + by rewrite lookup_insert_ne.
    + intros _ b. destruct (decide (b = next_address F)) as [->|Hb]; [lia|].
      rewrite lookup_insert_ne by done. intros Hb'. specialize (Hfr b Hb'). lia.
Qed.

(** A callback runs its first segment in [cb_fiber]. *)
Lemma run_callback_job e t m cb k s :
  fresh (p_fibers s) → is_Some (heap (p_fibers s) !! m) → t_main (locals_of (p_fibers s) t) = Some m →
  is_u64 (m_active_thread_count (p_sched s)) →
  (∀ a, cb = Some a → a ≠ m ∧
     ∃ x, heap (p_fibers s) !! a = Some x ∧ m_stack x = true ∧ settled (m_state x) = true) →
  ∃ c x F', run_callback exec_body e t cb (Job k) s =
      Ok (cb_after c (job_end k),
          MkProcess F' (push (job_tasks k ++ requeue c (job_end k)) (p_sched s)) (p_log s ++ job_out k)) ∧
    fib_step t m c (finished c (job_end k) x) (p_fibers s) F' ∧ c ≠ m ∧ m_stack x = true ∧
    (cb = Some c ∨ cb = None ∧ c = next_address (p_fibers s)).
Proof.
  intros Hfr Hm Hmain Hu Hcb. destruct s as [F r l]. simpl in *.
  destruct (cb_fiber_ready t m cb k F r l Hfr Hm Hmain Hcb)
    as (c & x & F1 & Hc & Hf1 & Hne & Hwhich & Hst & Hctx & Hxcb & Hstk).
  pose proof (fs_at _ _ _ _ _ _ Hf1) as Hx. exists c, x.
  pose (s1 := MkProcess F1 (with_counts (u64 (m_active_thread_count r + 1))
                   (m_idle_thread_count r) r) l).
  assert (Hr : runnable t c m (Job k) (p_fibers s1)).
  { destruct Hf1. split; try done. exists x. rewrite Hst. auto. }
  pose proof (fib_step_settle t m c x (job_end k) F1 (not_eq_sym Hne) Hx
                (fs_live _ _ _ _ _ _ Hf1) (fs_main _ _ _ _ _ _ Hf1)) as Hf.
  pose proof (fib_step_trans _ _ _ _ _ _ _ _ Hf1 Hf) as Hall.
  unfold run_callback. rewrite (bind_step _ _ _ _ _ Hc).
  unfold add_active, modify_sched. step_in. fold s1.
  rewrite (bind_step _ _ _ _ _ (fiber_at_at c x s1 Hx)), Hxcb.
  step_in. rewrite (bind_step _ _ _ _ _ (swapIn_job e t c m k s1 Hr)). step_in. simpl.
  erewrite bind_step; [|apply getState_at; exact (fs_at _ _ _ _ _ _ Hf)].
  rewrite add_active_back by done.
  clear Hr. destruct (job_end k) as [| |b|b|b] eqn:E; simpl.
  all: try by apply job_end_not_swapped in E.
  3: { erewrite bind_step; [|apply schedule_push].
       unfold did. simpl. rewrite push_push, app_nil_r. by eexists. }
  all: erewrite bind_step;
    [|first [eapply reset_at; [exact (fs_at _ _ _ _ _ _ Hf)|exact Hstk|reflexivity]
            |eapply setState_at; exact (fs_at _ _ _ _ _ _ Hf)]].
  all: rewrite app_nil_r; eexists; (split; [reflexivity|]); split; [|by auto].
  all: eapply fib_step_trans; [exact Hall|].
  all: match goal with |- fib_step _ _ _ _ _ (upd_heap (alter ?g _) _) =>
         exact (fib_step_alter t m c _ g _ (not_eq_sym Hne) (fs_at _ _ _ _ _ _ Hf)
             (fs_live _ _ _ _ _ _ Hf) (fs_main _ _ _ _ _ _ Hf)) end.
Qed.
(** The idle fiber asks whether to stop and either ends or holds. *)
Definition idle_point (idle : Z) (x : Fiber body) : Prop :=
  (m_state x = INIT ∧ m_ctx x = Some (PEntry MainFunc) ∧ m_cb x = Some Idle) ∨
  (m_state x = HOLD ∧ m_ctx x = Some (PBody MainFunc idle Idle)).
Definition idle_end (c : Scheduler body) : segment body :=
  if base_stopping c then Returned else YieldedHold Idle.

Lemma base_stopping_counts i (c : Scheduler body) :
  base_stopping (with_counts (m_active_thread_count c) i c) = base_stopping c.
Proof. done. Qed.

Lemma run_idle_base e t m idle x s :
  heap (p_fibers s) !! idle = Some x → idle_point idle x →
  m ≠ idle → is_Some (heap (p_fibers s) !! m) → t_main (locals_of (p_fibers s) t) = Some m →
  is_u64 (m_idle_thread_count (p_sched s)) →
  ∃ F', run_idle exec_body e t idle s = Ok (false, MkProcess F' (p_sched s) (p_log s)) ∧
    fib_step t m idle (left_by idle (idle_end (p_sched s)) x) (p_fibers s) F'.
Proof.
  intros Hx Hp Hne Hm Hmain Hu. destruct s as [F r l]. simpl in *.
  pose (s1 := MkProcess F (with_counts (m_active_thread_count r)
                   (u64 (m_idle_thread_count r + 1)) r) l).
  assert (Hr : runnable t idle m Idle (p_fibers s1)).
  { split; try done. exists x. destruct Hp as [(-> & ? & ?)|(-> & ?)]; auto. }
  assert (Hnt : m_state x ≠ TERM) by (destruct Hp as [(-> & ? & ?)|(-> & ?)]; done).
  pose proof (fib_step_settle t m idle x (idle_end r) _ Hne Hx Hm Hmain) as Hf.
  unfold run_idle. rewrite (bind_step _ _ _ _ _ (getState_at _ _ (MkProcess F r l) Hx)).
  rewrite bool_decide_false by done.
  unfold add_idle, modify_sched. step_in. simpl. fold s1.
  rewrite (bind_step _ _ _ _ _ (swapIn_idle e t idle m s1 Hr)). step_in. simpl.
  rewrite count_there_and_back by done.
  rewrite base_stopping_counts. fold (idle_end r).
  erewrite bind_step; [|apply getState_at; exact (fs_at _ _ _ _ _ _ Hf)].
  replace (with_counts _ _ _) with r by by destruct r.
  unfold idle_end in *. destruct (base_stopping r) eqn:E; simpl.
  - eexists; split; [done|]. done.
  - erewrite bind_step; [|eapply setState_at; exact (fs_at _ _ _ _ _ _ Hf)].
    eexists; split; [done|]. eapply fib_step_trans; [exact Hf|].
    exact (fib_step_alter t m idle _ (set_state HOLD) _ Hne (fs_at _ _ _ _ _ _ Hf)
             (fs_live _ _ _ _ _ _ Hf) (fs_main _ _ _ _ _ _ Hf)).
Qed.

(** ** The loop's invariant *)

(** A task in the queue: a job, or a fiber that yielded ready. *)
Definition task_ok (F : Fibers body) (m idle : Z) (it : Fiber_and_Thread body) : Prop :=
  match what it with
  | IsFiber o => ∃ f x k, o = Some f ∧ f ≠ m ∧ f ≠ idle ∧ heap F !! f = Some x ∧
      m_state x = READY ∧ m_stack x = true ∧ m_ctx x = Some (PBody MainFunc f (Job k))
  | IsCb o => ∀ b, o = Some b → ∃ k, b = Job k
  end.
Definition handle_of (it : Fiber_and_Thread body) : option Z :=
  match what it with IsFiber o => o | IsCb _ => None end.

Record serving (t m idle : Z) (cb : option Z) (s : process) : Prop := {
  sv_main : t_main (locals_of (p_fibers s) t) = Some m;
  sv_live : is_Some (heap (p_fibers s) !! m);
  sv_fresh : fresh (p_fibers s);
  sv_active : is_u64 (m_active_thread_count (p_sched s));
  sv_idle_count : is_u64 (m_idle_thread_count (p_sched s));
  sv_idle_ne : idle ≠ m;
  sv_idle : ∃ x, heap (p_fibers s) !! idle = Some x ∧
              (idle_point idle x ∨ m_state x = TERM ∧ base_stopping (p_sched s) = true);
  sv_queue : ∀ it, it ∈ m_fibers (p_sched s) → task_ok (p_fibers s) m idle it;
  sv_nodup : NoDup (omap handle_of (m_fibers (p_sched s)));
  sv_cb : ∀ c, cb = Some c → c ≠ m ∧ c ≠ idle ∧
            ∃ x, heap (p_fibers s) !! c = Some x ∧ m_stack x = true;
}.

Lemma job_tasks_ok F m idle k it : it ∈ job_tasks k → task_ok F m idle it.
Proof.
  induction k; simpl; intros Hit; try by apply not_elem_of_nil in Hit.
  - auto.
  - apply elem_of_cons in Hit as [->|Hit]; [|auto]. simpl. intros b [= <-]. by eexists.
Qed.
Lemma job_tasks_handles k : omap handle_of (job_tasks k) = [].
Proof. by induction k. Qed.

Lemma task_ok_step t m idle f x F F' it :
  fib_step t m f x F F' → handle_of it ≠ Some f → task_ok F m idle it → task_ok F' m idle it.
Proof.
  intros Hf Hne. unfold task_ok, handle_of in *. destruct (what it) as [o|o]; [|done].
  intros (g & y & k & -> & Hgm & Hgi & Hy & ?). exists g, y, k.
  do 3 (split; [done|]). split; [|done].
  rewrite (fs_other _ _ _ _ _ _ Hf) by congruence. done.
Qed.

Lemma serving_after t m idle cb cb' q f x F' s k l :
  serving t m idle cb s → m_fibers (p_sched s) ≠ [] →
  (∀ it, it ∈ q → it ∈ m_fibers (p_sched s)) → NoDup (omap handle_of q) → f ∉ omap handle_of q →
  fib_step t m f x (p_fibers s) F' → f ≠ m → f ≠ idle → m_stack x = true →
  (∀ b, job_end k = YieldedReady b →
     m_state x = READY ∧ ∃ k', m_ctx x = Some (PBody MainFunc f (Job k'))) →
  (∀ c, cb' = Some c → c = f ∨ cb = Some c) →
  serving t m idle cb'
    (MkProcess F' (with_fibers (q ++ job_tasks k ++ requeue f (job_end k)) (p_sched s)) l).
Proof.
  intros Hs Hq Hsub Hnd Hfq Hf Hfm Hfi Hstk Hready Hcb.
  assert (Hrq : ∀ it, it ∈ requeue f (job_end k) →
            it = MkTask (IsFiber (Some f)) (-1) ∧ ∃ b, job_end k = YieldedReady b).
  { intros it. destruct (job_end k); simpl; intros Hit; try by apply not_elem_of_nil in Hit.
    apply list_elem_of_singleton in Hit. eauto. }
  destruct Hs, Hf as [Hat Hoth Hlive Hmain Hfr]. split; simpl; try done.
  - exact (Hfr sv_fresh0).
  - destruct sv_idle0 as (y & Hy & Hp). exists y. rewrite Hoth by done. split; [done|].
    destruct Hp as [Hp|[_ Hb]]; [by left|]. unfold base_stopping in Hb.
    rewrite !andb_true_iff, bool_decide_eq_true in Hb. destruct Hb as [[_ Hb] _].
    by apply nil_length_inv in Hb.
  - intros it. rewrite !elem_of_app. intros [Hit|[Hit|Hit]].
    + eapply task_ok_step; [by split| |by apply sv_queue0, Hsub].
      intros Hh. apply Hfq. apply list_elem_of_omap. eauto.
    + by eapply job_tasks_ok.
    + apply Hrq in Hit as [-> [b Hb]]. destruct (Hready b Hb) as (Hst & k' & Hc).
      exists f, x, k'. by auto 10.
  - rewrite !omap_app, job_tasks_handles. simpl.
    destruct (job_end k); simpl; rewrite ?app_nil_r; try done.
    apply NoDup_app. split; [done|]. split; [|by apply NoDup_singleton].
    intros g Hg ->%list_elem_of_singleton. done.
  - intros c Hc. destruct (Hcb c Hc) as [->|Hc']; [by eauto|].
    destruct (decide (c = f)) as [->|Hne]; [by eauto|].
    destruct (sv_cb0 c Hc') as (? & ? & y & ? & ?). rewrite Hoth by done. eauto.
Qed.
Lemma queue_live t m idle cb s :
  serving t m idle cb s → Forall (live (state_of (p_fibers s))) (m_fibers (p_sched s)).
Proof.
  intros Hs. apply Forall_forall. intros it Hit. apply (sv_queue _ _ _ _ _ Hs) in Hit.
  unfold live, task_ok, state_of in *. destruct (what it) as [o|]; [|done].
  destruct Hit as (f & x & k & -> & _ & _ & Hx & _). exists f. rewrite Hx. eauto.
Qed.

(** The critical section at the top of a round. *)
Definition rest_of (t : Z) (s : process) : list (Fiber_and_Thread body) :=
  match split_eligible (state_of (p_fibers s)) t (m_fibers (p_sched s)) with
  | Some (pre, _, post) => pre ++ post
  | None => m_fibers (p_sched s)
  end.
Definition taken (t : Z) (s : process) : option (Fiber_and_Thread body) :=
  match split_eligible (state_of (p_fibers s)) t (m_fibers (p_sched s)) with
  | Some (_, it, _) => Some it
  | None => None
  end.

Lemma run_iter_taken e t m idle cb s :
  serving t m idle cb s →
  run_iter exec_body e t idle cb s =
    match what (default task_reset (taken t s)) with
    | IsFiber (Some f) => run_fiber exec_body e t f ;;; ret (cb, false)
    | IsCb (Some b) => let* c := run_callback exec_body e t cb b in ret (c, false)
    | _ => let* stop := run_idle exec_body e t idle in ret (cb, stop)
    end (MkProcess (p_fibers s) (with_fibers (rest_of t s) (p_sched s)) (p_log s)).
Proof.
  intros Hs. unfold run_iter, take_task, bind at 1. simpl.
  rewrite pick_split by exact (queue_live _ _ _ _ _ Hs). unfold taken, rest_of.
  destruct (split_eligible _ t _) as [[[pre it] post]|]; simpl.
  - by destruct (_ || _).
  - by destruct (existsb _ _).
Qed.

Lemma rest_of_sub t m idle cb s it :
  serving t m idle cb s → taken t s = Some it →
  it ∈ m_fibers (p_sched s) ∧ m_fibers (p_sched s) ≠ [] ∧
  (∀ it, it ∈ rest_of t s → it ∈ m_fibers (p_sched s)) ∧
  NoDup (omap handle_of (rest_of t s)) ∧
  (∀ f, handle_of it = Some f → f ∉ omap handle_of (rest_of t s)).
Proof.
  intros Hs. unfold taken, rest_of.
  destruct (split_eligible _ t _) as [[[pre it'] post]|] eqn:E; [|done]. intros [= ->].
  apply split_eligible_Some in E as (Eq & _ & _).
  pose proof (sv_nodup _ _ _ _ _ Hs) as Hnd. rewrite Eq in *.
  assert (Hperm : pre ++ it :: post ≡ₚ it :: pre ++ post) by by rewrite Permutation_middle.
  assert (Hnd2 : NoDup (omap handle_of (it :: pre ++ post))).
  { rewrite omap_app in Hnd. simpl in *. rewrite omap_app.
    destruct (handle_of it); [|done]. by rewrite <- Permutation_middle in Hnd. }
  split; [set_solver|]. split; [by destruct pre|]. split; [set_solver|].
  simpl in Hnd2. destruct (handle_of it) as [g|].
  - apply NoDup_cons in Hnd2 as [? ?]. split; [done|]. by intros f [= <-].
  - by split.
Qed.

Lemma rest_of_none t s : taken t s = None → rest_of t s = m_fibers (p_sched s).
Proof. unfold taken, rest_of. by destruct (split_eligible _ t _) as [[[]]|]. Qed.

Lemma with_fibers_same (c : Scheduler body) : with_fibers (m_fibers c) c = c.
Proof. by destruct c. Qed.
Lemma push_with_fibers q a (c : Scheduler body) : push a (with_fibers q c) = with_fibers (q ++ a) c.
Proof. done. Qed.

(** A round that runs a job. *)
Lemma round_fiber e t m idle cb f x k s :
  serving t m idle cb s → (∃ thr, taken t s = Some (MkTask (IsFiber (Some f)) thr)) →
  heap (p_fibers s) !! f = Some x → m_ctx x = Some (PBody MainFunc f (Job k)) →
  ∃ s', run_iter exec_body e t idle cb s = Ok ((cb, false), s') ∧ serving t m idle cb s' ∧
    p_log s' = p_log s ++ job_out k ∧
    p_sched s' = with_fibers (rest_of t s ++ job_tasks k ++ requeue f (job_end k)) (p_sched s) ∧
    heap (p_fibers s') !! f = Some (left_by f (job_end k) x).
Proof.
  intros Hs [thr Ht] Hx Hc.
  destruct (rest_of_sub _ _ _ _ _ _ Hs Ht) as (Hin & Hne & Hsub & Hnd & Hnf).
  destruct (sv_queue _ _ _ _ _ Hs _ Hin) as (f' & x' & k' & [= <-] & Hfm & Hfi & Hx' & Hst & Hstk & Hc').
  rewrite Hx in Hx'. injection Hx' as <-. rewrite Hc in Hc'. injection Hc' as <-.
  rewrite (run_iter_taken _ _ _ _ _ _ Hs), Ht. simpl.
  destruct (run_fiber_job e t f m k x
              (MkProcess (p_fibers s) (with_fibers (rest_of t s) (p_sched s)) (p_log s)))
    as (F' & Hrun & Hf); try done; try apply Hs.
  rewrite (bind_step _ _ _ _ _ Hrun). eexists; split; [done|]. simpl.
  rewrite push_with_fibers. split; [|split; [done|split; [done|exact (fs_at _ _ _ _ _ _ Hf)]]].
  eapply serving_after; try done; eauto.
  intros b Hb. rewrite Hb. simpl. split; [done|].
  destruct (job_end_job k b Hb) as [k' ->]. eauto.
Qed.
Definition cb_settled (cb : option Z) (F : Fibers body) : Prop :=
  ∀ c, cb = Some c → ∃ x, heap F !! c = Some x ∧ m_stack x = true ∧ settled (m_state x) = true.

Lemma round_callback e t m idle cb k s :
  serving t m idle cb s → (∃ thr, taken t s = Some (MkTask (IsCb (Some (Job k))) thr)) →
  cb_settled cb (p_fibers s) →
  ∃ c x s', run_iter exec_body e t idle cb s = Ok ((cb_after c (job_end k), false), s') ∧
    serving t m idle (cb_after c (job_end k)) s' ∧
    p_log s' = p_log s ++ job_out k ∧
    p_sched s' = with_fibers (rest_of t s ++ job_tasks k ++ requeue c (job_end k)) (p_sched s) ∧
    heap (p_fibers s') !! c = Some (finished c (job_end k) x) ∧ m_stack x = true.
Proof.
  intros Hs [thr Ht] Hset.
  destruct (rest_of_sub _ _ _ _ _ _ Hs Ht) as (Hin & Hne & Hsub & Hnd & _).
  rewrite (run_iter_taken _ _ _ _ _ _ Hs), Ht. simpl.
  destruct (run_callback_job e t m cb k
              (MkProcess (p_fibers s) (with_fibers (rest_of t s) (p_sched s)) (p_log s)))
    as (c & x & F' & Hrun & Hf & Hcm & Hstk & Hwhich); try apply Hs.
  { intros a Ha. split; [by apply (sv_cb _ _ _ _ _ Hs)|by apply Hset]. }
  exists c, x. rewrite (bind_step _ _ _ _ _ Hrun). eexists; split; [done|]. simpl.
  rewrite push_with_fibers. split; [|split; [done|split; [done|split; [exact (fs_at _ _ _ _ _ _ Hf)|done]]]].
  assert (Hci : c ≠ idle).
  { destruct Hwhich as [->|[_ ->]]; [by apply (sv_cb _ _ _ _ _ Hs)|]. simpl. intros <-.
    destruct (sv_idle _ _ _ _ _ Hs) as (y & Hy & _).
    pose proof (sv_fresh _ _ _ _ _ Hs _ (mk_is_Some _ _ Hy)). lia. }
  eapply serving_after; try done.
  - intros (it & Hit & Hh)%list_elem_of_omap. apply Hsub, (sv_queue _ _ _ _ _ Hs) in Hit.
    unfold task_ok, handle_of in *. destruct (what it) as [o|]; [|done]. subst o.
    destruct Hit as (f & y & k' & [= <-] & _ & _ & Hy & Hst & _).
    destruct Hwhich as [->|[_ ->]].
    + destruct (Hset c eq_refl) as (z & Hz & _ & Hz'). rewrite Hy in Hz. injection Hz as <-.
      by rewrite Hst in Hz'.
    + pose proof (sv_fresh _ _ _ _ _ Hs _ (mk_is_Some _ _ Hy)). simpl in *. lia.
  - by destruct (job_end k).
  - intros b Hb. rewrite Hb. simpl. split; [done|].
    destruct (job_end_job k b Hb) as [k' ->]. eauto.
  - intros a Ha. left. by destruct (job_end k); simplify_eq/=.
Qed.

(** A round that finds nothing to run. *)
Lemma round_idle e t m idle cb x s :
  serving t m idle cb s →
  match what (default task_reset (taken t s)) with IsFiber o => o = None | IsCb o => o = None end →
  heap (p_fibers s) !! idle = Some x → idle_point idle x →
  ∃ F', run_iter exec_body e t idle cb s =
      Ok ((cb, false), MkProcess F' (with_fibers (rest_of t s) (p_sched s)) (p_log s)) ∧
    fib_step t m idle (left_by idle (idle_end (with_fibers (rest_of t s) (p_sched s))) x) (p_fibers s) F'.
Proof.
  intros Hs Ht Hx Hp. rewrite (run_iter_taken _ _ _ _ _ _ Hs).
  destruct (run_idle_base e t m idle x
              (MkProcess (p_fibers s) (with_fibers (rest_of t s) (p_sched s)) (p_log s)))
    as (F' & Hrun & Hf); try done;
    [by apply not_eq_sym, (sv_idle_ne _ _ _ _ _ Hs)|apply Hs..|].
  exists F'. destruct (what _) as [[]|[]]; try done; by rewrite (bind_step _ _ _ _ _ Hrun).
Qed.

Lemma serving_idle t m idle cb s x q F' :
  serving t m idle cb s → fib_step t m idle (left_by idle (idle_end (with_fibers q (p_sched s))) x)
    (p_fibers s) F' →
  (∀ it, it ∈ q → it ∈ m_fibers (p_sched s)) → NoDup (omap handle_of q) →
  serving t m idle cb (MkProcess F' (with_fibers q (p_sched s)) (p_log s)).
Proof.
  intros [] Hf Hsub Hnd. pose proof Hf as [Hat Hoth Hlive Hmain Hfr]. split; simpl; try done.
  - exact (Hfr sv_fresh0).
  - eexists; split; [exact Hat|]. unfold idle_end, idle_point. destruct (base_stopping (with_fibers q (p_sched s))) eqn:E; simpl; [by right|by left; right].
  - intros it Hit. apply Hsub, sv_queue0 in Hit. eapply task_ok_step; [done| |done].
    unfold task_ok, handle_of in *. destruct (what it); [|done]. naive_solver.
  - intros c Hc. destruct (sv_cb0 c Hc) as (? & ? & y & ? & ?). rewrite Hoth by done. eauto.
Qed.
Lemma base_stopping_empty (c : Scheduler body) : base_stopping c = true → m_fibers c = [].
Proof.
  unfold base_stopping. rewrite !andb_true_iff, bool_decide_eq_true.
  intros [[_ H] _]. by apply nil_length_inv.
Qed.

Lemma round_end e t m idle cb x s :
  serving t m idle cb s → heap (p_fibers s) !! idle = Some x → m_state x = TERM →
  m_fibers (p_sched s) = [] →
  run_iter exec_body e t idle cb s = Ok ((cb, true), s).
Proof.
  intros Hs Hx Hst Hq. rewrite (run_iter_taken _ _ _ _ _ _ Hs).
  assert (MkProcess (p_fibers s) (with_fibers (rest_of t s) (p_sched s)) (p_log s) = s) as ->.
  { unfold rest_of. rewrite Hq. simpl. rewrite <- Hq, with_fibers_same. by destruct s. }
  assert (Hidle : run_idle exec_body e t idle s = Ok (true, s)).
  { unfold run_idle. rewrite (bind_step _ _ _ _ _ (getState_at _ _ _ Hx)).
    by rewrite bool_decide_true. }
  unfold taken. rewrite Hq. simpl. by rewrite (bind_step _ _ _ _ _ Hidle).
Qed.

Lemma run_callback_settled e t cb b s r s' :
  run_callback exec_body e t cb b s = Ok (r, s') → cb_settled cb (p_fibers s).
Proof.
  unfold run_callback. intros (c & s1 & H & _)%bind_ok a ->.
  apply bind_ok in H as (u & s2 & H & _). unfold on_fibers, reset in H. simpl in H.
  destruct (bind _ _ _) as [[u' F]|] eqn:E; [|done].
  apply bind_ok in E as (x & F1 & Hx & E). apply fiber_at_ok in Hx as [Hx ->].
  apply bind_ok in E as (? & ? & H1 & E). apply assert_ok in H1 as [H1 ->].
  apply bind_ok in E as (? & ? & H2 & E). apply assert_ok in H2 as [H2 ->]. eauto.
Qed.

(** The loop's invariant is preserved by a round, and a round that ends the loop
    ends it in a state that is stopping. *)
Lemma round_ok e t m idle cb s cb' stop s' :
  serving t m idle cb s → run_iter exec_body e t idle cb s = Ok ((cb', stop), s') →
  serving t m idle cb' s' ∧ (stop = true → base_stopping (p_sched s') = true) ∧
  m_stopping (p_sched s') = m_stopping (p_sched s).
Proof.
  intros Hs Hrun. destruct (sv_idle _ _ _ _ _ Hs) as (y & Hy & Hidle).
  assert (Hcase : (∃ f, ∃ thr, taken t s = Some (MkTask (IsFiber (Some f)) thr)) ∨
    (∃ b, ∃ thr, taken t s = Some (MkTask (IsCb (Some b)) thr)) ∨
    match what (default task_reset (taken t s)) with IsFiber o => o = None | IsCb o => o = None end).
  { destruct (taken t s) as [[[[f|]|[b|]] thr]|]; simpl; eauto 10. }
  destruct Hcase as [(f & thr & Ht)|[(b & thr & Ht)|Ht]].
  - destruct (rest_of_sub _ _ _ _ _ _ Hs Ht) as (Hin & _).
    destruct (sv_queue _ _ _ _ _ Hs _ Hin) as (f' & x & k & [= <-] & _ & _ & Hx & _ & _ & Hc).
    destruct (round_fiber e t m idle cb f x k s Hs (ex_intro _ _ Ht) Hx Hc) as (s2 & Hr & Hs2 & _ & Hsch & _).
    rewrite Hr in Hrun. injection Hrun as <- <- <-. by rewrite Hsch.
  - destruct (rest_of_sub _ _ _ _ _ _ Hs Ht) as (Hin & _).
    destruct (sv_queue _ _ _ _ _ Hs _ Hin b eq_refl) as [k ->].
    assert (Hset : cb_settled cb (p_fibers s)).
    { rewrite (run_iter_taken _ _ _ _ _ _ Hs), Ht in Hrun.
      apply bind_ok in Hrun as (c & s1 & H & _). exact (run_callback_settled _ _ _ _ _ _ _ H). }
    destruct (round_callback e t m idle cb k s Hs (ex_intro _ _ Ht) Hset) as (c & x & s2 & Hr & Hs2 & _ & Hsch & _).
    rewrite Hr in Hrun. injection Hrun as <- <- <-. by rewrite Hsch.
  - destruct Hidle as [Hp|[Hst Hb]].
    + destruct (round_idle e t m idle cb y s Hs Ht Hy Hp) as (F' & Hr & Hf).
      rewrite Hr in Hrun. injection Hrun as <- <- <-. split; [|done].
      assert (Hsub : (∀ it, it ∈ rest_of t s → it ∈ m_fibers (p_sched s)) ∧
                     NoDup (omap handle_of (rest_of t s))).
      { destruct (taken t s) as [it|] eqn:E.
        - by destruct (rest_of_sub _ _ _ _ _ _ Hs E) as (_ & _ & ? & ? & _).
        - rewrite rest_of_none by done. split; [auto|by apply Hs]. }
      eapply serving_idle; naive_solver.
    + rewrite (round_end e t m idle cb y s Hs Hy Hst (base_stopping_empty _ Hb)) in Hrun.
      by injection Hrun as <- <- <-.
Qed.

Lemma run_loop_ok envs t m idle cb s u s' :
  serving t m idle cb s → run_loop exec_body envs t idle cb s = Ok (u, s') →
  base_stopping (p_sched s') = true ∧ m_stopping (p_sched s') = m_stopping (p_sched s).
Proof.
  revert cb s. induction envs as [|e envs IH]; intros cb s Hs; [done|]. simpl.
  intros ([cb' stop] & s1 & Hr & H)%bind_ok. simpl in H.
  destruct (round_ok _ _ _ _ _ _ _ _ _ Hs Hr) as (Hs1 & Hstop & <-).
  destruct stop; [|by eauto]. apply ret_ok in H as [_ ->]. auto.
Qed.

(** ** Before the loop *)

(** Thread [t] may call [run]: only jobs are queued, the counters are in range, and
    on the scheduler's own thread [t_fiber] of scheduler.cc is set. *)
Record can_run (t : Z) (s : process) : Prop := {
  cr_fresh : fresh (p_fibers s);
  cr_active : is_u64 (m_active_thread_count (p_sched s));
  cr_idle : is_u64 (m_idle_thread_count (p_sched s));
  cr_queue : ∀ it, it ∈ m_fibers (p_sched s) →
    ∃ o, what it = IsCb o ∧ ∀ b, o = Some b → ∃ k, b = Job k;
  cr_thread : if t =? m_root_thread_id (p_sched s)
    then ∃ m, t_main (locals_of (p_fibers s) t) = Some m ∧ is_Some (heap (p_fibers s) !! m)
    else ∀ g, t_fiber (locals_of (p_fibers s) t) = Some g → is_Some (heap (p_fibers s) !! g);
}.

Definition on_thread (t : Z) (c : Scheduler body) : Scheduler body :=
  with_locals ({[t]} ∪ t_scheduler c) ({[t]} ∪ t_hook_enable c) c.
Definition set_main (m : Z) (l : thread_locals) : thread_locals :=
  MkLocals (t_fiber l) (t_threadFiber l) (Some m).

(** [t_fiber = Fiber::GetThis().get()] *)
Lemma main_from_GetThis t F (r : Scheduler body) l :
  fresh F → (∀ g, t_fiber (locals_of F t) = Some g → is_Some (heap F !! g)) →
  ∃ m F', (let* m := on_fibers (GetThis t) in on_fibers (modify (upd_locals t (set_main m))))
            (MkProcess F r l) = Ok (tt, MkProcess F' r l) ∧
    t_main (locals_of F' t) = Some m ∧ is_Some (heap F' !! m) ∧ fresh F'.
Proof.
  intros Hfr Hg. destruct (t_fiber (locals_of F t)) as [g|] eqn:E.
  - exists g. eexists. erewrite bind_step.
    2: { unfold on_fibers. cbn [fibers process_fibers p_fibers]. by rewrite (GetThis_ok t g). }
    split; [done|]. rewrite locals_of_upd. by auto.
  - exists (next_address F). eexists. erewrite bind_step.
    2: { unfold on_fibers. cbn [fibers process_fibers p_fibers]. by rewrite GetThis_new. }
    split; [done|]. rewrite locals_of_upd. simpl. split; [done|].
    rewrite lookup_insert_eq. split; [done|]. intros a. simpl.
    destruct (decide (a = next_address F)) as [->|Ha]; [lia|].
    rewrite lookup_insert_ne by done. intros H. specialize (Hfr a H). lia.
Qed.

(** The idle fiber of [run]. *)
Lemma new_idle t m F (r : Scheduler body) l :
  fresh F → t_main (locals_of F t) = Some m → is_Some (heap F !! m) →
  is_u64 (m_active_thread_count r) → is_u64 (m_idle_thread_count r) →
  (∀ it, it ∈ m_fibers r → ∃ o, what it = IsCb o ∧ ∀ b, o = Some b → ∃ k, b = Job k) →
  ∃ x F', on_fibers (Fiber_ctor (Some Idle) 0 false) (MkProcess F r l) =
            Ok (next_address F, MkProcess F' r l) ∧
    serving t m (next_address F) None (MkProcess F' r l) ∧
    heap F' !! next_address F = Some x ∧ idle_point (next_address F) x.
Proof.
  intros Hfr Hm Hlive Ha Hi Hq.
  exists (MkFiber (u64 (s_fiber_id F + 1)) (u32 (fiber_stack_size F)) INIT
               (Some (PEntry MainFunc)) true (Some Idle)).
  eexists. unfold on_fibers. cbn [fibers process_fibers p_fibers]. rewrite Fiber_ctor_eq.
  split; [done|].
  assert (Hne : next_address F ≠ m) by (specialize (Hfr m Hlive); lia).
  split; [|split; [by simpl; rewrite lookup_insert_eq|left; done]].
  split; simpl; try done.
  - by rewrite lookup_insert_ne.
  - intros a. simpl. destruct (decide (a = next_address F)) as [->|Hb]; [lia|].
    rewrite lookup_insert_ne by done. intros H. specialize (Hfr a H). lia.
  - eexists. rewrite lookup_insert_eq. split; [done|]. left; left. done.
  - intros it Hit. destruct (Hq it Hit) as (o & Ho & Hb). unfold task_ok. by rewrite Ho.
  - assert (omap handle_of (m_fibers r) = []) as ->; [|constructor].
    clear -Hq. induction (m_fibers r) as [|it q IH]; [done|]. simpl.
    destruct (Hq it ltac:(by left)) as (o & Ho & _). unfold handle_of at 1. rewrite Ho.
    apply IH. intros it' Hit'. apply Hq. by right.
Qed.

Lemma run_setup_ok t s :
  can_run t s →
  ∃ m idle x F', run_setup t s = Ok (idle, MkProcess F' (on_thread t (p_sched s)) (p_log s)) ∧
    serving t m idle None (MkProcess F' (on_thread t (p_sched s)) (p_log s)) ∧
    heap F' !! idle = Some x ∧ idle_point idle x.
Proof.
  intros [Hfr Ha Hi Hq Ht]. destruct s as [F r l]. simpl in *.
  unfold run_setup, modify_sched, get_sched. do 3 step_in. simpl.
  destruct (t =? m_root_thread_id r) eqn:E.
  - destruct Ht as (m & Hm & Hlive).
    destruct (new_idle t m F (on_thread t r) l Hfr Hm Hlive Ha Hi Hq) as (x & F' & Hc & Hs & Hx & Hp).
    exists m, (next_address F), x, F'. simpl. by step_in.
  - destruct (main_from_GetThis t F (on_thread t r) l Hfr Ht) as (m & F1 & HG & Hm & Hlive & Hfr1).
    destruct (new_idle t m F1 (on_thread t r) l Hfr1 Hm Hlive Ha Hi Hq) as (x & F' & Hc & Hs & Hx & Hp).
    exists m, (next_address F1), x, F'. simpl. erewrite bind_step; [|exact HG]. done.
Qed.
Lemma run_ok envs t s u s' :
  can_run t s → run exec_body envs t s = Ok (u, s') →
  base_stopping (p_sched s') = true ∧ m_stopping (p_sched s') = m_stopping (p_sched s).
Proof.
  intros Hc. destruct (run_setup_ok t s Hc) as (m & idle & x & F' & Hsetup & Hs & _).
  unfold run. rewrite (bind_step _ _ _ _ _ Hsetup). apply (run_loop_ok _ _ _ _ _ _ _ _ Hs).
Qed.

(** ** Draining the queue *)

(** A job that does not yield and schedules only such jobs, on thread [t] or on any. *)
Fixpoint plain (t : Z) (k : job) : bool :=
  match k with
  | JReturn | JThrow => true
  | JYieldReady _ | JYieldHold _ => false
  | JEmit _ k' => plain t k'
  | JSchedule j thr k' => ((thr =? -1) || (thr =? t)) && plain t j && plain t k'
  end.
Fixpoint spawned (k : job) : list job :=
  match k with
  | JEmit _ k' => spawned k'
  | JSchedule j _ k' => j :: spawned k'
  | _ => []
  end.
(** How many jobs run because of [k], itself included. *)
Fixpoint total (k : job) : nat :=
  match k with
  | JReturn | JThrow => 1
  | JYieldReady k' | JYieldHold k' | JEmit _ k' => total k'
  | JSchedule j _ k' => total j + total k'
  end.
Definition totals (js : list job) : nat := sum_list_with total js.

(** First in, first out: what [n] jobs starting with those of the queue log. *)
Fixpoint fifo (n : nat) (js : list job) : list Z :=
  match n, js with
  | Datatypes.S n', k :: js' => job_out k ++ fifo n' (js' ++ spawned k)
  | _, _ => []
  end.

Definition plain_task (t : Z) (it : Fiber_and_Thread body) (j : job) : Prop :=
  what it = IsCb (Some (Job j)) ∧ (thread it = -1 ∨ thread it = t) ∧ plain t j = true.

Lemma total_spawned t k : plain t k = true → total k = Datatypes.S (totals (spawned k)).
Proof.
  induction k; simpl; try done. intros [[_ _]%andb_true_iff Hk]%andb_true_iff.
  rewrite IHk2 by done. lia.
Qed.
Lemma plain_end t k : plain t k = true → job_end k = Returned ∨ job_end k = Threw.
Proof.
  induction k; simpl; try done; auto. intros [_ Hk]%andb_true_iff. auto.
Qed.
Lemma plain_tasks t k : plain t k = true → Forall2 (plain_task t) (job_tasks k) (spawned k).
Proof.
  induction k; simpl; try done; auto.
  intros [[Ht Hj]%andb_true_iff Hk]%andb_true_iff. constructor; [|auto].
  split; [done|]. split; [|done]. simpl. apply orb_true_iff in Ht. lia.
Qed.
Lemma plain_eligible t so it j : plain_task t it j → eligible so t it = true.
Proof.
  intros (Hw & Ht & _). unfold eligible, foreign, executing. rewrite Hw.
  destruct Ht as [->| ->]; simpl; [done|]. rewrite Z.eqb_refl. by rewrite andb_false_r.
Qed.

Definition drained (s : process) : Prop :=
  m_auto_stop (p_sched s) = true ∧ m_stopping (p_sched s) = true ∧
  m_active_thread_count (p_sched s) = 0.

Lemma drain_loop n envs t m idle cb js s :
  serving t m idle cb s → cb_settled cb (p_fibers s) → drained s →
  Forall2 (plain_task t) (m_fibers (p_sched s)) js → totals js = n → (n + 2 <= length envs)%nat →
  ∃ s', run_loop exec_body envs t idle cb s = Ok (tt, s') ∧ p_log s' = p_log s ++ fifo n js.
Proof.
  revert envs cb js s. induction n as [|n IH]; intros [|e envs] cb js s Hs Hset Hd Hq Hn Hlen;
    try (simpl in Hlen; lia); destruct js as [|k js].
  2: { destruct (Forall2_cons_inv_r _ _ _ _ Hq) as (it & q & (_ & _ & Hp) & _).
       simpl in Hn. rewrite (total_spawned t) in Hn by done. lia. }
  - apply Forall2_nil_inv_r in Hq. simpl. rewrite app_nil_r.
    destruct Hd as (Hauto & Hstop & Hact).
    assert (Hb : base_stopping (p_sched s) = true).
    { unfold base_stopping. by rewrite Hauto, Hstop, Hact, Hq. }
    destruct (sv_idle _ _ _ _ _ Hs) as (y & Hy & [Hp|[Hst _]]).
    + assert (Hno : taken t s = None) by (unfold taken; by rewrite Hq).
      destruct (round_idle e t m idle cb y s Hs) as (F' & Hr & Hf); try done; [by rewrite Hno|].
      rewrite rest_of_none, with_fibers_same in Hr, Hf by done.
      rewrite (bind_step _ _ _ _ _ Hr). simpl.
      destruct envs as [|e' envs]; [simpl in Hlen; lia|]. simpl.
      assert (Hs' : serving t m idle cb (MkProcess F' (p_sched s) (p_log s))).
      { rewrite <- (with_fibers_same (p_sched s)).
        eapply serving_idle; [done|by rewrite with_fibers_same|auto|apply Hs]. }
      eexists. erewrite bind_step.
      2: { eapply round_end; [done|exact (fs_at _ _ _ _ _ _ Hf)| |done].
           unfold idle_end. by rewrite Hb. }
      done.
    + eexists. erewrite bind_step; [|by eapply round_end]. done.
  - simpl in Hn. lia.
  - destruct (Forall2_cons_inv_r _ _ _ _ Hq) as (it & q & Hit & Hq' & Eq).
    pose proof (plain_eligible t (state_of (p_fibers s)) it k Hit) as Hel.
    assert (taken t s = Some it ∧ rest_of t s = q) as [Ht Hrest].
    { unfold taken, rest_of. rewrite Eq. simpl. by rewrite Hel. }
    destruct it as [w thr]. destruct Hit as (Hw & _ & Hp). simpl in Hw. subst w.
    destruct (round_callback e t m idle cb k s Hs (ex_intro _ _ Ht) Hset)
      as (c & x & s1 & Hr & Hs1 & Hlog & Hsch & Hc & Hstk).
    simpl. rewrite (bind_step _ _ _ _ _ Hr). simpl.
    destruct (IH envs (cb_after c (job_end k)) (js ++ spawned k) s1) as (s' & Hrun & Hlog').
    + done.
    + intros c' Hc'. destruct (plain_end t k Hp) as [He|He]; rewrite He in Hc, Hc'; injection Hc' as <-;
        eexists; (split; [exact Hc|]); done.
    + destruct Hd as (? & ? & ?). unfold drained. by rewrite Hsch.
    + rewrite Hsch, Hrest. simpl. apply Forall2_app; [done|].
      replace (requeue c (job_end k)) with (@nil (Fiber_and_Thread body)); [|by destruct (plain_end t k Hp) as [-> | ->]].
      rewrite app_nil_r. by apply plain_tasks.
    + simpl in Hn. rewrite (total_spawned t) in Hn by done. unfold totals in *.
      rewrite sum_list_with_app. lia.
    + simpl in Hlen. lia.
    + exists s'. split; [done|]. by rewrite Hlog', Hlog, (assoc_L (++)).
Qed.
(** ** Properties *)

(** C22: when one thread executes [run] without interference from others, [run] returns only
    when the scheduler has stopped: [stop] was asked for, the queue is empty and the count
    of threads running a task is zero.  (Until then, the idle fiber keeps the loop going.)
    With several threads, one may leave while another has taken a task and not yet counted
    itself (Workers.v). *)
Theorem run_returns_only_when_stopping envs t s u s' :
  can_run t s → run exec_body envs t s = Ok (u, s') →
  m_fibers (p_sched s') = [] ∧ m_active_thread_count (p_sched s') = 0 ∧
  m_stopping (p_sched s') = true ∧ m_auto_stop (p_sched s') = true.
Proof.
  intros Hc Hrun. destruct (run_ok _ _ _ _ _ Hc Hrun) as [Hb _].
  pose proof (base_stopping_empty _ Hb). unfold base_stopping in Hb.
  rewrite !andb_true_iff, Z.eqb_eq in Hb. naive_solver.
Qed.

(** C21: a stopped scheduler drains its queue.  With the queue holding callbacks that
    run to completion, each free to schedule more of them, [run] terminates: as many
    rounds as there are callbacks, direct and indirect, and two more are enough.  They run
    in first-in first-out order, each exactly once, one that throws included. *)
Theorem run_drains_fifo envs t js s :
  can_run t s → drained s → Forall2 (plain_task t) (m_fibers (p_sched s)) js →
  (totals js + 2 <= length envs)%nat →
  ∃ s', run exec_body envs t s = Ok (tt, s') ∧
    p_log s' = p_log s ++ fifo (totals js) js ∧ m_fibers (p_sched s') = [].
Proof.
  intros Hc Hd Hq Hlen.
  destruct (run_setup_ok t s Hc) as (m & idle & x & F' & Hsetup & Hs & _).
  destruct (drain_loop (totals js) envs t m idle None js _ Hs) as (s' & Hrun & Hlog); try done.
  exists s'. unfold run. rewrite (bind_step _ _ _ _ _ Hsetup). split; [done|]. split; [done|].
  apply base_stopping_empty. by eapply run_loop_ok.
Qed.

(** A callback that yields ready while another callback is queued behind it
    stops the process: the loop keeps the yielded fiber as [cb_fiber] and resets it
    for the next callback, which the assertion in [Fiber::reset] refuses. *)
Theorem ready_callback_is_reset envs e1 e2 t m idle cb k1 k2 b thr1 thr2 rest s :
  serving t m idle cb s → cb_settled cb (p_fibers s) →
  m_fibers (p_sched s) = MkTask (IsCb (Some (Job k1))) thr1 :: MkTask (IsCb (Some (Job k2))) thr2 :: rest →
  thr1 = -1 ∨ thr1 = t → thr2 = -1 ∨ thr2 = t → job_end k1 = YieldedReady b →
  run_loop exec_body (e1 :: e2 :: envs) t idle cb s =
    Fault (AssertFailed "m_state == INIT || m_state == TERM || m_state == EXCPT").
Proof.
  intros Hs Hset Hq Ht1 Ht2 Hend.
  assert (Hel : ∀ so k thr, thr = -1 ∨ thr = t →
            eligible so t (MkTask (IsCb (Some (Job k))) thr) = true).
  { intros so k thr [->| ->]; unfold eligible, foreign; simpl; [done|].
    by rewrite Z.eqb_refl, andb_false_r. }
  assert (taken t s = Some (MkTask (IsCb (Some (Job k1))) thr1) ∧
          rest_of t s = MkTask (IsCb (Some (Job k2))) thr2 :: rest) as [Ht Hrest].
  { unfold taken, rest_of. rewrite Hq. simpl. by rewrite Hel. }
  destruct (round_callback e1 t m idle cb k1 s Hs (ex_intro _ _ Ht) Hset)
    as (c & x & s1 & Hr & Hs1 & _ & Hsch & Hc & Hstk).
  rewrite Hend, Hrest in *. simpl in Hc, Hs1, Hr, Hsch.
  cbn [run_loop]. rewrite (bind_step _ _ _ _ _ Hr). simpl. unfold bind at 1.
  rewrite (run_iter_taken _ _ _ _ _ _ Hs1).
  assert (taken t s1 = Some (MkTask (IsCb (Some (Job k2))) thr2)) as ->.
  { unfold taken. rewrite Hsch. simpl. by rewrite Hel. }
  simpl. unfold bind at 1, run_callback, bind at 1, bind at 1, on_fibers at 1.
  assert (reset (Some (Job k2)) c (p_fibers s1) =
    Fault (AssertFailed "m_state == INIT || m_state == TERM || m_state == EXCPT")) as Hreset.
  { unfold reset. erewrite bind_step by by apply fiber_at_ok.
    unfold bind, assert_. simpl. by rewrite Hstk. }
  cbn [fibers sched_fibers process_host process_fibers p_fibers]. by rewrite Hreset.
Qed.

(** The scheduler's own thread after the constructor and [start]. *)
Record started_by_caller (t r h : Z) (x : Fiber body) (s : process) : Prop := {
  sc_root : m_root_fiber (p_sched s) = Some r;
  sc_thread : m_root_thread_id (p_sched s) = t;
  sc_here : t ∈ t_scheduler (p_sched s) ∧ t ≠ -1;
  sc_running : m_stopping (p_sched s) = false;
  sc_fiber : heap (p_fibers s) !! r = Some x;
  sc_new : m_state x = INIT ∧ m_ctx x = Some (PEntry Caller_MainFunc) ∧ m_cb x = Some Run;
  sc_main : t_main (locals_of (p_fibers s) t) = Some r;
  sc_host : t_threadFiber (locals_of (p_fibers s) t) = Some h ∧ h ≠ r ∧ is_Some (heap (p_fibers s) !! h);
  sc_fresh : fresh (p_fibers s);
  sc_counts : is_u64 (m_active_thread_count (p_sched s)) ∧ is_u64 (m_idle_thread_count (p_sched s));
  sc_queue : ∀ it, it ∈ m_fibers (p_sched s) → ∃ o, what it = IsCb o ∧ ∀ b, o = Some b → ∃ k, b = Job k;
}.
(** The fibers inside the root fiber's [call]. *)
Definition called (t r h : Z) (F : Fibers body) : Fibers body := swapped t r h F.

Lemma call_save_ok t r h x F p :
  t_threadFiber (locals_of F t) = Some h → h ≠ r → is_Some (heap F !! h) →
  heap F !! r = Some x → m_state x ≠ EXEC → m_ctx x = Some p →
  call_save t r F = Ok (p, called t r h F).
Proof.
  intros Hh Hne [y Hy] Hx Hst Hp.
  unfold call_save, SetThis, setState, get_local, update_fiber, swapcontext.
  rewrite (bind_step _ _ _ tt _ eq_refl).
  erewrite bind_step by (by apply fiber_at_ok).
  rewrite bool_decide_true by done. rewrite (bind_step _ _ _ tt _ eq_refl).
  erewrite bind_step; [|erewrite bind_step by (by apply fiber_at_ok); reflexivity].
  rewrite (bind_step _ _ _ _ _ eq_refl).
  unfold locals_of in *. simpl. rewrite lookup_insert_eq. simpl.
  fold (locals_of F t) in Hh. rewrite Hh.
  rewrite (bind_step _ _ _ h _ eq_refl).
  erewrite bind_step; [|apply fiber_at_ok; split; [|done]; simpl; by rewrite lookup_alter_ne].
  rewrite (bind_step _ _ _ tt _ eq_refl).
  erewrite bind_step; [|apply fiber_at_ok; split; [|done]; simpl;
    rewrite lookup_alter_ne, lookup_alter_eq by done; by rewrite Hx].
  simpl. by rewrite Hp.
Qed.

(** [stop] on that thread runs the loop on the root fiber, in this state. *)
Definition calling (t r h : Z) (s : process) : process :=
  MkProcess (called t r h (p_fibers s))
    (with_stop (m_stopping (p_sched s)) true (p_sched s)) (p_log s).

Lemma stop_calls_run envs t r h x s :
  started_by_caller t r h x s →
  (∀ u s', run exec_body envs t (calling t r h s) ≠ Ok (u, s')) →
  ∃ e, run exec_body envs t (calling t r h s) = Fault e ∧ stop exec_body envs t s = Fault e.
Proof.
  intros [] Hrun. destruct sc_new0 as (Hst & Hctx & Hcb), sc_host0 as (Hh & Hne & Hlive), sc_here0.
  destruct (run exec_body envs t (calling t r h s)) as [[u s']|e] eqn:E; [by destruct (Hrun u s')|].
  exists e. split; [done|].
  set (s0 := MkProcess (p_fibers s) (with_stop (m_stopping (p_sched s)) true (p_sched s)) (p_log s)).
  assert (Hns : @stopping _ _ process_host s0 = Ok (false, s0)).
  { unfold stopping, process_host, gets, base_stopping. simpl. by rewrite sc_running0. }
  assert (Hcall : call (λ _, run exec_body envs t ;;; ret Returned) t r s0 = Fault e).
  { unfold call. erewrite bind_step.
    2: { apply on_fibers_ok. by eapply call_save_ok; try rewrite Hst. }
    unfold bind at 1. simpl. unfold enter. erewrite bind_step.
    2: { apply on_fibers_ok, (GetThis_ok t r). simpl. unfold called. by rewrite locals_swapped. }
    erewrite bind_step.
    2: { apply on_fibers_ok, fiber_at_ok. split; [|done].
         exact (swapped_lookup t r h (p_fibers s) x Hne sc_fiber0). }
    simpl. rewrite Hcb. unfold run_body, bind. unfold calling in E. simpl in *. by rewrite E. }
  unfold stop, modify_sched, get_sched. do 3 step_ok. simpl. fold s0. rewrite sc_root0.
  erewrite bind_step.
  2: { rewrite (bind_step _ _ _ _ _ (getState_at r x s0 sc_fiber0)), Hst. simpl.
       destruct (m_thread_count (p_sched s) =? 0); simpl; [exact Hns|reflexivity]. }
  cbn iota. do 2 step_ok. simpl. rewrite sc_thread0.
  rewrite (proj2 (Z.eqb_neq t (-1))) by done. simpl.
  erewrite bind_step; [|by rewrite bool_decide_true].
  unfold bind at 1. rewrite (bind_step _ _ _ _ _ Hns). by rewrite Hcall.
Qed.
Lemma calling_can_run t r h x s : started_by_caller t r h x s → can_run t (calling t r h s).
Proof.
  intros []. destruct sc_counts0. split; simpl; try done.
  - intros a. simpl. rewrite !lookup_alter_live. apply sc_fresh0.
  - rewrite sc_thread0, Z.eqb_refl. exists r. unfold called. rewrite locals_swapped. split; [done|].
    simpl. rewrite !lookup_alter_live. by eexists.
Qed.

(** With nothing to run and no stop requested, every round idles. *)
Lemma idles_forever envs t m idle cb x s :
  serving t m idle cb s → heap (p_fibers s) !! idle = Some x → idle_point idle x →
  m_fibers (p_sched s) = [] → m_stopping (p_sched s) = false →
  run_loop exec_body envs t idle cb s = Fault StillRunning.
Proof.
  revert x s. induction envs as [|e envs IH]; intros x s Hs Hx Hp Hq Hst; [done|].
  assert (Hno : taken t s = None) by (unfold taken; by rewrite Hq).
  assert (Hb : base_stopping (p_sched s) = false).
  { unfold base_stopping. by rewrite Hst, andb_false_r. }
  destruct (round_idle e t m idle cb x s Hs) as (F' & Hr & Hf); try done; [by rewrite Hno|].
  rewrite rest_of_none, with_fibers_same in Hr, Hf by done.
  simpl. rewrite (bind_step _ _ _ _ _ Hr). simpl.
  eapply IH; [|exact (fs_at _ _ _ _ _ _ Hf)| |done|done].
  - rewrite <- (with_fibers_same (p_sched s)).
    eapply serving_idle; [done|by rewrite with_fibers_same|auto|apply Hs].
  - unfold idle_end. rewrite Hb. by right.
Qed.

(** C40: stopping a started scheduler that counts its caller among its threads does
    not return: [stop] runs the loop on the root fiber before it sets [m_stopping],
    and the loop waits for [m_stopping].  With an empty queue it idles for ever. *)
Theorem stop_on_caller_never_returns envs t r h x s :
  started_by_caller t r h x s →
  (∀ u s', stop exec_body envs t s ≠ Ok (u, s')) ∧
  (m_fibers (p_sched s) = [] → stop exec_body envs t s = Fault StillRunning).
Proof.
  intros Hs. pose proof (calling_can_run _ _ _ _ _ Hs) as Hc.
  destruct (stop_calls_run envs t r h x s Hs) as (e & He & Hstop).
  { intros u s' Hrun. destruct (run_ok _ _ _ _ _ Hc Hrun) as [Hb Hm].
    unfold base_stopping in Hb. rewrite Hm in Hb. simpl in Hb.
    by rewrite (sc_running _ _ _ _ _ Hs), andb_false_r in Hb. }
  rewrite Hstop. split; [done|]. intros Hq. f_equal.
  destruct (run_setup_ok _ _ Hc) as (m & idle & y & F' & Hsetup & Hsv & Hy & Hp).
  unfold run in He. rewrite (bind_step _ _ _ _ _ Hsetup) in He.
  rewrite (idles_forever _ _ _ _ _ _ _ Hsv Hy Hp) in He; [congruence|done|].
  apply (sc_running _ _ _ _ _ Hs).
Qed.

(** ** Instances *)
Section instances.
Definition no_process (root : Z) (st : bool) (q : list (Fiber_and_Thread body)) : process :=
  MkProcess (no_fibers 1024)
    (MkScheduler q [] [] 1 None root 0 0 st true ∅ ∅) [].
Definition demo_queue : list (Fiber_and_Thread body) :=
  [ MkTask (IsCb (Some (Job (JEmit 1 (JSchedule (JEmit 3 JReturn) (-1) JReturn))))) (-1);
    MkTask (IsCb (Some (Job (JEmit 2 JThrow)))) 7 ].
Definition demo_jobs : list job := [JEmit 1 (JSchedule (JEmit 3 JReturn) (-1) JReturn); JEmit 2 JThrow].

Lemma demo_can_run : can_run 7 (no_process (-1) true demo_queue).
Proof.
  split; try done; simpl.
  - by intros a [? ?].
  - intros it Hit. repeat (apply elem_of_cons in Hit as [->|Hit]); [eexists; split; [done|]..|].
    + intros b [= <-]; eauto.
    + intros b [= <-]; eauto.
    + by apply not_elem_of_nil in Hit.
Qed.
End instances.

Lemma schedule_appends_and_tickles_witness :
  ∃ s', schedule_range [IsCb (Some (Job JReturn)); IsFiber (Some 3)] (no_process 1 true demo_queue) =
          Ok ([IsCb None; IsFiber None], s') ∧
    m_fibers (p_sched s') =
      demo_queue ++ [MkTask (IsCb (Some (Job JReturn))) (-1); MkTask (IsFiber (Some 3)) (-1)].
Proof.
  destruct (schedule_appends_and_tickles [IsCb (Some (Job JReturn)); IsFiber (Some 3)]
              (no_process 1 true demo_queue)) as [Heq Hq].
  eexists. split; [reflexivity|]. exact (proj1 (Hq _ _ eq_refl)).
Defined.

Lemma run_returns_only_when_stopping_witness :
  ∃ s', run exec_body (replicate 5 tt) 7 (no_process (-1) true demo_queue) = Ok (tt, s') ∧
    m_fibers (p_sched s') = [] ∧ m_active_thread_count (p_sched s') = 0 ∧
    m_stopping (p_sched s') = true ∧ m_auto_stop (p_sched s') = true.
Proof.
  destruct (run exec_body (replicate 5 tt) 7 (no_process (-1) true demo_queue)) as [[[] s']|e] eqn:E.
  - exists s'. split; [done|]. exact (run_returns_only_when_stopping _ _ _ _ _ demo_can_run E).
  - exfalso. vm_compute in E. discriminate E.
Defined.

Lemma run_drains_fifo_witness :
  ∃ s', run exec_body (replicate 5 tt) 7 (no_process (-1) true demo_queue) = Ok (tt, s') ∧
    p_log s' = [1; 2; 3].
Proof.
  destruct (run_drains_fifo (replicate 5 tt) 7 demo_jobs (no_process (-1) true demo_queue) demo_can_run)
    as (s' & Hrun & Hlog & _).
  - by repeat split.
  - constructor; [by split; [|split; [left|]]|]. constructor; [by split; [|split; [right|]]|]. constructor.
  - vm_compute. lia.
  - exists s'. split; [exact Hrun|]. rewrite Hlog. reflexivity.
Defined.

Lemma ready_callback_is_reset_witness :
  run exec_body [tt; tt] 7
    (no_process (-1) true [MkTask (IsCb (Some (Job (JYieldReady JReturn)))) (-1);
                           MkTask (IsCb (Some (Job JReturn))) (-1)]) =
    Fault (AssertFailed "m_state == INIT || m_state == TERM || m_state == EXCPT").
Proof.
  assert (Hc : can_run 7 (no_process (-1) true
             [MkTask (IsCb (Some (Job (JYieldReady JReturn)))) (-1);
              MkTask (IsCb (Some (Job JReturn))) (-1)])).
  { split; try done; simpl.
    - by intros a [? ?].
    - intros it Hit. repeat (apply elem_of_cons in Hit as [->|Hit]); [eexists; split; [done|]..|].
      + intros b [= <-]; eauto.
      + intros b [= <-]; eauto.
      + by apply not_elem_of_nil in Hit. }
  destruct (run_setup_ok _ _ Hc) as (m & idle & x & F' & Hsetup & Hs & _).
  unfold run. rewrite (bind_step _ _ _ _ _ Hsetup).
  apply (ready_callback_is_reset [] tt tt 7 m idle None (JYieldReady JReturn) JReturn (Job JReturn) (-1) (-1) []);
    try done; by left.
Defined.

(** Thread 1 makes a scheduler of two threads that counts itself, and starts it. *)
Definition demo_started : process :=
  match (Scheduler_ctor 1 2 true ;;; start [2]) (no_process 0 true []) with
  | Ok (_, s) => s
  | Fault _ => no_process 0 true []
  end.
Lemma stop_on_caller_never_returns_witness :
  stop exec_body (replicate 9 tt) 1 demo_started = Fault StillRunning.
Proof.
  apply (stop_on_caller_never_returns (replicate 9 tt) 1 2 1
           (MkFiber 1 1024 INIT (Some (PEntry Caller_MainFunc)) true (Some Run))); [|by vm_compute].
  split; try by vm_compute.
  - split; [|done]. refine (bool_decide_unpack _ _). by vm_compute.
  - intros a. assert (dom (heap (p_fibers demo_started)) = {[1; 2]}) as Hd by by vm_compute.
    intros Ha%elem_of_dom. rewrite Hd in Ha.
    assert (next_address (p_fibers demo_started) = 3) as -> by by vm_compute. set_solver by lia.
  - assert (m_fibers (p_sched demo_started) = []) as -> by by vm_compute.
    intros it Hit. by apply not_elem_of_nil in Hit.
Defined.
End SchedulerRuns.
