(* ===== verification/Workers.v ===== *)
(** * The threads of a scheduler

    [Scheduler::run] on several threads at once: where each thread is in the loop, what
    it does before another thread can act, and the steps of a pool of such threads over
    the state they share.

    A thread is cut at every place where others can act in between: before and after the
    critical section that takes a task, before and after it changes one of the atomic
    counters, at each switch, and between an assignment to a fiber's state and the switch
    that follows it.  What a body does between two switches is one step. *)
From stdpp Require Import base gmap list strings.
From Stdlib Require Import ZArith Lia.
From S2P Require Import Prelude Fibers Schedulers.
Open Scope Z_scope.

Module Worker.
Import Fiber Scheduler.

(** What a thread switches to: a fiber from the queue, [cb_fiber], [idle_fiber]. *)
Inductive duty := Serve (f : Z) | Callback (c : Z) | Idling.

(** Where a thread is in [run]. *)
Inductive place (B : Type) :=
  (* Before the loop; at its top. *)
  | Starting
  | Top
  (* The lock is released; [tickle] has been called. *)
  | Searched (r : pick_result B)
  | Holding (ft : fiber_or_cb B)
  (* Before its counter is raised; before [swapIn]. *)
  | Chosen (d : duty)
  | Counted (d : duty)
  (* In the fiber: control arrives; the body gives up control; its state is set. *)
  | Arrived (d : duty) (p : point B)
  | Gave (d : duty) (e : entry) (cur : Z) (seg : segment B)
  | Marked (d : duty) (e : entry) (cur : Z) (here : point B)
  (* Back in [run]: before the counter is lowered; before and after the state is read. *)
  | Returning (d : duty) (q : point B)
  | Uncounted (d : duty)
  | Decided (d : duty) (st : State)
  (* [run] has returned. *)
  | Left.
Arguments Starting {B}.
Arguments Top {B}.
Arguments Searched {B} r.
Arguments Holding {B} ft.
Arguments Chosen {B} d.
Arguments Counted {B} d.
Arguments Arrived {B} d p.
Arguments Gave {B} d e cur seg.
Arguments Marked {B} d e cur here.
Arguments Returning {B} d q.
Arguments Uncounted {B} d.
Arguments Decided {B} d st.
Arguments Left {B}.

(** The local variables of [run] and the place. *)
Record worker (B : Type) := MkWorker {
  idle_fiber : Z;
  cb_fiber : option Z;
  stands : place B;
}.
Arguments MkWorker {B} _ _ _.
Arguments idle_fiber {B} _.
Arguments cb_fiber {B} _.
Arguments stands {B} _.

Definition go {B} (p : place B) (w : worker B) : worker B := MkWorker (idle_fiber w) (cb_fiber w) p.
Definition fiber_of {B} (w : worker B) (d : duty) : Z :=
  match d with Serve f => f | Callback c => c | Idling => idle_fiber w end.

(** A fiber from the queue or [cb_fiber] that is ready goes to the queue again. *)
Definition requeues (d : duty) : bool := match d with Idling => false | _ => true end.

(** Places between the raising and the lowering of a counter. *)
Definition counted {B} (p : place B) : option duty :=
  match p with
  | Counted d | Arrived d _ | Gave d _ _ _ | Marked d _ _ _ | Returning d _ => Some d
  | _ => None
  end.
Definition is_active {B} (w : worker B) : bool :=
  match counted (stands w) with Some (Serve _ | Callback _) => true | _ => false end.
Definition is_idle {B} (w : worker B) : bool :=
  match counted (stands w) with Some Idling => true | _ => false end.

(** ** The two halves of a switch out of a fiber *)
Section switch.
Context {B : Type}.
Local Abbreviation FM := (M (Fibers B)).

(** What the entry function and the yielding functions set before they switch; the result
    is how they leave, which fiber, and where its control is. *)
Definition mark (t : Z) (e : entry) (cur : Z) (seg : segment B) : FM (entry * Z * point B) :=
  match seg with
  | Returned => update_fiber (set_cb None) cur ;;; setState TERM cur ;;; ret (e, cur, PEnd e cur)
  | Threw => setState EXCPT cur ;;; ret (e, cur, PEnd e cur)
  | YieldedReady k => let* c := GetThis t in setState READY c ;;; ret (MainFunc, c, PBody e cur k)
  | YieldedHold k => let* c := GetThis t in setState HOLD c ;;; ret (MainFunc, c, PBody e cur k)
  | SwappedOut k => let* c := GetThis t in ret (MainFunc, c, PBody e cur k)
  end.

(** The switch. *)
Definition depart (t : Z) (e : entry) (cur : Z) (here : point B) : FM (point B) :=
  match e with
  | MainFunc => swapOut t cur here
  | Caller_MainFunc => back t cur here
  end.
End switch.

Section workers.
Context {B Env S : Type} `{!SchedulerHost B S}.
Variable exec : Env → Z → B → M S (segment B).

Definition count_in (d : duty) (n : Z) : M S unit :=
  match d with Idling => add_idle n | _ => add_active n end.

(** The fiber's code, from a saved point to where its body gives up control. *)
Definition run_segment (e : Env) (t : Z) (p : point B) : M S (entry * Z * segment B) :=
  match p with
  | PEntry en =>
      let* cur := on_fibers (GetThis t) in
      let* x := on_fibers (fiber_at cur) in
      match m_cb x with
      | Some b => let* seg := exec e t b in ret (en, cur, seg)
      | None => ret (en, cur, Threw)
      end
  | PBody en cur k => let* seg := exec e t k in ret (en, cur, seg)
  | PEnd _ _ => fail (AssertFailed "Should not reach here.")
  | PWait _ | PHost => fail (AssertFailed "diverted")
  end.

(** The end of a round, once the state [st] has been read. *)
Definition conclude (w : worker B) (d : duty) (st : State) : M S (worker B) :=
  let c := fiber_of w d in
  if bool_decide (st = READY) && requeues d then
    schedule (IsFiber (Some c)) (-1) ;;; ret (go Top w)
  else if ended st then
    match d with Callback _ => on_fibers (reset None c) | _ => ret tt end ;;; ret (go Top w)
  else
    on_fibers (setState HOLD c) ;;;
    ret (match d with Callback _ => MkWorker (idle_fiber w) None Top | _ => go Top w end).

(** One step of thread [t]. *)
Definition advance (e : Env) (t : Z) (w : worker B) : M S (worker B) :=
  match stands w with
  | Starting => let* i := run_setup t in ret (MkWorker i None Top)
  | Top => let* r := take_task t in ret (go (Searched r) w)
  | Searched r =>
      when (tickle_me r) tickle ;;;
      ret (go (Holding (what (default task_reset (picked r)))) w)
  | Holding (IsFiber (Some f)) =>
      let* st := on_fibers (getState f) in
      ret (go (if bool_decide (st = TERM) then Top else Chosen (Serve f)) w)
  | Holding (IsCb (Some cb)) =>
      let* c :=
        match cb_fiber w with
        | Some c => on_fibers (reset (Some cb) c) ;;; ret c
        | None => on_fibers (Fiber_ctor (Some cb) 0 false)
        end in
      ret (MkWorker (idle_fiber w) (Some c) (Chosen (Callback c)))
  | Holding _ =>
      let* st := on_fibers (getState (idle_fiber w)) in
      ret (go (if bool_decide (st = TERM) then Left else Chosen Idling) w)
  | Chosen d => count_in d 1 ;;; ret (go (Counted d) w)
  | Counted d =>
      match d with
      | Callback c =>
          let* x := on_fibers (fiber_at c) in
          assert_ (bool_decide (is_Some (m_cb x))) "cb_fiber->m_cb"
      | _ => ret tt
      end ;;;
      let* p := on_fibers (swapIn_save t (fiber_of w d)) in
      ret (go (Arrived d p) w)
  | Arrived d p =>
      let* r := run_segment e t p in
      ret (go (Gave d (fst (fst r)) (snd (fst r)) (snd r)) w)
  | Gave d en cur seg =>
      let* r := on_fibers (mark t en cur seg) in
      ret (go (Marked d (fst (fst r)) (snd (fst r)) (snd r)) w)
  | Marked d en cur here =>
      let* q := on_fibers (depart t en cur here) in
      ret (go (Returning d q) w)
  | Returning d q =>
      arrive (fiber_of w d) q ;;; count_in d (-1) ;;; ret (go (Uncounted d) w)
  | Uncounted d =>
      let* st := on_fibers (getState (fiber_of w d)) in
      ret (go (Decided d st) w)
  | Decided d st => conclude w d st
  | Left => ret w
  end.

(** ** The pool *)
Definition config : Type := gmap Z (worker B) * S.

(** A thread of the pool takes a step, some other thread calls [schedule], or sets the two
    flags of [stop]. *)
Inductive move := Turn (e : Env) (t : Z) | Outside (fc : fiber_or_cb B) (thr : Z) | Stop.

Inductive step : move → config → config → Prop :=
  | step_turn e t w w' pool s s' :
      pool !! t = Some w → stands w ≠ Left → advance e t w s = Ok (w', s') →
      step (Turn e t) (pool, s) (<[t := w']> pool, s')
  | step_schedule fc thr pool s s' :
      schedule fc thr s = Ok (tt, s') → step (Outside fc thr) (pool, s) (pool, s')
  | step_stop pool s :
      step Stop (pool, s) (pool, set_sched (with_stop true true (sched s)) s).

Inductive steps : list move → config → config → Prop :=
  | steps_nil c : steps [] c c
  | steps_cons m ms c c1 c' : step m c c1 → steps ms c1 c' → steps (m :: ms) c c'.

(** The steps a list of moves makes, where each is possible. *)
Definition try_move (m : move) (c : config) : option config :=
  match m with
  | Turn e t =>
      match c.1 !! t with
      | Some w =>
          match stands w, advance e t w c.2 with
          | Left, _ | _, Fault _ => None
          | _, Ok (w', s') => Some (<[t := w']> c.1, s')
          end
      | None => None
      end
  | Outside fc thr =>
      match schedule fc thr c.2 with Ok (_, s') => Some (c.1, s') | Fault _ => None end
  | Stop => Some (c.1, set_sched (with_stop true true (sched c.2)) c.2)
  end.
Fixpoint play (ms : list move) (c : config) : option config :=
  match ms with
  | [] => Some c
  | m :: ms' => match try_move m c with Some c' => play ms' c' | None => None end
  end.

(** ** One thread alone *)

(** Steps of thread [t] until it is back at the top of the loop or out of it. *)
Fixpoint round (fuel : nat) (e : Env) (t : Z) (w : worker B) : M S (worker B) :=
  match fuel with
  | O => fail StillRunning
  | Datatypes.S fuel' =>
      let* w' := advance e t w in
      match stands w' with
      | Top | Left => ret w'
      | _ => round fuel' e t w'
      end
  end.
Fixpoint rounds (envs : list Env) (t : Z) (w : worker B) : M S unit :=
  match envs with
  | [] => fail StillRunning
  | e :: envs' =>
      let* w' := round 11 e t w in
      match stands w' with Left => ret tt | _ => rounds envs' t w' end
  end.
Definition alone (envs : list Env) (t : Z) : M S unit :=
  let* i := run_setup t in rounds envs t (MkWorker i None Top).
End workers.
End Worker.
