(* ===== verification/WorkerFacts.v ===== *)
(** * Theorems about the threads of a scheduler

    A thread that is left alone is the loop of [Schedulers], step for step. *)
From stdpp Require Import base gmap list strings.
From Stdlib Require Import ZArith Lia.
From S2P Require Import Prelude Fibers FiberFacts Schedulers SchedulerFacts Workers.
Open Scope Z_scope.

Module WorkerFacts.
Import Fiber FiberFacts Scheduler SchedulerFacts Worker.

(** ** One thread alone *)
Section alone.
Context {B Env S : Type} `{!SchedulerHost B S} `{!SchedulerHostLaws B S}.
Variable exec : Env → Z → B → M S (segment B).

Lemma on_fibers_bind {A C} (m : M (Fibers B) A) (f : A → M (Fibers B) C) s :
  on_fibers (bind m f) s = bind (on_fibers m) (λ a, on_fibers (f a)) s.
Proof.
  unfold on_fibers, bind. destruct (m (fibers s)) as [[a F]|]; [|done].
  rewrite fibers_set. destruct (f a F) as [[b F']|]; [|done]. by rewrite set_set_fibers.
Qed.

Lemma after_segment_split t e cur (seg : segment B) F :
  after_segment t e cur seg F =
  (let* r := mark t e cur seg in depart t (fst (fst r)) (snd (fst r)) (snd r)) F.
Proof.
  unfold after_segment, mark, leave, depart, Yield_to_Ready, Yield_to_Hold.
  by destruct seg, e; align.
Qed.

Lemma resume_split e t p s :
  resume (exec e t) t p s =
  (let* r := run_segment exec e t p in
   let* m := on_fibers (mark t (fst (fst r)) (snd (fst r)) (snd r)) in
   on_fibers (depart t (fst (fst m)) (snd (fst m)) (snd m))) s.
Proof.
  assert (Hleave : ∀ en cur (seg : segment B) (s : S), on_fibers (after_segment t en cur seg) s =
    (let* m := on_fibers (mark t en cur seg) in
     on_fibers (depart t (fst (fst m)) (snd (fst m)) (snd m))) s).
  { intros en cur seg s'. rewrite <- on_fibers_bind. unfold on_fibers. by rewrite after_segment_split. }
  destruct p; simpl; try done.
  - unfold enter. rewrite !bind_assoc. apply bind_cong. intros cur s1 _.
    rewrite !bind_assoc. apply bind_cong. intros x s2 _.
    destruct (m_cb x); [unfold run_body; rewrite bind_assoc; apply bind_cong; intros|]; apply Hleave.
  - unfold run_body. rewrite !bind_assoc. apply bind_cong. intros. apply Hleave.
Qed.
Lemma resume_then {A} e t p (f : point B → M S A) s :
  bind (resume (exec e t) t p) f s =
  (let* r := run_segment exec e t p in
   let* m := on_fibers (mark t (fst (fst r)) (snd (fst r)) (snd r)) in
   bind (on_fibers (depart t (fst (fst m)) (snd (fst m)) (snd m))) f) s.
Proof.
  pose proof (resume_split e t p s) as H. unfold bind in *. rewrite H.
  destruct (run_segment exec e t p s) as [[r s1]|]; [|done]. by destruct (on_fibers (mark _ _ _ _) s1) as [[]|].
Qed.

Lemma round_S n e t w s :
  round exec (Datatypes.S n) e t w s =
  (let* w' := advance exec e t w in
   match stands w' with Top | Left => ret w' | _ => round exec n e t w' end) s.
Proof. done. Qed.
#[local] Arguments round : simpl never.
Ltac next_step := rewrite round_S; unfold advance at 1; simpl.

Lemma conclude_go p w d st : conclude (go p w) d st = conclude w d st.
Proof. by destruct d. Qed.
Lemma conclude_ends n e t w d st s :
  (let* w' := conclude w d st in
   match stands w' with Top | Left => ret w' | _ => round exec n e t w' end) s = conclude w d st s.
Proof.
  unfold conclude. destruct (_ && _); [|destruct (ended st)]; align; [..|by destruct d].
  - rewrite <- (bind_ret (go Top w) ret). by align.
  - rewrite <- (bind_ret (go Top w) ret). by align.
Qed.

(** From the raised counter to the end of the round. *)
Lemma from_counted n e t w d s :
  round exec (7 + n) e t (go (Counted d) w) s =
  (match d with
   | Callback c =>
       let* x := on_fibers (fiber_at c) in
       assert_ (bool_decide (is_Some (m_cb x))) "cb_fiber->m_cb"
   | _ => ret tt
   end ;;;
   swapIn (exec e t) t (fiber_of w d) ;;;
   count_in d (-1) ;;;
   let* st := on_fibers (getState (fiber_of w d)) in
   conclude w d st) s.
Proof.
  assert (Hf : ∀ p, fiber_of (go p w) d = fiber_of w d) by (by destruct d).
  change (7 + n)%nat with (Datatypes.S (6 + n)). rewrite round_S. unfold advance at 1. simpl. unfold swapIn. align.
  simpl. next_step. rewrite resume_then. align. simpl. do 5 (next_step; align; simpl).
  rewrite !conclude_go. apply conclude_ends.
Qed.

Lemma from_chosen n e t w d s :
  round exec (8 + n) e t (go (Chosen d) w) s =
  (count_in d 1 ;;;
   match d with
   | Callback c =>
       let* x := on_fibers (fiber_at c) in
       assert_ (bool_decide (is_Some (m_cb x))) "cb_fiber->m_cb"
   | _ => ret tt
   end ;;;
   swapIn (exec e t) t (fiber_of w d) ;;;
   count_in d (-1) ;;;
   let* st := on_fibers (getState (fiber_of w d)) in
   conclude w d st) s.
Proof.
  change (8 + n)%nat with (Datatypes.S (7 + n)). next_step. align. simpl.
  change (go (Counted d) (go (Chosen d) w)) with (go (Counted d) w). apply (from_counted n).
Qed.

(** The three branches. *)
Lemma serve_round n e t i cb f s :
  (let* w' := advance exec e t (MkWorker i cb (Holding (IsFiber (Some f)))) in
   match stands w' with Top | Left => ret w' | _ => round exec (8 + n) e t w' end) s =
  (run_fiber exec e t f ;;; ret (MkWorker i cb Top)) s.
Proof.
  unfold advance, run_fiber. simpl. align. destruct (bool_decide _); [done|]. simpl.
  etransitivity; [apply (from_chosen n)|]. simpl. align.
  unfold conclude. rewrite andb_true_r. destruct (bool_decide (_ = READY)); [by simpl; align|].
  destruct (ended _); [done|]. by align.
Qed.
Lemma idle_round n e t i cb s :
  (let* w' := advance exec e t (MkWorker i cb (Holding (IsCb None))) in
   match stands w' with Top | Left => ret w' | _ => round exec (8 + n) e t w' end) s =
  (let* stop := run_idle exec e t i in ret (MkWorker i cb (if stop then Left else Top))) s.
Proof.
  unfold advance, run_idle. simpl. align. destruct (bool_decide _); [done|]. simpl.
  etransitivity; [apply (from_chosen n)|]. simpl. align.
  unfold conclude. rewrite andb_false_r. destruct (ended _); [done|]. by align.
Qed.
Lemma callback_round n e t i cb b s :
  (let* w' := advance exec e t (MkWorker i cb (Holding (IsCb (Some b)))) in
   match stands w' with Top | Left => ret w' | _ => round exec (8 + n) e t w' end) s =
  (let* c := run_callback exec e t cb b in ret (MkWorker i c Top)) s.
Proof.
  unfold advance, run_callback. simpl. align. simpl.
  etransitivity; [apply (from_chosen n e t (MkWorker i (Some a) Top))|]. simpl. align.
  unfold conclude. rewrite andb_true_r. destruct (bool_decide (_ = READY)); [by simpl; align|].
  destruct (ended _); by simpl; align.
Qed.

(** A thread of the pool does what [run] is: the steps of one thread, from the top of
    the loop until it is there again or has left, are one round of the loop, with the
    same result, the same end and the same faults; and the steps of a thread that runs
    alone are the whole of [run].  The pool differs from the loop only in what other
    threads may do in between. *)
Theorem worker_alone_is_run envs t s :
  alone exec envs t s = run exec envs t s ∧
  ∀ e i cb n, round exec (11 + n) e t (MkWorker i cb Top) s =
    (let* r := run_iter exec e t i cb in ret (MkWorker i (fst r) (if snd r then Left else Top))) s.
Proof.
  assert (Hround : ∀ e i cb n s, round exec (11 + n) e t (MkWorker i cb Top) s =
    (let* r := run_iter exec e t i cb in ret (MkWorker i (fst r) (if snd r then Left else Top))) s).
  { intros e i cb n s'. change (11 + n)%nat with (Datatypes.S (10 + n)). next_step. unfold run_iter. align. simpl.
    next_step. align. simpl. rewrite round_S. set (ft := what _). destruct ft as [[f|]|[b|]].
    - etransitivity; [apply (serve_round n)|]. by align.
    - etransitivity; [apply (idle_round n)|]. by align.
    - etransitivity; [apply (callback_round n)|]. by align.
    - etransitivity; [apply (idle_round n)|]. by align. }
  split; [|by intros; apply Hround]. unfold alone, run. align. clear H. revert s1.
  cut (∀ cb s1, rounds exec envs t (MkWorker a cb Top) s1 = run_loop exec envs t a cb s1); [done|].
  induction envs as [|e envs IH]; intros cb s1; [done|]. simpl.
  change 11%nat with (11 + 0)%nat. unfold bind at 1. rewrite Hround.
  unfold bind. destruct (run_iter exec e t a cb s1) as [[[c stop] s2]|]; [|done]. simpl. destruct stop; [done|]. apply IH.
Qed.
End alone.
End WorkerFacts.
