(* ===== verification/PoolFacts.v ===== *)
(** * Theorems about interleavings of a scheduler's threads

    What every order of steps of a pool keeps, for bodies that use the scheduler only by
    scheduling further tasks: the two counters, the work, and the tasks pinned to a
    thread. *)
From stdpp Require Import base gmap list strings.
From Stdlib Require Import ZArith Lia.
From S2P Require Import Prelude Fibers FiberFacts Schedulers SchedulerFacts Workers.
Open Scope Z_scope.

Module PoolFacts.
Import Fiber FiberFacts Scheduler SchedulerFacts Worker.

Create HintDb quiet.

(** ** What the threads of a pool hold *)
Section gathering.
Context {B A : Type} (f : worker B → list A).

Definition gather (pool : gmap Z (worker B)) : list A := map_to_list pool ≫= λ p, f p.2.

Lemma gather_split t w pool : pool !! t = Some w →
  ∃ rest, gather pool ≡ₚ f w ++ rest ∧ ∀ w', gather (<[t := w']> pool) ≡ₚ f w' ++ rest.
Proof.
  intros Hw. exists (gather (base.delete t pool)). unfold gather. split.
  - by rewrite <- (map_to_list_delete pool t w Hw).
  - intros w'. rewrite <- insert_delete_eq, map_to_list_insert by apply lookup_delete_eq. done.
Qed.

Lemma gather_nil pool : gather pool = [] → ∀ t w, pool !! t = Some w → f w = [].
Proof.
  intros H t w Hw. destruct (gather_split t w pool Hw) as (rest & Hp & _). rewrite H in Hp.
  apply Permutation_nil_l in Hp. by destruct (f w).
Qed.
End gathering.

(** A scheduled task without a function or a fiber is no work. *)
Definition real {B} (fc : fiber_or_cb B) : bool :=
  match fc with IsFiber o => bool_decide (is_Some o) | IsCb o => match o with Some _ => true | None => false end end.
Definition work {B} (q : list (Fiber_and_Thread B)) : list (fiber_or_cb B) :=
  List.filter real (map what q).

Section pool.
Context {B Env S : Type} `{!SchedulerHost B S} `{!SchedulerHostLaws B S}.
Variable exec : Env → Z → B → M S (segment B).
Implicit Types (s : S) (w : worker B).

Definition queue s : list (Fiber_and_Thread B) := m_fibers (sched s).

(** The work a thread has taken out of the queue and not begun, and the work it begins
    with its next step. *)
Definition hand w : list (fiber_or_cb B) :=
  match stands w with
  | Searched r => List.filter real (option_list (what <$> picked r))
  | Holding ft => List.filter real [ft]
  | _ => []
  end.
Definition begins w : list (fiber_or_cb B) :=
  match stands w with Holding ft => List.filter real [ft] | _ => [] end.

(** An operation that leaves the counters alone and at most adds to the queue and to the
    threads that know their scheduler. *)
Definition quiet {A} (m : M S A) : Prop := ∀ s a s', m s = Ok (a, s') →
  m_active_thread_count (sched s') = m_active_thread_count (sched s) ∧
  m_idle_thread_count (sched s') = m_idle_thread_count (sched s) ∧
  t_scheduler (sched s) ⊆ t_scheduler (sched s') ∧
  ∃ l, queue s' = queue s ++ l.

Lemma quiet_same {A} (m : M S A) :
  (∀ s a s', m s = Ok (a, s') → sched s' = sched s) → quiet m.
Proof. intros H s a s' E%H. unfold queue. rewrite E. do 3 (split; [done|]). exists []. by rewrite app_nil_r. Qed.
Lemma quiet_bind {A C} (m : M S A) (f : A → M S C) : quiet m → (∀ a, quiet (f a)) → quiet (bind m f).
Proof.
  intros Hm Hf s c s' (a & s1 & H1 & H2)%bind_ok.
  apply Hm in H1 as (? & ? & ? & l1 & E1). apply Hf in H2 as (? & ? & ? & l2 & E2).
  do 2 (split; [congruence|]). split; [by etrans|]. exists (l1 ++ l2). by rewrite E2, E1, (assoc_L (++)).
Qed.
Lemma quiet_ret {A} (a : A) : quiet (ret a).
Proof. apply quiet_same. by intros s b s' [_ ->]%ret_ok. Qed.
Lemma quiet_fail {A} e : quiet (fail e : M S A).
Proof. done. Qed.
Lemma quiet_get {A} (f : Scheduler B → A) : quiet (get_sched f).
Proof. apply quiet_same. by intros s b s' [_ ->]%gets_ok. Qed.
Lemma quiet_assert b what : quiet (assert_ b what).
Proof. apply quiet_same. by intros s u s' [_ ->]%assert_ok. Qed.
Lemma quiet_on_fibers {A} (m : M (Fibers B) A) : quiet (on_fibers m).
Proof.
  apply quiet_same. intros s a s' H. unfold on_fibers in H.
  destruct (m (fibers s)) as [[b F]|]; [|done]. injection H as _ <-. apply sched_set_fibers.
Qed.
Lemma quiet_tickle : quiet tickle.
Proof. apply quiet_same. by intros s u s' [-> _]%tickle_frame. Qed.
Lemma quiet_when b m : quiet m → quiet (when b m).
Proof. destruct b; [done|]. intros _. apply quiet_ret. Qed.
Lemma quiet_modify f : (∀ c : Scheduler B,
    m_active_thread_count (f c) = m_active_thread_count c ∧
    m_idle_thread_count (f c) = m_idle_thread_count c ∧ t_scheduler c ⊆ t_scheduler (f c) ∧
    ∃ l, m_fibers (f c) = m_fibers c ++ l) →
  quiet (modify_sched f).
Proof. intros Hf s u s' ->%modify_ok. unfold queue. rewrite sched_set. apply Hf. Qed.
Lemma quiet_locals g h : (∀ c, t_scheduler c ⊆ g c) → quiet (modify_sched (λ c : Scheduler B, with_locals (g c) (h c) c)).
Proof. intros Hg. apply quiet_modify. intros c. do 2 (split; [done|]). split; [apply Hg|]. exists []. by rewrite app_nil_r. Qed.
Lemma quiet_schedule fc thr : quiet (schedule fc thr).
Proof.
  unfold schedule, schedule_no_lock. apply quiet_bind; [|intros b; apply quiet_when, quiet_tickle].
  apply quiet_bind; [apply quiet_get|]. intros b. apply quiet_bind; [|intros _; apply quiet_ret].
  apply quiet_modify. intros c. do 3 (split; [done|]). by eexists.
Qed.
(** Steps that [play] makes are steps. *)
Lemma play_steps (ms : list (move (Env := Env))) : ∀ c c', play exec ms c = Some c' → steps exec ms c c'.
Proof.
  induction ms as [|m ms IH]; intros c c' H; simpl in H; [injection H as <-; constructor|].
  destruct (try_move exec m c) as [c1|] eqn:E; [|done]. apply (steps_cons _ m ms c c1); [|by apply IH].
  destruct c as [pool s], m as [e t|fc thr|]; simpl in E.
  - destruct (pool !! t) as [w|] eqn:Hw; [|done].
    destruct (advance exec e t w s) as [[w' s']|] eqn:Ha; destruct (stands w) eqn:Hs; try done;
      injection E as <-; apply (step_turn _ _ _ w); try done; congruence.
  - destruct (schedule fc thr s) as [[[] s']|] eqn:Hs; [|done]. injection E as <-. by constructor.
  - injection E as <-. constructor.
Qed.

(** Bodies use the scheduler through [schedule] alone. *)
Hypothesis exec_quiet : ∀ e t b, quiet (exec e t b).

#[local] Hint Resolve quiet_bind quiet_ret quiet_fail quiet_get quiet_assert quiet_on_fibers quiet_tickle
  quiet_when quiet_schedule : quiet.

Lemma quiet_run_setup t : quiet (run_setup t).
Proof.
  unfold run_setup. apply quiet_bind; [by apply (quiet_locals t_scheduler)|].
  intros _. apply quiet_bind; [apply (quiet_locals _ t_hook_enable); set_solver|].
  intros _. apply quiet_bind; [auto with quiet|]. intros r.
  apply quiet_bind; [destruct (negb _); auto with quiet|auto with quiet].
Qed.
Lemma quiet_run_segment e t p : quiet (run_segment exec e t p).
Proof.
  destruct p; simpl; auto with quiet. apply quiet_bind; [auto with quiet|]. intros cur.
  apply quiet_bind; [auto with quiet|]. intros x. destruct (m_cb x); auto with quiet.
Qed.
Lemma quiet_conclude w d st : quiet (conclude w d st).
Proof.
  unfold conclude. destruct (_ && _); [auto with quiet|]. destruct (ended st); [|auto with quiet].
  apply quiet_bind; [destruct d|]; auto with quiet.
Qed.
#[local] Hint Resolve quiet_run_setup quiet_run_segment quiet_conclude : quiet.

(** Steps that change no counter and take nothing. *)
Definition plain (p : place B) : bool := match p with Top | Chosen _ | Returning _ _ => false | _ => true end.

Lemma quiet_advance e t w : plain (stands w) = true → quiet (advance exec e t w).
Proof.
  unfold advance. intros Hp. destruct (stands w) as [| |r|[[f|]|[b|]]|d|d|d p|d en cur seg|d en cur here|d q|d|d st|];
    try discriminate Hp; auto with quiet.
  - apply quiet_bind; [|auto with quiet]. destruct (cb_fiber w); auto with quiet.
  - apply quiet_bind; [|auto with quiet]. destruct d; auto with quiet.
Qed.

(** How such a step moves a thread. *)
Lemma plain_moves e t w s w' s' :
  advance exec e t w s = Ok (w', s') → plain (stands w) = true →
  is_active w' = is_active w ∧ is_idle w' = is_idle w ∧ begins w ++ hand w' = hand w.
Proof.
  unfold advance, begins, hand, is_active, is_idle. intros H Hp.
  destruct (stands w) as [| |r|[[f|]|[b|]]|d|d|d p|d en cur seg|d en cur here|d q|d|d st|] eqn:Hw;
    try discriminate Hp; try (inv_ok; simpl; rewrite ?Hw; done).
  - inv_ok. simpl. split; [done|]. split; [done|]. by destruct (picked r).
  - inv_ok. simpl. by destruct (bool_decide _).
  - inv_ok. simpl. by destruct (bool_decide _).
  - inv_ok. simpl. by destruct (bool_decide _).
  - unfold conclude in H. destruct (_ && _); [|destruct (ended st)]; inv_ok; simpl; try done. by destruct d.
Qed.
(** *** One step *)

Lemma pick_perm so t (l : list (Fiber_and_Thread B)) : ∀ r,
  pick so t l = Ok r → l ≡ₚ option_list (picked r) ++ left_over r.
Proof.
  induction l as [|it l IH]; intros r H; simpl in H; [by injection H as <-|].
  assert (Hskip : ∀ tk, match pick so t l with Ok r => Ok (pass it tk r) | Fault e => Fault e end = Ok r →
    it :: l ≡ₚ option_list (picked r) ++ left_over r).
  { intros tk Hs. destruct (pick so t l) as [r1|]; [|done]. injection Hs as <-. simpl.
    rewrite (IH r1 eq_refl). by rewrite Permutation_middle. }
  destruct (_ && _); [by eapply Hskip|].
  destruct (what it) as [[f|]|cb]; [destruct (so f) as [st|]; [|done]; destruct st| |];
    try done; try (by eapply Hskip); by injection H as <-.
Qed.

Lemma work_app (q l : list (Fiber_and_Thread B)) : work (q ++ l) = work q ++ work l.
Proof. unfold work. by rewrite map_app, List.filter_app. Qed.
Lemma work_perm (q l : list (Fiber_and_Thread B)) : q ≡ₚ l → work q ≡ₚ work l.
Proof.
  unfold work. intros H. induction H; simpl; [done| | |by etransitivity].
  - destruct (real _); by rewrite ?IHPermutation.
  - destruct (real (what x)), (real (what y)); try done. constructor.
Qed.

(** The work a step of a thread adds to the queue. *)
Definition adds w s s' : list (fiber_or_cb B) :=
  match stands w with Top => [] | _ => work (drop (length (queue s)) (queue s')) end.

(** A counter that changed with [b], which says whether a thread is counted. *)
Definition counts_with (b b' : bool) (n n' : Z) : Prop :=
  (b' = b ∧ n' = n) ∨ n' = u64 (n + Z.b2z b' - Z.b2z b).

Record moves w w' s s' : Prop := {
  moves_active : counts_with (is_active w) (is_active w')
    (m_active_thread_count (sched s)) (m_active_thread_count (sched s'));
  moves_idle : counts_with (is_idle w) (is_idle w')
    (m_idle_thread_count (sched s)) (m_idle_thread_count (sched s'));
  moves_work : begins w ++ hand w' ++ work (queue s') ≡ₚ hand w ++ work (queue s) ++ adds w s s';
}.

Lemma count_in_ok d n s u s' : count_in d n s = Ok (u, s') →
  queue s' = queue s ∧
  m_active_thread_count (sched s') =
    (if requeues d then u64 (m_active_thread_count (sched s) + n) else m_active_thread_count (sched s)) ∧
  m_idle_thread_count (sched s') =
    (if requeues d then m_idle_thread_count (sched s) else u64 (m_idle_thread_count (sched s) + n)).
Proof. destruct d; intros ->%modify_ok; unfold queue; by rewrite sched_set. Qed.

Lemma counted_moves w w' d n s u s' :
  count_in d n s = Ok (u, s') → stands w ≠ Top → begins w = [] → hand w = [] → hand w' = [] →
  n = Z.b2z (is_active w' || is_idle w') - Z.b2z (is_active w || is_idle w) →
  (is_active w || is_active w' = requeues d) → (is_idle w || is_idle w' = negb (requeues d)) →
  moves w w' s s'.
Proof.
  intros (Hq & Ha & Hi)%count_in_ok Htop Hb Hh Hh' -> Hact Hidle.
  split.
  - destruct (requeues d); simpl in Hidle; [right|left].
    + apply orb_false_elim in Hidle as [E1 E2]. rewrite Ha, E1, E2, !orb_false_r. f_equal. lia.
    + apply orb_false_elim in Hact as [-> ->]. done.
  - destruct (requeues d); simpl in Hidle; [left|right].
    + by apply orb_false_elim in Hidle as [-> ->].
    + apply orb_false_elim in Hact as [E1 E2]. rewrite Hi, E1, E2. simpl. f_equal. lia.
  - rewrite Hb, Hh, Hh', Hq. unfold adds. rewrite Hq, drop_all. destruct (stands w); try done; by rewrite app_nil_r.
Qed.

Lemma advance_moves e t w s w' s' : advance exec e t w s = Ok (w', s') → moves w w' s s'.
Proof.
  intros H. destruct (plain (stands w)) eqn:Hp.
  - destruct (plain_moves e t w s w' s' H Hp) as (Ha & Hi & Hw).
    destruct (quiet_advance e t w Hp s w' s' H) as (Hma & Hmi & _ & l & Hq).
    split; [by left|by left|]. rewrite (assoc_L (++)), Hw, Hq, work_app. do 2 f_equiv. unfold adds.
    rewrite Hq, drop_app_length. by destruct (stands w).
  - unfold advance in H. destruct (stands w) as [| | | |d|d| | | |d q| | |] eqn:Hw; try discriminate Hp.
    + apply bind_ok in H as (r & s1 & H & Hr). apply ret_ok in Hr as [-> ->]. unfold take_task in H.
      destruct (pick _ t _) as [r1|] eqn:E; [|done]. injection H as <- <-. apply pick_perm in E.
      split; [left|left|]; rewrite ?sched_set; unfold is_active, is_idle, begins, hand, adds, queue;
        rewrite ?Hw, ?sched_set; simpl; [done|done|].
      rewrite app_nil_r. rewrite (work_perm _ _ E), work_app. by destruct (picked r1).
    + apply bind_ok in H as (u & s1 & H & Hr). apply ret_ok in Hr as [-> ->].
      eapply counted_moves; [exact H|..]; unfold begins, hand, is_active, is_idle; rewrite ?Hw; simpl; try done; by destruct d.
    + apply bind_ok in H as (u & s1 & H1 & H). apply bind_ok in H as (u2 & s2 & H & Hr). apply ret_ok in Hr as [-> ->].
      assert (s1 = s) as ->.
      { unfold arrive in H1. destruct q; try done. by apply assert_ok in H1 as [_ ->]. }
      eapply counted_moves; [exact H|..]; unfold begins, hand, is_active, is_idle; rewrite ?Hw; simpl; try done; by destruct d.
Qed.
(** *** Every order of steps *)
Local Abbreviation config := (config (B:=B) (S:=S)).
Local Abbreviation move := (move (B:=B) (Env:=Env)).
Implicit Types (m : move) (ms : list move) (c : config).

(** The work a move adds to the queue, and the work a thread begins with it. *)
Definition added m c c' : list (fiber_or_cb B) :=
  match m with
  | Turn _ t => match c.1 !! t with Some w => adds w c.2 c'.2 | None => [] end
  | Outside fc _ => List.filter real [fc]
  | Stop => []
  end.
Definition begun m c : list (fiber_or_cb B) :=
  match m with
  | Turn _ t => match c.1 !! t with Some w => begins w | None => [] end
  | _ => []
  end.

(** A run with the work added and the work begun on the way. *)
Inductive logged : list move → config → list (fiber_or_cb B) → list (fiber_or_cb B) → config → Prop :=
  | logged_nil c : logged [] c [] [] c
  | logged_cons m ms c c1 c' a b :
      step exec m c c1 → logged ms c1 a b c' → logged (m :: ms) c (added m c c1 ++ a) (begun m c ++ b) c'.

Lemma steps_logged ms c c' : steps exec ms c c' ↔ ∃ a b, logged ms c a b c'.
Proof.
  split.
  - induction 1 as [|m ms c c1 c' H _ (a & b & IH)]; [by do 2 eexists; constructor|].
    do 2 eexists. by econstructor.
  - intros (a & b & H). induction H; by econstructor.
Qed.

Lemma schedule_queue fc thr s u s' : schedule fc thr s = Ok (u, s') →
  queue s' = queue s ++ [MkTask fc thr] ∧
  m_active_thread_count (sched s') = m_active_thread_count (sched s) ∧
  m_idle_thread_count (sched s') = m_idle_thread_count (sched s).
Proof.
  rewrite schedule_ok. intros H. assert (E : sched s' = sched (enqueue [MkTask fc thr] s)).
  { destruct (queue_empty s); [by apply tickle_frame in H as [? _]|]. by apply ret_ok in H as [_ ->]. }
  unfold queue. rewrite E. unfold enqueue. by rewrite sched_set.
Qed.

Lemma step_work m c c' : step exec m c c' →
  begun m c ++ gather hand c'.1 ++ work (queue c'.2) ≡ₚ gather hand c.1 ++ work (queue c.2) ++ added m c c'.
Proof.
  destruct 1 as [e t w w' pool s s' Hw _ H|fc thr pool s s' H|pool s]; simpl.
  - rewrite Hw. destruct (gather_split hand t w pool Hw) as (rest & -> & Hrest). rewrite (Hrest w').
    pose proof (moves_work _ _ _ _ (advance_moves _ _ _ _ _ _ H)) as Hwork.
    rewrite <- !(assoc_L (++)), (Permutation_app_comm rest), (Permutation_app_comm rest (_ ++ _)).
    rewrite <- !(assoc_L (++)) in *. rewrite !(assoc_L (++)) in *. by rewrite Hwork.
  - apply schedule_queue in H as (-> & _). rewrite work_app. done.
  - unfold queue. rewrite sched_set. simpl. by rewrite app_nil_r.
Qed.

(** C17: no order of steps loses work or gives it to two threads.  What the threads have
    begun, together with what they have taken from the queue and not begun and with what
    the queue holds, is what was there at first and what was scheduled since; a fiber or
    function that is scheduled once is begun once at most, and if it has not been begun it
    is still held or queued. *)
Theorem work_is_conserved ms c a b c' :
  logged ms c a b c' →
  b ++ gather hand c'.1 ++ work (queue c'.2) ≡ₚ gather hand c.1 ++ work (queue c.2) ++ a.
Proof.
  induction 1 as [c|m ms c c1 c' a b H _ IH]; [by rewrite app_nil_r|].
  apply step_work in H. rewrite <- (assoc_L (++)), IH, !(assoc_L (++)).
  f_equiv. by rewrite <- !(assoc_L (++)), H, (assoc_L (++)).
Qed.

(** *** The counters *)
Definition number (P : worker B → bool) (pool : gmap Z (worker B)) : Z :=
  Z.of_nat (length (gather (λ w, if P w then [tt] else []) pool)).
Definition counts_ok c : Prop :=
  m_active_thread_count (sched c.2) = u64 (number is_active c.1) ∧
  m_idle_thread_count (sched c.2) = u64 (number is_idle c.1).

Lemma number_insert P t w w' pool : pool !! t = Some w →
  number P (<[t := w']> pool) = number P pool + Z.b2z (P w') - Z.b2z (P w).
Proof.
  intros Hw. unfold number.
  destruct (gather_split (λ w, if P w then [tt] else []) t w pool Hw) as (rest & H1 & H2).
  rewrite H1, (H2 w'), !length_app. destruct (P w), (P w'); simpl; lia.
Qed.
Lemma number_le P pool : number P pool <= Z.of_nat (size pool).
Proof.
  unfold number, gather. rewrite <- length_map_to_list. apply inj_le.
  induction (map_to_list pool) as [|[t w] l IH]; [done|]. rewrite bind_cons, length_app.
  simpl. destruct (P w); simpl; lia.
Qed.
Lemma number_zero P pool t w : number P pool = 0 → pool !! t = Some w → P w = false.
Proof.
  intros H Hw. assert (E : gather (λ w, if P w then [tt] else []) pool = []).
  { apply length_zero_iff_nil. unfold number in H. lia. }
  pose proof (gather_nil _ _ E t w Hw) as Hn. simpl in Hn. by destruct (P w).
Qed.

Lemma counter_step P t w w' pool n n' : pool !! t = Some w →
  counts_with (P w) (P w') n n' → n = u64 (number P pool) → n' = u64 (number P (<[t := w']> pool)).
Proof.
  intros Hw H ->. rewrite (number_insert P t w w' pool Hw). destruct H as [[E ->]| ->].
  - f_equal. rewrite E. lia.
  - unfold u64. rewrite <- !Z.add_sub_assoc. apply Zplus_mod_idemp_l.
Qed.
Lemma step_counts m c c' : step exec m c c' → counts_ok c → counts_ok c'.
Proof.
  unfold counts_ok. destruct 1 as [e t w w' pool s s' Hw _ H|fc thr pool s s' H|pool s]; simpl; intros [Ha Hi].
  - destruct (advance_moves _ _ _ _ _ _ H) as [Hma Hmi _]. by split; eapply counter_step.
  - by apply schedule_queue in H as (_ & -> & ->).
  - by rewrite sched_set.
Qed.
Lemma steps_counts ms c c' : steps exec ms c c' → counts_ok c → counts_ok c'.
Proof. induction 1 as [|m ms c c1 c' H _ IH]; [done|]. intros Hc. by eapply IH, step_counts. Qed.

Lemma step_size m c c' : step exec m c c' → size c'.1 = size c.1.
Proof.
  destruct 1 as [e t w w' pool s s' Hw _ H| |]; try done. simpl. apply map_size_insert_Some. by rewrite Hw.
Qed.
Lemma steps_size ms c c' : steps exec ms c c' → size c'.1 = size c.1.
Proof. induction 1 as [|m ms c c1 c' H _ IH]; [done|]. rewrite IH. by eapply step_size. Qed.

(** C18: in every order of steps the two counters are the number of threads that stand
    between raising and lowering them, so that they never pass below zero or lose a
    thread.  When [stopping] holds, the queue is empty and no thread runs a task; but it
    says nothing of a thread that has taken a task and not yet raised its counter. *)
Theorem counters_count_threads ms c c' :
  steps exec ms c c' → counts_ok c → Z.of_nat (size c.1) < 2 ^ 64 →
  m_active_thread_count (sched c'.2) = number is_active c'.1 ∧
  m_idle_thread_count (sched c'.2) = number is_idle c'.1 ∧
  (base_stopping (sched c'.2) = true →
     queue c'.2 = [] ∧ ∀ t w, c'.1 !! t = Some w → is_active w = false).
Proof.
  intros H Hc Hsize. destruct (steps_counts _ _ _ H Hc) as [Ha Hi]. rewrite <- (steps_size _ _ _ H) in Hsize.
  assert (Hn : ∀ P, u64 (number P c'.1) = number P c'.1).
  { intros P. unfold u64. apply Z.mod_small. pose proof (number_le P c'.1). unfold number in *. lia. }
  rewrite Hn in Ha, Hi. split; [done|]. split; [done|]. unfold base_stopping. intros Hs.
  apply andb_true_iff in Hs as [Hs Hact]. apply andb_true_iff in Hs as [_ Hq].
  apply bool_decide_eq_true_1, nil_length_inv in Hq. split; [done|].
  intros t w. apply number_zero. rewrite <- Ha. by apply Z.eqb_eq.
Qed.

(** *** A task for a thread that has left *)

Lemma pick_keeps so t (l : list (Fiber_and_Thread B)) it : it ∈ l → foreign t it = true → ∀ r,
  pick so t l = Ok r → it ∈ left_over r.
Proof.
  intros Hin Hf. induction l as [|x l IH]; [by apply not_elem_of_nil in Hin|]. intros r H. simpl in H.
  assert (Hskip : ∀ tk, match pick so t l with Ok r => Ok (pass x tk r) | Fault e => Fault e end = Ok r →
    it ∈ left_over r).
  { intros tk Hs. destruct (pick so t l) as [r1|]; [|done]. injection Hs as <-. simpl.
    apply elem_of_cons in Hin as [->|Hin]; [by left|right; by apply IH]. }
  destruct (_ && _) eqn:Ex; [by eapply Hskip|].
  assert (Htake : ∀ tk, Ok (MkPick (Some x) l tk) = Ok r → it ∈ left_over r).
  { intros tk [= <-]. simpl. apply elem_of_cons in Hin as [->|Hin]; [|done]. unfold foreign in Hf. by rewrite Hf in Ex. }
  destruct (what x) as [[f|]|cb]; [destruct (so f) as [st|]; [|done]; destruct st| |];
    try done; (by eapply Htake) || (by eapply Hskip).
Qed.

Lemma advance_keeps e t w s w' s' it :
  advance exec e t w s = Ok (w', s') → it ∈ queue s → foreign t it = true → it ∈ queue s'.
Proof.
  intros H Hin Hf. destruct (plain (stands w)) eqn:Hp.
  - destruct (quiet_advance e t w Hp s w' s' H) as (_ & _ & _ & l & ->). apply elem_of_app. by left.
  - unfold advance in H. destruct (stands w) as [| | | |d|d| | | |d q| | |]; try discriminate Hp.
    + apply bind_ok in H as (r & s1 & H & Hr). apply ret_ok in Hr as [-> ->]. unfold take_task in H.
      destruct (pick _ t _) as [r1|] eqn:E; [|done]. injection H as <- <-.
      unfold queue. rewrite sched_set. by eapply pick_keeps.
    + apply bind_ok in H as (u & s1 & H & Hr). apply ret_ok in Hr as [-> ->].
      by apply count_in_ok in H as (-> & _).
    + apply bind_ok in H as (u & s1 & H1 & H). apply bind_ok in H as (u2 & s2 & H & Hr). apply ret_ok in Hr as [-> ->].
      apply count_in_ok in H as (-> & _). unfold arrive in H1. destruct q; try done. by apply assert_ok in H1 as [_ ->].
Qed.

(** C20: a task pinned to a thread whose [run] has returned is never run: whatever the
    other threads do, and whatever is scheduled besides, it stays in the queue, the
    thread stays away, and the scheduler never counts as stopped again, so that a thread
    that asks [stopping] in its idle loop gets no for an answer for ever. *)
Theorem task_for_left_thread_stays ms c c' t w it :
  steps exec ms c c' →
  c.1 !! t = Some w → stands w = Left → it ∈ queue c.2 → thread it = t → t ≠ -1 →
  c'.1 !! t = Some w ∧ it ∈ queue c'.2 ∧ base_stopping (sched c'.2) = false.
Proof.
  intros H Hw Hl Hin Ht Hne.
  assert (Hkeep : c'.1 !! t = Some w ∧ it ∈ queue c'.2).
  { induction H as [|m ms c c1 c' H _ IH]; [done|]. apply IH.
    - destruct H as [e u v v' pool s s' Hv Hvl H| |]; simpl in *; try done.
      rewrite lookup_insert_ne; [done|]. intros ->. congruence.
    - destruct H as [e u v v' pool s s' Hv Hvl H|fc thr pool s s' H|pool s]; simpl in *.
      + eapply advance_keeps; [exact H|done|]. unfold foreign. rewrite Ht.
        assert (t ≠ u) by (intros ->; congruence). rewrite !(proj2 (Z.eqb_neq _ _)) by done. done.
      + apply schedule_queue in H as (-> & _). apply elem_of_app. by left.
      + unfold queue. by rewrite sched_set. }
  destruct Hkeep as [Hw' Hin']. split; [done|]. split; [done|]. unfold base_stopping.
  rewrite (bool_decide_eq_false_2 (length _ = 0%nat)); [by rewrite andb_false_r|].
  intros E. apply nil_length_inv in E. unfold queue in Hin'. rewrite E in Hin'. by apply not_elem_of_nil in Hin'.
Qed.
End pool.
End PoolFacts.
