(* ===== verification/WorkerRaces.v ===== *)
(** * Two races between a scheduler's threads

    On the process of [SchedulerRuns], two orders of steps that the code does not rule
    out, and the theorems of [PoolFacts] at work on them. *)
From stdpp Require Import base gmap list strings.
From Stdlib Require Import ZArith Lia.
From S2P Require Import Prelude Fibers FiberFacts Schedulers SchedulerFacts SchedulerRuns.
From S2P Require Import Workers WorkerFacts PoolFacts.
Open Scope Z_scope.

Module WorkerRaces.
Import Fiber FiberFacts Scheduler SchedulerFacts SchedulerRuns Worker PoolFacts.

Local Abbreviation config := (config (B:=body) (S:=process)).
Local Abbreviation move := (move (B:=body) (Env:=unit)).

Lemma exec_body_quiet (e : unit) t b : quiet (exec_body e t b).
Proof.
  destruct b as [| |k]; simpl.
  - unfold base_idle. apply quiet_bind; [|intros st; apply quiet_ret].
    apply quiet_same. by intros s a s' [_ ->]%gets_ok.
  - apply quiet_fail.
  - intros s a s' H. rewrite exec_job_ok in H. injection H as _ <-. do 3 (split; [done|]). by eexists.
Qed.

Lemma turn t w w' pool (s s' : process) (ms : list move) c' :
  pool !! t = Some w → stands w ≠ Left → advance exec_body tt t w s = Ok (w', s') →
  steps exec_body ms (<[t := w']> pool, s') c' → steps exec_body (Turn tt t :: ms) (pool, s) c'.
Proof. intros Hw Hl Ha H. eapply steps_cons; [|exact H]. by eapply step_turn. Qed.

Ltac again :=
  eapply turn; [apply lookup_insert_eq|done|unfold advance; simpl|rewrite insert_insert_eq].

(** ** A fiber that is woken before it has switched out *)

(** Thread [t1] is in fiber [f], which it entered at [p] to run [k] and whose saved context
    is still that point; thread [t2] is at the top of its loop with nothing to do. *)
Record overlap (t1 t2 f m2 : Z) (d : duty) (p : point body) (k : job)
    (x y : Fiber body) (w1 w2 : worker body) (pool : gmap Z (worker body)) (s : process) : Prop := {
  o_w1 : pool !! t1 = Some w1; o_at1 : stands w1 = Arrived d p;
  o_w2 : pool !! t2 = Some w2; o_at2 : stands w2 = Top;
  o_threads : t1 ≠ t2; o_fibers : m2 ≠ f;
  o_point : p = PBody MainFunc f (Job k) ∨ (p = PEntry MainFunc ∧ m_cb x = Some (Job k));
  o_fiber : heap (p_fibers s) !! f = Some x; o_context : m_ctx x = Some p;
  o_current : t_fiber (locals_of (p_fibers s) t1) = Some f;
  o_main : t_main (locals_of (p_fibers s) t2) = Some m2; o_host : heap (p_fibers s) !! m2 = Some y;
  o_queue : m_fibers (p_sched s) = [];
}.

Lemma segment_at e t f p k x s : 
  p = PBody MainFunc f (Job k) ∨ (p = PEntry MainFunc ∧ m_cb x = Some (Job k)) →
  t_fiber (locals_of (p_fibers s) t) = Some f → heap (p_fibers s) !! f = Some x →
  run_segment exec_body e t p s = Ok ((MainFunc, f, job_end k), did (job_tasks k) (job_out k) s).
Proof.
  intros Hp Hf Hx. destruct s as [F c l]. simpl in Hf, Hx. destruct Hp as [->|[-> Hcb]]; simpl.
  - by rewrite (bind_step _ _ _ _ _ (exec_job_ok k _)).
  - erewrite bind_step by (unfold on_fibers; simpl; by rewrite (GetThis_ok t f F Hf)).
    erewrite bind_step by (unfold on_fibers; simpl; by rewrite (proj2 (fiber_at_ok f F x F) (conj Hx eq_refl))).
    rewrite Hcb. by rewrite (bind_step _ _ _ _ _ (exec_job_ok k _)).
Qed.

(** A thread at the top of its loop takes the only task of the queue, a held fiber, and runs
    it from the point its context holds. *)
Lemma takes_held_fiber t f m p k x y w pool s :
  pool !! t = Some w → stands w = Top →
  m_fibers (p_sched s) = [MkTask (IsFiber (Some f)) (-1)] →
  heap (p_fibers s) !! f = Some x → m_state x = HOLD → m_ctx x = Some p →
  t_main (locals_of (p_fibers s) t) = Some m → m ≠ f → heap (p_fibers s) !! m = Some y →
  p = PBody MainFunc f (Job k) ∨ (p = PEntry MainFunc ∧ m_cb x = Some (Job k)) →
  ∃ c, steps exec_body (replicate 6 (Turn tt t)) (pool, s)
    (<[t := go (Gave (Serve f) MainFunc f (job_end k)) w]> pool,
     did (job_tasks k) (job_out k) (MkProcess (swapped t f m (p_fibers s)) c (p_log s))).
Proof.
  intros Hw Hat Hq Hx Hst Hctx Hmain Hne Hy Hp. eexists.
  eapply turn; [exact Hw|by rewrite Hat|unfold advance; rewrite Hat; erewrite bind_step; [reflexivity|]|].
  { unfold take_task. simpl. rewrite Hq. simpl. unfold state_of. rewrite Hx. simpl. by rewrite Hst. }
  again; [reflexivity|]. again; [erewrite bind_step; [reflexivity|by apply (getState_at f x)]|].
  rewrite Hst. simpl. again; [reflexivity|].
  again; [rewrite bind_ret; erewrite bind_step; [reflexivity|]|].
  { unfold on_fibers. simpl. rewrite (swapIn_save_ok t f m _ x y p); try done. by rewrite Hst. }
  again; [erewrite bind_step; [reflexivity|]|].
  { eapply (segment_at tt t f p k (set_state EXEC x)); [exact Hp| |by apply swapped_lookup].
    simpl. by rewrite locals_swapped. }
  apply steps_nil.
Qed.

(** The moves: [t1] runs the segment and marks its fiber as held; somebody schedules the
    fiber; [t2] takes it and runs what it finds. *)
Definition overlap_moves (t1 t2 f : Z) : list move :=
  [Turn tt t1; Turn tt t1; Outside (IsFiber (Some f)) (-1)] ++ replicate 6 (Turn tt t2).

(** C19: [Yield_to_Hold] marks a fiber as held before [swapOut] saves its context.  If in
    between another thread schedules the fiber and a third takes it (which the state,
    no longer executing, allows), the fiber is entered at the point where its present
    segment began: the whole segment runs a second time, on the stack the first thread has
    not yet left, and both threads have the fiber as their current one. *)
Theorem early_wake_repeats_segment t1 t2 f m2 d p k b x y w1 w2 pool s :
  overlap t1 t2 f m2 d p k x y w1 w2 pool s → job_end k = YieldedHold b → job_tasks k = [] →
  ∃ pool' s', steps exec_body (overlap_moves t1 t2 f) (pool, s) (pool', s') ∧
    p_log s' = p_log s ++ job_out k ++ job_out k ∧
    pool' !! t1 = Some (go (Marked d MainFunc f (PBody MainFunc f b)) w1) ∧
    pool' !! t2 = Some (go (Gave (Serve f) MainFunc f (YieldedHold b)) w2) ∧
    t_fiber (locals_of (p_fibers s') t1) = Some f ∧ t_fiber (locals_of (p_fibers s') t2) = Some f.
Proof.
  intros [Hw1 Hat1 Hw2 Hat2 Ht Hm2 Hp Hx Hctx Hcur Hmain Hy Hq] Hend Htasks.
  pose (F := upd_heap (alter (set_state HOLD) f) (p_fibers s)).
  pose (s1 := MkProcess F (push [MkTask (IsFiber (Some f)) (-1)] (p_sched s)) (p_log s ++ job_out k)).
  pose (w1' := go (Marked d MainFunc f (PBody MainFunc f b)) w1).
  destruct (takes_held_fiber t2 f m2 p k (set_state HOLD x) y w2 (<[t1 := w1']> pool) s1) as [c Hc]; try done.
  { by rewrite lookup_insert_ne. }
  { simpl. by rewrite Hq. }
  { simpl. by rewrite lookup_alter_eq, Hx. }
  { simpl. by rewrite lookup_alter_ne. }
  rewrite Hend, Htasks in Hc. do 2 eexists. split; [|split; [|split; [|split; [|split]]]].
  - eapply turn; [exact Hw1|by rewrite Hat1| |].
    { unfold advance. rewrite Hat1. erewrite bind_step; [reflexivity|by eapply segment_at]. }
    again; [erewrite bind_step; [reflexivity|]|].
    { unfold on_fibers. rewrite Hend. simpl. erewrite bind_step by (by apply GetThis_ok).
      erewrite bind_step by (by eapply setState_ok). reflexivity. }
    eapply steps_cons; [apply step_schedule, schedule_push|].
    unfold did. simpl. rewrite Htasks, push_nil, app_nil_r. exact Hc.
  - simpl. by rewrite <- (assoc_L (++)).
  - simpl. rewrite lookup_insert_ne by done. apply lookup_insert_eq.
  - apply lookup_insert_eq.
  - unfold locals_of. simpl. rewrite lookup_insert_ne by done. exact Hcur.
  - simpl. by rewrite locals_swapped.
Qed.

(** ** Instances *)

Lemma worker_alone_is_run_witness :
  ∃ s', alone exec_body (replicate 5 tt) 7
          (no_process (-1) true demo_queue) = Ok (tt, s') ∧
    p_log s' = [1; 2; 3].
Proof.
  rewrite (proj1 (WorkerFacts.worker_alone_is_run exec_body (replicate 5 tt) 7
             (no_process (-1) true demo_queue))).
  destruct (run exec_body _ _ _) as [[[] s']|] eqn:E; [|vm_compute in E; discriminate E].
  exists s'. split; [reflexivity|]. vm_compute in E. by injection E as <-.
Defined.

(** Threads 1 and 2 are about to enter [run]; the scheduler has been started. *)
Definition two_workers : config :=
  ({[1 := MkWorker 0 None Starting; 2 := MkWorker 0 None Starting]}, no_process (-1) false []).
Lemma two_workers_counts : counts_ok two_workers.
Proof. by split; vm_compute. Qed.
Definition turns (n : nat) (t : Z) : list move := replicate n (Turn tt t).
Definition ends (ms : list move) : config := default two_workers (play exec_body ms two_workers).

(** A callback that logs 1 and yields; thread 1 has entered it. *)
Definition held_job : job := JEmit 1 (JYieldHold JReturn).
Definition into_held : list move :=
  [Turn tt 1; Turn tt 2; Outside (IsCb (Some (Job held_job))) (-1)] ++ turns 5 1.

Lemma early_wake_repeats_segment_witness :
  ∃ c pool' s', steps exec_body into_held two_workers c ∧
    steps exec_body (overlap_moves 1 2 5) c (pool', s') ∧ p_log s' = [1; 1].
Proof.
  destruct (ends into_held) as [pool s] eqn:E.
  assert (Hplay : play exec_body into_held two_workers = Some (pool, s)) by (by rewrite <- E; vm_compute).
  destruct (pool !! 1) as [w1|] eqn:H1; [|vm_compute in E; injection E as <- <-; discriminate H1].
  destruct (pool !! 2) as [w2|] eqn:H2; [|vm_compute in E; injection E as <- <-; discriminate H2].
  destruct (heap (p_fibers s) !! 5) as [x|] eqn:Hx; [|vm_compute in E; injection E as <- <-; discriminate Hx].
  destruct (heap (p_fibers s) !! 3) as [y|] eqn:Hy; [|vm_compute in E; injection E as <- <-; discriminate Hy].
  destruct (early_wake_repeats_segment 1 2 5 3 (Callback 5) (PEntry MainFunc) held_job (Job JReturn)
              x y w1 w2 pool s) as (pool' & s' & Hs & Hlog & _); [|done|done|].
  - vm_compute in E. injection E as <- <-. vm_compute in H1, H2, Hx, Hy.
    injection H1 as <-. injection H2 as <-. injection Hx as <-. injection Hy as <-.
    apply Build_overlap; [| | | | | |right; split; reflexivity|..]; by vm_compute.
  - exists (pool, s), pool', s'. split; [by apply (play_steps exec_body)|]. split; [exact Hs|].
    rewrite Hlog. vm_compute in E. by injection E as _ <-.
Defined.

(** Thread 1 has taken a callback that schedules another one for thread 2; [stop] is called;
    thread 2 finds the queue empty and nobody active, and leaves; thread 1 raises its
    counter and runs the callback. *)
Definition pinned_job : job := JSchedule (JEmit 9 JReturn) 2 JReturn.
Definition leave_early : list move :=
  [Turn tt 1; Turn tt 2; Outside (IsCb (Some (Job pinned_job))) (-1); Turn tt 1; Stop] ++ turns 14 2 ++ turns 5 1.

Lemma task_for_left_thread_stays_witness :
  ∃ c w, steps exec_body leave_early two_workers c ∧ c.1 !! 2 = Some w ∧ stands w = Left ∧
    ∀ ms c', steps exec_body ms c c' →
      MkTask (IsCb (Some (Job (JEmit 9 JReturn)))) 2 ∈ m_fibers (p_sched c'.2) ∧
      base_stopping (p_sched c'.2) = false.
Proof.
  destruct (ends leave_early) as [pool s] eqn:E.
  assert (Hplay : play exec_body leave_early two_workers = Some (pool, s)) by (by rewrite <- E; vm_compute).
  destruct (pool !! 2) as [w2|] eqn:H2; [|vm_compute in E; injection E as <- <-; discriminate H2].
  assert (Hl : stands w2 = Left).
  { vm_compute in E. injection E as <- <-. vm_compute in H2. by injection H2 as <-. }
  exists (pool, s), w2. split; [by apply (play_steps exec_body)|]. split; [done|]. split; [done|]. intros ms c' H.
  destruct (task_for_left_thread_stays exec_body exec_body_quiet ms (pool, s) c' 2 w2
              (MkTask (IsCb (Some (Job (JEmit 9 JReturn)))) 2)) as (_ & Hin & Hst); [exact H|exact H2|exact Hl| |reflexivity|lia|by split].
  vm_compute in E. injection E as <- <-. apply elem_of_cons. left. reflexivity.
Defined.

Lemma counters_count_threads_witness :
  ∃ c, steps exec_body leave_early two_workers c ∧
    m_active_thread_count (p_sched c.2) = number is_active c.1 ∧ number is_active c.1 = 1.
Proof.
  destruct (play exec_body leave_early two_workers) as [c|] eqn:E; [|vm_compute in E; discriminate E].
  exists c. split; [by apply (play_steps exec_body)|].
  destruct (counters_count_threads exec_body exec_body_quiet leave_early two_workers c)
    as (Ha & _); [by apply (play_steps exec_body)|apply two_workers_counts|by vm_compute|].
  split; [exact Ha|]. vm_compute in E. injection E as <-. by vm_compute.
Defined.

Lemma work_is_conserved_witness :
  ∃ c a b, logged exec_body leave_early two_workers a b c ∧
    b ++ gather hand c.1 ++ work (m_fibers (p_sched c.2)) ≡ₚ a.
Proof.
  destruct (play exec_body leave_early two_workers) as [c|] eqn:E; [|vm_compute in E; discriminate E].
  apply (play_steps exec_body) in E. apply steps_logged in E as (a & b & H). exists c, a, b. split; [exact H|].
  exact (work_is_conserved exec_body exec_body_quiet leave_early two_workers a b c H).
Defined.
End WorkerRaces.
