(* ===== verification/FdManagers.v ===== *)
(** * File descriptor contexts (fd_manager.h, fd_manager.cc)

    [FdCtx] objects live in a store indexed by address, so that two handles can name
    the same object; [m_datas] is the vector of handles.  [getFdCtx] takes the lock
    twice, once to read and once to write: the two critical sections are separate
    operations, [getFdCtx_read] and [getFdCtx_write].  The kernel's answers to
    [fstat] and [fcntl] are arguments of [init]. *)
From stdpp Require Import base gmap list strings.
From Stdlib Require Import ZArith Lia.
From S2P Require Import Prelude.
Open Scope Z_scope.

Module FdManager.

Definition O_NONBLOCK : Z := 2048.
Definition SO_RCVTIMEO : Z := 20.
Definition SO_SNDTIMEO : Z := 21.

(** [class FdCtx] *)
Record FdCtx := MkFdCtx {
  m_isInit : bool;
  m_isSocket : bool;
  m_sys_nonblock : bool;
  m_user_nonblock : bool;
  m_isClosed : bool;
  m_fd : Z;
  m_recv_timeout : Z;
  m_send_timeout : Z;
}.

(** [FdCtx::FdCtx(fd)] *)
Definition FdCtx_ctor (fd : Z) : FdCtx :=
  MkFdCtx false false false false false fd UINT64_MAX UINT64_MAX.

(** [FdCtx::init]: [fstat] is what [fstat(m_fd)] finds, [None] for an error and
    otherwise whether the descriptor is a socket; [flags] is what
    [fcntl_f(m_fd, F_GETFL)] returns.  The result is the new object, the flags it
    sets with [F_SETFL], if any, and the value returned. *)
Definition init (fstat : option bool) (flags : Z) (c : FdCtx) : FdCtx * option Z * bool :=
  if m_isInit c then (c, None, true)
  else
    let isInit := match fstat with Some _ => true | None => false end in
    let isSocket := match fstat with Some b => b | None => false end in
    let blocking := Z.land flags O_NONBLOCK =? 0 in
    let setfl := if isSocket && blocking then Some (Z.lor flags O_NONBLOCK) else None in
    let sys := if isSocket then true else m_sys_nonblock c in
    (MkFdCtx isInit isSocket sys false false (m_fd c) UINT64_MAX UINT64_MAX, setfl, isInit).

Definition isInit (c : FdCtx) : bool := m_isInit c.
Definition isSocket (c : FdCtx) : bool := m_isSocket c.
Definition isClosed (c : FdCtx) : bool := m_isClosed c.
Definition get_user_nonblock (c : FdCtx) : bool := m_user_nonblock c.
Definition get_sys_nonblock (c : FdCtx) : bool := m_sys_nonblock c.
Definition set_user_nonblock (f : bool) (c : FdCtx) : FdCtx :=
  MkFdCtx (m_isInit c) (m_isSocket c) (m_sys_nonblock c) f (m_isClosed c) (m_fd c)
    (m_recv_timeout c) (m_send_timeout c).
Definition set_sys_nonblock (f : bool) (c : FdCtx) : FdCtx :=
  MkFdCtx (m_isInit c) (m_isSocket c) f (m_user_nonblock c) (m_isClosed c) (m_fd c)
    (m_recv_timeout c) (m_send_timeout c).

(** [FdCtx::set_timeout], [FdCtx::get_timeout] *)
Definition set_timeout (type timeout : Z) (c : FdCtx) : FdCtx :=
  if type =? SO_RCVTIMEO then
    MkFdCtx (m_isInit c) (m_isSocket c) (m_sys_nonblock c) (m_user_nonblock c) (m_isClosed c) (m_fd c)
      timeout (m_send_timeout c)
  else
    MkFdCtx (m_isInit c) (m_isSocket c) (m_sys_nonblock c) (m_user_nonblock c) (m_isClosed c) (m_fd c)
      (m_recv_timeout c) timeout.
Definition get_timeout (type : Z) (c : FdCtx) : Z :=
  if type =? SO_RCVTIMEO then m_recv_timeout c else m_send_timeout c.

(** [class FdManger], with the store its contexts live in. *)
Record FdManger := MkFdManger {
  contexts : gmap Z FdCtx;
  next_context : Z;
  m_datas : list (option Z);
}.
Definition no_contexts : FdManger := MkFdManger ∅ 1 [].

Definition set_datas (d : list (option Z)) (m : FdManger) : FdManger :=
  MkFdManger (contexts m) (next_context m) d.
Definition update_context (g : FdCtx → FdCtx) (a : Z) : M FdManger unit :=
  modify (λ m, MkFdManger (alter g a (contexts m)) (next_context m) (m_datas m)).
Definition context_at (a : Z) : M FdManger FdCtx :=
  let* h := gets contexts in deref (h !! a) "FdCtx".

(** [fd >= m_datas.size()] compares an [int] with a [size_t]: [fd] is converted. *)
Definition beyond (fd : Z) (m : FdManger) : bool := Z.of_nat (length (m_datas m)) <=? u64 fd.

(** [m_datas[fd]] *)
Definition data_at (fd : Z) : M FdManger (option Z) := λ m,
  if beyond fd m then Fault (OutOfRange "m_datas")
  else match m_datas m !! Z.to_nat (u64 fd) with
       | Some o => Ok (o, m)
       | None => Fault (OutOfRange "m_datas")
       end.
Definition set_data (fd : Z) (o : option Z) : M FdManger unit := λ m,
  if beyond fd m then Fault (OutOfRange "m_datas")
  else Ok (tt, set_datas (<[Z.to_nat (u64 fd) := o]> (m_datas m)) m).

(** [m_datas.resize(n)] with [n] converted from [int]; more elements than
    [max_size] makes it throw. *)
Definition max_size : Z := 2 ^ 59 - 1.
Definition resize_datas (n : Z) : M FdManger unit := λ m,
  if max_size <? u64 n then Fault (Uncaught "std::length_error")
  else Ok (tt, set_datas (resize (Z.to_nat (u64 n)) None (m_datas m)) m).

(** [FdManger::getFdCtx] under the read lock: what it returns, if it returns there. *)
Definition getFdCtx_read (fd : Z) (auto_create : bool) : M FdManger (option (option Z)) :=
  let* b := gets (beyond fd) in
  if b then
    if negb auto_create then ret (Some None) else ret None
  else
    let* o := data_at fd in
    if bool_decide (is_Some o) || negb auto_create then ret (Some o) else ret None.

(** ... and under the write lock. *)
Definition getFdCtx_write (fd : Z) : M FdManger (option Z) :=
  let* a := gets next_context in
  modify (λ m, MkFdManger (<[a := FdCtx_ctor fd]> (contexts m)) (a + 1) (m_datas m)) ;;;
  let* b := gets (beyond fd) in
  when b (resize_datas (fd + 1)) ;;;
  set_data fd (Some a) ;;;
  ret (Some a).

Definition getFdCtx (fd : Z) (auto_create : bool) : M FdManger (option Z) :=
  let* r := getFdCtx_read fd auto_create in
  match r with
  | Some o => ret o
  | None => getFdCtx_write fd
  end.

(** [FdManger::delFdCtx] *)
Definition delFdCtx (fd : Z) : M FdManger unit :=
  let* b := gets (beyond fd) in
  if b then ret tt else data_at fd ;;; set_data fd None.

(** ** Properties *)

(** The descriptors of the process: an [int] below [INT_MAX], so that [fd + 1] does
    not overflow. *)
Definition is_fd (fd : Z) : Prop := 0 <= fd < 2 ^ 31 - 1.

(** Abstraction: the table from descriptors to handles. *)
Definition lookup_fd (m : FdManger) (fd : Z) : option Z :=
  if fd <? 0 then None else mjoin (m_datas m !! Z.to_nat fd).

Lemma u64_fd fd : is_fd fd → u64 fd = fd.
Proof. unfold is_fd. intros. apply u64_id. unfold is_u64. lia. Qed.

Lemma lookup_fd_nat m fd : is_fd fd → lookup_fd m fd = mjoin (m_datas m !! Z.to_nat fd).
Proof. unfold is_fd, lookup_fd. intros. by rewrite (proj2 (Z.ltb_ge fd 0)) by lia. Qed.

Lemma beyond_fd fd m : is_fd fd → beyond fd m = bool_decide (m_datas m !! Z.to_nat fd = None).
Proof.
  intros Hfd. unfold beyond. rewrite u64_fd by done. apply Bool.eq_iff_eq_true.
  rewrite Z.leb_le, bool_decide_eq_true, lookup_ge_None. unfold is_fd in Hfd. lia.
Qed.

Lemma getFdCtx_read_ok fd auto m :
  is_fd fd →
  getFdCtx_read fd auto m =
    Ok (match lookup_fd m fd with
        | Some a => Some (Some a)
        | None => if auto then None else Some None
        end, m).
Proof.
  intros Hfd. unfold getFdCtx_read. rewrite (bind_step _ _ _ _ _ eq_refl).
  rewrite lookup_fd_nat, beyond_fd by done.
  destruct (m_datas m !! Z.to_nat fd) as [o|] eqn:E; simpl.
  - unfold data_at, bind. rewrite beyond_fd, u64_fd, E by done. simpl. by destruct o, auto.
  - by destruct auto.
Qed.

Definition with_context (fd : Z) (m : FdManger) : FdManger :=
  MkFdManger (<[next_context m := FdCtx_ctor fd]> (contexts m)) (next_context m + 1)
    (<[Z.to_nat fd := Some (next_context m)]>
       (if beyond fd m then resize (Z.to_nat (fd + 1)) None (m_datas m) else m_datas m)).

Lemma getFdCtx_write_ok fd m :
  is_fd fd → getFdCtx_write fd m = Ok (Some (next_context m), with_context fd m).
Proof.
  intros Hfd. pose proof Hfd as [Hlo Hhi]. unfold getFdCtx_write. do 3 step_ok. unfold with_context.
  change (beyond fd (MkFdManger _ _ (m_datas m))) with (beyond fd m).
  destruct (beyond fd m) eqn:E; unfold when.
  - erewrite bind_step; cycle 1.
    { unfold resize_datas. rewrite u64_id by (unfold is_u64; lia).
      rewrite (proj2 (Z.ltb_ge max_size (fd + 1))) by (unfold max_size; lia). reflexivity. }
    erewrite bind_step; cycle 1.
    { unfold set_data, beyond. simpl. rewrite length_resize, u64_fd by done.
      rewrite (proj2 (Z.leb_gt _ _)) by lia. reflexivity. }
    done.
  - step_ok. erewrite bind_step; cycle 1.
    { unfold set_data. change (beyond fd (MkFdManger _ _ (m_datas m))) with (beyond fd m).
      rewrite E, u64_fd by done. reflexivity. }
    done.
Qed.

Lemma lookup_with_context fd m fd' :
  is_fd fd → is_fd fd' →
  lookup_fd (with_context fd m) fd' = if decide (fd' = fd) then Some (next_context m) else lookup_fd m fd'.
Proof.
  intros Hfd Hfd'. rewrite !lookup_fd_nat by done. unfold with_context. simpl.
  rewrite beyond_fd by done. unfold is_fd in *.
  assert (Hlen : (Z.to_nat fd < length (if bool_decide (m_datas m !! Z.to_nat fd = None)
                   then resize (Z.to_nat (fd + 1)) None (m_datas m) else m_datas m))%nat).
  { case_bool_decide as E; [rewrite length_resize; lia|].
    apply lookup_lt_is_Some. by destruct (m_datas m !! Z.to_nat fd). }
  destruct (decide (fd' = fd)) as [->|Hne]; [by rewrite list_lookup_insert_eq|].
  rewrite list_lookup_insert_ne by lia. case_bool_decide as E; [|done].
  apply lookup_ge_None in E. destruct (decide (Z.to_nat fd' < length (m_datas m))%nat).
  - by rewrite lookup_resize by lia.
  - rewrite (lookup_ge_None_2 (m_datas m)) by lia.
    destruct (decide (Z.to_nat fd' < Z.to_nat (fd + 1))%nat).
    + by rewrite lookup_resize_new by lia.
    + by rewrite lookup_resize_old by lia.
Qed.

Lemma fd_map_ok fd auto m :
  is_fd fd →
  (∃ r m', getFdCtx fd auto m = Ok (r, m') ∧
     r = (match lookup_fd m fd with
          | Some a => Some a
          | None => if auto then Some (next_context m) else None
          end) ∧
     (∀ fd', is_fd fd' → lookup_fd m' fd' = if decide (fd' = fd) then r else lookup_fd m fd') ∧
     (lookup_fd m fd ≠ None ∨ auto = false → m' = m) ∧
     (lookup_fd m fd = None → auto = true →
        contexts m' = <[next_context m := FdCtx_ctor fd]> (contexts m) ∧
        next_context m' = next_context m + 1)) ∧
  (∃ m', delFdCtx fd m = Ok (tt, m') ∧
     (∀ fd', is_fd fd' → lookup_fd m' fd' = if decide (fd' = fd) then None else lookup_fd m fd') ∧
     contexts m' = contexts m).
Proof.
  intros Hfd. split.
  - unfold getFdCtx. rewrite (bind_step _ _ _ _ _ (getFdCtx_read_ok fd auto m Hfd)).
    destruct (lookup_fd m fd) as [a|] eqn:E; [|destruct auto].
    + eexists _, _. repeat (split; [done|]). split; [|by split].
      intros fd' _. by destruct (decide (fd' = fd)) as [->|].
    + rewrite getFdCtx_write_ok by done. eexists _, _. repeat (split; [done|]).
      split; [intros; by apply lookup_with_context|]. by split; [intros [?|?]|].
    + eexists _, _. repeat (split; [done|]). split; [|by split].
      intros fd' _. by destruct (decide (fd' = fd)) as [->|].
  - unfold delFdCtx. rewrite (bind_step _ _ _ _ _ eq_refl), beyond_fd by done.
    destruct (m_datas m !! Z.to_nat fd) as [o|] eqn:E; simpl.
    + erewrite bind_step; cycle 1.
      { unfold data_at. rewrite beyond_fd, u64_fd, E by done. reflexivity. }
      unfold set_data. rewrite beyond_fd, u64_fd, E by done. simpl.
      eexists. split; [done|]. split; [|done]. intros fd' Hfd'.
      rewrite !lookup_fd_nat by done. simpl. unfold is_fd in *. apply lookup_lt_Some in E.
      destruct (decide (fd' = fd)) as [->|Hne]; [by rewrite list_lookup_insert_eq|].
      by rewrite list_lookup_insert_ne by lia.
    + eexists. split; [done|]. split; [|done]. intros fd' Hfd'.
      destruct (decide (fd' = fd)) as [->|Hne]; [|done]. by rewrite lookup_fd_nat, E.
Qed.

(** C35: the descriptor table implements a finite map from descriptors to contexts.
    Looking a descriptor up returns its entry and changes nothing; with
    [auto_create] and no entry it enters a new context, which nothing else refers
    to; deleting removes the entry; and no operation touches another entry or an
    existing context. *)
Theorem fd_table_refines_map fd auto m :
  is_fd fd →
  (∃ r m', getFdCtx fd auto m = Ok (r, m') ∧
     r = (match lookup_fd m fd with
          | Some a => Some a
          | None => if auto then Some (next_context m) else None
          end) ∧
     (∀ fd', is_fd fd' → lookup_fd m' fd' = if decide (fd' = fd) then r else lookup_fd m fd') ∧
     (lookup_fd m fd ≠ None ∨ auto = false → m' = m) ∧
     (lookup_fd m fd = None → auto = true →
        contexts m' = <[next_context m := FdCtx_ctor fd]> (contexts m) ∧
        next_context m' = next_context m + 1)) ∧
  (∃ m', delFdCtx fd m = Ok (tt, m') ∧
     (∀ fd', is_fd fd' → lookup_fd m' fd' = if decide (fd' = fd) then None else lookup_fd m fd') ∧
     contexts m' = contexts m).
Proof. apply fd_map_ok. Qed.

(** Two threads that look up the same missing descriptor at once both pass the
    read lock and both create a context: they hold different contexts for one
    descriptor, the table keeps the second, and what the first thread sets through
    its own is not what later lookups see. *)
Theorem concurrent_lookups_diverge fd m g :
  is_fd fd → lookup_fd m fd = None →
  ∃ a1 m1 a2 m2 m3,
    getFdCtx_read fd true m = Ok (None, m) ∧
    getFdCtx_write fd m = Ok (Some a1, m1) ∧ getFdCtx_write fd m1 = Ok (Some a2, m2) ∧
    update_context g a1 m2 = Ok (tt, m3) ∧
    a1 ≠ a2 ∧ lookup_fd m3 fd = Some a2 ∧ contexts m3 !! a2 = Some (FdCtx_ctor fd).
Proof.
  intros Hfd Hnone. rewrite getFdCtx_read_ok, Hnone by done.
  eexists _, _, _, _, _. split; [done|].
  do 2 (split; [by rewrite getFdCtx_write_ok|]). split; [done|]. simpl.
  split; [lia|]. split.
  - rewrite lookup_fd_nat by done. simpl. rewrite <- (lookup_fd_nat (with_context fd (with_context fd m))) by done.
    rewrite lookup_with_context by done. by rewrite decide_True.
  - rewrite lookup_alter_ne by lia. by rewrite lookup_insert_eq.
Qed.

(** Asking for descriptor -1 with [auto_create] destroys the table: -1 is past
    every size once converted to [size_t], the table is resized to [-1 + 1 = 0]
    entries, and the store to [m_datas[-1]] is out of range. *)
Theorem negative_fd_clears_table m :
  Z.of_nat (length (m_datas m)) <= max_size →
  getFdCtx_read (-1) true m = Ok (None, m) ∧
  beyond (-1) m = true ∧
  resize_datas (-1 + 1) m = Ok (tt, set_datas [] m) ∧
  getFdCtx (-1) true m = Fault (OutOfRange "m_datas").
Proof.
  intros Hlen.
  assert (Hb : ∀ m', Z.of_nat (length (m_datas m')) <= max_size → beyond (-1) m' = true).
  { intros m' H. unfold beyond. apply Z.leb_le. unfold max_size in H.
    change (u64 (-1)) with (2 ^ 64 - 1). lia. }
  assert (Hr : getFdCtx_read (-1) true m = Ok (None, m)).
  { unfold getFdCtx_read. rewrite (bind_step _ _ _ _ _ eq_refl), Hb by done. done. }
  assert (Hz : ∀ m', resize_datas (-1 + 1) m' = Ok (tt, set_datas [] m')).
  { intros m'. unfold resize_datas. change (u64 (-1 + 1)) with 0. simpl. by rewrite resize_0. }
  do 3 (split; [auto|]).
  unfold getFdCtx. rewrite (bind_step _ _ _ _ _ Hr).
  unfold getFdCtx_write. do 3 step_ok. simpl.
  rewrite (Hb (MkFdManger _ _ _)) by done. unfold when. rewrite (bind_step _ _ _ _ _ (Hz _)).
  unfold bind, set_data. rewrite Hb by done. done.
Qed.

Lemma fd_table_refines_map_witness :
  ∃ m1, getFdCtx 5 true no_contexts = Ok (Some 1, m1) ∧
    lookup_fd m1 5 = Some 1 ∧ (∃ m2, delFdCtx 5 m1 = Ok (tt, m2) ∧ lookup_fd m2 5 = None).
Proof.
  destruct (fd_table_refines_map 5 true no_contexts ltac:(unfold is_fd; lia))
    as [(r & m1 & H & -> & Hl & _) _].
  destruct (fd_table_refines_map 5 true m1 ltac:(unfold is_fd; lia)) as [_ (m2 & Hd & Hl2 & _)].
  exists m1. split; [exact H|]. split.
  - rewrite Hl by (unfold is_fd; lia). reflexivity.
  - exists m2. split; [exact Hd|]. rewrite Hl2 by (unfold is_fd; lia). reflexivity.
Defined.

Lemma concurrent_lookups_diverge_witness :
  ∃ a1 m1 a2 m2 m3,
    getFdCtx_read 3 true no_contexts = Ok (None, no_contexts) ∧
    getFdCtx_write 3 no_contexts = Ok (Some a1, m1) ∧ getFdCtx_write 3 m1 = Ok (Some a2, m2) ∧
    update_context (set_timeout SO_RCVTIMEO 1000) a1 m2 = Ok (tt, m3) ∧
    a1 ≠ a2 ∧ lookup_fd m3 3 = Some a2 ∧ contexts m3 !! a2 = Some (FdCtx_ctor 3).
Proof.
  apply (concurrent_lookups_diverge 3 no_contexts (set_timeout SO_RCVTIMEO 1000));
    [unfold is_fd; lia|reflexivity].
Defined.

Lemma negative_fd_clears_table_witness :
  getFdCtx (-1) true (MkFdManger {[ 1 := FdCtx_ctor 0 ]} 2 [Some 1]) = Fault (OutOfRange "m_datas").
Proof.
  apply (negative_fd_clears_table (MkFdManger {[ 1 := FdCtx_ctor 0 ]} 2 [Some 1])).
  simpl. unfold max_size. lia.
Defined.
End FdManager.
