(* ===== verification/IOManagers.v ===== *)
(** * The IO manager (iomanager.h, iomanager.cc)

    [IOManager] derives from [Scheduler] and [TimerManager]; [Process] is one such
    object with the fibers, the descriptor table and the kernel around it.  The
    kernel (epoll, the pipe, the clock) and the allocator are the interface
    [Kernel]; a call the code makes on them is one function of it.

    [m_fd_contexts] owns its [FdContext]s and never drops one before the
    destructor, and the context at index [i] is the one with [fd = i]: a pointer to a
    context is modelled by its index.  An [epoll_event]'s data is either the
    descriptor of the pipe or such a pointer. *)
From stdpp Require Import base gmap list strings.
From Stdlib Require Import ZArith Lia.
From S2P Require Import Prelude StdSet Timers Fibers Schedulers FdManagers.
Open Scope Z_scope.

Module IOManager.
Import Fiber Scheduler.

(** [enum Event] *)
Definition NONE : Z := 0.
Definition READ : Z := 1.
Definition WRITE : Z := 4.

(** Constants of <sys/epoll.h>. *)
Definition EPOLLIN : Z := 1.
Definition EPOLLOUT : Z := 4.
Definition EPOLLERR : Z := 8.
Definition EPOLLHUP : Z := 16.
Definition EPOLLET : Z := 2 ^ 31.
Definition EPOLL_CTL_ADD : Z := 1.
Definition EPOLL_CTL_DEL : Z := 2.
Definition EPOLL_CTL_MOD : Z := 3.

(** [FdContext::EventContext]; the scheduler pointer is null or points to this
    object. *)
Record EventContext (B : Type) := MkEventContext {
  scheduler : bool;
  fiber : option Z;
  cb : option B;
}.
Arguments MkEventContext {B} _ _ _.
Arguments scheduler {B} _.
Arguments fiber {B} _.
Arguments cb {B} _.

(** [IOManager::FdContext] *)
Record FdContext (B : Type) := MkFdContext {
  read : EventContext B;
  write : EventContext B;
  fd : Z;
  m_events : Z;
}.
Arguments MkFdContext {B} _ _ _ _.
Arguments read {B} _.
Arguments write {B} _.
Arguments fd {B} _.
Arguments m_events {B} _.

Definition empty_event {B} : EventContext B := MkEventContext false None None.
(** [new FdContext] with [fd] set. *)
Definition FdContext_new {B} (i : Z) : FdContext B := MkFdContext empty_event empty_event i NONE.
Definition set_events {B} (e : Z) (c : FdContext B) : FdContext B :=
  MkFdContext (read c) (write c) (fd c) e.

(** The members of [IOManager] itself. *)
Record IOManager (B : Type) := MkIOManager {
  m_fd_contexts : list (FdContext B);
  m_pending_event_count : Z;
}.
Arguments MkIOManager {B} _ _.
Arguments m_fd_contexts {B} _.
Arguments m_pending_event_count {B} _.

Inductive event_data := TickleFd | Context (i : Z).
Record epoll_event := MkEvent { data : event_data; events : Z }.
Inductive wait_result := Interrupted | WaitError | Ready (evs : list epoll_event).

(** The descriptors the constructor opens. *)
Inductive own_fd := Epfd | TickleRead | TickleWrite.

(** The system calls and the allocator. *)
Class Kernel (K : Type) := {
  epoll_create : K → Z * K;
  pipe_create : K → Z * K;
  pipe_nonblock : K → Z * K;
  epoll_add_pipe : K → Z * K;
  clock_ms : K → Z * K;
  allocate_address : K → Z * K;
  epoll_ctl : Z → Z → Z → K → Z * K;
  epoll_wait : Z → K → wait_result * K;
  pipe_write : K → Z * K;
  pipe_read : K → Z * K;
  close_own : own_fd → K → Z * K;
}.

(** The bodies the code makes itself: [[this]{ idle(); }], [[this]{ run(); }] and the
    call of a timer's function. *)
Class Bodies (B : Type) := {
  idle_body : B;
  scheduler_body : B;
  timer_body : Timer.closure B → B;
}.

(** [p_tinfos] holds the live [timer_info] objects of hook.cc. *)
Record Process (B K : Type) := MkProcess {
  p_fibers : Fibers B;
  p_sched : Scheduler B;
  p_timers : Timer.TimerManager B;
  p_iom : IOManager B;
  p_fds : FdManager.FdManger;
  p_tinfos : gmap Z Z;
  kernel : K;
}.
Arguments MkProcess {B K} _ _ _ _ _ _ _.
Arguments p_fibers {B K} _.
Arguments p_sched {B K} _.
Arguments p_timers {B K} _.
Arguments p_iom {B K} _.
Arguments p_fds {B K} _.
Arguments p_tinfos {B K} _.
Arguments kernel {B K} _.

#[export] Instance process_fibers {B K} : FiberHost B (Process B K) := {
  fibers := p_fibers;
  set_fibers := λ F s, MkProcess F (p_sched s) (p_timers s) (p_iom s) (p_fds s) (p_tinfos s) (kernel s);
}.
Definition with_timers {B K} (t : Timer.TimerManager B) (s : Process B K) : Process B K :=
  MkProcess (p_fibers s) (p_sched s) t (p_iom s) (p_fds s) (p_tinfos s) (kernel s).
Definition with_iom {B K} (i : IOManager B) (s : Process B K) : Process B K :=
  MkProcess (p_fibers s) (p_sched s) (p_timers s) i (p_fds s) (p_tinfos s) (kernel s).
Definition with_fds {B K} (d : FdManager.FdManger) (s : Process B K) : Process B K :=
  MkProcess (p_fibers s) (p_sched s) (p_timers s) (p_iom s) d (p_tinfos s) (kernel s).
Definition with_kernel {B K} (k : K) (s : Process B K) : Process B K :=
  MkProcess (p_fibers s) (p_sched s) (p_timers s) (p_iom s) (p_fds s) (p_tinfos s) k.

Section virtuals.
Context {B K : Type} `{!Kernel K} `{!Bodies B}.
Local Abbreviation P := (Process B K).

(** A system call. *)
Definition sys {A} (f : K → A * K) : M P A := λ s,
  let '(a, k) := f (kernel s) in Ok (a, with_kernel k s).

(** [IOManager::tickle] *)
Definition tickle : M P unit :=
  let* idle := gets (λ s, hasIdleThread (p_sched s)) in
  when idle (let* rt := sys pipe_write in assert_ (rt =? 1) "rt == 1").

(** [IOManager::on_timer_insert_at_front] *)
#[export] Instance timer_host : Timer.TimerHost B P := {
  Timer.manager := p_timers;
  Timer.set_manager := with_timers;
  Timer.on_timer_insert_at_front := tickle;
}.

(** [IOManager::stopping(timeout)] reads three things, one after the other and under no
    common lock: the time to the first timer, which it stores, the count of pending
    events, and [Scheduler::stopping].  Other threads can act between the reads
    ([StoppingReads]). *)
Definition read_timeout : M P Z := let* now := sys clock_ms in Timer.get_next_timeout now.
Definition read_pending : M P Z := gets (λ s, m_pending_event_count (p_iom s)).
Definition read_base : M P bool := gets (λ s, base_stopping (p_sched s)).
(** Its result and the timeout it stores. *)
Definition stopping_timeout : M P (bool * Z) :=
  let* timeout := read_timeout in
  if timeout =? UINT64_MAX then
    let* n := read_pending in
    if n =? 0 then let* b := read_base in ret (b, timeout) else ret (false, timeout)
  else ret (false, timeout).
(** [IOManager::stopping()] *)
Definition stopping : M P bool := let* r := stopping_timeout in ret (fst r).

#[export] Instance io_scheduler : SchedulerHost B P := {
  sched := p_sched;
  set_sched := λ c s, MkProcess (p_fibers s) c (p_timers s) (p_iom s) (p_fds s) (p_tinfos s) (kernel s);
  Scheduler.tickle := tickle;
  Scheduler.stopping := stopping;
  idle_fun := idle_body;
  run_fun := scheduler_body;
}.
End virtuals.

Section operations.
Context {B K : Type} `{!Kernel K} `{!Bodies B}.
Local Abbreviation P := (Process B K).

Definition get_contexts : M P (list (FdContext B)) := gets (λ s, m_fd_contexts (p_iom s)).
Definition modify_iom (f : IOManager B → IOManager B) : M P unit :=
  modify (λ s, with_iom (f (p_iom s)) s).
Definition set_contexts (l : list (FdContext B)) : M P unit :=
  modify_iom (λ i, MkIOManager l (m_pending_event_count i)).
Definition add_pending (d : Z) : M P unit :=
  modify_iom (λ i, MkIOManager (m_fd_contexts i) (u64 (m_pending_event_count i + d))).
(** [fd_ctx->...] for the context at index [i]. *)
Definition context_at (i : Z) : M P (FdContext B) :=
  let* l := get_contexts in deref (l !! Z.to_nat i) "FdContext".
Definition update_context (f : FdContext B → FdContext B) (i : Z) : M P unit :=
  modify_iom (λ m, MkIOManager (alter f (Z.to_nat i) (m_fd_contexts m)) (m_pending_event_count m)).

(** [IOManager::context_resize]: the new elements are null pointers, which the loop
    replaces by new contexts. *)
Definition resized (n : Z) (l : list (FdContext B)) : list (FdContext B) :=
  take (Z.to_nat n) l ++
  (FdContext_new ∘ Z.of_nat <$> seq (length l) (Z.to_nat n - length l)).
(** [vector::max_size] for pointers. *)
Definition max_size : Z := 2 ^ 60 - 1.
Definition context_resize (size : Z) : M P unit :=
  if max_size <? size then fail (Uncaught "std::length_error")
  else let* l := get_contexts in set_contexts (resized size l).

(** [IOManager::IOManager(threads, use_caller, name)] on thread [t]; [ids] are the
    threads [start] creates. *)
Definition IOManager_ctor (t threads : Z) (use_caller : bool) (ids : list Z) : M P unit :=
  Scheduler_ctor t threads use_caller ;;;
  modify (with_iom (MkIOManager [] 0)) ;;;
  let* epfd := sys epoll_create in
  assert_ (epfd >? 0) "m_epfd > 0" ;;;
  let* rt := sys pipe_create in
  assert_ (rt =? 0) "rt == 0" ;;;
  let* rt := sys pipe_nonblock in
  assert_ (negb (rt =? -1)) "rt != -1" ;;;
  let* rt := sys epoll_add_pipe in
  assert_ (rt =? 0) "rt == 0" ;;;
  context_resize 32 ;;;
  start ids.

(** [IOManager::~IOManager] on thread [t], with the destructor of the base class; the
    results of [close] are not looked at. *)
Definition IOManager_dtor {Env} (exec : Env → Z → B → M P (segment B)) (envs : list Env) (t : Z) : M P unit :=
  stop exec envs t ;;;
  sys (close_own Epfd) ;;;
  sys (close_own TickleRead) ;;;
  sys (close_own TickleWrite) ;;;
  set_contexts [] ;;;
  Scheduler_dtor t.

(** [IOManager::GetThis] on thread [t]: whether it is this object. *)
Definition GetThis_io (t : Z) : M P bool := get_sched (λ c, bool_decide (t ∈ t_scheduler c)).

Definition contexts_size : M P Z := gets (λ s, Z.of_nat (length (m_fd_contexts (p_iom s)))).

(** The loop of [add_event] that makes room for [fd]; a size below 2 does not grow. *)
Fixpoint grow (fuel : nat) (fd : Z) : M P unit :=
  match fuel with
  | O => fail StillRunning
  | Datatypes.S fuel' =>
      let* size := contexts_size in
      if size <=? u64 fd then context_resize (size + size / 2) ;;; grow fuel' fd
      else ret tt
  end.
Definition grow_fuel : nat := 200.

(** [FdContext::getContext] *)
Definition getContext (event : Z) (c : FdContext B) : M P (EventContext B) :=
  if event =? READ then ret (read c)
  else if event =? WRITE then ret (write c)
  else fail (AssertFailed "GetContext error!").
(** Assigns to the reference [getContext] returned. *)
Definition set_context (event : Z) (e : EventContext B) (c : FdContext B) : FdContext B :=
  if event =? READ then MkFdContext e (write c) (fd c) (m_events c)
  else if event =? WRITE then MkFdContext (read c) e (fd c) (m_events c)
  else c.
(** [FdContext::resetContext] *)
Definition resetContext (event i : Z) : M P unit := update_context (set_context event empty_event) i.

(** [FdContext::triggerEvent] on the context at index [i]. *)
Definition triggerEvent (event i : Z) : M P unit :=
  let* c := context_at i in
  assert_ (negb (Z.land (m_events c) event =? 0)) "m_events & event" ;;;
  update_context (set_events (Z.land (m_events c) (Z.lnot event))) i ;;;
  let* event_ctx := getContext event c in
  deref (if scheduler event_ctx then Some tt else None) "event_ctx.scheduler" ;;;
  match cb event_ctx with
  | Some f =>
      update_context (set_context event (MkEventContext true (fiber event_ctx) None)) i ;;;
      schedule (IsCb (Some f)) (-1) ;;;
      update_context (set_context event (MkEventContext false (fiber event_ctx) None)) i
  | None =>
      update_context (set_context event (MkEventContext true None None)) i ;;;
      schedule (IsFiber (fiber event_ctx)) (-1) ;;;
      update_context (set_context event (MkEventContext false None None)) i
  end.

(** [IOManager::add_event] on thread [t]. *)
Definition add_event (t fd event : Z) (f : option B) : M P Z :=
  let* size := contexts_size in
  (if u64 fd <? size then ret tt else grow grow_fuel fd) ;;;
  let i := u64 fd in
  let* c := context_at i in
  assert_ (Z.land (m_events c) event =? 0) "!(fd_ctx->m_events & event)" ;;;
  let op := if m_events c =? 0 then EPOLL_CTL_ADD else EPOLL_CTL_MOD in
  let* rt := sys (epoll_ctl op fd (Z.lor EPOLLET (Z.lor (m_events c) event))) in
  if negb (rt =? 0) then ret (-1)
  else
    add_pending 1 ;;;
    update_context (set_events (Z.lor (m_events c) event)) i ;;;
    let* event_ctx := getContext event c in
    assert_ (negb (scheduler event_ctx) && bool_decide (fiber event_ctx = None)
             && match cb event_ctx with None => true | Some _ => false end)
      "!event_ctx.scheduler && !event_ctx.fiber && !event_ctx.cb" ;;;
    let* here := get_sched (λ c, bool_decide (t ∈ t_scheduler c)) in
    match f with
    | Some g =>
        update_context (set_context event (MkEventContext here None (Some g))) i ;;;
        ret 0
    | None =>
        let* cur := on_fibers (GetThis t) in
        update_context (set_context event (MkEventContext here (Some cur) None)) i ;;;
        let* st := on_fibers (getState cur) in
        assert_ (bool_decide (st = EXEC)) "event_ctx.fiber->getState() == Fiber::EXEC" ;;;
        ret 0
    end.

(** [IOManager::del_event] *)
Definition del_event (fd event : Z) : M P bool :=
  let* size := contexts_size in
  if size <=? u64 fd then ret false
  else
    let i := u64 fd in
    let* c := context_at i in
    if Z.land (m_events c) event =? 0 then ret false
    else
      let new_event := Z.land (m_events c) (Z.lnot event) in
      let op := if new_event =? 0 then EPOLL_CTL_DEL else EPOLL_CTL_MOD in
      let* rt := sys (epoll_ctl op fd (Z.lor new_event EPOLLET)) in
      if negb (rt =? 0) then ret false
      else
        add_pending (-1) ;;;
        update_context (set_events new_event) i ;;;
        getContext event c ;;;
        resetContext event i ;;;
        ret true.

(** [IOManager::cancel_event] *)
Definition cancel_event (fd event : Z) : M P bool :=
  let* size := contexts_size in
  if size <=? u64 fd then ret false
  else
    let i := u64 fd in
    let* c := context_at i in
    if Z.land (m_events c) event =? 0 then ret false
    else
      let new_event := Z.land (m_events c) (Z.lnot event) in
      let op := if new_event =? 0 then EPOLL_CTL_DEL else EPOLL_CTL_MOD in
      let* rt := sys (epoll_ctl op fd (Z.lor new_event EPOLLET)) in
      if negb (rt =? 0) then ret false
      else triggerEvent event i ;;; add_pending (-1) ;;; ret true.

(** [if (fd_ctx->m_events & event) { triggerEvent(event); --m_pending_event_count; }] *)
Definition trigger_if (mask event i : Z) : M P unit :=
  when (negb (Z.land mask event =? 0)) (triggerEvent event i ;;; add_pending (-1)).

(** [IOManager::cancel_all] *)
Definition cancel_all (fd : Z) : M P bool :=
  let* size := contexts_size in
  if size <=? u64 fd then ret false
  else
    let i := u64 fd in
    let* c := context_at i in
    if m_events c =? 0 then ret false
    else
      let* rt := sys (epoll_ctl EPOLL_CTL_DEL fd 0) in
      if negb (rt =? 0) then ret false
      else
        trigger_if (m_events c) READ i ;;;
        let* c := context_at i in
        trigger_if (m_events c) WRITE i ;;;
        let* c := context_at i in
        assert_ (m_events c =? 0) "fd_ctx->m_events == 0" ;;;
        ret true.

(** ** [IOManager::idle] *)

Definition MAX_TIMEOUT : Z := 5000.
Definition wait_timeout (next_timeout : Z) : Z :=
  if next_timeout =? UINT64_MAX then MAX_TIMEOUT
  else if MAX_TIMEOUT >? next_timeout then next_timeout else MAX_TIMEOUT.

(** The loop around [epoll_wait]; [fuel] bounds the interruptions. *)
Fixpoint wait_loop (fuel : nat) (next_timeout : Z) : M P (list epoll_event) :=
  match fuel with
  | O => fail StillRunning
  | Datatypes.S fuel' =>
      let next_timeout := wait_timeout next_timeout in
      let* r := sys (epoll_wait (i32 next_timeout)) in
      match r with
      | Interrupted => wait_loop fuel' next_timeout
      | WaitError => ret []
      | Ready evs => ret evs
      end
  end.

(** [while (read(m_tickle_fds[0], &dummy, 1) == 1);] *)
Fixpoint drain_pipe (fuel : nat) : M P unit :=
  match fuel with
  | O => fail StillRunning
  | Datatypes.S fuel' =>
      let* rt := sys pipe_read in
      if rt =? 1 then drain_pipe fuel' else ret tt
  end.

(** The events the code sees in what epoll reported. *)
Definition real_events (reported registered : Z) : Z :=
  let e := if Z.land reported (Z.lor EPOLLERR EPOLLHUP) =? 0 then reported
           else Z.lor reported (Z.land (Z.lor EPOLLIN EPOLLOUT) registered) in
  Z.lor (if Z.land e EPOLLIN =? 0 then NONE else READ)
        (if Z.land e EPOLLOUT =? 0 then NONE else WRITE).

(** The body of the loop over the events. *)
Definition deal_event (fuel : nat) (ev : epoll_event) : M P unit :=
  match data ev with
  | TickleFd => drain_pipe fuel
  | Context i =>
      let* c := context_at i in
      let real := real_events (events ev) (m_events c) in
      if Z.land (m_events c) real =? NONE then ret tt
      else
        let left_events := Z.land (m_events c) (Z.lnot real) in
        let op := if left_events =? 0 then EPOLL_CTL_DEL else EPOLL_CTL_MOD in
        let* rt2 := sys (epoll_ctl op (fd c) (Z.lor EPOLLET left_events)) in
        if negb (rt2 =? 0) then ret tt
        else trigger_if real READ i ;;; trigger_if real WRITE i
  end.
Fixpoint deal_events (fuel : nat) (evs : list epoll_event) : M P unit :=
  match evs with
  | [] => ret tt
  | ev :: evs' => deal_event fuel ev ;;; deal_events fuel evs'
  end.

(** The expired timers' functions, handed to the scheduler. *)
Definition schedule_timers : M P unit :=
  let* now := sys clock_ms in
  let* probe := sys allocate_address in
  let* cbs := Timer.list_expired_cbs now probe [] in
  match cbs with
  | [] => ret tt
  | _ => schedule_range (map (λ f, IsCb (timer_body <$> f)) cbs) ;;; ret tt
  end.

(** The loop's body in [IOManager::idle], once [stopping] has said no, to the switch at
    its end. *)
Definition idle_round (fuel : nat) (next_timeout : Z) : M P (segment B) :=
  let* evs := wait_loop fuel next_timeout in
  schedule_timers ;;;
  deal_events fuel evs ;;;
  ret (SwappedOut idle_body).

(** [IOManager::idle] from the top of its loop to its next transfer of control. *)
Definition idle (fuel : nat) : M P (segment B) :=
  let* r := stopping_timeout in
  let '(stop, next_timeout) := r in
  if stop then ret Returned else idle_round fuel next_timeout.
End operations.
End IOManager.
