(* ===== verification/IOManagerFacts.v ===== *)
(** * Theorems about the IO manager

    The invariant that ties the descriptor contexts, the count of pending events and
    the kernel's interest list together, what each operation does to the waiting
    fibers and callbacks, and the behaviour of [idle]. *)
From stdpp Require Import base gmap list strings.
From Stdlib Require Import ZArith Lia.
From S2P Require Import Prelude StdSet Timers Fibers FiberFacts Schedulers SchedulerFacts.
From S2P Require Import FdManagers IOManagers.
Open Scope Z_scope.

Module IOManagerFacts.
Import Fiber FiberFacts Scheduler SchedulerFacts IOManager.

(** What epoll(7) documents: an interest list that ADD, MOD and DEL change, each
    refused (with a non-zero result and no effect) where the entry is already there,
    or missing; and pipe(7): a write of one byte to the blocking end of the pipe
    writes it.  The other calls leave the interest list alone. *)
Class KernelLaws (K : Type) `{!Kernel K} := {
  interest : K → gmap Z Z;
  ctl_refused : ∀ op fd ev (k k' : K) rt,
    epoll_ctl op fd ev k = (rt, k') → rt ≠ 0 → interest k' = interest k;
  ctl_add : ∀ fd ev (k k' : K), epoll_ctl EPOLL_CTL_ADD fd ev k = (0, k') →
    interest k !! fd = None ∧ interest k' = <[fd := ev]> (interest k);
  ctl_mod : ∀ fd ev (k k' : K), epoll_ctl EPOLL_CTL_MOD fd ev k = (0, k') →
    is_Some (interest k !! fd) ∧ interest k' = <[fd := ev]> (interest k);
  ctl_del : ∀ fd ev (k k' : K), epoll_ctl EPOLL_CTL_DEL fd ev k = (0, k') →
    is_Some (interest k !! fd) ∧ interest k' = base.delete fd (interest k);
  write_one : ∀ k : K, ∃ k', pipe_write k = (1, k') ∧ interest k' = interest k;
  clock_interest : ∀ (k k' : K) z, clock_ms k = (z, k') → interest k' = interest k;
  address_interest : ∀ (k k' : K) a, allocate_address k = (a, k') → interest k' = interest k;
  read_interest : ∀ (k k' : K) rt, pipe_read k = (rt, k') → interest k' = interest k;
}.

Section masks.

Definition is_event (ev : Z) : Prop := ev = READ ∨ ev = WRITE.
Definition has (m ev : Z) : bool := negb (Z.land m ev =? 0).
Definition mask_ok (m : Z) : Prop := m = 0 ∨ m = 1 ∨ m = 4 ∨ m = 5.
Definition bits (m : Z) : Z := (if has m READ then 1 else 0) + (if has m WRITE then 1 else 0).
Definition with_bit (m ev : Z) : Z := Z.lor m ev.
Definition without (m ev : Z) : Z := Z.land m (Z.lnot ev).

(** The masks and events are few: their arithmetic is decided by evaluation. *)
Ltac all_masks :=
  intros;
  repeat match goal with
    | H : mask_ok _ |- _ => destruct H as [->|[->|[->| ->]]]
    | H : is_event _ |- _ => destruct H as [->| ->]
    end; try discriminate; vm_compute; try done; auto 6.

Lemma with_bit_ok m ev : mask_ok m → is_event ev → mask_ok (with_bit m ev).
Proof. all_masks. Qed.
Lemma without_ok m ev : mask_ok m → is_event ev → mask_ok (without m ev).
Proof. all_masks. Qed.
Lemma has_with m ev ev' : mask_ok m → is_event ev → is_event ev' →
  has (with_bit m ev) ev' = (ev' =? ev) || has m ev'.
Proof. all_masks. Qed.
Lemma has_without m ev ev' : mask_ok m → is_event ev → is_event ev' →
  has (without m ev) ev' = negb (ev' =? ev) && has m ev'.
Proof. all_masks. Qed.
Lemma bits_with m ev : mask_ok m → is_event ev → has m ev = false →
  bits (with_bit m ev) = bits m + 1.
Proof. all_masks. Qed.
Lemma bits_without m ev : mask_ok m → is_event ev → has m ev = true →
  bits (without m ev) = bits m - 1.
Proof. all_masks. Qed.
Lemma with_bit_nonzero m ev : mask_ok m → is_event ev → with_bit m ev ≠ 0.
Proof. all_masks. Qed.
Lemma bits_range m : 0 <= bits m <= 2.
Proof. unfold bits. destruct (has m READ), (has m WRITE); lia. Qed.
Lemma real_events_ok reported m : mask_ok (real_events reported m).
Proof.
  unfold real_events, mask_ok. cbv zeta.
  destruct (Z.land (if _ =? 0 then reported else _) EPOLLIN =? 0),
    (Z.land (if _ =? 0 then reported else _) EPOLLOUT =? 0); vm_compute; auto.
Qed.
Lemma real_events_has reported m ev : mask_ok m → is_event ev →
  has (real_events reported m) ev =
    has reported ev || negb (Z.land reported (Z.lor EPOLLERR EPOLLHUP) =? 0) && has m ev.
Proof.
  intros Hm Hev. assert (Hlor : ∀ a b, has (Z.lor a b) ev = has a ev || has b ev).
  { intros a b. unfold has. rewrite Z.land_lor_distr_l, <- negb_andb. f_equal.
    apply eq_true_iff_eq. by rewrite andb_true_iff, !Z.eqb_eq, Z.lor_eq_0_iff. }
  unfold real_events. cbv zeta. rewrite Hlor. set (e := if _ =? 0 then reported else _).
  assert (He : has e ev = has reported ev || negb (Z.land reported (Z.lor EPOLLERR EPOLLHUP) =? 0) && has m ev).
  { unfold e. destruct (_ =? 0); simpl; [by rewrite orb_false_r|]. rewrite Hlor. f_equal.
    by destruct Hm as [->|[->|[->| ->]]], Hev as [->| ->]. }
  rewrite <- He. unfold has at 3. destruct Hev as [->| ->].
  - change (Z.land e READ) with (Z.land e EPOLLIN).
    by destruct (Z.land e EPOLLIN =? 0), (Z.land e EPOLLOUT =? 0).
  - change (Z.land e WRITE) with (Z.land e EPOLLOUT).
    by destruct (Z.land e EPOLLIN =? 0), (Z.land e EPOLLOUT =? 0).
Qed.

Lemma without_real m real : mask_ok m → mask_ok real →
  (has real READ = true → has m READ = true) → (has real WRITE = true → has m WRITE = true) →
  (if has real WRITE then without (if has real READ then without m READ else m) WRITE
   else if has real READ then without m READ else m) = Z.land m (Z.lnot real).
Proof.
  intros Hm Hr H1 H2.
  destruct Hm as [->|[->|[->| ->]]], Hr as [->|[->|[->| ->]]]; vm_compute in *; try done;
    (discriminate (H1 eq_refl) || discriminate (H2 eq_refl)).
Qed.
Lemma without_clears m : mask_ok m →
  (if has m WRITE then without (if has m READ then without m READ else m) WRITE
   else if has m READ then without m READ else m) = 0.
Proof. all_masks. Qed.
End masks.

(** ** Contexts *)
Section contexts.
Context {B : Type}.
Implicit Types (c : FdContext B) (e : EventContext B) (l : list (FdContext B)).

(** The context of a registered event names one waiter, a fiber or a callback; the
    context of an event that is not registered is empty. *)
Definition slot_ok (registered : bool) e : Prop :=
  if registered
  then scheduler e = true ∧ ((is_Some (fiber e) ∧ cb e = None) ∨ (fiber e = None ∧ is_Some (cb e)))
  else e = empty_event.
Definition slot (ev : Z) c : EventContext B := if ev =? READ then read c else write c.

Record ctx_ok (i : nat) c : Prop := {
  c_fd : fd c = Z.of_nat i;
  c_mask : mask_ok (m_events c);
  c_slot : ∀ ev, is_event ev → slot_ok (has (m_events c) ev) (slot ev c);
}.

(** What waits for an event. *)
Definition waiter_of e : fiber_or_cb B :=
  match cb e with Some f => IsCb (Some f) | None => IsFiber (fiber e) end.
Definition waiter (ev : Z) c : option (fiber_or_cb B) :=
  if has (m_events c) ev then Some (waiter_of (slot ev c)) else None.

Definition registered (ev : Z) e c : FdContext B :=
  set_context ev e (set_events (with_bit (m_events c) ev) c).
Definition cleared (ev : Z) c : FdContext B :=
  set_context ev empty_event (set_events (without (m_events c) ev) c).

Lemma slot_set ev ev' e c : is_event ev → is_event ev' →
  slot ev' (set_context ev e c) = if ev' =? ev then e else slot ev' c.
Proof. by intros [->| ->] [->| ->]. Qed.
Lemma set_context_keeps ev e c : fd (set_context ev e c) = fd c ∧ m_events (set_context ev e c) = m_events c.
Proof. unfold set_context. destruct (ev =? READ), (ev =? WRITE); done. Qed.
Lemma registered_keeps ev e c :
  fd (registered ev e c) = fd c ∧ m_events (registered ev e c) = with_bit (m_events c) ev.
Proof. unfold registered. by destruct (set_context_keeps ev e (set_events (with_bit (m_events c) ev) c)) as [-> ->]. Qed.
Lemma cleared_keeps ev c :
  fd (cleared ev c) = fd c ∧ m_events (cleared ev c) = without (m_events c) ev.
Proof. unfold cleared. by destruct (set_context_keeps ev empty_event (set_events (without (m_events c) ev) c)) as [-> ->]. Qed.

Lemma registered_ok i ev e c :
  ctx_ok i c → is_event ev → slot_ok true e → ctx_ok i (registered ev e c).
Proof.
  intros [Hfd Hm Hs] Hev He. destruct (registered_keeps ev e c) as [Hf Hme]. split.
  - by rewrite Hf.
  - rewrite Hme. by apply with_bit_ok.
  - intros ev' Hev'. rewrite Hme, has_with by done. unfold registered. rewrite slot_set by done.
    destruct (ev' =? ev) eqn:E; [done|]. simpl. unfold slot in *. by apply (Hs ev').
Qed.
Lemma cleared_ok i ev c : ctx_ok i c → is_event ev → ctx_ok i (cleared ev c).
Proof.
  intros [Hfd Hm Hs] Hev. destruct (cleared_keeps ev c) as [Hf Hme]. split.
  - by rewrite Hf.
  - rewrite Hme. by apply without_ok.
  - intros ev' Hev'. rewrite Hme, has_without by done. unfold cleared. rewrite slot_set by done.
    destruct (ev' =? ev) eqn:E; [done|]. simpl. unfold slot in *. by apply (Hs ev').
Qed.

Lemma waiter_registered ev ev' e c : mask_ok (m_events c) → is_event ev → is_event ev' →
  waiter ev' (registered ev e c) = if ev' =? ev then Some (waiter_of e) else waiter ev' c.
Proof.
  intros Hm Hev Hev'. unfold waiter. destruct (registered_keeps ev e c) as [_ ->].
  rewrite has_with by done. unfold registered. rewrite slot_set by done. by destruct (ev' =? ev).
Qed.
Lemma waiter_cleared ev ev' c : mask_ok (m_events c) → is_event ev → is_event ev' →
  waiter ev' (cleared ev c) = if ev' =? ev then None else waiter ev' c.
Proof.
  intros Hm Hev Hev'. unfold waiter. destruct (cleared_keeps ev c) as [_ ->].
  rewrite has_without by done. unfold cleared. rewrite slot_set by done. by destruct (ev' =? ev).
Qed.

(** ** The count of registered events *)
Definition total l : Z := foldr (λ c n, bits (m_events c) + n) 0 l.

#[local] Arguments total l : simpl never.
Lemma total_cons c l : total (c :: l) = bits (m_events c) + total l.
Proof. done. Qed.
Lemma total_app l l' : total (l ++ l') = total l + total l'.
Proof. induction l as [|c l IH]; [done|]. simpl. rewrite !total_cons. lia. Qed.
Lemma total_insert l i c c' :
  l !! i = Some c → total (<[i := c']> l) = total l - bits (m_events c) + bits (m_events c').
Proof.
  revert i. induction l as [|x l IH]; intros [|i] Hi; simpl in Hi; try done.
  - injection Hi as ->. simpl. rewrite !total_cons. lia.
  - simpl. rewrite !total_cons. specialize (IH i Hi). lia.
Qed.
Lemma total_new l : Forall (λ c, m_events c = NONE) l → total l = 0.
Proof. induction 1 as [|c l Hc _ IH]; [done|]. rewrite total_cons, IH, Hc. done. Qed.

(** What the kernel should be interested in for a context. *)
Definition wanted (o : option (FdContext B)) : option Z :=
  match o with
  | Some c => if m_events c =? 0 then None else Some (Z.lor EPOLLET (m_events c))
  | None => None
  end.
End contexts.
#[global] Arguments total {B} l : simpl never.
(** ** The steps of the operations *)
Section steps.
Context {B K : Type} `{!Kernel K} `{!KernelLaws K} `{!Bodies B}.
Local Abbreviation P := (Process B K).
Implicit Types (s : P) (c : FdContext B) (e : EventContext B).

Definition ctxs s : list (FdContext B) := m_fd_contexts (p_iom s).
Definition pending s : Z := m_pending_event_count (p_iom s).
Definition with_ctxs (l : list (FdContext B)) (n : Z) s : P := with_iom (MkIOManager l n) s.

(** [s'] is [s] but for what the pipe and the clock did to the kernel. *)
Definition same_but_kernel s s' : Prop :=
  ∃ k, s' = with_kernel k s ∧ interest k = interest (kernel s).

Lemma same_refl s : same_but_kernel s s.
Proof. exists (kernel s). by destruct s. Qed.

Lemma tickle_ok s : ∃ s', tickle s = Ok (tt, s') ∧ same_but_kernel s s'.
Proof.
  unfold tickle. step_in. destruct (hasIdleThread (p_sched s)); simpl.
  - destruct (write_one (kernel s)) as (k & Hk & Hi). unfold bind, sys. rewrite Hk. simpl.
    eexists. split; [done|]. by exists k.
  - eexists. split; [done|]. apply same_refl.
Qed.

#[export] Instance io_laws : SchedulerHostLaws B P.
Proof.
  split; try done.
  - by intros [].
  - intros s s' u H. destruct (tickle_ok s) as (s2 & H2 & k & -> & _).
    simpl in H. rewrite H2 in H. by injection H as <- <-.
Qed.

Lemma io_schedule_ok fc thr s :
  ∃ s', schedule fc thr s = Ok (tt, s') ∧ same_but_kernel (enqueue [MkTask fc thr] s) s'.
Proof.
  rewrite schedule_ok. destruct (queue_empty s); simpl.
  - apply tickle_ok.
  - eexists. split; [done|]. apply same_refl.
Qed.

Lemma context_at_ok i s c s' :
  context_at i s = Ok (c, s') ↔ ctxs s !! Z.to_nat i = Some c ∧ s' = s.
Proof.
  unfold context_at, get_contexts. split.
  - intros (l & s1 & H1 & H)%bind_ok. apply gets_ok in H1 as [-> ->]. by apply deref_ok in H.
  - intros [H ->]. apply bind_ok. exists (ctxs s), s. split; [done|]. by apply deref_ok.
Qed.

Lemma alter_at {A} (f : A → A) (l : list A) i x : l !! i = Some x → alter f i l = <[i := f x]> l.
Proof.
  intros Hx. apply list_eq. intros j. destruct (decide (i = j)) as [->|Hj].
  - rewrite list_lookup_alter_eq, Hx. simpl. symmetry. apply list_lookup_insert_eq.
    by eapply lookup_lt_Some.
  - by rewrite list_lookup_alter_ne, list_lookup_insert_ne.
Qed.

Lemma update_context_ok f i c s :
  ctxs s !! Z.to_nat i = Some c →
  update_context f i s = Ok (tt, with_ctxs (<[Z.to_nat i := f c]> (ctxs s)) (pending s) s).
Proof.
  intros Hc. unfold update_context, modify_iom, modify, with_ctxs. by rewrite (alter_at f _ _ c).
Qed.

Lemma ctxs_with l n s : ctxs (with_ctxs l n s) = l.
Proof. done. Qed.
Lemma lookup_updated i c c' s n :
  ctxs s !! i = Some c → ctxs (with_ctxs (<[i := c']> (ctxs s)) n s) !! i = Some c'.
Proof. intros Hc. simpl. apply list_lookup_insert_eq. by eapply lookup_lt_Some. Qed.

Lemma getContext_ok ev c s : is_event ev → getContext ev c s = Ok (slot ev c, s).
Proof. by intros [->| ->]. Qed.

(** What [triggerEvent] leaves: the event cleared, its waiter at the end of the queue. *)
Definition triggered (ev : Z) (i : nat) c s : P :=
  MkProcess (p_fibers s)
    (with_fibers (Scheduler.m_fibers (p_sched s) ++ [MkTask (waiter_of (slot ev c)) (-1)]) (p_sched s))
    (p_timers s) (MkIOManager (<[i := cleared ev c]> (ctxs s)) (pending s)) (p_fds s) (p_tinfos s) (kernel s).

Lemma set_context_twice ev e e' c : is_event ev → set_context ev e (set_context ev e' c) = set_context ev e c.
Proof. by intros [->| ->]. Qed.

Lemma trigger_ok ev i c s :
  ctxs s !! i = Some c → ctx_ok i c → is_event ev → has (m_events c) ev = true →
  ∃ s', triggerEvent ev (Z.of_nat i) s = Ok (tt, s') ∧ same_but_kernel (triggered ev i c s) s'.
Proof.
  intros Hc [_ Hm Hslot] Hev Hhas. specialize (Hslot ev Hev). rewrite Hhas in Hslot.
  unfold triggerEvent. rewrite (bind_step _ _ s c s) by (apply context_at_ok; by rewrite Nat2Z.id).
  rewrite (bind_step _ _ s tt s) by by apply assert_ok.
  erewrite bind_step by (apply update_context_ok; by rewrite Nat2Z.id).
  erewrite bind_step by by apply getContext_ok.
  destruct Hslot as [Hsch Hw]. rewrite Hsch. step_in. rewrite Nat2Z.id.
  set (c1 := set_events _ c). set (s1 := with_ctxs _ _ s).
  assert (Hc1 : ctxs s1 !! Z.to_nat (Z.of_nat i) = Some c1).
  { rewrite Nat2Z.id. unfold s1. by eapply lookup_updated. }
  assert (Hfin : ∀ w e1 e2, waiter_of (slot ev c) = w → e2 = empty_event →
    ∃ s', (update_context (set_context ev e1) (Z.of_nat i) ;;;
     schedule w (-1) ;;;
     update_context (set_context ev e2) (Z.of_nat i)) s1 = Ok (tt, s') ∧
    same_but_kernel (triggered ev i c s) s').
  { intros w e1 e2 <- ->. erewrite bind_step by by apply update_context_ok.
    match goal with |- context [schedule ?f ?t] =>
      match goal with |- context [bind _ _ ?s2] => destruct (io_schedule_ok f t s2) as (s3 & H3 & k & -> & Hk) end end.
    rewrite (bind_step _ _ _ _ _ H3). erewrite update_context_ok.
    2: { apply (lookup_updated _ c1 (set_context ev e1 c1) s1 (pending s1) Hc1). }
    eexists. split; [done|]. exists k. split; [|done]. unfold triggered. simpl.
    f_equal. f_equal. rewrite Nat2Z.id. unfold ctxs. simpl. rewrite !list_insert_insert_eq.
    by rewrite set_context_twice. }
  destruct Hw as [[[f Hf] Hcb]|[Hf [g Hg]]]; [rewrite Hcb|rewrite Hg].
  - apply Hfin; [unfold waiter_of; by rewrite Hcb|done].
  - apply Hfin; [unfold waiter_of; by rewrite Hg|by rewrite Hf].
Qed.

(** ** The invariant *)

(** The contexts are well formed and the counter counts their registered events. *)
Record io_local s : Prop := {
  io_ctx : ∀ i c, ctxs s !! i = Some c → ctx_ok i c;
  io_count : pending s = u64 (total (ctxs s));
}.
(** The kernel's interest list is what the contexts ask for. *)
Definition io_mirror s : Prop :=
  ∀ d, 0 <= d → interest (kernel s) !! d = wanted (ctxs s !! Z.to_nat d).
Definition io_ok s : Prop := io_local s ∧ io_mirror s.

(** What waits for event [ev] on descriptor [d]. *)
Definition waiting s (d ev : Z) : option (fiber_or_cb B) := ctxs s !! Z.to_nat d ≫= waiter ev.

(** The events registered on a descriptor, and whether the kernel agrees to a change. *)
Definition mask_of s (d : Z) : Z :=
  match ctxs s !! Z.to_nat d with Some c => m_events c | None => NONE end.
Definition agrees (op d ev : Z) s : Prop := (epoll_ctl op d ev (kernel s)).1 = 0.

Lemma mask_has s d c : ctxs s !! Z.to_nat d = Some c → mask_of s d = m_events c.
Proof. intros Hc. unfold mask_of. by rewrite Hc. Qed.

Definition desc (d : Z) : Prop := 0 <= d < 2 ^ 31.
Lemma u64_desc d : desc d → u64 d = d.
Proof. unfold desc. intros. apply u64_id. unfold is_u64. lia. Qed.

Lemma size_le d s : desc d → (Z.of_nat (length (ctxs s)) <=? u64 d) = true → ctxs s !! Z.to_nat d = None.
Proof. intros Hd. rewrite u64_desc, Z.leb_le by done. intros H. apply lookup_ge_None. unfold desc in Hd. lia. Qed.
Lemma size_gt d s : desc d → (Z.of_nat (length (ctxs s)) <=? u64 d) = false → is_Some (ctxs s !! Z.to_nat d).
Proof. intros Hd. rewrite u64_desc, Z.leb_gt by done. intros H. apply lookup_lt_is_Some. unfold desc in Hd. lia. Qed.

Lemma local_update s s' i c c' :
  io_local s → ctxs s !! i = Some c → ctx_ok i c' → ctxs s' = <[i := c']> (ctxs s) →
  pending s' = u64 (pending s + (bits (m_events c') - bits (m_events c))) → io_local s'.
Proof.
  intros [Hctx Hcount] Hc Hc' Hs' Hp. split.
  - intros j x. rewrite Hs'. destruct (decide (i = j)) as [->|Hj].
    + rewrite list_lookup_insert_eq by (by eapply lookup_lt_Some). by intros [= <-].
    + rewrite list_lookup_insert_ne by done. apply Hctx.
  - rewrite Hp, Hcount, Hs', (total_insert _ _ c) by done. unfold u64.
    rewrite Zplus_mod_idemp_l. f_equal. lia.
Qed.

Lemma local_cleared ev s s' i c :
  io_local s → ctxs s !! i = Some c → is_event ev → has (m_events c) ev = true →
  ctxs s' = <[i := cleared ev c]> (ctxs s) → pending s' = u64 (pending s + -1) → io_local s'.
Proof.
  intros Hl Hc Hev Hhas Hs' Hp. pose proof (io_ctx _ Hl _ _ Hc) as Hok.
  eapply local_update; [done|done|by apply cleared_ok|done|].
  destruct (cleared_keeps ev c) as [_ ->]. rewrite bits_without by (done || apply Hok).
  rewrite Hp. f_equal. lia.
Qed.

Definition asked (d m : Z) (h : gmap Z Z) : gmap Z Z :=
  if m =? 0 then base.delete d h else <[d := Z.lor EPOLLET m]> h.

Lemma mirror_update s s' d c c' :
  io_mirror s → 0 <= d → ctxs s !! Z.to_nat d = Some c → ctxs s' = <[Z.to_nat d := c']> (ctxs s) →
  interest (kernel s') = asked d (m_events c') (interest (kernel s)) → io_mirror s'.
Proof.
  intros Hm Hd Hc Hs' Hi d' Hd'. rewrite Hi, Hs'. unfold asked.
  destruct (decide (d' = d)) as [->|Hne].
  - rewrite list_lookup_insert_eq by (by eapply lookup_lt_Some). simpl.
    destruct (m_events c' =? 0); [by rewrite lookup_delete_eq|by rewrite lookup_insert_eq].
  - rewrite list_lookup_insert_ne by lia. rewrite <- Hm by done.
    destruct (m_events c' =? 0); [by rewrite lookup_delete_ne|by rewrite lookup_insert_ne].
Qed.

(** The calls of [epoll_ctl]: the operation is ADD for a first event, DEL for a last
    one and MOD otherwise. *)
Lemma ctl_grow d m ev k k' : mask_ok m → is_event ev →
  epoll_ctl (if m =? 0 then EPOLL_CTL_ADD else EPOLL_CTL_MOD) d (Z.lor EPOLLET (with_bit m ev)) k = (0, k') →
  interest k' = asked d (with_bit m ev) (interest k).
Proof.
  intros Hm Hev H. unfold asked. rewrite (proj2 (Z.eqb_neq _ _) (with_bit_nonzero m ev Hm Hev)).
  destruct (m =? 0); [by apply ctl_add in H as [_ ->]|by apply ctl_mod in H as [_ ->]].
Qed.
Lemma ctl_shrink d m k k' :
  epoll_ctl (if m =? 0 then EPOLL_CTL_DEL else EPOLL_CTL_MOD) d (Z.lor EPOLLET m) k = (0, k') →
  interest k' = asked d m (interest k).
Proof.
  intros H. unfold asked. destruct (m =? 0); [by apply ctl_del in H as [_ ->]|by apply ctl_mod in H as [_ ->]].
Qed.

Lemma sys_ok {A} (f : K → A * K) s a k : f (kernel s) = (a, k) → sys f s = Ok (a, with_kernel k s).
Proof. intros H. unfold sys. by rewrite H. Qed.

(** A refused call changes nothing that matters. *)
Lemma same_io_ok s s' : same_but_kernel s s' → io_ok s → io_ok s'.
Proof. intros (k & -> & Hk) [[? ?] Hm]. split; [by split|]. intros d Hd. simpl. rewrite Hk. by apply Hm. Qed.
Lemma refused_same op d ev s rt k :
  epoll_ctl op d ev (kernel s) = (rt, k) → rt ≠ 0 → same_but_kernel s (with_kernel k s).
Proof. intros H Hrt. exists k. split; [done|]. by eapply ctl_refused. Qed.

Lemma waiting_updated s s' d c c' ev' :
  ctxs s !! Z.to_nat d = Some c → ctxs s' = <[Z.to_nat d := c']> (ctxs s) → 0 <= d →
  ∀ d', 0 <= d' → waiting s' d' ev' = if decide (d' = d) then waiter ev' c' else waiting s d' ev'.
Proof.
  intros Hc Hs' Hd d' Hd'. unfold waiting. rewrite Hs'.
  destruct (decide (d' = d)) as [->|Hne].
  - by rewrite list_lookup_insert_eq by (by eapply lookup_lt_Some).
  - by rewrite list_lookup_insert_ne by lia.
Qed.

(** [trigger_if]: the counter follows. *)
Definition fired (b : bool) (ev : Z) (i : nat) c s : P :=
  if b then with_ctxs (<[i := cleared ev c]> (ctxs s)) (u64 (pending s + -1)) (triggered ev i c s) else s.

Lemma trigger_if_ok mask ev i c s :
  io_local s → ctxs s !! i = Some c → is_event ev →
  (has mask ev = true → has (m_events c) ev = true) →
  ∃ s', trigger_if mask ev (Z.of_nat i) s = Ok (tt, s') ∧ same_but_kernel (fired (has mask ev) ev i c s) s' ∧
    io_local s'.
Proof.
  intros Hl Hc Hev Hhas. unfold trigger_if. fold (has mask ev). destruct (has mask ev); simpl.
  - destruct (trigger_ok ev i c s Hc (io_ctx _ Hl _ _ Hc) Hev (Hhas eq_refl)) as (s1 & H1 & k & -> & Hk).
    rewrite (bind_step _ _ _ _ _ H1). eexists. split; [done|]. split; [by exists k|].
    by eapply local_cleared; eauto.
  - eexists. split; [done|]. split; [apply same_refl|done].
Qed.

(** ** Making room for a descriptor *)
Definition news (from n : nat) : list (FdContext B) := FdContext_new ∘ Z.of_nat <$> seq from n.

Lemma resized_grow n l : Z.of_nat (length l) <= n →
  resized n l = l ++ news (length l) (Z.to_nat n - length l).
Proof. intros H. unfold resized, news. by rewrite take_ge by lia. Qed.
Lemma news_app from n m : news from (n + m) = news from n ++ news (from + n) m.
Proof. unfold news. by rewrite seq_app, fmap_app. Qed.

Lemma grow_S fuel d :
  grow (B:=B) (K:=K) (Datatypes.S fuel) d =
    let* size := contexts_size in
    if size <=? u64 d then context_resize (size + size / 2) ;;; grow fuel d else ret tt.
Proof. done. Qed.

(** One round multiplies a size of at least 2 by at least 5/4, so [fuel] rounds are
    enough for a descriptor below [(5/4)^fuel] times the size. *)
Lemma grow_ok fuel d s :
  desc d → 2 <= Z.of_nat (length (ctxs s)) →
  4 ^ Z.of_nat fuel * d < 5 ^ Z.of_nat fuel * Z.of_nat (length (ctxs s)) →
  ∃ n, grow (Datatypes.S fuel) d s =
         Ok (tt, with_ctxs (ctxs s ++ news (length (ctxs s)) n) (pending s) s) ∧
       d < Z.of_nat (length (ctxs s) + n).
Proof.
  intros Hd. revert s. induction fuel as [|fuel IH]; intros s H2 Hf.
  - exists 0%nat. simpl. step_in. rewrite u64_desc by done. fold (ctxs s).
    rewrite (proj2 (Z.leb_gt _ _)) by lia. rewrite app_nil_r. split; [|lia].
    unfold ret, with_ctxs, with_iom. by destruct s as [?????? ?], p_iom0.
  - rewrite grow_S. step_in. fold (ctxs s). rewrite u64_desc by done.
    destruct (Z.leb_spec (Z.of_nat (length (ctxs s))) d) as [Hle|Hgt].
    + set (size := Z.of_nat (length (ctxs s))) in *.
      pose proof (Z.div_mod size 2) as Hdiv. pose proof (Z.mod_pos_bound size 2) as Hmod.
      erewrite bind_step; cycle 1.
      { unfold context_resize. rewrite (proj2 (Z.ltb_ge max_size _)).
        - step_ok. reflexivity.
        - unfold max_size, desc in *. lia. }
      fold (ctxs s). rewrite resized_grow by (fold size; lia).
      set (n1 := (Z.to_nat (size + size / 2) - length (ctxs s))%nat).
      set (s1 := with_iom _ s).
      assert (Hc1 : ctxs s1 = ctxs s ++ news (length (ctxs s)) n1) by done.
      assert (Hlen : length (ctxs s1) = (length (ctxs s) + n1)%nat).
      { rewrite Hc1, length_app. unfold news. by rewrite length_fmap, length_seq. }
      assert (Hn1 : Z.of_nat (length (ctxs s) + n1) = size + size / 2) by lia.
      destruct (IH s1) as (n & Hg & Hn).
      * lia.
      * rewrite Hlen, Hn1. rewrite !Nat2Z.inj_succ, !Z.pow_succ_r in Hf by lia.
        assert (5 * size <= 4 * (size + size / 2)) by lia.
        assert (0 < 5 ^ Z.of_nat fuel) by (apply Z.pow_pos_nonneg; lia).
        nia.
      * exists (n1 + n)%nat. rewrite Hg, Hlen, Hc1. split; [|lia].
        rewrite news_app, (assoc_L (++)). done.
    + exists 0%nat. rewrite app_nil_r. split; [|lia].
      unfold ret, with_ctxs, with_iom. by destruct s as [?????? ?], p_iom0.
Qed.

Lemma news_lookup from n j c : news from n !! j = Some c → c = FdContext_new (Z.of_nat (from + j)).
Proof. unfold news. rewrite list_lookup_fmap. by intros (i & [-> _]%lookup_seq & ->)%fmap_Some. Qed.

Lemma FdContext_new_ok i : ctx_ok i (@FdContext_new B (Z.of_nat i)).
Proof. split; [done|by left|]. by intros ev [->| ->]. Qed.

(** New contexts keep the invariant and wait for nothing. *)
Lemma grown_ok s n :
  io_ok s → io_ok (with_ctxs (ctxs s ++ news (length (ctxs s)) n) (pending s) s) ∧
  ∀ d ev, is_event ev → waiting (with_ctxs (ctxs s ++ news (length (ctxs s)) n) (pending s) s) d ev = waiting s d ev.
Proof.
  assert (Happ : ∀ i, (ctxs s ++ news (length (ctxs s)) n) !! i = ctxs s !! i ∨
            ctxs s !! i = None ∧ (ctxs s ++ news (length (ctxs s)) n) !! i = Some (FdContext_new (Z.of_nat i))).
  { intros i. rewrite lookup_app. destruct (ctxs s !! i) as [c|] eqn:E; [by left|].
    destruct (news _ _ !! _) as [c|] eqn:E2; [|by left]. right. split; [done|].
    apply news_lookup in E2. subst. f_equal. f_equal. apply lookup_ge_None in E. lia. }
  intros [[Hctx Hcount] Hm]. split; [split; [split|]|].
  - intros i c. rewrite ctxs_with. destruct (Happ i) as [->|[_ ->]]; [apply Hctx|].
    intros [= <-]. apply FdContext_new_ok.
  - rewrite ctxs_with, total_app, (total_new (news _ _)), Z.add_0_r; [done|].
    apply Forall_forall. intros c Hc. apply list_elem_of_fmap in Hc as (? & -> & _). done.
  - intros d Hd. rewrite ctxs_with. change (kernel (with_ctxs ?l ?n s)) with (kernel s). rewrite Hm by done. destruct (Happ (Z.to_nat d)) as [->|[-> ->]]; done.
  - intros d ev Hev. unfold waiting. rewrite ctxs_with.
    destruct (Happ (Z.to_nat d)) as [->|[-> ->]]; [done|]. simpl. by destruct Hev as [->| ->].
Qed.

(** Only the events, and the kernel, have changed. *)
Definition only_events s s' : Prop :=
  p_sched s' = p_sched s ∧ p_fibers s' = p_fibers s ∧ p_timers s' = p_timers s ∧ p_tinfos s' = p_tinfos s.

Lemma room_ok d s :
  io_ok s → desc d → 2 <= Z.of_nat (length (ctxs s)) →
  ∃ s1 c, (if u64 d <? Z.of_nat (length (ctxs s)) then ret tt else grow grow_fuel d) s = Ok (tt, s1) ∧
    io_ok s1 ∧ (∀ d ev, is_event ev → waiting s1 d ev = waiting s d ev) ∧
    only_events s s1 ∧ ctxs s1 !! Z.to_nat d = Some c ∧ m_events c = mask_of s d ∧ kernel s1 = kernel s.
Proof.
  intros Hok Hd H2. rewrite u64_desc by done.
  destruct (Z.ltb_spec d (Z.of_nat (length (ctxs s)))) as [Hlt|Hge].
  - destruct (lookup_lt_is_Some_2 (ctxs s) (Z.to_nat d)) as [c Hc]; [unfold desc in Hd; lia|].
    exists s, c. rewrite (mask_has _ _ _ Hc). done.
  - destruct (grow_ok 199 d s Hd H2) as (n & Hg & Hn).
    { apply Z.lt_le_trans with (5 ^ 199 * 2); [|apply Z.mul_le_mono_nonneg_l; [by vm_compute|lia]].
      apply Z.le_lt_trans with (4 ^ 199 * 2 ^ 31); [|by vm_compute].
      apply Z.mul_le_mono_nonneg_l; [by vm_compute|]. unfold desc in Hd. lia. }
    destruct (grown_ok s n Hok) as [Hok1 Hw].
    destruct (lookup_lt_is_Some_2 (ctxs s ++ news (length (ctxs s)) n) (Z.to_nat d)) as [c Hc].
    { rewrite length_app. unfold news. rewrite length_fmap, length_seq. unfold desc in Hd. lia. }
    eexists _, c. split; [exact Hg|]. split; [done|]. split; [done|]. split; [done|]. split; [done|].
    split; [|done]. unfold mask_of. rewrite (lookup_ge_None_2 (ctxs s)) by (unfold desc in Hd; lia).
    rewrite lookup_app_r in Hc by (unfold desc in Hd; lia). apply list_lookup_fmap_Some in Hc as (i & -> & _). done.
Qed.

Definition new_waiter (t : Z) (f : option B) s : fiber_or_cb B :=
  match f with
  | Some g => IsCb (Some g)
  | None => IsFiber (t_fiber (locals_of (p_fibers s) t))
  end.
(** The calling fiber may wait: it is executing. *)
Definition may_wait (t : Z) (f : option B) s : Prop :=
  f = None → ∃ a x, t_fiber (locals_of (p_fibers s) t) = Some a ∧
    heap (p_fibers s) !! a = Some x ∧ m_state x = EXEC.

(** The table of waiters after an operation on event [ev] of descriptor [d]. *)
Definition now_waiting s s' (d ev : Z) (o : option (fiber_or_cb B)) : Prop :=
  ∀ d' ev', 0 <= d' → is_event ev' →
    waiting s' d' ev' = if decide (d' = d ∧ ev' = ev) then o else waiting s d' ev'.

Lemma now_waiting_updated s s0 s' d ev c c' o :
  (∀ d ev, is_event ev → waiting s d ev = waiting s0 d ev) →
  ctxs s !! Z.to_nat d = Some c → ctxs s' = <[Z.to_nat d := c']> (ctxs s) → 0 <= d →
  (∀ ev', is_event ev' → waiter ev' c' = if ev' =? ev then o else waiter ev' c) →
  now_waiting s0 s' d ev o.
Proof.
  intros Hw Hc Hs' Hd Hc' d' ev' Hd' Hev'.
  rewrite (waiting_updated s s' d c c' ev' Hc Hs' Hd d' Hd').
  destruct (decide (d' = d)) as [->|Hne]; [|by rewrite decide_False, Hw by naive_solver].
  rewrite Hc' by done. destruct (Z.eqb_spec ev' ev) as [->|Hne]; [by rewrite decide_True|].
  rewrite decide_False by naive_solver. rewrite <- Hw by done. unfold waiting. by rewrite Hc.
Qed.

Lemma now_waiting_same s s' d ev :
  (∀ d ev, is_event ev → waiting s' d ev = waiting s d ev) → is_event ev →
  now_waiting s s' d ev (waiting s d ev).
Proof. intros H Hev d' ev' _ Hev'. rewrite H by done. destruct (decide _) as [[-> ->]|]; done. Qed.

(** The end of [add_event], once the kernel has accepted. *)
Lemma add_event_finish t d ev f s c k :
  io_ok s → desc d → is_event ev → ctxs s !! Z.to_nat d = Some c → has (m_events c) ev = false →
  t ∈ t_scheduler (p_sched s) → may_wait t f s →
  interest k = asked d (with_bit (m_events c) ev) (interest (kernel s)) →
  ∃ s', (add_pending 1 ;;;
    update_context (set_events (Z.lor (m_events c) ev)) d ;;;
    let* event_ctx := getContext ev c in
    assert_ (negb (scheduler event_ctx) && bool_decide (fiber event_ctx = None)
             && match cb event_ctx with None => true | Some _ => false end)
      "!event_ctx.scheduler && !event_ctx.fiber && !event_ctx.cb" ;;;
    let* here := get_sched (λ r : Scheduler B, bool_decide (t ∈ t_scheduler r)) in
    match f with
    | Some g => update_context (set_context ev (MkEventContext here None (Some g))) d ;;; ret 0
    | None =>
        let* cur := on_fibers (GetThis t) in
        update_context (set_context ev (MkEventContext here (Some cur) None)) d ;;;
        let* st := on_fibers (getState cur) in
        assert_ (bool_decide (st = EXEC)) "event_ctx.fiber->getState() == Fiber::EXEC" ;;;
        ret 0
    end) (with_kernel k s) = Ok (0, s') ∧ io_ok s' ∧ only_events s s' ∧
    ctxs s' = <[Z.to_nat d := registered ev
                 (match f with Some g => MkEventContext true None (Some g)
                  | None => MkEventContext true (t_fiber (locals_of (p_fibers s) t)) None end) c]> (ctxs s).
Proof.
  intros [Hl Hm] Hd Hev Hc Hhas Ht Hwait Hk.
  pose proof (io_ctx _ Hl _ _ Hc) as Hcok. pose proof (c_slot _ _ Hcok ev Hev) as Hslot.
  rewrite Hhas in Hslot. simpl in Hslot.
  set (e := match f with Some g => _ | None => _ end).
  assert (He : slot_ok true e).
  { unfold e. destruct f as [g|]; simpl; [eauto|]. destruct (Hwait eq_refl) as (a & x & -> & _). eauto. }
  step_in. erewrite bind_step by by apply update_context_ok.
  erewrite bind_step by by apply getContext_ok. rewrite Hslot. step_in.
  unfold get_sched. step_in. simpl. rewrite bool_decide_true by done.
  set (s1 := with_ctxs _ _ _).
  assert (Hc1 : ctxs s1 !! Z.to_nat d = Some (set_events (Z.lor (m_events c) ev) c)).
  { unfold s1. rewrite ctxs_with. apply list_lookup_insert_eq. by eapply lookup_lt_Some. }
  set (s2 := with_ctxs (<[Z.to_nat d := registered ev e c]> (ctxs s)) (u64 (pending s + 1)) (with_kernel k s)).
  assert (Hup : update_context (set_context ev e) d s1 = Ok (tt, s2)).
  { rewrite (update_context_ok _ _ _ _ Hc1). unfold s1, s2. rewrite ctxs_with, list_insert_insert_eq. done. }
  assert (Hs2 : io_ok s2).
  { split.
    - eapply (local_update s s2); [done|done|by apply registered_ok|done|].
      destruct (registered_keeps ev e c) as [_ ->]. rewrite bits_with by (done || apply Hcok).
      change (pending s2) with (u64 (pending s + 1)). f_equal. lia.
    - eapply (mirror_update s s2 d c); [done|unfold desc in Hd; lia|done|done|].
      destruct (registered_keeps ev e c) as [_ ->]. done. }
  exists s2. split; [|done].
  destruct f as [g|].
  - by rewrite (bind_step _ _ _ _ _ Hup).
  - destruct (Hwait eq_refl) as (a & x & Ha & Hx & Hst).
    rewrite (bind_step _ _ s1 a s1).
    2: { unfold on_fibers. simpl. rewrite (GetThis_ok t a) by done. done. }
    unfold e in Hup. rewrite Ha in Hup. rewrite (bind_step _ _ _ _ _ Hup).
    rewrite (bind_step _ _ s2 EXEC s2).
    2: { unfold on_fibers, getState, fiber_at, bind, gets, deref, ret. simpl. by rewrite Hx, Hst. }
    by step_in.
Qed.

Lemma waiting_has s d ev c :
  ctxs s !! Z.to_nat d = Some c → waiting s d ev = waiter ev c.
Proof. intros Hc. unfold waiting. by rewrite Hc. Qed.
Lemma waiter_None ev c : waiter ev c = None ↔ has (m_events c) ev = false.
Proof. unfold waiter. by destruct (has (m_events c) ev). Qed.

(** ** Properties *)

(** What the kernel is asked for when an event is added, and when it is taken off. *)
Definition joins (d ev : Z) s : Prop :=
  agrees (if mask_of s d =? 0 then EPOLL_CTL_ADD else EPOLL_CTL_MOD) d
    (Z.lor EPOLLET (with_bit (mask_of s d) ev)) s.
Definition leaves (d ev : Z) s : Prop :=
  has (mask_of s d) ev = true ∧
  agrees (if without (mask_of s d) ev =? 0 then EPOLL_CTL_DEL else EPOLL_CTL_MOD) d
    (Z.lor EPOLLET (without (mask_of s d) ev)) s.

Lemma add_event_ok t d ev f s :
  io_ok s → desc d → is_event ev → 2 <= Z.of_nat (length (ctxs s)) →
  t ∈ t_scheduler (p_sched s) → may_wait t f s → waiting s d ev = None →
  ∃ r s', add_event t d ev f s = Ok (r, s') ∧ io_ok s' ∧
    only_events s s' ∧
    (r = 0 ∧ now_waiting s s' d ev (Some (new_waiter t f s)) ∨ r = -1 ∧ now_waiting s s' d ev None) ∧
    (r = 0 ↔ joins d ev s).
Proof.
  intros Hok Hd Hev H2 Ht Hwait Hnone.
  destruct (room_ok d s Hok Hd H2) as (s1 & c & Hroom & Hok1 & Hw & Honly & Hc & Hmask & Hk1).
  unfold joins, agrees, with_bit. rewrite <- Hmask, <- Hk1.
  pose proof Honly as (Hs1 & Hf1 & Hti1 & Htn1).
  assert (Hhas : has (m_events c) ev = false).
  { apply waiter_None. by rewrite <- (waiting_has s1 d ev c Hc), Hw. }
  pose proof (io_ctx _ (proj1 Hok1) _ _ Hc) as Hcok.
  unfold add_event. step_in. fold (ctxs s). rewrite (bind_step _ _ _ _ _ Hroom).
  rewrite u64_desc by done. erewrite bind_step by (by apply context_at_ok).
  rewrite (bind_step _ _ s1 tt s1) by (apply assert_ok; unfold has in Hhas; by apply negb_false_iff in Hhas).
  destruct (epoll_ctl (if m_events c =? 0 then EPOLL_CTL_ADD else EPOLL_CTL_MOD) d
              (Z.lor EPOLLET (Z.lor (m_events c) ev)) (kernel s1)) as [rt k] eqn:E.
  rewrite (bind_step _ _ _ _ _ (sys_ok _ _ _ _ E)).
  destruct (Z.eqb_spec rt 0) as [->|Hrt]; simpl.
  - destruct (add_event_finish t d ev f s1 c k) as (s' & Hfin & Hok' & (Hs' & Hf' & Hti' & Htn') & Hc'); try done.
    + by rewrite Hs1.
    + unfold may_wait. by rewrite Hf1.
    + apply (ctl_grow d (m_events c) ev); [apply Hcok|done|exact E].
    + exists 0, s'. split; [done|]. split; [done|]. split; [unfold only_events; naive_solver congruence|].
      split; [|done]. left. split; [done|].
      eapply now_waiting_updated; [exact Hw|exact Hc|exact Hc'|unfold desc in Hd; lia|].
      intros ev' Hev'. rewrite waiter_registered by (done || apply Hcok).
      destruct (ev' =? ev); [|done]. unfold new_waiter. rewrite <- Hf1. by destruct f.
  - exists (-1). eexists. split; [done|].
    assert (Hsame : same_but_kernel s1 (with_kernel k s1)) by by eapply refused_same.
    split; [by eapply same_io_ok|]. split; [done|].
    split; [|by split; [discriminate|]]. right. split; [done|].
    rewrite <- Hnone. by apply now_waiting_same.
Qed.

(** C3: adding an event nobody waits for, from a thread of the manager, always
    returns.  If the kernel accepts, the result is 0 and the event's waiter is the
    callback given or else the calling fiber; if it refuses, the result is -1 and
    nothing has changed.  Making room for the descriptor terminates; no other
    waiter, no fiber and no queued task is touched, and the invariant is kept. *)
Theorem add_event_registers t d ev f s :
  io_ok s → desc d → is_event ev → 2 <= Z.of_nat (length (ctxs s)) →
  t ∈ t_scheduler (p_sched s) → may_wait t f s → waiting s d ev = None →
  ∃ r s', add_event t d ev f s = Ok (r, s') ∧ io_ok s' ∧
    only_events s s' ∧
    (r = 0 ∧ now_waiting s s' d ev (Some (new_waiter t f s)) ∨ r = -1 ∧ now_waiting s s' d ev None) ∧
    (r = 0 ↔ joins d ev s).
Proof. apply add_event_ok. Qed.

(** Adding an event that is already waited for on the descriptor fails the
    assertion, so the process stops and the documented result -1 is not returned. *)
Theorem add_event_twice_aborts t d ev f s :
  io_ok s → desc d → is_event ev → waiting s d ev ≠ None →
  add_event t d ev f s = Fault (AssertFailed "!(fd_ctx->m_events & event)").
Proof.
  intros Hok Hd Hev Hw. unfold waiting in Hw.
  destruct (ctxs s !! Z.to_nat d) as [c|] eqn:Hc; [|done]. simpl in Hw.
  unfold add_event. step_ok. fold (ctxs s). rewrite u64_desc by done.
  rewrite (proj2 (Z.ltb_lt d _)) by (apply lookup_lt_Some in Hc; unfold desc in Hd; lia).
  step_ok. erewrite bind_step by (by apply context_at_ok).
  assert (Hhas : has (m_events c) ev = true).
  { destruct (has (m_events c) ev) eqn:E; [done|]. by apply waiter_None in E. }
  unfold has in Hhas. apply negb_true_iff in Hhas. unfold bind, assert_. by rewrite Hhas.
Qed.

(** The common part of [del_event] and [cancel_event]: no such waiter, a kernel that
    refuses, or a kernel that has dropped the event. *)
Lemma retire_cases d ev s (rest : nat → FdContext B → P → outcome (bool * P)) :
  io_ok s → desc d → is_event ev →
  (∀ c k, ctxs s !! Z.to_nat d = Some c → has (m_events c) ev = true →
     interest k = asked d (without (m_events c) ev) (interest (kernel s)) →
     ∃ s', rest (Z.to_nat d) c (with_kernel k s) = Ok (true, s') ∧ io_ok s') →
  ∃ b s', (let* size := contexts_size in
    if size <=? u64 d then ret false
    else
      let* c := context_at (u64 d) in
      if Z.land (m_events c) ev =? 0 then ret false
      else
        let* rt := sys (epoll_ctl (if Z.land (m_events c) (Z.lnot ev) =? 0 then EPOLL_CTL_DEL else EPOLL_CTL_MOD)
                          d (Z.lor (Z.land (m_events c) (Z.lnot ev)) EPOLLET)) in
        if negb (rt =? 0) then ret false else rest (Z.to_nat d) c) s = Ok (b, s') ∧ io_ok s' ∧
    ((b = false ∧ same_but_kernel s s') ∨
     (b = true ∧ ∃ c k, ctxs s !! Z.to_nat d = Some c ∧ has (m_events c) ev = true ∧
        interest k = asked d (without (m_events c) ev) (interest (kernel s)) ∧
        rest (Z.to_nat d) c (with_kernel k s) = Ok (true, s'))) ∧
    (b = true ↔ leaves d ev s).
Proof.
  intros Hok Hd Hev Hrest. step_in. fold (ctxs s).
  destruct (Z.of_nat (length (ctxs s)) <=? u64 d) eqn:Hsize.
  { exists false, s. split; [done|]. split; [done|]. split; [left; split; [done|]; apply same_refl|].
    unfold leaves, mask_of. rewrite (size_le d s Hd Hsize). split; [done|by intros [? _]]. }
  destruct (size_gt d s Hd Hsize) as [c Hc]. rewrite u64_desc by done.
  unfold leaves, agrees. rewrite (mask_has _ _ _ Hc).
  erewrite bind_step by (by apply context_at_ok).
  destruct (Z.land (m_events c) ev =? 0) eqn:Hbit.
  { exists false, s. split; [done|]. split; [done|]. split; [left; split; [done|]; apply same_refl|].
    unfold has. rewrite Hbit. split; [done|by intros [? _]]. }
  assert (Hhas : has (m_events c) ev = true) by (unfold has; by rewrite Hbit).
  rewrite (Z.lor_comm _ EPOLLET). fold (without (m_events c) ev).
  destruct (epoll_ctl (if without (m_events c) ev =? 0 then EPOLL_CTL_DEL else EPOLL_CTL_MOD) d
              (Z.lor EPOLLET (without (m_events c) ev)) (kernel s)) as [rt k] eqn:E.
  rewrite (bind_step _ _ _ _ _ (sys_ok _ _ _ _ E)).
  destruct (Z.eqb_spec rt 0) as [->|Hrt]; simpl.
  - pose proof (ctl_shrink d _ _ _ E) as Hk.
    destruct (Hrest c k Hc Hhas Hk) as (s' & Hr & Hok'). exists true, s'. repeat (split; [done|]).
    split; [right; eauto 10|done].
  - exists false, (with_kernel k s).
    assert (Hsame : same_but_kernel s (with_kernel k s)) by by eapply refused_same.
    split; [done|]. split; [by eapply same_io_ok|]. split; [by left|]. split; [done|by intros [_ ?]].
Qed.

Lemma cleared_io_ok d ev s s' c k :
  io_ok s → desc d → is_event ev → ctxs s !! Z.to_nat d = Some c → has (m_events c) ev = true →
  interest k = asked d (without (m_events c) ev) (interest (kernel s)) →
  interest (kernel s') = interest k →
  ctxs s' = <[Z.to_nat d := cleared ev c]> (ctxs s) → pending s' = u64 (pending s + -1) → io_ok s'.
Proof.
  intros [Hl Hm] Hd Hev Hc Hhas Hk Hk' Hs' Hp. split; [by eapply local_cleared|].
  eapply (mirror_update s s' d c); [done|unfold desc in Hd; lia|done|done|].
  destruct (cleared_keeps ev c) as [_ ->]. by rewrite Hk', Hk.
Qed.
Lemma cleared_waiting d ev s s' c :
  io_ok s → desc d → is_event ev → ctxs s !! Z.to_nat d = Some c →
  ctxs s' = <[Z.to_nat d := cleared ev c]> (ctxs s) → now_waiting s s' d ev None.
Proof.
  intros [Hl _] Hd Hev Hc Hs'.
  eapply now_waiting_updated; [done|exact Hc|exact Hs'|unfold desc in Hd; lia|].
  intros ev' Hev'. apply waiter_cleared; [apply (io_ctx _ Hl _ _ Hc)|done|done].
Qed.
Lemma same_waiting s s' d ev : same_but_kernel s s' → is_event ev → now_waiting s s' d ev (waiting s d ev).
Proof. intros (k & -> & _) Hev. by apply now_waiting_same. Qed.

(** Deleting an event always returns.  It returns true, and then forgets the
    waiter without scheduling it and leaves every other waiter in place, or it
    returns false and changes nothing. *)
Theorem del_event_forgets d ev s :
  io_ok s → desc d → is_event ev →
  ∃ b s', del_event d ev s = Ok (b, s') ∧ (b = true ↔ leaves d ev s) ∧ io_ok s' ∧ p_sched s' = p_sched s ∧ p_fibers s' = p_fibers s ∧
    (b = true → waiting s d ev ≠ None) ∧
    now_waiting s s' d ev (if b then None else waiting s d ev).
Proof.
  intros Hok Hd Hev.
  pose (rest := λ (i : nat) (c : FdContext B),
    (add_pending (-1) ;;; update_context (set_events (without (m_events c) ev)) d ;;;
     getContext ev c ;;; resetContext ev d ;;; ret true) : M P bool).
  assert (Hrest : ∀ c k, ctxs s !! Z.to_nat d = Some c →
    rest (Z.to_nat d) c (with_kernel k s) =
      Ok (true, with_ctxs (<[Z.to_nat d := cleared ev c]> (ctxs s)) (u64 (pending s + -1)) (with_kernel k s))).
  { intros c k Hc. unfold rest. step_ok. erewrite bind_step by by apply update_context_ok.
    erewrite bind_step by by apply getContext_ok. unfold resetContext.
    erewrite bind_step by (eapply update_context_ok, lookup_updated; exact Hc).
    unfold ret. f_equal. f_equal. rewrite ctxs_with, list_insert_insert_eq. done. }
  destruct (retire_cases d ev s rest Hok Hd Hev) as (b & s' & Hrun & Hok' & Hcases & Hiff).
  { intros c k Hc Hhas Hk. eexists. split; [by apply Hrest|]. by eapply (cleared_io_ok d ev s _ c k). }
  exists b, s'. split; [rewrite <- Hrun; unfold del_event, rest; by rewrite u64_desc by done|].
  split; [done|]. split; [done|]. destruct Hcases as [[-> Hsame]|[-> (c & k & Hc & Hhas & _ & Hr)]].
  - pose proof (same_waiting s s' d ev Hsame Hev). destruct Hsame as (k & -> & _). done.
  - rewrite Hrest in Hr by done. injection Hr as <-. do 2 (split; [done|]). split.
    + intros _. rewrite (waiting_has _ _ _ _ Hc), waiter_None. by rewrite Hhas.
    + by eapply (cleared_waiting d ev s _ c).
Qed.

Lemma cancel_event_ok d ev s :
  io_ok s → desc d → is_event ev →
  ∃ b s', cancel_event d ev s = Ok (b, s') ∧ (b = true ↔ leaves d ev s) ∧ io_ok s' ∧ p_fibers s' = p_fibers s ∧
    p_timers s' = p_timers s ∧ p_tinfos s' = p_tinfos s ∧
    now_waiting s s' d ev (if b then None else waiting s d ev) ∧
    (if b then ∃ w, waiting s d ev = Some w ∧
                    Scheduler.m_fibers (p_sched s') = Scheduler.m_fibers (p_sched s) ++ [MkTask w (-1)]
     else p_sched s' = p_sched s).
Proof.
  intros Hok Hd Hev.
  pose (rest := λ (i : nat) (c : FdContext B),
    (triggerEvent ev d ;;; add_pending (-1) ;;; ret true) : M P bool).
  assert (Hrest : ∀ c k, ctxs s !! Z.to_nat d = Some c → has (m_events c) ev = true →
    ∃ s', rest (Z.to_nat d) c (with_kernel k s) = Ok (true, s') ∧
      same_but_kernel (fired true ev (Z.to_nat d) c (with_kernel k s)) s').
  { intros c k Hc Hhas. unfold rest.
    destruct (trigger_ok ev (Z.to_nat d) c (with_kernel k s) Hc (io_ctx _ (proj1 Hok) _ _ Hc) Hev Hhas)
      as (s1 & H1 & k1 & -> & Hk1).
    rewrite Z2Nat.id in H1 by (unfold desc in Hd; lia). rewrite (bind_step _ _ _ _ _ H1).
    step_in. eexists. split; [done|]. by exists k1. }
  destruct (retire_cases d ev s rest Hok Hd Hev) as (b & s' & Hrun & Hok' & Hcases & Hiff).
  { intros c k Hc Hhas Hk. destruct (Hrest c k Hc Hhas) as (s1 & H1 & k1 & -> & Hk1).
    eexists. split; [done|]. by eapply (cleared_io_ok d ev s _ c k). }
  exists b, s'. split; [rewrite <- Hrun; unfold cancel_event, rest; by rewrite u64_desc by done|].
  split; [done|]. split; [done|]. destruct Hcases as [[-> Hsame]|[-> (c & k & Hc & Hhas & _ & Hr)]].
  - pose proof (same_waiting s s' d ev Hsame Hev). destruct Hsame as (k & -> & _). done.
  - destruct (Hrest c k Hc Hhas) as (s1 & H1 & k1 & -> & Hk1). rewrite H1 in Hr. injection Hr as <-.
    do 3 (split; [done|]). split; [by eapply (cleared_waiting d ev s _ c)|].
    exists (waiter_of (slot ev c)). split; [|done].
    rewrite (waiting_has _ _ _ _ Hc). unfold waiter. by rewrite Hhas.
Qed.

(** C4: cancelling an event always returns.  It returns true, and then the waiter has
    been taken off the event and put at the end of the run queue, unpinned, and
    every other waiter is in place, or it returns false and changes nothing. *)
Theorem cancel_event_wakes_waiter d ev s :
  io_ok s → desc d → is_event ev →
  ∃ b s', cancel_event d ev s = Ok (b, s') ∧ (b = true ↔ leaves d ev s) ∧ io_ok s' ∧ p_fibers s' = p_fibers s ∧
    p_timers s' = p_timers s ∧ p_tinfos s' = p_tinfos s ∧
    now_waiting s s' d ev (if b then None else waiting s d ev) ∧
    (if b then ∃ w, waiting s d ev = Some w ∧
                    Scheduler.m_fibers (p_sched s') = Scheduler.m_fibers (p_sched s) ++ [MkTask w (-1)]
     else p_sched s' = p_sched s).
Proof. apply cancel_event_ok. Qed.

(** What the events are not: fibers, timers, descriptors' contexts and timeouts. *)
Definition others_kept s s' : Prop :=
  p_fibers s' = p_fibers s ∧ p_timers s' = p_timers s ∧ p_fds s' = p_fds s ∧ p_tinfos s' = p_tinfos s.

Lemma others_kept_trans s1 s2 s3 : others_kept s1 s2 → others_kept s2 s3 → others_kept s1 s3.
Proof. unfold others_kept. intuition congruence. Qed.

(** Triggering the events of a mask, reading first. *)
Definition clear_if (mask ev : Z) c : FdContext B := if has mask ev then cleared ev c else c.
Definition clear_mask (mask : Z) c : FdContext B := clear_if mask WRITE (clear_if mask READ c).
Definition woken (mask ev : Z) c : list (Fiber_and_Thread B) :=
  if has mask ev then [MkTask (waiter_of (slot ev c)) (-1)] else [].
Definition wake (mask : Z) c : list (Fiber_and_Thread B) := woken mask READ c ++ woken mask WRITE c.

Lemma trigger_if_eq mask ev i c s :
  io_local s → ctxs s !! i = Some c → is_event ev →
  (has mask ev = true → has (m_events c) ev = true) →
  ∃ s', trigger_if mask ev (Z.of_nat i) s = Ok (tt, s') ∧ io_local s' ∧
    ctxs s' = <[i := clear_if mask ev c]> (ctxs s) ∧ others_kept s s' ∧
    Scheduler.m_fibers (p_sched s') = Scheduler.m_fibers (p_sched s) ++ woken mask ev c ∧
    interest (kernel s') = interest (kernel s).
Proof.
  intros Hl Hc Hev Hhas.
  destruct (trigger_if_ok mask ev i c s Hl Hc Hev Hhas) as (s' & H & (k & -> & Hk) & Hl').
  exists (with_kernel k (fired (has mask ev) ev i c s)). split; [done|]. split; [done|].
  unfold clear_if, woken, fired in *. destruct (has mask ev); simpl; rewrite ?app_nil_r; [done|].
  split; [|done]. symmetry. by apply list_insert_id.
Qed.

Lemma clear_if_lookup mask ev i c s s' :
  ctxs s !! i = Some c → ctxs s' = <[i := clear_if mask ev c]> (ctxs s) →
  ctxs s' !! i = Some (clear_if mask ev c).
Proof. intros Hc ->. apply list_lookup_insert_eq. by eapply lookup_lt_Some. Qed.

Lemma clear_if_events mask ev c :
  m_events (clear_if mask ev c) = if has mask ev then without (m_events c) ev else m_events c.
Proof. unfold clear_if. destruct (has mask ev); [apply cleared_keeps|done]. Qed.

Lemma woken_after_read mask mask' c : woken mask' WRITE (clear_if mask READ c) = woken mask' WRITE c.
Proof. unfold woken, clear_if. by destruct (has mask READ). Qed.

Lemma trigger_both mask i c s :
  io_local s → ctxs s !! i = Some c → mask_ok (m_events c) →
  (has mask READ = true → has (m_events c) READ = true) →
  (has mask WRITE = true → has (m_events c) WRITE = true) →
  ∃ s', (trigger_if mask READ (Z.of_nat i) ;;; trigger_if mask WRITE (Z.of_nat i)) s = Ok (tt, s') ∧
    io_local s' ∧ ctxs s' = <[i := clear_mask mask c]> (ctxs s) ∧ others_kept s s' ∧
    Scheduler.m_fibers (p_sched s') = Scheduler.m_fibers (p_sched s) ++ wake mask c ∧
    interest (kernel s') = interest (kernel s).
Proof.
  intros Hl Hc Hm Hr Hw.
  destruct (trigger_if_eq mask READ i c s Hl Hc (or_introl eq_refl) Hr)
    as (s1 & H1 & Hl1 & Hc1 & Hf1 & Hq1 & Hk1).
  pose proof (clear_if_lookup _ _ _ _ _ _ Hc Hc1) as Hlk.
  destruct (trigger_if_eq mask WRITE i (clear_if mask READ c) s1 Hl1 Hlk (or_intror eq_refl))
    as (s2 & H2 & Hl2 & Hc2 & Hf2 & Hq2 & Hk2).
  { intros H. rewrite clear_if_events. destruct (has mask READ); [|auto].
    rewrite has_without by (done || by (left + right)). by apply Hw. }
  exists s2. rewrite (bind_step _ _ _ _ _ H1). split; [done|]. split; [done|].
  rewrite Hc2, Hc1, list_insert_insert_eq. split; [done|]. split; [by eapply others_kept_trans|]. split; [|congruence].
  by rewrite Hq2, Hq1, woken_after_read, <- (assoc_L (++)).
Qed.

Lemma waiter_clear_mask mask ev c :
  mask_ok (m_events c) → is_event ev →
  waiter ev (clear_mask mask c) = if has mask ev then None else waiter ev c.
Proof.
  intros Hm Hev. unfold clear_mask, clear_if.
  assert (Hm' : mask_ok (m_events (cleared READ c))).
  { destruct (cleared_keeps READ c) as [_ ->]. by apply without_ok; [|left]. }
  destruct (has mask READ) eqn:E1, (has mask WRITE) eqn:E2;
    rewrite ?waiter_cleared by (done || by (left + right)); destruct Hev as [->| ->]; simpl;
    by rewrite ?E1, ?E2.
Qed.

Lemma waiting_nat s i ev c : ctxs s !! i = Some c → waiting s (Z.of_nat i) ev = waiter ev c.
Proof. intros Hc. unfold waiting. by rewrite Nat2Z.id, Hc. Qed.

(** After a mask of events of one descriptor has been triggered. *)
Definition mask_woken s s' (i : nat) (mask : Z) c : Prop :=
  Scheduler.m_fibers (p_sched s') = Scheduler.m_fibers (p_sched s) ++ wake mask c ∧
  ∀ d ev, 0 <= d → is_event ev →
    waiting s' d ev = if decide (d = Z.of_nat i) then (if has mask ev then None else waiter ev c)
                      else waiting s d ev.

Lemma mask_woken_intro s s' i mask c :
  ctxs s !! i = Some c → mask_ok (m_events c) → ctxs s' = <[i := clear_mask mask c]> (ctxs s) →
  Scheduler.m_fibers (p_sched s') = Scheduler.m_fibers (p_sched s) ++ wake mask c →
  mask_woken s s' i mask c.
Proof.
  intros Hc Hm Hs' Hq. split; [done|]. intros d ev Hd Hev.
  rewrite (waiting_updated s s' (Z.of_nat i) c (clear_mask mask c) ev); [|by rewrite Nat2Z.id..|lia|done].
  destruct (decide (d = Z.of_nat i)) as [->|]; [|done]. by apply waiter_clear_mask.
Qed.

(** Whether epoll accepts that the events [real] of the descriptor are no longer watched. *)
Definition drops (i : nat) (real : Z) c s : bool :=
  negb (Z.land (m_events c) real =? NONE) &&
  ((epoll_ctl (if Z.land (m_events c) (Z.lnot real) =? 0 then EPOLL_CTL_DEL else EPOLL_CTL_MOD)
      (Z.of_nat i) (Z.lor EPOLLET (Z.land (m_events c) (Z.lnot real))) (kernel s)).1 =? 0).

Lemma deal_event_ok fuel i reported c s :
  io_ok s → ctxs s !! i = Some c →
  (∀ ev, is_event ev → has (real_events reported (m_events c)) ev = true → has (m_events c) ev = true) →
  ∃ s', deal_event fuel (MkEvent (Context (Z.of_nat i)) reported) s = Ok (tt, s') ∧ io_ok s' ∧
    others_kept s s' ∧
    (if drops i (real_events reported (m_events c)) c s
     then ctxs s' = <[i := clear_mask (real_events reported (m_events c)) c]> (ctxs s) ∧
          Scheduler.m_fibers (p_sched s') =
            Scheduler.m_fibers (p_sched s) ++ wake (real_events reported (m_events c)) c
     else same_but_kernel s s') ∧
    ∀ ev, is_event ev → has (real_events reported (m_events c)) ev =
      has reported ev || negb (Z.land reported (Z.lor EPOLLERR EPOLLHUP) =? 0) && has (m_events c) ev.
Proof.
  intros [Hl Hm] Hc Hsub. pose proof (io_ctx _ Hl _ _ Hc) as Hcok.
  pose proof (c_mask _ _ Hcok) as Hmask. set (real := real_events reported (m_events c)) in *.
  pose proof (λ ev, real_events_has reported (m_events c) ev Hmask) as Hreal. fold real in Hreal.
  unfold deal_event. simpl. rewrite (bind_step _ _ s c s) by (apply context_at_ok; by rewrite Nat2Z.id).
  fold real. unfold drops. destruct (Z.land (m_events c) real =? NONE).
  { exists s. split; [done|]. split; [done|]. split; [done|]. split; [apply same_refl|done]. }
  rewrite (c_fd _ _ Hcok). simpl.
  destruct (epoll_ctl (if Z.land (m_events c) (Z.lnot real) =? 0 then EPOLL_CTL_DEL else EPOLL_CTL_MOD)
              (Z.of_nat i) (Z.lor EPOLLET (Z.land (m_events c) (Z.lnot real))) (kernel s)) as [rt k] eqn:E.
  rewrite (bind_step _ _ _ _ _ (sys_ok _ _ _ _ E)).
  destruct (Z.eqb_spec rt 0) as [->|Hrt]; simpl.
  - apply ctl_shrink in E.
    destruct (trigger_both real i c (with_kernel k s)) as (s' & Hrun & Hl' & Hc' & Hf' & Hq' & Hk');
      [by destruct Hl|done|done|apply Hsub; by left|apply Hsub; by right|].
    exists s'. split; [done|]. split; [|done].
    split; [done|]. eapply (mirror_update s s' (Z.of_nat i) c); [done|lia|by rewrite Nat2Z.id| |].
    + by rewrite Nat2Z.id.
    + rewrite Hk'. simpl. rewrite E. f_equal. unfold clear_mask. rewrite !clear_if_events.
      symmetry. apply without_real; [done|apply real_events_ok|apply Hsub; by left|apply Hsub; by right].
  - exists (with_kernel k s).
    assert (Hsame : same_but_kernel s (with_kernel k s)) by by eapply refused_same.
    rewrite (proj2 (Z.eqb_neq rt 0) Hrt). split; [done|]. split; [by eapply same_io_ok|]. by split.
Qed.

(** C7: the loop of [idle] deals with an epoll event on a descriptor whose registered
    events include those reported.  If the kernel accepts the change of interest,
    exactly the waiters of the reported events (with an error or a hang-up, of all
    registered ones) go to the end of the run queue, the reader before the writer,
    and their events are cleared; otherwise, or when nothing reported is registered,
    nothing changes.  Either way it returns and the invariant is kept. *)
Theorem idle_event_wakes_waiters fuel i reported c s :
  io_ok s → ctxs s !! i = Some c →
  (∀ ev, is_event ev → has (real_events reported (m_events c)) ev = true → has (m_events c) ev = true) →
  ∃ s', deal_event fuel (MkEvent (Context (Z.of_nat i)) reported) s = Ok (tt, s') ∧ io_ok s' ∧
    others_kept s s' ∧
    (if drops i (real_events reported (m_events c)) c s
     then mask_woken s s' i (real_events reported (m_events c)) c else same_but_kernel s s') ∧
    ∀ ev, is_event ev → has (real_events reported (m_events c)) ev =
      has reported ev || negb (Z.land reported (Z.lor EPOLLERR EPOLLHUP) =? 0) && has (m_events c) ev.
Proof.
  intros Hok Hc Hsub. destruct (deal_event_ok fuel i reported c s Hok Hc Hsub) as (s' & H & Hok' & Hkept & Hd & Hhas).
  exists s'. repeat (split; [done|]). split; [|done].
  destruct (drops _ _ _ _); [|done]. destruct Hd as [Hs' Hq]. apply mask_woken_intro; [done| |done..].
  apply (c_mask i), (io_ctx _ (proj1 Hok)), Hc.
Qed.

(** An event reported to [idle] after it was deleted, while the other event of the
    descriptor is still registered and reported too, stops the process: [idle]
    compares the reported events with the registered ones only as a whole, and
    [triggerEvent] asserts that the one it triggers is registered. *)
Theorem stale_event_aborts fuel i reported c s ev ev' k :
  io_ok s → ctxs s !! i = Some c → is_event ev → is_event ev' →
  has (real_events reported (m_events c)) ev = true → has (m_events c) ev = false →
  has (real_events reported (m_events c)) ev' = true → has (m_events c) ev' = true →
  epoll_ctl EPOLL_CTL_DEL (Z.of_nat i) EPOLLET (kernel s) = (0, k) →
  deal_event fuel (MkEvent (Context (Z.of_nat i)) reported) s = Fault (AssertFailed "m_events & event").
Proof.
  intros [Hl _] Hc Hev Hev' H1 H2 H3 H4 Hk. pose proof (io_ctx _ Hl _ _ Hc) as Hcok.
  pose proof (c_mask _ _ Hcok) as Hmask. pose proof (real_events_ok reported (m_events c)) as Hreal.
  unfold deal_event. simpl. rewrite (bind_step _ _ s c s) by (apply context_at_ok; by rewrite Nat2Z.id).
  set (real := real_events reported (m_events c)) in *. rewrite (c_fd _ _ Hcok).
  assert (Hcases : (Z.land (m_events c) real =? NONE) = false ∧ Z.land (m_events c) (Z.lnot real) = 0 ∧
    (if has real READ then true else false) = true ∧ (if has real WRITE then true else false) = true ∧
    has (m_events c) READ = negb (has (m_events c) WRITE)).
  { destruct Hev as [->| ->], Hev' as [->| ->], Hmask as [Em|[Em|[Em|Em]]], Hreal as [Er|[Er|[Er|Er]]];
      rewrite Em, Er in *; vm_compute in H1, H2, H3, H4; try discriminate; vm_compute; done. }
  destruct Hcases as (-> & -> & Hr & Hw & Hone). simpl.
  rewrite (bind_step _ _ _ _ _ (sys_ok _ _ _ _ Hk)). simpl.
  destruct (has real READ) eqn:Er, (has real WRITE) eqn:Ew; try done.
  destruct (has (m_events c) READ) eqn:ER.
  - destruct (trigger_if_eq real READ i c (with_kernel k s)) as (s1 & Hs1 & _ & Hc1 & _);
      [by destruct Hl|done|by left|done|].
    rewrite (bind_step _ _ _ _ _ Hs1). pose proof (clear_if_lookup _ _ _ _ (with_kernel k s) s1 Hc Hc1) as Hlk.
    unfold trigger_if. fold (has real WRITE). rewrite Ew. simpl. unfold triggerEvent, bind at 1.
    rewrite (bind_step _ _ s1 _ s1) by (apply context_at_ok; by rewrite Nat2Z.id).
    unfold bind at 1, assert_. rewrite clear_if_events, Er. fold (has (without (m_events c) READ) WRITE).
    rewrite has_without by (done || by (left + right)).
    destruct (has (m_events c) WRITE); [done|]. done.
  - unfold trigger_if. fold (has real READ). rewrite Er. simpl. unfold triggerEvent, bind at 1, bind at 1.
    rewrite (bind_step _ _ (with_kernel k s) c (with_kernel k s)) by (apply context_at_ok; by rewrite Nat2Z.id).
    unfold bind, assert_. fold (has (m_events c) READ). by rewrite ER.
Qed.

Lemma cancel_all_ok d s :
  io_ok s → desc d →
  ∃ b s', cancel_all d s = Ok (b, s') ∧
    (b = true ↔ mask_of s d ≠ NONE ∧ agrees EPOLL_CTL_DEL d NONE s) ∧ io_ok s' ∧ others_kept s s' ∧
    (if b then ∃ c, ctxs s !! Z.to_nat d = Some c ∧ m_events c ≠ 0 ∧
                    mask_woken s s' (Z.to_nat d) (m_events c) c
     else same_but_kernel s s').
Proof.
  intros Hok Hd. pose proof Hok as [Hl Hm]. unfold cancel_all. step_in. fold (ctxs s).
  destruct (Z.of_nat (length (ctxs s)) <=? u64 d) eqn:Hsize.
  { exists false, s. split; [done|]. unfold mask_of. rewrite (size_le d s Hd Hsize).
    split; [naive_solver|]. repeat (split; [done|]). apply same_refl. }
  destruct (size_gt d s Hd Hsize) as [c Hc]. rewrite u64_desc by done.
  unfold agrees. rewrite (mask_has _ _ _ Hc).
  erewrite bind_step by (by apply context_at_ok).
  destruct (Z.eqb_spec (m_events c) 0) as [Hz|Hz].
  { exists false, s. split; [done|]. split; [naive_solver|]. repeat (split; [done|]). apply same_refl. }
  pose proof (io_ctx _ Hl _ _ Hc) as Hcok. pose proof (c_mask _ _ Hcok) as Hmask.
  change (epoll_ctl EPOLL_CTL_DEL d NONE (kernel s)) with (epoll_ctl EPOLL_CTL_DEL d 0 (kernel s)).
  destruct (epoll_ctl EPOLL_CTL_DEL d 0 (kernel s)) as [rt k] eqn:E.
  rewrite (bind_step _ _ _ _ _ (sys_ok _ _ _ _ E)).
  destruct (Z.eqb_spec rt 0) as [->|Hrt]; simpl.
  2: { exists false, (with_kernel k s).
       assert (Hsame : same_but_kernel s (with_kernel k s)) by by eapply refused_same.
       split; [done|]. split; [naive_solver|]. split; [by eapply same_io_ok|]. by split. }
  apply ctl_del in E as [_ Hk].
  assert (Hi : Z.of_nat (Z.to_nat d) = d) by (unfold desc in Hd; lia).
  destruct (trigger_if_eq (m_events c) READ (Z.to_nat d) c (with_kernel k s))
    as (s1 & H1 & Hl1 & Hc1 & Hf1 & Hq1 & Hk1); [by destruct Hl|done|by left|done|].
  pose proof (clear_if_lookup _ _ _ _ (with_kernel k s) s1 Hc Hc1) as Hlk1.
  rewrite Hi in H1. rewrite (bind_step _ _ _ _ _ H1). erewrite bind_step by (by apply context_at_ok).
  assert (Hev1 : m_events (clear_if (m_events c) READ c) =
                 if has (m_events c) READ then without (m_events c) READ else m_events c)
    by apply clear_if_events.
  assert (Hhw : has (m_events (clear_if (m_events c) READ c)) WRITE = has (m_events c) WRITE).
  { rewrite Hev1. destruct (has (m_events c) READ); [|done].
    by rewrite has_without by (done || by (left + right)). }
  destruct (trigger_if_eq (m_events (clear_if (m_events c) READ c)) WRITE (Z.to_nat d)
              (clear_if (m_events c) READ c) s1)
    as (s2 & H2 & Hl2 & Hc2 & Hf2 & Hq2 & Hk2); [done|done|by right|done|].
  rewrite Hi in H2. rewrite (bind_step _ _ _ _ _ H2).
  pose proof (clear_if_lookup _ _ _ _ s1 s2 Hlk1 Hc2) as Hlk2.
  erewrite bind_step by (by apply context_at_ok).
  set (c2 := clear_if (m_events (clear_if (m_events c) READ c)) WRITE (clear_if (m_events c) READ c)) in *.
  assert (Hc2' : c2 = clear_mask (m_events c) c).
  { unfold c2, clear_mask, clear_if at 1. rewrite Hhw. done. }
  assert (Hz2 : m_events c2 = 0).
  { rewrite Hc2'. unfold clear_mask. rewrite !clear_if_events. by apply without_clears. }
  rewrite Hz2. step_in.
  assert (Hs2 : ctxs s2 = <[Z.to_nat d := clear_mask (m_events c) c]> (ctxs s)).
  { rewrite Hc2, Hc1, list_insert_insert_eq. by fold c2; rewrite Hc2'. }
  exists true, s2. split; [done|]. split; [done|]. split; [|split; [by eapply (others_kept_trans (with_kernel k s) s1)|]].
  - split; [done|]. eapply (mirror_update s s2 d c); [done|unfold desc in Hd; lia|done|exact Hs2|].
    rewrite <- Hc2', Hz2. rewrite Hk2, Hk1. exact Hk.
  - exists c. split; [done|]. split; [done|]. apply mask_woken_intro; [done..|].
    rewrite Hq2, Hq1. unfold wake. rewrite (assoc_L (++)). f_equal.
    rewrite <- (woken_after_read (m_events c) (m_events c) c). unfold woken. by rewrite Hhw.
Qed.

(** Cancelling everything on a descriptor always returns.  It returns true, and
    then both events are cleared and their waiters queued, the reader first, with
    the final assertion holding, or it returns false and changes nothing. *)
Theorem cancel_all_wakes_waiters d s :
  io_ok s → desc d →
  ∃ b s', cancel_all d s = Ok (b, s') ∧
    (b = true ↔ mask_of s d ≠ NONE ∧ agrees EPOLL_CTL_DEL d NONE s) ∧ io_ok s' ∧ others_kept s s' ∧
    (if b then ∃ c, ctxs s !! Z.to_nat d = Some c ∧ m_events c ≠ 0 ∧
                    mask_woken s s' (Z.to_nat d) (m_events c) c
     else same_but_kernel s s').
Proof. apply cancel_all_ok. Qed.

(** ** Deciding to stop, and for how long to wait *)

Lemma total_zero (l : list (FdContext B)) i c :
  total l = 0 → l !! i = Some c → bits (m_events c) = 0.
Proof.
  assert (Hnn : ∀ l : list (FdContext B), 0 <= total l).
  { induction l0 as [|x l0 IH]; [done|]. rewrite total_cons. pose proof (bits_range (m_events x)). lia. }
  revert i. induction l as [|x l IH]; intros [|i]; simpl; try done; rewrite total_cons;
    pose proof (bits_range (m_events x)); pose proof (Hnn l).
  - intros Hz [= <-]. lia.
  - intros Hz. apply IH. lia.
Qed.
Lemma total_bound (l : list (FdContext B)) : 0 <= total l <= 2 * Z.of_nat (length l).
Proof. induction l as [|x l IH]; [done|]. rewrite total_cons. simpl. pose proof (bits_range (m_events x)). lia. Qed.

Lemma no_pending_no_waiter s d ev :
  io_local s → Z.of_nat (length (ctxs s)) < 2 ^ 63 → pending s = 0 → is_event ev → waiting s d ev = None.
Proof.
  intros Hl Hlen Hp Hev. rewrite (io_count _ Hl) in Hp.
  rewrite u64_id in Hp by (unfold is_u64; pose proof (total_bound (ctxs s)); lia).
  unfold waiting. destruct (ctxs s !! Z.to_nat d) as [c|] eqn:Hc; [|done]. simpl.
  apply waiter_None. pose proof (total_zero _ _ _ Hp Hc) as Hb. unfold bits in Hb.
  destruct Hev as [->| ->]; destruct (has (m_events c) READ), (has (m_events c) WRITE); done.
Qed.

(** What [stopping(&timeout)] says, and the timeout of the wait that follows. *)
Lemma stopping_timeout_ok s now k :
  clock_ms (kernel s) = (now, k) → 0 < now →
  (∀ l, l ∈ Timer.m_timers (p_timers s) → is_u64 (Timer.next_of (Timer.store (p_timers s)) l)) →
  ∃ stop timeout, stopping_timeout s = Ok ((stop, timeout), with_kernel k s) ∧
    (stop = true ↔ Timer.m_timers (p_timers s) = [] ∧ pending s = 0 ∧ base_stopping (p_sched s) = true) ∧
    i32 (wait_timeout timeout) =
      match Timer.m_timers (p_timers s) with
      | [] => 5000
      | l :: _ => Z.min 5000 (Z.max 0 (Timer.next_of (Timer.store (p_timers s)) l - now))
      end ∧
    wait_timeout (wait_timeout timeout) = wait_timeout timeout.
Proof.
  intros Hclock Hnow Hnext.
  assert (Hwait : ∀ n, 0 <= n → n < UINT64_MAX → wait_timeout n = Z.min 5000 n).
  { intros n H0 H. unfold wait_timeout, MAX_TIMEOUT. rewrite (proj2 (Z.eqb_neq n UINT64_MAX)) by lia.
    destruct (Z.gtb_spec 5000 n); lia. }
  assert (Hi32 : ∀ n, 0 <= n <= 5000 → i32 n = n).
  { intros n H. unfold i32. rewrite Z.mod_small; lia. }
  unfold stopping_timeout, read_timeout. rewrite bind_assoc, (bind_step _ _ _ _ _ (sys_ok _ _ _ _ Hclock)).
  unfold Timer.get_next_timeout, Timer.get_tm. rewrite bind_assoc. step_in. simpl.
  destruct (Timer.m_timers (p_timers s)) as [|l ts].
  - step_in. rewrite Z.eqb_refl. unfold read_pending, read_base. step_in.
    change (m_pending_event_count (p_iom (with_kernel k s))) with (pending s).
    destruct (Z.eqb_spec (pending s) 0) as [Hp|Hp].
    + step_in. eexists _, _. split; [reflexivity|]. split; [|done]. naive_solver.
    + eexists _, _. split; [reflexivity|]. split; [|done]. split; [done|naive_solver].
  - specialize (Hnext l ltac:(by left)). set (n := Timer.next_of _ l) in *. unfold is_u64 in Hnext.
    set (timeout := if now >=? n then 0 else u64 (n - now)).
    assert (Ht : timeout = Z.max 0 (n - now)).
    { unfold timeout. rewrite Z.geb_leb. destruct (Z.leb_spec n now); [lia|].
      rewrite u64_id by (unfold is_u64; lia). lia. }
    assert (Hlt : timeout < UINT64_MAX) by (unfold UINT64_MAX; lia).
    exists false, timeout. split.
    + rewrite (bind_step _ _ _ timeout (with_kernel k s)).
      2: { unfold timeout. by destruct (now >=? n). }
      rewrite (proj2 (Z.eqb_neq timeout UINT64_MAX)) by lia. done.
    + split; [by split; [|intros [? _]]|].
      rewrite (Hwait timeout) by lia. rewrite Hi32 by lia. split; [lia|].
      rewrite Hwait by (unfold UINT64_MAX; lia). lia.
Qed.

(** C37: [idle] ends the loop exactly when there is no timer, no pending event and the
    base class is stopping, and then nothing waits for any event.  Otherwise the
    time it gives [epoll_wait] is the time to the earliest timer, at most five
    seconds: it neither oversleeps a timer nor blocks for ever, and an interrupted
    wait is started again with the same time. *)
Theorem idle_stops_or_waits s now k :
  clock_ms (kernel s) = (now, k) → 0 < now →
  (∀ l, l ∈ Timer.m_timers (p_timers s) → is_u64 (Timer.next_of (Timer.store (p_timers s)) l)) →
  ∃ stop timeout, stopping_timeout s = Ok ((stop, timeout), with_kernel k s) ∧
    (stop = true ↔ Timer.m_timers (p_timers s) = [] ∧ pending s = 0 ∧ base_stopping (p_sched s) = true) ∧
    (stop = true → io_local s → Z.of_nat (length (ctxs s)) < 2 ^ 63 →
       ∀ d ev, is_event ev → waiting s d ev = None) ∧
    i32 (wait_timeout timeout) =
      match Timer.m_timers (p_timers s) with
      | [] => 5000
      | l :: _ => Z.min 5000 (Z.max 0 (Timer.next_of (Timer.store (p_timers s)) l - now))
      end ∧
    wait_timeout (wait_timeout timeout) = wait_timeout timeout.
Proof.
  intros Hclock Hnow Hnext.
  destruct (stopping_timeout_ok s now k Hclock Hnow Hnext) as (stop & timeout & H & Hstop & Hw & Hagain).
  exists stop, timeout. split_and!; try done. intros Hs Hl Hlen d ev Hev.
  apply Hstop in Hs as (_ & Hp & _). by apply no_pending_no_waiter.
Qed.
End steps.
End IOManagerFacts.
