(* ===== verification/IOManagerSim.v ===== *)
(** * A simulated kernel

    An epoll instance, a pipe and a clock that behave as the manual pages say: the
    instance of [KernelLaws] at which the theorems on the IO manager are applied. *)
From stdpp Require Import base gmap list strings.
From Stdlib Require Import ZArith Lia.
From S2P Require Import Prelude StdSet Timers Fibers FiberFacts Schedulers SchedulerFacts.
From S2P Require Import FdManagers IOManagers IOManagerFacts.
Open Scope Z_scope.

Module IOManagerSim.
Import Fiber Scheduler IOManager IOManagerFacts.

Record sim := MkSim {
  sim_interest : gmap Z Z;
  sim_time : Z;
  sim_address : Z;
  sim_pipe : Z;
  sim_reports : list (list epoll_event);
  sim_flags : Z;
}.

Definition sim_ctl (op d ev : Z) (k : sim) : Z * sim :=
  let set h := MkSim h (sim_time k) (sim_address k) (sim_pipe k) (sim_reports k) (sim_flags k) in
  match sim_interest k !! d with
  | None => if op =? EPOLL_CTL_ADD then (0, set (<[d := ev]> (sim_interest k))) else (-1, k)
  | Some _ =>
      if op =? EPOLL_CTL_MOD then (0, set (<[d := ev]> (sim_interest k)))
      else if op =? EPOLL_CTL_DEL then (0, set (base.delete d (sim_interest k)))
      else (-1, k)
  end.
Definition sim_with_pipe (n : Z) (k : sim) : sim :=
  MkSim (sim_interest k) (sim_time k) (sim_address k) n (sim_reports k) (sim_flags k).

#[export] Instance sim_kernel : Kernel sim := {
  epoll_create := λ k, (3, k);
  pipe_create := λ k, (0, k);
  pipe_nonblock := λ k, (0, k);
  epoll_add_pipe := λ k, (0, k);
  clock_ms := λ k, (sim_time k, k);
  allocate_address := λ k, (sim_address k,
    MkSim (sim_interest k) (sim_time k) (sim_address k + 1) (sim_pipe k) (sim_reports k) (sim_flags k));
  epoll_ctl := sim_ctl;
  epoll_wait := λ _ k,
    match sim_reports k with
    | [] => (Ready [], k)
    | r :: rs => (Ready r, MkSim (sim_interest k) (sim_time k) (sim_address k) (sim_pipe k) rs (sim_flags k))
    end;
  pipe_write := λ k, (1, sim_with_pipe (sim_pipe k + 1) k);
  pipe_read := λ k, if sim_pipe k >? 0 then (1, sim_with_pipe (sim_pipe k - 1) k) else (-1, k);
  close_own := λ _ k, (0, k);
}.

#[export] Instance sim_laws : KernelLaws sim.
Proof.
  apply (Build_KernelLaws sim _ sim_interest).
  - intros op d ev k k' rt H Hrt. simpl in H. unfold sim_ctl in H.
    destruct (sim_interest k !! d), (op =? EPOLL_CTL_ADD), (op =? EPOLL_CTL_MOD), (op =? EPOLL_CTL_DEL);
      injection H as Hr Hk; subst; done.
  - intros d ev k k' H. simpl in H. unfold sim_ctl in H.
    destruct (sim_interest k !! d) eqn:E; simpl in H; [discriminate|]. by injection H as <-.
  - intros d ev k k' H. simpl in H. unfold sim_ctl in H.
    destruct (sim_interest k !! d) eqn:E; simpl in H; [|discriminate]. injection H as <-. eauto.
  - intros d ev k k' H. simpl in H. unfold sim_ctl in H.
    destruct (sim_interest k !! d) eqn:E; simpl in H; [|discriminate]. injection H as <-. eauto.
  - intros k. eexists. split; [reflexivity|]. done.
  - intros k k' z H. simpl in H. by injection H as _ <-.
  - intros k k' a H. simpl in H. by injection H as _ <-.
  - intros k k' rt H. simpl in H. destruct (sim_pipe k >? 0); injection H as Hr Hk; by subst.
Defined.

(** Callbacks are numbers. *)
#[export] Instance number_bodies : Bodies nat := {
  idle_body := 0%nat;
  scheduler_body := 1%nat;
  timer_body := λ c, match c with Timer.Fun b => b | Timer.BindCond _ (Some b) => b | _ => 2%nat end;
}.

(** Thread 1 belongs to a manager with room for 32 descriptors. *)
Definition sim_start (reports : list (list epoll_event)) : Process nat sim :=
  MkProcess (FiberFacts.no_fibers 1024)
    (MkScheduler [] [] [] 1 None (-1) 0 0 false true {[1]} {[1]})
    (Timer.MkTimerManager ∅ [] 0) (MkIOManager [] 0) FdManager.no_contexts ∅ (MkSim ∅ 1000 1 0 reports 0).
Definition sim_ready (reports : list (list epoll_event)) : Process nat sim :=
  with_ctxs (news 0 32) 0 (sim_start reports).

Lemma sim_ready_ok reports : io_ok (sim_ready reports).
Proof.
  apply (grown_ok (sim_start reports) 32). split; [split|].
  - intros i c H. by rewrite (lookup_nil i : ctxs (sim_start reports) !! i = None) in H.
  - done.
  - intros d _. done.
Qed.

(** Callback 7 waits for descriptor 3 to become readable, callback 8 for it to become
    writable. *)
Definition after {A} (r : outcome (A * Process nat sim)) : Process nat sim :=
  match r with Ok (_, s) => s | Fault _ => sim_ready [] end.
Definition sim_read : Process nat sim := after (add_event 1 3 READ (Some 7%nat) (sim_ready [])).
Definition sim_both : Process nat sim := after (add_event 1 3 WRITE (Some 8%nat) sim_read).

Lemma desc_3 : desc 3.
Proof. unfold desc. lia. Qed.
Lemma in_scheduler (s : Process nat sim) : t_scheduler (p_sched s) = {[1]} → 1 ∈ t_scheduler (p_sched s).
Proof. intros ->. set_solver. Qed.

Lemma sim_add ev (b : nat) s :
  io_ok s → is_event ev → 2 <= Z.of_nat (length (ctxs s)) → t_scheduler (p_sched s) = {[1]} →
  waiting s 3 ev = None → io_ok (after (add_event 1 3 ev (Some b) s)).
Proof.
  intros Hok Hev Hlen Ht Hw.
  destruct (room_ok 3 s Hok desc_3 Hlen) as (s1 & c & Hroom & Hok1 & Hww & (Hs1 & _) & Hc & _).
  assert (Hhas : has (m_events c) ev = false).
  { apply waiter_None. by rewrite <- (waiting_has s1 3 ev c Hc), Hww. }
  unfold add_event. rewrite (bind_step _ _ s (Z.of_nat (length (ctxs s))) s) by done.
  rewrite (bind_step _ _ _ _ _ Hroom). rewrite u64_desc by apply desc_3.
  erewrite bind_step by (by apply context_at_ok).
  rewrite (bind_step _ _ s1 tt s1) by (apply assert_ok; unfold has in Hhas; by apply negb_false_iff in Hhas).
  destruct (epoll_ctl (if m_events c =? 0 then EPOLL_CTL_ADD else EPOLL_CTL_MOD) 3
              (Z.lor EPOLLET (Z.lor (m_events c) ev)) (kernel s1)) as [rt k] eqn:E.
  rewrite (bind_step _ _ _ _ _ (sys_ok _ _ _ _ E)).
  destruct (Z.eqb_spec rt 0) as [->|Hrt]; simpl.
  - destruct (add_event_finish 1 3 ev (Some b) s1 c k) as (s' & -> & Hok' & _); try done.
    + rewrite Hs1. by apply in_scheduler.
    + apply (ctl_grow 3 (m_events c) ev); [apply (io_ctx _ (proj1 Hok1) _ _ Hc)|done|exact E].
  - eapply same_io_ok; [|exact Hok1]. by eapply refused_same.
Qed.
Lemma sim_read_ok : io_ok sim_read.
Proof. by apply sim_add; [apply sim_ready_ok|left|..]. Qed.
Lemma sim_both_ok : io_ok sim_both.
Proof. by apply sim_add; [apply sim_read_ok|right|..]. Qed.

Lemma add_event_registers_witness :
  ∃ r s', add_event 1 40 READ (Some 7%nat) (sim_ready []) = Ok (r, s') ∧ r = 0 ∧
    waiting s' 40 READ = Some (IsCb (Some 7%nat)).
Proof.
  destruct (add_event_registers 1 40 READ (Some 7%nat) (sim_ready []))
    as (r & s' & H & _ & _ & Hr & _).
  - apply sim_ready_ok.
  - unfold desc. lia.
  - by left.
  - vm_compute. discriminate.
  - by apply in_scheduler.
  - by intros ?.
  - done.
  - exists r, s'. split; [exact H|]. destruct Hr as [[-> Hw]|[-> _]].
    + split; [done|]. rewrite (Hw 40 READ) by (lia || by left). by rewrite decide_True.
    + exfalso. vm_compute in H. discriminate H.
Defined.

Lemma add_event_twice_aborts_witness :
  add_event 1 3 READ (Some 9%nat) sim_read = Fault (AssertFailed "!(fd_ctx->m_events & event)").
Proof. apply (add_event_twice_aborts 1 3 READ (Some 9%nat) sim_read sim_read_ok desc_3); [by left|done]. Defined.

Lemma del_event_forgets_witness :
  ∃ s', del_event 3 READ sim_both = Ok (true, s') ∧ waiting s' 3 READ = None ∧
    waiting s' 3 WRITE = Some (IsCb (Some 8%nat)) ∧ Scheduler.m_fibers (p_sched s') = [].
Proof.
  destruct (del_event_forgets 3 READ sim_both sim_both_ok desc_3 ltac:(by left))
    as (b & s' & H & _ & _ & Hs & _ & _ & Hw).
  assert (b = true) as ->.
  { destruct b; [done|]. exfalso. vm_compute in H. discriminate H. }
  exists s'. split; [exact H|]. split; [|split].
  - rewrite (Hw 3 READ) by (lia || by left). by rewrite decide_True.
  - rewrite (Hw 3 WRITE) by (lia || by right). by rewrite decide_False by (intros [_ Hne]; vm_compute in Hne; discriminate Hne).
  - by rewrite Hs.
Defined.

Lemma cancel_event_wakes_waiter_witness :
  ∃ s', cancel_event 3 WRITE sim_both = Ok (true, s') ∧ waiting s' 3 WRITE = None ∧
    Scheduler.m_fibers (p_sched s') = [MkTask (IsCb (Some 8%nat)) (-1)].
Proof.
  destruct (cancel_event_wakes_waiter 3 WRITE sim_both sim_both_ok desc_3 ltac:(by right))
    as (b & s' & H & _ & _ & _ & _ & _ & Hw & Hq).
  assert (b = true) as ->.
  { destruct b; [done|]. exfalso. vm_compute in H. discriminate H. }
  exists s'. split; [exact H|]. split.
  - rewrite (Hw 3 WRITE) by (lia || by right). by rewrite decide_True.
  - destruct Hq as (w & Ew & ->). vm_compute in Ew. by injection Ew as <-.
Defined.

Lemma cancel_all_wakes_waiters_witness :
  ∃ s', cancel_all 3 sim_both = Ok (true, s') ∧ waiting s' 3 READ = None ∧
    Scheduler.m_fibers (p_sched s') = [MkTask (IsCb (Some 7%nat)) (-1); MkTask (IsCb (Some 8%nat)) (-1)].
Proof.
  destruct (cancel_all_wakes_waiters 3 sim_both sim_both_ok desc_3) as (b & s' & H & _ & _ & _ & Hq).
  assert (b = true) as ->.
  { destruct b; [done|]. exfalso. vm_compute in H. discriminate H. }
  exists s'. split; [exact H|]. destruct Hq as (c & Hc & _ & Hq & Hw).
  vm_compute in Hc. injection Hc as <-. split.
  - rewrite (Hw 3 READ) by (lia || by left). by vm_compute.
  - rewrite Hq. by vm_compute.
Defined.

Lemma idle_event_wakes_waiters_witness :
  ∃ s', deal_event 0 (MkEvent (Context (Z.of_nat 3)) (Z.lor EPOLLIN EPOLLHUP)) sim_both = Ok (tt, s') ∧
    Scheduler.m_fibers (p_sched s') = [MkTask (IsCb (Some 7%nat)) (-1); MkTask (IsCb (Some 8%nat)) (-1)].
Proof.
  destruct (ctxs sim_both !! 3%nat) as [c|] eqn:Hc; [|vm_compute in Hc; discriminate Hc].
  destruct (idle_event_wakes_waiters 0 3 (Z.lor EPOLLIN EPOLLHUP) c sim_both sim_both_ok Hc)
    as (s' & H & _ & _ & Hor & _).
  { intros ev _. vm_compute in Hc. injection Hc as <-. done. }
  exists s'. split; [exact H|].
  assert (Hd : drops 3 (real_events (Z.lor EPOLLIN EPOLLHUP) (m_events c)) c sim_both = true)
    by (vm_compute in Hc; injection Hc as <-; by vm_compute).
  rewrite Hd in Hor. destruct Hor as [Hq _]. rewrite Hq. vm_compute in Hc. injection Hc as <-. by vm_compute.
Defined.

Lemma stale_event_aborts_witness :
  deal_event 0 (MkEvent (Context (Z.of_nat 3)) (Z.lor EPOLLIN EPOLLOUT)) sim_read =
    Fault (AssertFailed "m_events & event").
Proof.
  destruct (ctxs sim_read !! 3%nat) as [c|] eqn:Hc; [|vm_compute in Hc; discriminate Hc].
  destruct (epoll_ctl EPOLL_CTL_DEL 3 EPOLLET (kernel sim_read)) as [rt k] eqn:E.
  assert (rt = 0) as -> by (vm_compute in E; by injection E as <- _).
  apply (stale_event_aborts 0 3 (Z.lor EPOLLIN EPOLLOUT) c sim_read WRITE READ k sim_read_ok Hc);
    [by right|by left|..|exact E]; vm_compute in Hc; by injection Hc as <-.
Defined.

Lemma idle_stops_or_waits_witness :
  ∃ stop timeout, stopping_timeout sim_read = Ok ((stop, timeout), with_kernel (kernel sim_read) sim_read) ∧
    i32 (wait_timeout timeout) = 5000.
Proof.
  destruct (idle_stops_or_waits sim_read 1000 (kernel sim_read)) as (stop & timeout & H & _ & _ & Hw & _).
  - reflexivity.
  - lia.
  - intros l Hl. vm_compute in Hl. by apply not_elem_of_nil in Hl.
  - exists stop, timeout. split; [exact H|exact Hw].
Defined.
End IOManagerSim.
