(* ===== verification/Hooks.v ===== *)
(** * System call hooks (hook.h, hook.cc)

    A hooked function runs on a fiber and may give up control in the middle, with
    [Yield_to_Hold]: it is split there.  A [hook_step] says whether the function has
    returned or has yielded and with which timer; [..._resumed] is the rest of the
    function, run when the fiber is switched in again.

    The functions found with [dlsym] ([read_f], [connect_f], ...) are arguments: a
    value of type [libc] is such a call with its arguments, returning the result and
    [errno]. *)
From stdpp Require Import base gmap list strings.
From Stdlib Require Import ZArith Lia.
From S2P Require Import Prelude StdSet Timers Fibers Schedulers FdManagers IOManagers.
Open Scope Z_scope.

Module Hook.
Import Fiber Scheduler IOManager.

Definition EINTR : Z := 4.
Definition EBADF : Z := 9.
Definition EAGAIN : Z := 11.
Definition ETIMEDOUT : Z := 110.
Definition EINPROGRESS : Z := 115.
Definition SOL_SOCKET : Z := 1.
Definition F_GETFL : Z := 3.
Definition F_SETFL : Z := 4.
Definition FIONBIO : Z := 21537.

(** A call of the C library, and what it returns; [errno] is read only where the code
    reads it, after a call that returned -1 or an option that was asked for. *)
Record result := MkResult { rv : Z; errno : Z }.
Definition libc (K : Type) : Type := K → result * K.

(** What a hooked function returns: a value with [errno], where [None] stands for the
    [errno] of a failed [epoll_ctl]. *)
Record returned := MkReturned { value : Z; error : option Z }.
Definition of_libc (r : result) : returned := MkReturned (rv r) (Some (errno r)).

Inductive hook_step (A : Type) :=
  | Done (r : A)
  | Yielded (timer : option Z).
Arguments Done {A} r.
Arguments Yielded {A} timer.

(** The lambdas the hooks make: [[fiber, iom]{ iom->schedule(fiber); }] and the
    function of a timeout, with its [winfo], descriptor and event. *)
Class HookBodies (B : Type) := {
  wake_body : Z → B;
  timeout_body : Z → Z → Z → B;
}.

Section operations.
Context {B K : Type} `{!Kernel K} `{!Bodies B} `{!HookBodies B}.
Local Abbreviation P := (Process B K).

Definition on_fds {A} (m : M FdManager.FdManger A) : M P A := λ s,
  match m (p_fds s) with
  | Ok (a, d) => Ok (a, with_fds d s)
  | Fault e => Fault e
  end.

(** [is_hook_enable], [set_hook_enable] on thread [t]. *)
Definition is_hook_enable (t : Z) : M P bool := get_sched (λ c, bool_decide (t ∈ t_hook_enable c)).
Definition set_hook_enable (t : Z) (flag : bool) : M P unit :=
  modify_sched (λ c, with_locals (t_scheduler c)
    (if flag then {[t]} ∪ t_hook_enable c else t_hook_enable c ∖ {[t]}) c).

(** [IOManager::GetThis()], dereferenced. *)
Definition this_iom (t : Z) : M P unit :=
  let* here := GetThis_io t in deref (if here then Some tt else None) "IOManager::GetThis()".

(** [new timer_info], and what its handles do. *)
Definition new_tinfo : M P Z :=
  let* a := sys allocate_address in
  modify (λ s, MkProcess (p_fibers s) (p_sched s) (p_timers s) (p_iom s) (p_fds s)
                 (<[a := 0]> (p_tinfos s)) (kernel s)) ;;;
  ret a.
Definition set_cancelled (w e : Z) : M P unit :=
  modify (λ s, MkProcess (p_fibers s) (p_sched s) (p_timers s) (p_iom s) (p_fds s)
                 (<[w := e]> (p_tinfos s)) (kernel s)).
(** The last [shared_ptr] to it goes. *)
Definition drop_tinfo (w : Z) : M P unit :=
  modify (λ s, MkProcess (p_fibers s) (p_sched s) (p_timers s) (p_iom s) (p_fds s)
                 (base.delete w (p_tinfos s)) (kernel s)).
Definition cancelled_of (w : Z) : M P Z :=
  let* h := gets p_tinfos in deref (h !! w) "timer_info".

(** The function of a timeout, called by [Cond_cb] when the condition is alive. *)
Definition timeout_fires (winfo fd event : Z) : M P unit :=
  let* h := gets p_tinfos in
  match h !! winfo with
  | None => ret tt
  | Some cancelled =>
      if negb (cancelled =? 0) then ret tt
      else set_cancelled winfo ETIMEDOUT ;;; cancel_event fd event ;;; ret tt
  end.

(** The function of a sleeping fiber's timer: [[fiber, iom]{ iom->schedule(fiber); }]. *)
Definition wake_fires (fiber : Z) : M P unit := schedule (IsFiber (Some fiber)) (-1).

(** A new timer of the manager. *)
Definition make_timer (ms : Z) (f : Timer.closure B) : M P Z :=
  let* a := sys allocate_address in
  let* now := sys clock_ms in
  Timer.add_timer a now ms (Some f) false.
Definition make_condition_timer (ms winfo : Z) (f : B) : M P Z :=
  let* a := sys allocate_address in
  let* now := sys clock_ms in
  Timer.add_condition_timer a now ms (Some f) winfo false.
Definition cancel_if (timer : option Z) : M P unit :=
  match timer with Some l => Timer.cancel l ;;; ret tt | None => ret tt end.

(** ** [do_io] *)

(** The call, repeated while a signal interrupts it. *)
Fixpoint call_again (fuel : nat) (fun_ : libc K) : M P result :=
  match fuel with
  | O => fail StillRunning
  | Datatypes.S fuel' =>
      let* n := sys fun_ in
      if (rv n =? -1) && (errno n =? EINTR) then call_again fuel' fun_ else ret n
  end.

(** The loop of [do_io] up to the place where it yields. *)
Definition do_io_try (fuel : nat) (t fd : Z) (fun_ : libc K) (tinfo fd_timeout : Z) : M P (hook_step returned) :=
  let* n := call_again fuel fun_ in
  if (rv n =? -1) && (errno n =? EAGAIN) then
    this_iom t ;;;
    let* timer :=
      if negb (fd_timeout =? -1) then
        let* l := make_condition_timer (u64 fd_timeout) tinfo (timeout_body tinfo fd 1) in ret (Some l)
      else ret None in
    let* rt := add_event t fd 1 None in
    if negb (rt =? 0) then
      cancel_if timer ;;; drop_tinfo tinfo ;;; ret (Done (MkReturned (-1) None))
    else ret (Yielded timer)
  else drop_tinfo tinfo ;;; ret (Done (of_libc n)).

(** [do_io] on thread [t]; the first call without a hook has its result dropped. *)
Definition do_io (fuel : nat) (t fd : Z) (fun_ : libc K) (timeout_so : Z) : M P (hook_step returned * Z) :=
  let* hooked := is_hook_enable t in
  when (negb hooked) (sys fun_ ;;; ret tt) ;;;
  let* ctx := on_fds (FdManager.getFdCtx fd false) in
  match ctx with
  | None => let* n := sys fun_ in ret (Done (of_libc n), 0)
  | Some a =>
      let* c := on_fds (FdManager.context_at a) in
      if FdManager.isClosed c then ret (Done (MkReturned (-1) (Some EBADF)), 0)
      else if negb (FdManager.isSocket c) || FdManager.get_user_nonblock c then
        let* n := sys fun_ in ret (Done (of_libc n), 0)
      else
        let* tinfo := new_tinfo in
        let* r := do_io_try fuel t fd fun_ tinfo (i64 (FdManager.get_timeout timeout_so c)) in
        ret (r, tinfo)
  end.

(** After [Yield_to_Hold] in [do_io]. *)
Definition do_io_resumed (fuel : nat) (t fd : Z) (fun_ : libc K) (tinfo fd_timeout : Z)
    (timer : option Z) : M P (hook_step returned) :=
  cancel_if timer ;;;
  let* cancelled := cancelled_of tinfo in
  if negb (cancelled =? 0) then
    drop_tinfo tinfo ;;; ret (Done (MkReturned (-1) (Some cancelled)))
  else do_io_try fuel t fd fun_ tinfo fd_timeout.

(** [read], [readv], [recv], [recvfrom], [recvmsg]; [write], [writev], [send],
    [sendto], [sendmsg]. *)
Definition read_like (fuel : nat) (t fd : Z) (fun_ : libc K) : M P (hook_step returned * Z) :=
  do_io fuel t fd fun_ FdManager.SO_RCVTIMEO.
Definition write_like (fuel : nat) (t fd : Z) (fun_ : libc K) : M P (hook_step returned * Z) :=
  do_io fuel t fd fun_ FdManager.SO_SNDTIMEO.

(** ** Sleeping *)
Definition sleep_for (t ms : Z) (sleep_f : libc K) : M P (hook_step returned) :=
  let* hooked := is_hook_enable t in
  if negb hooked then let* r := sys sleep_f in ret (Done (of_libc r))
  else
    let* fiber := on_fibers (GetThis t) in
    this_iom t ;;;
    let* l := make_timer ms (Timer.Fun (wake_body fiber)) in
    ret (Yielded (Some l)).
(** [seconds * 1000] is computed in [unsigned int]. *)
Definition sleep (t seconds : Z) : libc K → M P (hook_step returned) := sleep_for t (u32 (seconds * 1000)).
Definition usleep (t useconds : Z) : libc K → M P (hook_step returned) := sleep_for t (useconds / 1000).
(** [req->tv_sec * 1000 + req->tv_nsec / 1e6] in [double], then truncated: below [2 ^ 33]
    milliseconds the error of the sum is under [10 ^ -6] and the result is this one. *)
Definition nanosleep (t tv_sec tv_nsec : Z) : libc K → M P (hook_step returned) :=
  sleep_for t (tv_sec * 1000 + tv_nsec / 1000000).
(** After [Yield_to_Hold]. *)
Definition sleep_resumed : M P (hook_step returned) := ret (Done (MkReturned 0 (Some 0))).

(** ** Descriptors *)

Definition socket (t : Z) (socket_f : libc K) : M P returned :=
  let* hooked := is_hook_enable t in
  let* fd := sys socket_f in
  if negb hooked || (rv fd =? -1) then ret (of_libc fd)
  else on_fds (FdManager.getFdCtx (rv fd) true) ;;; ret (of_libc fd).

(** [accept] once its [do_io] has returned [r]. *)
Definition accept_finish (r : returned) : M P returned :=
  when (value r >=? 0) (on_fds (FdManager.getFdCtx (value r) true) ;;; ret tt) ;;; ret r.
Definition accept (fuel : nat) (t sockfd : Z) (accept_f : libc K) : M P (hook_step returned * Z) :=
  let* r := do_io fuel t sockfd accept_f FdManager.SO_RCVTIMEO in
  match fst r with
  | Done n => let* n := accept_finish n in ret (Done n, snd r)
  | Yielded _ => ret r
  end.

Definition close (t fd : Z) (close_f : libc K) : M P returned :=
  let* hooked := is_hook_enable t in
  if negb hooked then let* r := sys close_f in ret (of_libc r)
  else
    let* ctx := on_fds (FdManager.getFdCtx fd false) in
    match ctx with
    | Some _ => this_iom t ;;; cancel_all fd ;;; on_fds (FdManager.delFdCtx fd)
    | None => ret tt
    end ;;;
    let* r := sys close_f in ret (of_libc r).

(** ** [connect] *)

(** The [getsockopt(fd, SOL_SOCKET, SO_ERROR)] at its end; [so_error] returns the
    result of the call and the value it stores. *)
Definition connect_finish (so_error : libc K) : M P returned :=
  let* r := sys so_error in
  if rv r =? -1 then ret (MkReturned (-1) None)
  else if errno r =? 0 then ret (MkReturned 0 (Some 0))
  else ret (MkReturned (-1) (Some (errno r))).

Definition connect_with_timeout (t fd : Z) (connect_f so_error : libc K) (timeout_ms : Z)
    : M P (hook_step returned * Z) :=
  let* hooked := is_hook_enable t in
  if negb hooked then let* r := sys connect_f in ret (Done (of_libc r), 0)
  else
    let* ctx := on_fds (FdManager.getFdCtx fd false) in
    match ctx with
    | None => ret (Done (MkReturned (-1) (Some EBADF)), 0)
    | Some a =>
        let* c := on_fds (FdManager.context_at a) in
        if FdManager.isClosed c then ret (Done (MkReturned (-1) (Some EBADF)), 0)
        else if negb (FdManager.isSocket c) || FdManager.get_user_nonblock c then
          let* r := sys connect_f in ret (Done (of_libc r), 0)
        else
          let* n := sys connect_f in
          if rv n =? 0 then ret (Done (MkReturned 0 (Some (errno n))), 0)
          else if negb (rv n =? -1) || negb (errno n =? EINPROGRESS) then ret (Done (of_libc n), 0)
          else
            let* tinfo := new_tinfo in
            this_iom t ;;;
            let* timer :=
              if negb (timeout_ms =? UINT64_MAX) then
                let* l := make_condition_timer timeout_ms tinfo (timeout_body tinfo fd WRITE) in ret (Some l)
              else ret None in
            let* rt := add_event t fd WRITE None in
            if rt =? 0 then ret (Yielded timer, tinfo)
            else
              cancel_if timer ;;;
              let* r := connect_finish so_error in
              drop_tinfo tinfo ;;;
              ret (Done r, tinfo)
    end.

Definition connect_resumed (tinfo : Z) (timer : option Z) (so_error : libc K) : M P returned :=
  cancel_if timer ;;;
  let* cancelled := cancelled_of tinfo in
  if negb (cancelled =? 0) then
    drop_tinfo tinfo ;;; ret (MkReturned (-1) (Some cancelled))
  else
    let* r := connect_finish so_error in
    drop_tinfo tinfo ;;; ret r.

(** [connect]; [s_connect_timeout] is the configured value. *)
Definition connect (t fd s_connect_timeout : Z) (connect_f so_error : libc K) : M P (hook_step returned * Z) :=
  connect_with_timeout t fd connect_f so_error (u64 s_connect_timeout).

(** ** Flags and options *)

(** The context of [fd] if it is an open socket. *)
Definition socket_context (fd : Z) : M P (option (Z * FdManager.FdCtx)) :=
  let* ctx := on_fds (FdManager.getFdCtx fd false) in
  match ctx with
  | None => ret None
  | Some a =>
      let* c := on_fds (FdManager.context_at a) in
      ret (if FdManager.isClosed c || negb (FdManager.isSocket c) then None else Some (a, c))
  end.

(** The commands that pass their third argument on. *)
Definition fcntl_with_argument (cmd : Z) : bool :=
  existsb (Z.eqb cmd) [0; 1030; 2; 8; 10; 1024; 1026; 1031; 6; 7; 5; 16; 15].

(** [fcntl]; [fcntl_f] takes the command and its argument, if one is passed on. *)
Definition fcntl (fd cmd arg : Z) (fcntl_f : Z → option Z → libc K) : M P returned :=
  if cmd =? F_SETFL then
    let* ctx := socket_context fd in
    match ctx with
    | None => let* r := sys (fcntl_f cmd (Some arg)) in ret (of_libc r)
    | Some (a, c) =>
        on_fds (FdManager.update_context
          (FdManager.set_user_nonblock (negb (Z.land arg FdManager.O_NONBLOCK =? 0))) a) ;;;
        let arg := if FdManager.get_sys_nonblock c then Z.lor arg FdManager.O_NONBLOCK
                   else Z.land arg (Z.lnot FdManager.O_NONBLOCK) in
        let* r := sys (fcntl_f cmd (Some arg)) in ret (of_libc r)
    end
  else if cmd =? F_GETFL then
    let* r := sys (fcntl_f cmd None) in
    let* ctx := socket_context fd in
    match ctx with
    | None => ret (of_libc r)
    | Some (_, c) =>
        ret (MkReturned (if FdManager.get_user_nonblock c then Z.lor (rv r) FdManager.O_NONBLOCK
                         else Z.land (rv r) (Z.lnot FdManager.O_NONBLOCK)) (Some (errno r)))
    end
  else
    let* r := sys (fcntl_f cmd (if fcntl_with_argument cmd then Some arg else None)) in
    ret (of_libc r).

(** [ioctl]; [arg] is the integer its argument points to. *)
Definition ioctl (fd request arg : Z) (ioctl_f : libc K) : M P returned :=
  (if request =? FIONBIO then
     let* ctx := socket_context fd in
     match ctx with
     | None => ret tt
     | Some (a, _) => on_fds (FdManager.update_context (FdManager.set_user_nonblock (negb (arg =? 0))) a)
     end
   else ret tt) ;;;
  let* r := sys ioctl_f in ret (of_libc r).

Definition getsockopt (getsockopt_f : libc K) : M P returned :=
  let* r := sys getsockopt_f in ret (of_libc r).

(** [setsockopt]; [tv_sec] and [tv_usec] are what its argument holds for a timeout. *)
Definition setsockopt (t sockfd level optname tv_sec tv_usec : Z) (setsockopt_f : libc K) : M P returned :=
  let* hooked := is_hook_enable t in
  (if hooked && (level =? SOL_SOCKET)
      && ((optname =? FdManager.SO_RCVTIMEO) || (optname =? FdManager.SO_SNDTIMEO)) then
     let* ctx := on_fds (FdManager.getFdCtx sockfd false) in
     match ctx with
     | Some a => on_fds (FdManager.update_context
                   (FdManager.set_timeout optname (u64 (tv_sec * 1000 + Z.quot tv_usec 1000))) a)
     | None => ret tt
     end
   else ret tt) ;;;
  let* r := sys setsockopt_f in ret (of_libc r).
End operations.
End Hook.
