(* ===== verification/HookFacts.v ===== *)
(** * Theorems about the system call hooks

    Which calls a hooked function makes, when it waits and what it registers, and
    what a timeout does to it. *)
From stdpp Require Import base gmap list strings.
From Stdlib Require Import ZArith Lia.
From S2P Require Import Prelude StdSet Timers TimerFacts Fibers FiberFacts Schedulers SchedulerFacts.
From S2P Require Import FdManagers IOManagers IOManagerFacts IOManagerSim Hooks.
Open Scope Z_scope.

Module HookFacts.
Import Fiber FiberFacts Scheduler SchedulerFacts IOManager IOManagerFacts Hook.

(** ** No context is ever a socket *)

(** What the program does to the descriptor table: looking up, deleting, and the
    setters the hooks call.  [FdCtx::init] is called nowhere. *)
Inductive fd_step : FdManager.FdManger → FdManager.FdManger → Prop :=
  | step_get fd auto d r d' :
      FdManager.is_fd fd → FdManager.getFdCtx fd auto d = Ok (r, d') → fd_step d d'
  | step_del fd d u d' :
      FdManager.is_fd fd → FdManager.delFdCtx fd d = Ok (u, d') → fd_step d d'
  | step_nonblock f a d u d' :
      FdManager.update_context (FdManager.set_user_nonblock f) a d = Ok (u, d') → fd_step d d'
  | step_timeout type ms a d u d' :
      FdManager.update_context (FdManager.set_timeout type ms) a d = Ok (u, d') → fd_step d d'.

Definition plain_context (c : FdManager.FdCtx) : Prop :=
  FdManager.isSocket c = false ∧ FdManager.isClosed c = false.
Record table_ok (d : FdManager.FdManger) : Prop := {
  table_plain : ∀ a c, FdManager.contexts d !! a = Some c → plain_context c;
  table_live : ∀ fd a, FdManager.is_fd fd → FdManager.lookup_fd d fd = Some a →
    is_Some (FdManager.contexts d !! a);
}.

Lemma update_context_table g a d :
  (∀ c, plain_context c → plain_context (g c)) → table_ok d →
  table_ok (FdManager.MkFdManger (alter g a (FdManager.contexts d)) (FdManager.next_context d) (FdManager.m_datas d)).
Proof.
  intros Hg [Hp Hl]. split; simpl.
  - intros b c. destruct (decide (a = b)) as [->|Hne].
    + rewrite lookup_alter_eq. intros (c' & Hc & ->)%fmap_Some. eauto.
    + rewrite lookup_alter_ne by done. apply Hp.
  - intros fd b Hfd H. apply lookup_alter_is_Some. by eapply Hl.
Qed.

Lemma fd_step_ok d d' : fd_step d d' → table_ok d → table_ok d'.
Proof.
  intros Hstep Hok. destruct Hstep as [fd auto d r d' Hfd H|fd d u d' Hfd H|f a d u d' H|type ms a d u d' H].
  - destruct (FdManager.fd_map_ok fd auto d Hfd) as [(r' & d2 & H2 & Hr & Hl & Hsame & Hnew) _].
    rewrite H in H2. injection H2 as <- <-. destruct Hok as [Hp Hlive].
    destruct (FdManager.lookup_fd d fd) as [a|] eqn:E; [|destruct auto].
    + rewrite Hsame by by left. by split.
    + destruct (Hnew eq_refl eq_refl) as [Hc _]. split.
      * intros a c. rewrite Hc. destruct (decide (a = FdManager.next_context d)) as [->|Hne].
        -- rewrite lookup_insert_eq. by intros [= <-].
        -- rewrite lookup_insert_ne by done. apply Hp.
      * intros fd' a Hfd'. rewrite (Hl fd' Hfd'), Hc. destruct (decide (fd' = fd)) as [->|Hne].
        -- subst r. intros [= <-]. by rewrite lookup_insert_eq.
        -- intros Ha. apply lookup_insert_is_Some'. right. by eapply Hlive.
    + rewrite Hsame by by right. by split.
  - destruct (FdManager.fd_map_ok fd false d Hfd) as [_ (d2 & H2 & Hl & Hc)].
    rewrite H in H2. injection H2 as _ <-. destruct Hok as [Hp Hlive]. split.
    + intros a c. rewrite Hc. apply Hp.
    + intros fd' a Hfd'. rewrite (Hl fd' Hfd'), Hc. destruct (decide (fd' = fd)); [done|]. by apply Hlive.
  - apply modify_ok in H as ->. by apply update_context_table.
  - apply modify_ok in H as ->. apply update_context_table; [|done].
    intros c [? ?]. unfold plain_context, FdManager.set_timeout. by destruct (type =? FdManager.SO_RCVTIMEO).
Qed.

Lemma no_contexts_ok : table_ok FdManager.no_contexts.
Proof.
  split; [done|]. intros fd a Hfd H. rewrite FdManager.lookup_fd_nat in H by done. discriminate H.
Qed.
Lemma reachable_ok d : rtc fd_step FdManager.no_contexts d → table_ok d.
Proof.
  intros H. remember FdManager.no_contexts as d0 eqn:E.
  assert (H0 : table_ok d0) by (subst; apply no_contexts_ok). clear E.
  induction H as [|d0 d1 d2 H01 _ IH]; [done|]. apply IH. by eapply fd_step_ok.
Qed.
(** ** [do_io] *)
Section io.
Context {B K : Type} `{!Kernel K} `{!KernelLaws K} `{!Bodies B} `{!HookBodies B}.
Local Abbreviation P := (Process B K).
Implicit Types (s : P).

Definition hooked (t : Z) s : Prop := t ∈ t_hook_enable (p_sched s).

#[export] Instance hooked_dec t s : Decision (hooked t s).
Proof. unfold hooked. apply _. Defined.
Lemma hook_enabled t s : is_hook_enable t s = Ok (bool_decide (hooked t s), s).
Proof. done. Qed.

Lemma on_fds_ok {A} (m : M FdManager.FdManger A) s a d :
  m (p_fds s) = Ok (a, d) → on_fds m s = Ok (a, with_fds d s).
Proof. intros H. unfold on_fds. by rewrite H. Qed.
Lemma with_fds_same s : with_fds (p_fds s) s = s.
Proof. by destruct s. Qed.

(** Looking up a descriptor without creating a context changes nothing. *)
Lemma lookup_ok fd s :
  FdManager.is_fd fd →
  on_fds (FdManager.getFdCtx fd false) s = Ok (FdManager.lookup_fd (p_fds s) fd, s).
Proof.
  intros Hfd. destruct (FdManager.fd_map_ok fd false (p_fds s) Hfd) as [(r & d & H & -> & _ & Hsame & _) _].
  erewrite on_fds_ok by exact H. rewrite Hsame, with_fds_same by by right.
  by destruct (FdManager.lookup_fd (p_fds s) fd).
Qed.
Lemma fd_context_ok a c s :
  FdManager.contexts (p_fds s) !! a = Some c → on_fds (FdManager.context_at a) s = Ok (c, s).
Proof.
  intros Hc. rewrite <- (with_fds_same s) at 2. apply on_fds_ok.
  unfold FdManager.context_at, bind, gets, deref. by rewrite Hc.
Qed.

(** C39: with the hooks on, [read], [write] and the others still block.  Whatever the
    program has done through [socket], [accept], [close], [fcntl], [ioctl] and
    [setsockopt], no context of the descriptor table is marked as a socket (nothing
    calls [FdCtx::init]), so [do_io] makes the original call, once, and returns what
    it returns: it never waits on epoll, sets no timer and gives up no control. *)
Theorem hooked_io_never_waits fuel t fd (f : libc K) so s :
  rtc fd_step FdManager.no_contexts (p_fds s) → FdManager.is_fd fd → hooked t s →
  do_io fuel t fd f so s =
    Ok ((Done (of_libc (fst (f (kernel s)))), 0), with_kernel (snd (f (kernel s))) s).
Proof.
  intros Hreach Hfd Hhook. pose proof (reachable_ok _ Hreach) as [Hp Hl].
  assert (Hsys : sys f s = Ok (fst (f (kernel s)), with_kernel (snd (f (kernel s))) s))
    by (unfold sys; by destruct (f (kernel s))).
  unfold do_io. rewrite (bind_step _ _ _ _ _ (hook_enabled t s)), bool_decide_true by done.
  simpl. step_ok. rewrite (bind_step _ _ _ _ _ (lookup_ok fd s Hfd)).
  destruct (FdManager.lookup_fd (p_fds s) fd) as [a|] eqn:E.
  - destruct (Hl fd a Hfd E) as [c Hc]. destruct (Hp a c Hc) as [Hsock Hclosed].
    rewrite (bind_step _ _ _ _ _ (fd_context_ok a c s Hc)), Hclosed, Hsock. simpl.
    by rewrite (bind_step _ _ _ _ _ Hsys).
  - by rewrite (bind_step _ _ _ _ _ Hsys).
Qed.

(** On a thread without the hooks, for a descriptor without a context (and none has
    one before a hooked [socket]), the original call is made twice: what the first
    call read or wrote is lost to the caller, who gets the result of the second. *)
Theorem unhooked_io_calls_twice fuel t fd (f : libc K) so s r1 k1 r2 k2 :
  ¬ hooked t s → FdManager.is_fd fd → FdManager.lookup_fd (p_fds s) fd = None →
  f (kernel s) = (r1, k1) → f k1 = (r2, k2) →
  do_io fuel t fd f so s = Ok ((Done (of_libc r2), 0), with_kernel k2 s).
Proof.
  intros Hhook Hfd Hnone H1 H2.
  unfold do_io. rewrite (bind_step _ _ _ _ _ (hook_enabled t s)), bool_decide_false by done.
  simpl. erewrite bind_step by (erewrite bind_step by (by apply sys_ok); reflexivity).
  rewrite (bind_step _ _ _ _ _ (lookup_ok fd (with_kernel k1 s) Hfd)). simpl. rewrite Hnone.
  erewrite bind_step by (by apply sys_ok). done.
Qed.

(** *** Waiting *)

#[export] Instance io_timer_laws : Timer.TimerHostLaws B P.
Proof.
  split; [done|]. intros s u s' H. simpl in H.
  destruct (tickle_ok s) as (s2 & H2 & k & -> & _). rewrite H2 in H. by injection H as _ <-.
Qed.

(** A new timer changes the timers and the kernel only. *)
Lemma make_timer_ok ms f s l k :
  allocate_address (kernel s) = (l, k) → TimerFacts.wf (p_timers s) → Timer.store (p_timers s) !! l = None →
  ∃ now T k', make_timer ms f s = Ok (l, with_timers T (with_kernel k' s)) ∧
    fst (clock_ms k) = now ∧ interest k' = interest (kernel s) ∧ TimerFacts.wf T ∧
    Timer.store T = <[l := Timer.MkTimer false ms (u64 (now + ms)) (Some f)]> (Timer.store (p_timers s)).
Proof.
  intros Ha Hwf Hfresh. destruct (clock_ms k) as [now k1] eqn:Hc. exists now.
  unfold make_timer. erewrite bind_step by (by apply sys_ok). erewrite bind_step by (by apply sys_ok).
  assert (Hi : interest k1 = interest (kernel s)).
  { rewrite (clock_interest _ _ _ Hc). by eapply address_interest. }
  assert (Hadd : ∃ T k', Timer.add_timer l now ms (Some f) false (with_kernel k1 (with_kernel k s)) =
            Ok (l, with_timers T (with_kernel k' s)) ∧ interest k' = interest (kernel s)).
  { unfold Timer.add_timer, Timer.add_timer_locked, Timer.modify_tm, Timer.get_tm. step_in. step_in.
    destruct (StdSet.insert _ _ _) as [ts it]. step_in. destruct (Nat.eqb it 0); unfold when.
    - match goal with |- context [bind Timer.on_timer_insert_at_front _ ?s2] =>
        destruct (tickle_ok s2) as (s3 & H3 & k3 & -> & Hk3) end.
      rewrite (bind_step _ _ _ _ _ H3). eexists _, k3. split; [done|]. by rewrite Hk3.
    - step_in. eexists _, k1. by split. }
  destruct Hadd as (T & k' & Hadd & Hk'). exists T, k'. split; [done|]. split; [done|]. split; [done|].
  pose proof (TimerFacts.add_refines (S:=P) l now ms (Some f) false (with_kernel k1 (with_kernel k s)) l _
                Hwf Hfresh ltac:(done) Hadd) as (_ & ? & ?). done.
Qed.

(** Operations on the timers leave the events alone. *)
Lemma timers_io_ok s s' T k :
  s' = with_timers T (with_kernel k s) → interest k = interest (kernel s) → io_ok s → io_ok s'.
Proof. intros -> Hk [[? ?] Hm]. split; [by split|]. intros d Hd. simpl. rewrite Hk. by apply Hm. Qed.

(** The invariant speaks of the contexts and the interest list only. *)
Lemma io_ok_events s s' :
  p_iom s' = p_iom s → interest (kernel s') = interest (kernel s) → io_ok s → io_ok s'.
Proof.
  intros Hi Hk [[Hc Hn] Hm]. split.
  - split; unfold ctxs, pending in *; rewrite Hi; assumption.
  - intros d Hd. rewrite Hk. unfold ctxs. rewrite Hi. by apply Hm.
Qed.

(** The calling fiber, on its thread. *)
Definition current (t : Z) s : option Z := t_fiber (locals_of (p_fibers s) t).

(** What a waiting [do_io] has set up on event [ev]: its fiber waits, and with a timeout
    a timer that will call the timeout function is armed. *)
Definition parked (t fd ev w timeout now : Z) (body : B) s (timer : option Z) s' : Prop :=
  now_waiting s s' fd ev (Some (IsFiber (current t s))) ∧
  match timer with
  | None => timeout = -1 ∧ p_timers s' = p_timers s
  | Some l => timeout ≠ -1 ∧
      Timer.store (p_timers s') !! l =
        Some (Timer.MkTimer false (u64 timeout) (u64 (now + u64 timeout))
                (Some (Timer.BindCond w (Some body)))) ∧
      l ∈ Timer.m_timers (p_timers s')
  end.

Lemma may_wait_frame t s s' : p_fibers s' = p_fibers s → may_wait t None s → may_wait t None s'.
Proof. unfold may_wait. by intros ->. Qed.

(** The timer a waiting call sets. *)
Lemma timer_for_ok timeout w body s l k :
  allocate_address (kernel s) = (l, k) → TimerFacts.wf (p_timers s) → Timer.store (p_timers s) !! l = None →
  ∃ timer T k', (if negb (timeout =? -1) then
       let* l := make_condition_timer (u64 timeout) w body in ret (Some l) else ret None) s =
     Ok (timer, with_timers T (with_kernel k' s)) ∧ interest k' = interest (kernel s) ∧ TimerFacts.wf T ∧
    (∀ x, TimerFacts.armed (Timer.store T) x → timer = Some x ∨ TimerFacts.armed (Timer.store (p_timers s)) x) ∧
    match timer with
    | None => timeout = -1 ∧ T = p_timers s
    | Some l => timeout ≠ -1 ∧ Timer.store T !! l =
        Some (Timer.MkTimer false (u64 timeout) (u64 (fst (clock_ms k) + u64 timeout))
                (Some (Timer.BindCond w (Some body)))) ∧ l ∈ Timer.m_timers T
    end.
Proof.
  intros Ha Hwf Hfresh. destruct (Z.eqb_spec timeout (-1)) as [->|Hne]; simpl.
  - exists None, (p_timers s), (kernel s). split; [by destruct s|]. split; [done|]. split; [done|]. split; [by right|done].
  - destruct (make_timer_ok (u64 timeout) (Timer.BindCond w (Some body)) s l k Ha Hwf Hfresh)
      as (now & T & k' & H & <- & Hk' & HwfT & HT).
    exists (Some l), T, k'. split; [|split; [done|split; [done|]]].
    + unfold make_condition_timer, Timer.add_condition_timer. unfold make_timer in H.
      by rewrite (bind_step _ _ _ _ _ H).
    + split; [|split; [done|]].
      { intros x (y & Hx & Hy). rewrite HT in Hx. destruct (decide (x = l)) as [->|Hxl]; [by left|].
        rewrite lookup_insert_ne in Hx by done. right. by exists y. } rewrite HT, lookup_insert_eq. split; [done|].
      apply (TimerFacts.wf_armed _ HwfT). exists (Timer.MkTimer false (u64 timeout) (u64 (fst (clock_ms k) + u64 timeout))
        (Some (Timer.BindCond w (Some body)))). by rewrite HT, lookup_insert_eq.
Qed.

(** Cancelling a timer touches the timers only, and disarms it. *)
Lemma cancel_timer_ok l s :
  TimerFacts.wf (p_timers s) → is_Some (Timer.store (p_timers s) !! l) →
  ∃ b T, Timer.cancel l s = Ok (b, with_timers T s) ∧ TimerFacts.wf T ∧ TimerFacts.disarmed (Timer.store T) l ∧
    (∀ x, TimerFacts.armed (Timer.store T) x → TimerFacts.armed (Timer.store (p_timers s)) x).
Proof.
  intros Hwf Hl. change (TimerFacts.wf (Timer.manager s)) in Hwf. change (is_Some (Timer.store (Timer.manager s) !! l)) in Hl.
  destruct (TimerFacts.cancel_returns l s Hl) as (b & s' & H).
  destruct (TimerFacts.cancel_disarms (S:=P) l b s s' Hwf H) as [Hw Hd].
  destruct (TimerFacts.cancel_refines (S:=P) l s b s' Hwf H) as [_ E].
  assert (Hs' : s' = with_timers (p_timers s') s).
  { unfold Timer.cancel in H. apply bind_ok in H as (x & s1 & H1 & H).
    apply TimerFacts.timer_at_ok in H1 as [_ ->].
    destruct (Timer.m_cb x); [|apply ret_ok in H as [_ ->]; by destruct s].
    unfold Timer.update_timer, Timer.modify_tm, Timer.get_tm in H.
    do 2 (apply bind_ok in H as (? & ? & H1 & H);
          first [apply modify_ok in H1 as -> | apply gets_ok in H1 as [-> ->]]).
    apply bind_ok in H as (? & ? & H1 & H). apply ret_ok in H as [_ ->].
    destruct (StdSet.find _ _ _); [apply modify_ok in H1 as ->|apply ret_ok in H1 as [_ ->]]; done. }
  exists b, (p_timers s'). rewrite <- Hs'. split; [done|]. split; [done|]. split; [done|].
  intros x Hx. simpl in E. case_decide as Ha; injection E as _ Est; [|by rewrite Est in Hx].
  rewrite Est in Hx. destruct (decide (x = l)) as [->|Hne]; [done|].
  by eapply TimerFacts.armed_alter_ne.
Qed.

(** C25: when the original call would block, a hooked call on a socket parks its fiber:
    the loop of [do_io] registers the fiber as the descriptor's reader (for a write
    too), sets a timer for the descriptor's timeout unless it has none, and yields;
    nobody else's registration changes.  If epoll refuses the descriptor it
    cancels the timer and returns -1. *)
Theorem blocking_io_parks fuel t fd (f : libc K) w timeout s k n l k2 :
  io_ok s → TimerFacts.wf (p_timers s) → desc fd → 2 <= Z.of_nat (length (ctxs s)) →
  t ∈ t_scheduler (p_sched s) → may_wait t None s → waiting s fd READ = None →
  f (kernel s) = (MkResult (-1) EAGAIN, k) → interest k = interest (kernel s) →
  allocate_address k = (l, k2) → Timer.store (p_timers s) !! l = None → fuel = Datatypes.S n →
  ∃ r s', do_io_try fuel t fd f w timeout s = Ok (r, s') ∧ io_ok s' ∧
    ∃ k', interest k' = interest (kernel s) ∧
    ((joins fd READ (with_kernel k' s) ∧ ∃ timer, r = Yielded timer ∧
        parked t fd READ w timeout (fst (clock_ms k2)) (timeout_body w fd 1) s timer s') ∨
     (¬ joins fd READ (with_kernel k' s) ∧ r = Done (MkReturned (-1) None) ∧ now_waiting s s' fd READ None ∧
      (∀ x, TimerFacts.armed (Timer.store (p_timers s')) x → TimerFacts.armed (Timer.store (p_timers s)) x))).
Proof.
  intros Hok Hwf Hd Hlen Ht Hwait Hnone Hf Hk Ha Hfresh ->.
  set (s1 := with_kernel k s).
  assert (Hok1 : io_ok s1) by (eapply same_io_ok; [|exact Hok]; by exists k).
  unfold do_io_try. cbn [call_again]. rewrite bind_assoc. erewrite bind_step by (by apply sys_ok). simpl.
  step_in. simpl. fold s1.
  rewrite (bind_step _ _ s1 tt s1).
  2: { unfold this_iom, GetThis_io, get_sched. step_ok. unfold deref. by rewrite bool_decide_true. }
  destruct (timer_for_ok timeout w (timeout_body w fd 1) s1 l k2 Ha Hwf Hfresh)
    as (timer & T & k' & Htimer & Hk' & HwfT & Harmed & Hspec).
  rewrite (bind_step _ _ _ _ _ Htimer). set (s2 := with_timers T (with_kernel k' s1)).
  assert (Hok2 : io_ok s2) by (by eapply (timers_io_ok s1 s2 T k')).
  destruct (add_event_ok t fd READ None s2) as (r & s' & Hadd & Hok' & (Hs' & Hf' & Hti' & Htn') & Hor & Hjoin); try done.
  { by left. }
  change (add_event t fd 1 None) with (add_event (B:=B) t fd READ None). rewrite (bind_step _ _ _ _ _ Hadd).
  assert (HT' : p_timers s' = T) by exact Hti'.
  destruct Hor as [[-> Hw]|[-> Hw]]; simpl.
  - exists (Yielded timer), s'. split; [done|]. split; [done|]. exists k'. split; [etrans; [exact Hk'|exact Hk]|].
    left. split; [by apply Hjoin|]. exists timer. split; [done|].
    split; [exact Hw|]. destruct timer as [l'|]; by rewrite HT'.
  - assert (Hcancel : ∃ T2, cancel_if timer s' = Ok (tt, with_timers T2 s') ∧
      ∀ x, TimerFacts.armed (Timer.store T2) x → TimerFacts.armed (Timer.store (p_timers s)) x).
    { destruct timer as [l'|]; simpl.
      - destruct Hspec as (_ & Hl' & _).
        destruct (cancel_timer_ok l' s') as (b & T2 & Hc & _ & Hdis & Harm); [by rewrite HT'|rewrite HT'; eauto|].
        rewrite (bind_step _ _ _ _ _ Hc). exists T2. split; [done|]. intros x Hx.
        pose proof (Harm x Hx) as Hx'. rewrite HT' in Hx'.
        destruct (Harmed x Hx') as [[= ->]|]; [|done].
        by destruct (TimerFacts.disarmed_not_armed _ _ Hdis).
      - exists (p_timers s'). split; [by destruct s'|]. destruct Hspec as [_ ->]. by rewrite HT'. }
    destruct Hcancel as (T2 & Hc & Harm). rewrite (bind_step _ _ _ _ _ Hc). step_in.
    eexists _, _. split; [done|].
    split; [|exists k'; split; [etrans; [exact Hk'|exact Hk]|right; split; [intros Hj; by apply Hjoin in Hj|]; split; [done|];
                                split; [exact Hw|exact Harm]]].
    destruct Hok' as [[? ?] Hm']. split; [by split|exact Hm'].
Qed.
(** *** After the wait *)

Definition without_tinfo (w : Z) s : P :=
  MkProcess (p_fibers s) (p_sched s) (p_timers s) (p_iom s) (p_fds s)
    (base.delete w (p_tinfos s)) (kernel s).

(** The timer of a wait, if it has one, exists. *)
Definition timer_exists (timer : option Z) s : Prop :=
  match timer with Some l => is_Some (Timer.store (p_timers s) !! l) | None => True end.
Definition timer_disarmed (timer : option Z) s : Prop :=
  match timer with Some l => TimerFacts.disarmed (Timer.store (p_timers s)) l | None => True end.

Lemma cancel_if_ok timer s :
  TimerFacts.wf (p_timers s) → timer_exists timer s →
  ∃ T, cancel_if timer s = Ok (tt, with_timers T s) ∧ TimerFacts.wf T ∧ timer_disarmed timer (with_timers T s).
Proof.
  intros Hwf Ht. destruct timer as [l|]; simpl.
  - destruct (cancel_timer_ok l s Hwf Ht) as (b & T & H & Hw & Hd & _).
    exists T. by rewrite (bind_step _ _ _ _ _ H).
  - exists (p_timers s). split; [by destruct s|done].
Qed.

(** A timeout whose call is over, or that has already fired, does nothing. *)
Lemma stale_timeout w fd ev s :
  p_tinfos s !! w ≠ Some 0 → timeout_fires w fd ev s = Ok (tt, s).
Proof.
  intros Hw. unfold timeout_fires. step_ok. destruct (p_tinfos s !! w) as [c|]; [|done].
  destruct (Z.eqb_spec c 0) as [->|]; [done|]. by simpl.
Qed.

(** C26: the timeout of a call that still waits marks it as timed out and cancels its
    event: the kernel consents, and then the waiter is queued and off the
    descriptor, or it refuses, and then the waiter stays; every other waiter stays.
    Firing again does nothing.  Once the fiber runs again the call
    disarms its timer, makes no system call and returns -1 with [ETIMEDOUT]. *)
Theorem timeout_ends_wait fuel t fd (f : libc K) w timeout timer s :
  io_ok s → desc fd → p_tinfos s !! w = Some 0 →
  ∃ (b : bool) s1, timeout_fires w fd 1 s = Ok (tt, s1) ∧ io_ok s1 ∧ (b = true ↔ leaves fd READ s) ∧
    now_waiting s s1 fd READ (if b then None else waiting s fd READ) ∧
    (if b then ∃ x, waiting s fd READ = Some x ∧
                    Scheduler.m_fibers (p_sched s1) = Scheduler.m_fibers (p_sched s) ++ [MkTask x (-1)]
     else p_sched s1 = p_sched s) ∧
    timeout_fires w fd 1 s1 = Ok (tt, s1) ∧
    ∀ s2, p_tinfos s2 !! w = p_tinfos s1 !! w → TimerFacts.wf (p_timers s2) → timer_exists timer s2 →
      ∃ T, do_io_resumed fuel t fd f w timeout timer s2 =
             Ok (Done (MkReturned (-1) (Some ETIMEDOUT)), without_tinfo w (with_timers T s2)) ∧
           timer_disarmed timer (with_timers T s2).
Proof.
  intros Hok Hd Hw. set (s0 := MkProcess (p_fibers s) (p_sched s) (p_timers s) (p_iom s) (p_fds s)
                                 (<[w := ETIMEDOUT]> (p_tinfos s)) (kernel s)).
  assert (Hok0 : io_ok s0) by (destruct Hok as [[? ?] Hm]; split; [by split|exact Hm]).
  destruct (cancel_event_ok fd READ s0 Hok0 Hd ltac:(by left)) as (b & s1 & Hc & Hiff & Hok1 & _ & _ & Hti & Hnow & Hq).
  assert (Hw1 : p_tinfos s1 !! w = Some ETIMEDOUT) by (rewrite Hti; apply lookup_insert_eq).
  exists b, s1. split.
  { unfold timeout_fires. step_ok. rewrite Hw. simpl. rewrite (bind_step _ _ s tt s0) by done.
    change (cancel_event fd 1) with (cancel_event (B:=B) (K:=K) fd READ).
    by rewrite (bind_step _ _ _ _ _ Hc). }
  split; [done|]. split; [exact Hiff|]. split; [exact Hnow|]. split; [exact Hq|]. split.
  { apply stale_timeout. by rewrite Hw1. }
  intros s2 Hw2 Hwf Ht. rewrite Hw1 in Hw2.
  destruct (cancel_if_ok timer s2 Hwf Ht) as (T & HT & _ & Hdis). exists T. split; [|done].
  unfold do_io_resumed. rewrite (bind_step _ _ _ _ _ HT).
  rewrite (bind_step _ _ _ ETIMEDOUT (with_timers T s2)); [done|].
  unfold cancelled_of. step_ok. unfold deref. simpl. by rewrite Hw2.
Qed.

(** C27: when the event comes first, the woken call disarms its timer and makes the
    original call again; if that neither blocks nor is interrupted its result is
    returned, and from then on the call's timeout does nothing, should it already
    have been handed to the scheduler. *)
Theorem answered_io_ignores_timeout n t fd (f : libc K) w timeout timer s r k :
  TimerFacts.wf (p_timers s) → timer_exists timer s → p_tinfos s !! w = Some 0 →
  f (kernel s) = (r, k) → rv r ≠ -1 →
  ∃ T, do_io_resumed (Datatypes.S n) t fd f w timeout timer s =
         Ok (Done (of_libc r), without_tinfo w (with_kernel k (with_timers T s))) ∧
       timer_disarmed timer (with_timers T s) ∧
       ∀ s2 fd' ev, p_tinfos s2 !! w = base.delete w (p_tinfos s) !! w → timeout_fires w fd' ev s2 = Ok (tt, s2).
Proof.
  intros Hwf Ht Hw Hf Hr. destruct (cancel_if_ok timer s Hwf Ht) as (T & HT & _ & Hdis).
  exists T. split; [|split; [done|]].
  - unfold do_io_resumed. rewrite (bind_step _ _ _ _ _ HT).
    rewrite (bind_step _ _ _ 0 (with_timers T s)).
    2: { unfold cancelled_of. step_ok. unfold deref. simpl. by rewrite Hw. }
    simpl. unfold do_io_try. cbn [call_again]. rewrite bind_assoc. erewrite bind_step by (by apply sys_ok).
    rewrite (proj2 (Z.eqb_neq (rv r) (-1)) Hr). simpl. step_ok.
    rewrite (proj2 (Z.eqb_neq (rv r) (-1)) Hr). done.
  - intros s2 fd' ev H2. apply stale_timeout. rewrite H2. by rewrite lookup_delete_eq.
Qed.

(** *** Sleeping *)

(** A hooked [sleep] suspends the calling fiber and leaves one new timer, not
    recurring, that will schedule the fiber after [seconds * 1000] milliseconds; the
    product is taken in 32 bits, so that it is right below 4294968 seconds and a
    sleep of 4294968 seconds is one of 704 milliseconds.  Events, queue, fibers and the
    descriptor table are untouched; when resumed, [sleep] returns 0. *)
Theorem sleep_arms_wakeup t seconds (sleep_f : libc K) a s l k :
  io_ok s → TimerFacts.wf (p_timers s) → hooked t s → t ∈ t_scheduler (p_sched s) →
  current t s = Some a → allocate_address (kernel s) = (l, k) → Timer.store (p_timers s) !! l = None →
  0 <= seconds < 2 ^ 32 →
  ∃ T k', let now := fst (clock_ms k) in let ms := u32 (seconds * 1000) in
    sleep t seconds sleep_f s = Ok (Yielded (Some l), with_timers T (with_kernel k' s)) ∧
    io_ok (with_timers T (with_kernel k' s)) ∧ TimerFacts.wf T ∧
    Timer.store T = <[l := Timer.MkTimer false ms (u64 (now + ms)) (Some (Timer.Fun (wake_body a)))]>
                      (Timer.store (p_timers s)) ∧
    (seconds < 4294968 → ms = seconds * 1000) ∧ (seconds = 4294968 → ms = 704) ∧
    ∀ s2, sleep_resumed s2 = Ok (Done (MkReturned 0 (Some 0)), s2) ∧
      ∃ s3, wake_fires a s2 = Ok (tt, s3) ∧
        Scheduler.m_fibers (p_sched s3) = Scheduler.m_fibers (p_sched s2) ++ [MkTask (IsFiber (Some a)) (-1)].
Proof.
  intros Hok Hwf Hhook Ht Ha Hal Hfresh Hsec.
  destruct (make_timer_ok (u32 (seconds * 1000)) (Timer.Fun (wake_body a)) s l k Hal Hwf Hfresh)
    as (now & T & k' & Hm & <- & Hk & HwfT & HT).
  exists T, k'. cbv zeta. split.
  { unfold sleep, sleep_for. rewrite (bind_step _ _ _ _ _ (hook_enabled t s)), bool_decide_true by done.
    simpl. rewrite (bind_step _ _ s a s).
    2: { unfold on_fibers. simpl. rewrite (GetThis_ok t a (p_fibers s) Ha). by destruct s. }
    rewrite (bind_step _ _ s tt s).
    2: { unfold this_iom, GetThis_io, get_sched. step_ok. unfold deref. by rewrite bool_decide_true. }
    by rewrite (bind_step _ _ _ _ _ Hm). }
  split; [by eapply (timers_io_ok s _ T k')|]. split; [done|]. split; [done|].
  split; [intros; unfold u32; apply Z.mod_small; lia|]. split; [by intros ->|].
  intros s2. split; [done|]. destruct (io_schedule_ok (IsFiber (Some a)) (-1) s2) as (s3 & H3 & k3 & -> & _).
  eexists. split; [exact H3|done].
Qed.
(** *** Closing *)

(** C28: a hooked [close] of a descriptor with a context cancels everything on it: the
    waiters are queued and both events cleared, the reader first, or nothing was
    registered or the kernel refuses and no waiter is touched.  It drops the
    descriptor's context and no other, and then makes the original call, once, and
    returns its result. *)
Theorem close_wakes_and_forgets t fd (close_f : libc K) a s :
  io_ok s → FdManager.is_fd fd → hooked t s → t ∈ t_scheduler (p_sched s) →
  FdManager.lookup_fd (p_fds s) fd = Some a →
  ∃ s1 d, close t fd close_f s =
      Ok (of_libc (fst (close_f (kernel s1))), with_kernel (snd (close_f (kernel s1))) (with_fds d s1)) ∧
    io_ok s1 ∧ others_kept s s1 ∧
    ((mask_of s fd ≠ NONE ∧ agrees EPOLL_CTL_DEL fd NONE s ∧
      ∃ c, ctxs s !! Z.to_nat fd = Some c ∧ mask_woken s s1 (Z.to_nat fd) (m_events c) c)
     ∨ (¬ (mask_of s fd ≠ NONE ∧ agrees EPOLL_CTL_DEL fd NONE s) ∧ same_but_kernel s s1)) ∧
    (∀ fd', FdManager.is_fd fd' →
       FdManager.lookup_fd d fd' = if decide (fd' = fd) then None else FdManager.lookup_fd (p_fds s) fd').
Proof.
  intros Hok Hfd Hhook Ht Ha.
  destruct (cancel_all_ok fd s Hok) as (b & s1 & Hc & Hiff & Hok1 & Hkept & Hb).
  { unfold desc. unfold FdManager.is_fd in Hfd. lia. }
  destruct (FdManager.fd_map_ok fd false (p_fds s1) Hfd) as [_ (d & Hd & Hlook & _)].
  exists s1, d. split.
  - unfold close. rewrite (bind_step _ _ _ _ _ (hook_enabled t s)), bool_decide_true by done. simpl.
    rewrite (bind_step _ _ _ _ _ (lookup_ok fd s Hfd)), Ha.
    rewrite (bind_step _ _ s tt (with_fds d s1)).
    2: { rewrite (bind_step _ _ s tt s).
         2: { unfold this_iom, GetThis_io, get_sched. step_ok. unfold deref. by rewrite bool_decide_true. }
         rewrite (bind_step _ _ _ _ _ Hc). by apply on_fds_ok. }
    rewrite (bind_step _ _ (with_fds d s1) (fst (close_f (kernel s1)))
               (with_kernel (snd (close_f (kernel s1))) (with_fds d s1))); [done|].
    apply sys_ok. simpl. by destruct (close_f (kernel s1)).
  - split; [done|]. split; [done|]. split.
    + destruct b; [left|right].
      * destruct Hb as (c & ? & _ & ?). destruct (proj1 Hiff eq_refl) as [? ?]. eauto 10.
      * split; [intros H; by apply Hiff in H|done].
    + intros fd' Hfd'. rewrite (Hlook fd' Hfd'). destruct Hkept as (_ & _ & -> & _). done.
Qed.

(** *** Flags *)

(** An open socket's context. *)
Definition open_socket fd a (c : FdManager.FdCtx) s : Prop :=
  FdManager.lookup_fd (p_fds s) fd = Some a ∧ FdManager.contexts (p_fds s) !! a = Some c ∧
  FdManager.isSocket c = true ∧ FdManager.isClosed c = false.

Lemma socket_context_ok fd a c s :
  FdManager.is_fd fd → open_socket fd a c s → socket_context fd s = Ok (Some (a, c), s).
Proof.
  intros Hfd (Hl & Hc & Hs & Hcl). unfold socket_context.
  rewrite (bind_step _ _ _ _ _ (lookup_ok fd s Hfd)), Hl.
  by rewrite (bind_step _ _ _ _ _ (fd_context_ok a c s Hc)), Hs, Hcl.
Qed.

Definition nonblocking (flags : Z) : bool := negb (Z.land flags FdManager.O_NONBLOCK =? 0).

Lemma nonblocking_bit z : nonblocking z = Z.testbit z 11.
Proof.
  unfold nonblocking. change FdManager.O_NONBLOCK with (2 ^ 11).
  rewrite Z.land_comm. destruct (Z.testbit z 11) eqn:E.
  - apply negb_true_iff, Z.eqb_neq. intros H. apply (f_equal (λ x, Z.testbit x 11)) in H.
    rewrite Z.land_spec, E, Z.pow2_bits_true, Z.bits_0 in H by lia. discriminate H.
  - apply negb_false_iff, Z.eqb_eq, Z.bits_inj'. intros n Hn. rewrite Z.land_spec, Z.bits_0.
    destruct (decide (n = 11)) as [->|Hne]; [by rewrite E, andb_false_r|].
    by rewrite Z.pow2_bits_false by lia.
Qed.

(** [flags] with the non-blocking bit set to [b], as both branches of [fcntl] do. *)
Definition with_nonblock (b : bool) (flags : Z) : Z :=
  if b then Z.lor flags FdManager.O_NONBLOCK else Z.land flags (Z.lnot FdManager.O_NONBLOCK).
Lemma with_nonblock_bit b flags n :
  0 <= n → Z.testbit (with_nonblock b flags) n = if decide (n = 11) then b else Z.testbit flags n.
Proof.
  intros Hn. unfold with_nonblock. change FdManager.O_NONBLOCK with (2 ^ 11).
  destruct b; rewrite ?Z.lor_spec, ?Z.land_spec, ?Z.lnot_spec by lia;
    destruct (decide (n = 11)) as [->|Hne];
    rewrite ?Z.pow2_bits_true, ?Z.pow2_bits_false by lia; simpl;
    by rewrite ?orb_true_r, ?andb_false_r, ?orb_false_r, ?andb_true_r.
Qed.

(** The flags [F_SETFL] can change, as fcntl(2) says; the others it ignores. *)
Definition keeps_flags (fcntl_f : Z → option Z → libc K) (flags : K → Z) (settable : Z → bool) : Prop :=
  (∀ x k n, 0 <= n → Z.testbit (flags (snd (fcntl_f F_SETFL (Some x) k))) n =
                     if settable n then Z.testbit x n else Z.testbit (flags k) n) ∧
  (∀ k, fcntl_f F_GETFL None k = (MkResult (flags k) 0, k)) ∧
  settable 11 = true.

(** On a hooked socket [F_SETFL] remembers the caller's non-blocking bit and gives
    the kernel the bit the context has for the system instead; a following [F_GETFL]
    returns the caller's bit, so that the caller reads back every settable flag it
    wrote, [O_NONBLOCK] included, whatever mode the socket is really in. *)
Theorem fcntl_flags_roundtrip fd arg arg2 a c s fcntl_f flags settable :
  FdManager.is_fd fd → open_socket fd a c s → keeps_flags fcntl_f flags settable →
  ∃ r s1 v, fcntl fd F_SETFL arg fcntl_f s = Ok (r, s1) ∧
    nonblocking (flags (kernel s1)) = FdManager.get_sys_nonblock c ∧
    open_socket fd a (FdManager.set_user_nonblock (nonblocking arg) c) s1 ∧
    fcntl fd F_GETFL arg2 fcntl_f s1 = Ok (MkReturned v (Some 0), s1) ∧
    ∀ n, 0 <= n → Z.testbit v n =
      if settable n then Z.testbit arg n else Z.testbit (flags (kernel s)) n.
Proof.
  intros Hfd Hopen (Hset & Hget & H11). pose proof Hopen as (Hl & Hc & Hs & Hcl).
  set (c1 := FdManager.set_user_nonblock (nonblocking arg) c).
  set (d := FdManager.MkFdManger (alter (FdManager.set_user_nonblock (nonblocking arg)) a (FdManager.contexts (p_fds s)))
              (FdManager.next_context (p_fds s)) (FdManager.m_datas (p_fds s))).
  set (x := with_nonblock (FdManager.get_sys_nonblock c) arg).
  destruct (fcntl_f F_SETFL (Some x) (kernel s)) as [r k] eqn:E.
  set (s1 := with_kernel k (with_fds d s)).
  assert (Hk : ∀ n, 0 <= n → Z.testbit (flags k) n =
                 if settable n then Z.testbit x n else Z.testbit (flags (kernel s)) n).
  { intros n Hn. rewrite <- (Hset x (kernel s) n Hn), E. done. }
  assert (Hopen1 : open_socket fd a c1 s1).
  { split; [done|]. split; [by simpl; rewrite lookup_alter_eq, Hc|done]. }
  exists (of_libc r), s1, (with_nonblock (nonblocking arg) (flags k)). split; [|split; [|split; [exact Hopen1|split]]].
  - unfold fcntl. simpl. rewrite (bind_step _ _ _ _ _ (socket_context_ok fd a c s Hfd Hopen)).
    rewrite (bind_step _ _ s tt (with_fds d s)) by by apply on_fds_ok.
    rewrite (bind_step _ _ (with_fds d s) r s1); [done|]. by apply sys_ok.
  - rewrite nonblocking_bit. change (kernel s1) with k. rewrite Hk, H11 by lia. unfold x. by rewrite with_nonblock_bit.
  - unfold fcntl. simpl. rewrite (bind_step _ _ s1 (MkResult (flags k) 0) s1).
    2: { change s1 with (with_kernel k s1) at 2. apply sys_ok. apply Hget. }
    by rewrite (bind_step _ _ _ _ _ (socket_context_ok fd a c1 s1 Hfd Hopen1)).
  - intros n Hn. rewrite with_nonblock_bit by done. destruct (decide (n = 11)) as [->|Hne].
    + rewrite H11. apply nonblocking_bit.
    + rewrite Hk by done. destruct (settable n); [|done]. unfold x. rewrite with_nonblock_bit by done.
      by rewrite decide_False.
Qed.
End io.
End HookFacts.
