(* ===== verification/HookSim.v ===== *)
(** * The hooks on the simulated kernel

    The theorems of [HookFacts] applied to concrete processes. *)
From stdpp Require Import base gmap list strings.
From Stdlib Require Import ZArith Lia.
From S2P Require Import Prelude StdSet Timers TimerFacts Fibers FiberFacts Schedulers SchedulerFacts.
From S2P Require Import FdManagers IOManagers IOManagerFacts IOManagerSim Hooks HookFacts.
Open Scope Z_scope.

Module HookSim.
Import Fiber FiberFacts Scheduler IOManager IOManagerFacts IOManagerSim Hook HookFacts.

#[export] Instance number_hooks : HookBodies nat := {
  wake_body := λ a, (100 + Z.to_nat a)%nat;
  timeout_body := λ _ _ _, 99%nat;
}.

(** A call that returns [v] with [errno] [e] and leaves the kernel alone. *)
Definition answers (v e : Z) : libc sim := λ k, (MkResult v e, k).
(** A call that counts itself in the pipe. *)
Definition counts (v : Z) : libc sim := λ k, (MkResult v 0, sim_with_pipe (sim_pipe k + 1) k).

(** Thread 1 runs its main fiber. *)
Definition sim_fiber : Process nat sim := after (on_fibers (GetThis 1) (sim_ready [])).

Lemma sim_fiber_ok : io_ok sim_fiber.
Proof. by apply (io_ok_events (sim_ready [])), sim_ready_ok. Qed.
Lemma no_timers : TimerFacts.wf (Timer.MkTimerManager ∅ [] 0 : Timer.TimerManager nat).
Proof.
  split; simpl; [constructor|]. intros l. split.
  - intros H. by apply not_elem_of_nil in H.
  - intros (x & Hx & _). discriminate Hx.
Qed.
Lemma sim_current : current 1 sim_fiber = Some 1.
Proof. reflexivity. Qed.
Lemma sim_hooked (s : Process nat sim) : t_hook_enable (p_sched s) = {[1]} → hooked 1 s.
Proof. unfold hooked. intros ->. set_solver. Qed.
Lemma fd_3 : FdManager.is_fd 3.
Proof. unfold FdManager.is_fd. lia. Qed.

Lemma hooked_io_never_waits_witness :
  do_io 1 1 3 (counts 5) FdManager.SO_RCVTIMEO (sim_ready []) =
    Ok ((Done (MkReturned 5 (Some 0)), 0), with_kernel (sim_with_pipe 1 (kernel (sim_ready []))) (sim_ready [])).
Proof.
  apply (hooked_io_never_waits 1 1 3 (counts 5) FdManager.SO_RCVTIMEO (sim_ready [])).
  - apply rtc_refl.
  - apply fd_3.
  - by apply sim_hooked.
Defined.

Lemma unhooked_io_calls_twice_witness :
  do_io 1 2 3 (counts 5) FdManager.SO_RCVTIMEO (sim_ready []) =
    Ok ((Done (MkReturned 5 (Some 0)), 0), with_kernel (sim_with_pipe 2 (kernel (sim_ready []))) (sim_ready [])).
Proof.
  apply (unhooked_io_calls_twice 1 2 3 (counts 5) FdManager.SO_RCVTIMEO (sim_ready [])
           (MkResult 5 0) (sim_with_pipe 1 (kernel (sim_ready []))) (MkResult 5 0)).
  - unfold hooked. simpl. set_solver.
  - apply fd_3.
  - reflexivity.
  - reflexivity.
  - reflexivity.
Defined.

Lemma blocking_io_parks_witness :
  ∃ s', do_io_try 1 1 3 (answers (-1) EAGAIN) 7 250 sim_fiber = Ok (Yielded (Some 1), s') ∧
    waiting s' 3 READ = Some (IsFiber (Some 1)).
Proof.
  destruct (blocking_io_parks 1 1 3 (answers (-1) EAGAIN) 7 250 sim_fiber (kernel sim_fiber) 0 1
              (MkSim ∅ 1000 2 0 [] 0)) as (r & s' & H & _ & Hor).
  - apply sim_fiber_ok.
  - apply no_timers.
  - apply desc_3.
  - vm_compute. discriminate.
  - by apply in_scheduler.
  - intros _. by do 2 eexists.
  - reflexivity.
  - reflexivity.
  - reflexivity.
  - reflexivity.
  - reflexivity.
  - reflexivity.
  - exists s'. destruct Hor as (k' & _ & [(_ & timer & -> & Hw & _)|(_ & -> & _)]).
    + rewrite (Hw 3 READ) by (lia || by left). rewrite decide_True by done. rewrite sim_current.
      split; [|done]. vm_compute in H |- *. injection H as <- <-. reflexivity.
    + exfalso. vm_compute in H. discriminate H.
Defined.

(** The fiber of thread 1 waits to read descriptor 3 in a call with timeout object 7. *)
Definition sim_parked : Process nat sim :=
  let s := after (add_event 1 3 READ None sim_fiber) in
  MkProcess (p_fibers s) (p_sched s) (p_timers s) (p_iom s) (p_fds s) {[7 := 0]} (kernel s).
Lemma sim_parked_ok : io_ok sim_parked.
Proof.
  destruct (add_event_ok 1 3 READ None sim_fiber sim_fiber_ok desc_3) as (r & s & H & Hok & _).
  - by left.
  - vm_compute. discriminate.
  - by apply in_scheduler.
  - intros _. by do 2 eexists.
  - reflexivity.
  - apply (io_ok_events (after (add_event 1 3 READ None sim_fiber))); [done|done|]. by rewrite H.
Qed.

Lemma timeout_ends_wait_witness :
  ∃ s1 T, timeout_fires 7 3 1 sim_parked = Ok (tt, s1) ∧
    Scheduler.m_fibers (p_sched s1) = [MkTask (IsFiber (Some 1)) (-1)] ∧ waiting s1 3 READ = None ∧
    do_io_resumed 1 1 3 (answers 5 0) 7 250 None s1 =
      Ok (Done (MkReturned (-1) (Some ETIMEDOUT)), without_tinfo 7 (with_timers T s1)).
Proof.
  destruct (timeout_ends_wait 1 1 3 (answers 5 0) 7 250 None sim_parked sim_parked_ok desc_3)
    as (b & s1 & H & _ & _ & Hw & Hq & _ & Hres); [reflexivity|].
  destruct (Hres s1) as (T & HT & _); [done|vm_compute in H; injection H as <-; apply no_timers|done|].
  exists s1, T. split; [exact H|]. split; [|split; [|exact HT]].
  - destruct b; [destruct Hq as (x & Ex & ->); vm_compute in Ex; by injection Ex as <-|].
    exfalso. vm_compute in H. injection H as <-. discriminate Hq.
  - vm_compute in H. by injection H as <-.
Defined.

Lemma answered_io_ignores_timeout_witness :
  ∃ T, do_io_resumed 1 1 3 (answers 5 0) 7 (-1) None sim_parked =
    Ok (Done (MkReturned 5 (Some 0)), without_tinfo 7 (with_kernel (kernel sim_parked) (with_timers T sim_parked))).
Proof.
  destruct (answered_io_ignores_timeout 0 1 3 (answers 5 0) 7 (-1) None sim_parked (MkResult 5 0) (kernel sim_parked))
    as (T & H & _).
  - apply no_timers.
  - done.
  - reflexivity.
  - reflexivity.
  - done.
  - exists T. exact H.
Defined.

Lemma sleep_arms_wakeup_witness :
  ∃ s', sleep 1 4294968 (answers 0 0) sim_fiber = Ok (Yielded (Some 1), s') ∧
    Timer.store (p_timers s') !! 1 = Some (Timer.MkTimer false 704 1704 (Some (Timer.Fun 101%nat))).
Proof.
  destruct (sleep_arms_wakeup 1 4294968 (answers 0 0) 1 sim_fiber 1 (MkSim ∅ 1000 2 0 [] 0))
    as (T & k' & H & _ & _ & HT & _ & Hms & _).
  - apply sim_fiber_ok.
  - apply no_timers.
  - by apply sim_hooked.
  - by apply in_scheduler.
  - reflexivity.
  - reflexivity.
  - reflexivity.
  - lia.
  - eexists. split; [exact H|]. simpl. rewrite HT, lookup_insert_eq. by rewrite (Hms eq_refl).
Defined.

(** Descriptor 3 has a context and its two events are waited for. *)
Definition sim_table : Process nat sim := after (on_fds (FdManager.getFdCtx 3 true) sim_both).

Lemma close_wakes_and_forgets_witness :
  ∃ s', close 1 3 (answers 0 0) sim_table = Ok (MkReturned 0 (Some 0), s') ∧
    FdManager.lookup_fd (p_fds s') 3 = None.
Proof.
  destruct (close_wakes_and_forgets 1 3 (answers 0 0) 1 sim_table) as (s1 & d & H & _ & _ & _ & Hd).
  - by apply (io_ok_events sim_both), sim_both_ok.
  - apply fd_3.
  - by apply sim_hooked.
  - by apply in_scheduler.
  - reflexivity.
  - eexists. split; [exact H|]. simpl. rewrite (Hd 3 fd_3). by rewrite decide_True.
Defined.

(** A socket with flags 2 that is non-blocking for the system only. *)
Definition sim_socket : Process nat sim :=
  with_fds (FdManager.MkFdManger {[0 := FdManager.MkFdCtx true true true false false 3 UINT64_MAX UINT64_MAX]} 1
              [None; None; None; Some 0]) (sim_ready []).
(** A kernel that keeps the flags it is given. *)
Definition sim_fcntl (cmd : Z) (arg : option Z) : libc sim := λ k,
  match arg with
  | Some x => (MkResult 0 0, MkSim (sim_interest k) (sim_time k) (sim_address k) (sim_pipe k) (sim_reports k) x)
  | None => (MkResult (sim_flags k) 0, k)
  end.

Lemma fcntl_flags_roundtrip_witness :
  ∃ s1, fcntl 3 F_SETFL 2 sim_fcntl sim_socket = Ok (MkReturned 0 (Some 0), s1) ∧
    sim_flags (kernel s1) = 2050 ∧ fcntl 3 F_GETFL 0 sim_fcntl s1 = Ok (MkReturned 2 (Some 0), s1).
Proof.
  destruct (fcntl_flags_roundtrip 3 2 0 0 (FdManager.MkFdCtx true true true false false 3 UINT64_MAX UINT64_MAX)
              sim_socket sim_fcntl sim_flags (λ _, true)) as (r & s1 & v & H1 & H2 & _ & H3 & H4).
  - apply fd_3.
  - done.
  - done.
  - assert (v = 2) as -> by (apply Z.bits_inj'; intros n Hn; by rewrite H4 by done).
    exists s1. split; [|split; [|exact H3]]; vm_compute in H1; injection H1 as <- <-; done.
Defined.
End HookSim.
