(* ===== verification/IdleFacts.v ===== *)
(** * A round of the idle loop

    One segment of [IOManager::idle], from the top of its loop to the place where it
    gives up control: the timers, the events and the run queue together. *)
From stdpp Require Import base gmap list strings.
From Stdlib Require Import ZArith Lia.
From S2P Require Import Prelude StdSet Timers TimerFacts Fibers FiberFacts Schedulers SchedulerFacts.
From S2P Require Import FdManagers IOManagers IOManagerFacts IOManagerSim Hooks HookFacts.
Open Scope Z_scope.

Module IdleFacts.
Import Fiber FiberFacts Scheduler SchedulerFacts IOManager IOManagerFacts HookFacts.

(** Epoll changes or removes an entry it has (epoll_ctl(2) knows no error for that but
    a lack of memory). *)
Class KernelAgrees (K : Type) `{!Kernel K} `{!KernelLaws K} := {
  ctl_agrees : ∀ op fd ev (k : K), op = EPOLL_CTL_MOD ∨ op = EPOLL_CTL_DEL →
    is_Some (interest k !! fd) → (epoll_ctl op fd ev k).1 = 0;
}.

(** A pipe holds finitely many bytes and the read end does not block (pipe(7)): each
    read that returns one takes it out. *)
Class PipeFinite (K : Type) `{!Kernel K} := {
  unread : K → nat;
  read_takes : ∀ k k' : K, pipe_read k = (1, k') → (unread k' < unread k)%nat;
}.

Section idle.
Context {B K : Type} `{!Kernel K} `{!KernelLaws K} `{!KernelAgrees K} `{!PipeFinite K} `{!Bodies B}.
Local Abbreviation P := (Process B K).
Implicit Types (s : P) (c : FdContext B) (ev : epoll_event).

(** ** The events *)

(** An event of the pipe, or one for a descriptor whose reported events are registered. *)
Definition expected s ev : Prop :=
  data ev = TickleFd ∨
  ∃ i c, data ev = Context (Z.of_nat i) ∧ ctxs s !! i = Some c ∧
    ∀ e, is_event e → has (real_events (events ev) (m_events c)) e = true → has (m_events c) e = true.

(** The tasks an event puts on the queue, and whether it reports [e] of descriptor [d]. *)
Definition woken_by s ev : list (Fiber_and_Thread B) :=
  match data ev with
  | TickleFd => []
  | Context i =>
      match ctxs s !! Z.to_nat i with
      | Some c => wake (real_events (events ev) (m_events c)) c
      | None => []
      end
  end.
Definition reports s (d e : Z) ev : bool :=
  match data ev with
  | TickleFd => false
  | Context i => (i =? d) && has (real_events (events ev) (mask_of s d)) e
  end.

Lemma nothing_real m real : mask_ok m → mask_ok real →
  (∀ e, is_event e → has real e = true → has m e = true) → Z.land m real = NONE → real = 0.
Proof.
  intros Hm Hr Hsub. pose proof (Hsub READ (or_introl eq_refl)) as H1. pose proof (Hsub WRITE (or_intror eq_refl)) as H2.
  destruct Hm as [->|[->|[->| ->]]], Hr as [->|[->|[->| ->]]]; vm_compute in H1, H2 |- *; try done;
    (discriminate (H1 eq_refl) || discriminate (H2 eq_refl)).
Qed.

Lemma agreed i c s real :
  io_ok s → ctxs s !! i = Some c → mask_ok real →
  (∀ e, is_event e → has real e = true → has (m_events c) e = true) →
  drops i real c s = false → real = 0.
Proof.
  intros [Hl Hm] Hc Hreal Hsub Hd. pose proof (c_mask _ _ (io_ctx _ Hl _ _ Hc)) as Hmask.
  destruct (decide (Z.land (m_events c) real = NONE)) as [Hn|Hn]; [by eapply nothing_real|].
  exfalso. unfold drops in Hd. rewrite (proj2 (Z.eqb_neq _ _) Hn) in Hd. simpl in Hd.
  rewrite ctl_agrees in Hd; [done|destruct (Z.land (m_events c) (Z.lnot real) =? 0); [by right|by left]|].
  rewrite (Hm (Z.of_nat i)) by lia. rewrite Nat2Z.id, Hc. simpl.
  destruct (Z.eqb_spec (m_events c) 0) as [E|]; [by rewrite E in Hn|by eexists].
Qed.

Lemma clear_mask_0 c : clear_mask 0 c = c.
Proof. done. Qed.

(** Draining the pipe ends, and changes nothing but the pipe. *)
Lemma drain_ends s : ∃ m k, interest k = interest (kernel s) ∧
  ∀ fuel, (m < fuel)%nat → drain_pipe fuel s = Ok (tt, with_kernel k s).
Proof.
  remember (unread (kernel s)) as u eqn:Hu. revert s Hu.
  induction u as [u IH] using lt_wf_ind. intros s ->.
  destruct (pipe_read (kernel s)) as [rt k] eqn:E. pose proof (read_interest _ _ _ E) as Hk.
  destruct (Z.eqb_spec rt 1) as [->|Hrt].
  - destruct (IH (unread k) (read_takes _ _ E) (with_kernel k s) eq_refl) as (m & k' & Hk' & H).
    exists (Datatypes.S m), k'. split; [by rewrite <- Hk|]. intros [|fuel] Hf; [lia|]. simpl.
    rewrite (bind_step _ _ _ _ _ (sys_ok _ _ _ _ E)). simpl. apply (H fuel). lia.
  - exists 0%nat, k. split; [done|]. intros [|fuel] Hf; [lia|]. simpl.
    rewrite (bind_step _ _ _ _ _ (sys_ok _ _ _ _ E)). by rewrite (proj2 (Z.eqb_neq _ _) Hrt).
Qed.

Lemma deal_one ev s :
  io_ok s → expected s ev →
  ∃ m s', (∀ fuel, (m < fuel)%nat → deal_event fuel ev s = Ok (tt, s')) ∧ io_ok s' ∧ others_kept s s' ∧
    Scheduler.m_fibers (p_sched s') = Scheduler.m_fibers (p_sched s) ++ woken_by s ev ∧
    (∀ i, data ev ≠ Context (Z.of_nat i) → ctxs s' !! i = ctxs s !! i) ∧
    (∀ d e, 0 <= d → is_event e → waiting s' d e = if reports s d e ev then None else waiting s d e).
Proof.
  intros Hok [Ht|(i & c & Hdata & Hc & Hsub)].
  { destruct (drain_ends s) as (m & k & Hk & H). exists m, (with_kernel k s). unfold deal_event, woken_by, reports.
    rewrite Ht, app_nil_r. split_and!; try done. by eapply (io_ok_events s). } destruct ev as [dt reported]. simpl in Hdata, Hsub. subst dt.
  set (real := real_events reported (m_events c)) in *.
  pose proof (c_mask _ _ (io_ctx _ (proj1 Hok) _ _ Hc)) as Hmask.
  destruct (deal_event_ok 0 i reported c s Hok Hc Hsub) as (s' & H & Hok' & Hkept & Hd & _).
  exists 0%nat, s'. do 3 (split; [done|]). fold real in Hd.
  assert (Hres : ctxs s' = <[i := clear_mask real c]> (ctxs s) ∧
    Scheduler.m_fibers (p_sched s') = Scheduler.m_fibers (p_sched s) ++ wake real c).
  { destruct (drops i real c s) eqn:E; [done|].
    assert (Hz : real = 0) by exact (agreed i c s real Hok Hc (real_events_ok _ _) Hsub E).
    destruct Hd as (k & -> & _). rewrite Hz. simpl. rewrite app_nil_r, clear_mask_0.
    split; [|done]. symmetry. by apply list_insert_id. }
  destruct Hres as [Hs' Hq].
  destruct (mask_woken_intro s s' i real c Hc Hmask Hs' Hq) as [_ Hw].
  split; [|split].
  - unfold woken_by. simpl. by rewrite Nat2Z.id, Hc.
  - intros j Hj. rewrite Hs'. apply list_lookup_insert_ne. intros ->. by apply Hj.
  - intros d e Hd0 He. rewrite (Hw d e Hd0 He). unfold reports. simpl.
    destruct (decide (d = Z.of_nat i)) as [->|Hne].
    + rewrite Z.eqb_refl, (waiting_nat s i e c Hc). simpl. rewrite (mask_has _ _ c) by by rewrite Nat2Z.id. done.
    + by rewrite (proj2 (Z.eqb_neq (Z.of_nat i) d)) by lia.
Qed.

Lemma expected_kept s s' ev ev' :
  (∀ i, data ev ≠ Context (Z.of_nat i) → ctxs s' !! i = ctxs s !! i) → data ev' ≠ data ev →
  expected s ev' → expected s' ev' ∧ woken_by s' ev' = woken_by s ev' ∧
  ∀ d e, 0 <= d → reports s' d e ev' = reports s d e ev'.
Proof.
  intros Hs' Hne [Ht|(i & c & Hdata & Hc & Hsub)].
  { unfold woken_by, reports. rewrite Ht. split; [by left|done]. }
  assert (Hi : ctxs s' !! i = ctxs s !! i) by (apply Hs'; congruence).
  split; [right; exists i, c; by rewrite Hi|]. unfold woken_by, reports. rewrite Hdata, Nat2Z.id, Hi.
  split; [done|]. intros d e Hd. destruct (Z.eqb_spec (Z.of_nat i) d) as [<-|]; [|done].
  unfold mask_of. by rewrite Nat2Z.id, Hi.
Qed.

Lemma deal_events_ok evs : ∀ s,
  io_ok s → Forall (expected s) evs → NoDup (map data evs) →
  ∃ m s', (∀ fuel, (m < fuel)%nat → deal_events fuel evs s = Ok (tt, s')) ∧ io_ok s' ∧ others_kept s s' ∧
    Scheduler.m_fibers (p_sched s') = Scheduler.m_fibers (p_sched s) ++ concat (map (woken_by s) evs) ∧
    (∀ d e, 0 <= d → is_event e →
       waiting s' d e = if existsb (reports s d e) evs then None else waiting s d e).
Proof.
  induction evs as [|ev evs IH]; intros s Hok Hevs Hnd.
  { exists 0%nat, s. simpl. rewrite app_nil_r. done. }
  apply Forall_cons in Hevs as [Hev Hevs]. apply NoDup_cons in Hnd as [Hnin Hnd].
  destruct (deal_one ev s Hok Hev) as (m1 & s1 & H1 & Hok1 & Hk1 & Hq1 & Hc1 & Hw1).
  assert (Hkept : Forall (λ ev', expected s1 ev' ∧ woken_by s1 ev' = woken_by s ev' ∧
                           ∀ d e, 0 <= d → reports s1 d e ev' = reports s d e ev') evs).
  { rewrite Forall_forall in *. intros ev' Hev'. apply (expected_kept s s1 ev); [done| |by apply Hevs].
    intros E. apply Hnin. rewrite <- E. by apply list_elem_of_In, in_map, list_elem_of_In. }
  destruct (IH s1 Hok1) as (m2 & s' & H & Hok' & Hk' & Hq' & Hw'); [|done|].
  { eapply Forall_impl; [exact Hkept|]. by intros ev' []. }
  exists (Nat.max m1 m2), s'. simpl. split.
  { intros fuel Hf. rewrite (bind_step _ _ _ _ _ (H1 fuel ltac:(lia))). apply H. lia. }
  split; [done|]. split; [by eapply others_kept_trans|]. split.
  - rewrite Hq', Hq1, <- (assoc_L (++)). do 3 f_equal. clear -Hkept.
    induction Hkept as [|x l (_ & E & _) _ IH]; [done|]. simpl. by rewrite E, IH.
  - intros d e Hd He. rewrite (Hw' d e Hd He), (Hw1 d e Hd He).
    assert (E : existsb (reports s1 d e) evs = existsb (reports s d e) evs).
    { clear -Hkept Hd. induction Hkept as [|x l (_ & _ & E) _ IH]; [done|]. simpl. by rewrite E, IH. }
    rewrite E. by destruct (reports s d e ev), (existsb (reports s d e) evs).
Qed.

(** ** The timers *)

(** An operation that changes the timers and the kernel only, and of the kernel not the
    interest list. *)
Definition timers_only {A} (m : M P A) : Prop :=
  ∀ s a s', m s = Ok (a, s') → ∃ T k, s' = with_timers T (with_kernel k s) ∧ interest k = interest (kernel s).

Lemma timers_only_bind {A C} (m : M P A) (f : A → M P C) :
  timers_only m → (∀ a, timers_only (f a)) → timers_only (bind m f).
Proof.
  intros Hm Hf s b s' (a & s1 & H1 & H2)%bind_ok.
  apply Hm in H1 as (T1 & k1 & -> & Hk1). apply Hf in H2 as (T2 & k2 & -> & Hk2).
  exists T2, k2. split; [done|]. simpl in Hk2. congruence.
Qed.
Lemma timers_only_pure {A} (m : M P A) : (∀ s a s', m s = Ok (a, s') → s' = s) → timers_only m.
Proof. intros Hm s a s' ->%Hm. exists (p_timers s), (kernel s). by destruct s. Qed.
Lemma timers_only_ret {A} (a : A) : timers_only (ret a : M P A).
Proof. apply timers_only_pure. intros s b s' H. by apply ret_ok in H as [_ ->]. Qed.
Lemma timers_only_get {A} (f : _ → A) : timers_only (Timer.get_tm f : M P A).
Proof. apply timers_only_pure. intros s b s' H. by apply TimerFacts.get_tm_ok in H as [_ ->]. Qed.
Lemma timers_only_modify f : timers_only (Timer.modify_tm f : M P unit).
Proof. intros s u s' H. apply modify_ok in H as ->. exists (f (p_timers s)), (kernel s). by destruct s. Qed.
Lemma timers_only_tickle : timers_only (tickle : M P unit).
Proof.
  intros s u s' H. destruct (tickle_ok s) as (s2 & H2 & k & -> & Hk). rewrite H2 in H. injection H as _ <-.
  exists (p_timers s), k. by destruct s.
Qed.
Lemma timers_only_at l : timers_only (Timer.timer_at l : M P _).
Proof. apply timers_only_pure. intros s b s' H. by apply TimerFacts.timer_at_ok in H as [_ ->]. Qed.
Lemma timers_only_fail {A} e : timers_only (fail e : M P A).
Proof. done. Qed.

Lemma timers_only_add l : timers_only (Timer.add_timer_locked l : M P Z).
Proof.
  unfold Timer.add_timer_locked. apply timers_only_bind; [apply timers_only_get|]. intros tm.
  destruct (StdSet.insert _ _ _) as [ts it]. apply timers_only_bind; [apply timers_only_modify|]. intros _.
  apply timers_only_bind; [|intros _; apply timers_only_ret].
  destruct (Nat.eqb it 0); [apply timers_only_tickle|apply timers_only_ret].
Qed.
Lemma timers_only_push now ts : ∀ cbs, timers_only (Timer.push_expired now ts cbs : M P _).
Proof.
  induction ts as [|l ts IH]; intros cbs; [apply timers_only_ret|]. simpl.
  apply timers_only_bind; [apply timers_only_at|]. intros t.
  apply timers_only_bind; [|intros _; apply IH].
  destruct (Timer.m_recurring t); [|apply timers_only_modify].
  apply timers_only_bind; [apply timers_only_modify|]. intros _.
  apply timers_only_bind; [apply timers_only_add|]. intros _. apply timers_only_ret.
Qed.
Lemma timers_only_expired now probe cbs : timers_only (Timer.list_expired_cbs now probe cbs : M P _).
Proof.
  unfold Timer.list_expired_cbs. apply timers_only_bind; [apply timers_only_get|]. intros e.
  destruct e; [apply timers_only_ret|]. unfold Timer.list_expired_write.
  apply timers_only_bind; [apply timers_only_get|]. intros tm.
  destruct (Timer.m_timers tm) as [|b ts]; [apply timers_only_fail|].
  destruct (_ >? now); [apply timers_only_ret|]. cbv zeta.
  apply timers_only_bind; [apply timers_only_modify|]. intros _. apply timers_only_push.
Qed.

Lemma schedule_range_ok items s :
  ∃ r k, schedule_range items s =
      Ok (r, with_kernel k (enqueue (map (λ fc, MkTask fc (-1)) items) s)) ∧
    interest k = interest (kernel s).
Proof.
  unfold schedule_range. rewrite (bind_step _ _ _ _ _ (schedule_loop_ok items false s)).
  set (s1 := enqueue _ s). destruct (false || _); unfold when.
  - destruct (tickle_ok s1) as (s2 & H2 & k & -> & Hk). rewrite (bind_step _ _ _ _ _ H2).
    eexists _, k. by split.
  - step_in. eexists _, (kernel s). by split.
Qed.

(** The tasks of a list of timers. *)
Definition timer_tasks (h : gmap Z (Timer.Timer B)) (E : list Z) : list (Fiber_and_Thread B) :=
  map (λ l, MkTask (IsCb (timer_body <$> TimerFacts.cb_of h l)) (-1)) E.

Lemma schedule_timers_ok now probe k1 k2 s :
  io_ok s → TimerFacts.wf (p_timers s) → clock_ms (kernel s) = (now, k1) →
  allocate_address k1 = (probe, k2) → Timer.store (p_timers s) !! probe = None →
  ∃ T k E, let s' := with_kernel k (with_timers T (enqueue (timer_tasks (Timer.store (p_timers s)) E) s)) in
    schedule_timers s = Ok (tt, s') ∧ io_ok s' ∧ TimerFacts.wf T ∧
    TimerFacts.expiry_result now probe (Timer.store (p_timers s)) (Timer.store T) E.
Proof.
  intros Hok Hwf Hclock Halloc Hp. unfold schedule_timers.
  rewrite (bind_step _ _ _ _ _ (sys_ok _ _ _ _ Hclock)).
  erewrite bind_step by (apply sys_ok; exact Halloc). set (s0 := with_kernel k2 (with_kernel k1 s)).
  assert (Hk2 : interest k2 = interest (kernel s)).
  { rewrite (address_interest _ _ _ Halloc). by eapply clock_interest. }
  assert (Hret : ∀ s2 : P, safe Timer.on_timer_insert_at_front s2).
  { intros s2. destruct (tickle_ok s2) as (s3 & H3 & _). by exists tt, s3. }
  assert (Hwf0 : TimerFacts.wf (Timer.manager s0)) by exact Hwf.
  assert (Hp0 : Timer.store (Timer.manager s0) !! probe = None) by exact Hp.
  destruct (TimerFacts.safe_list_expired Hret now probe [] s0 Hwf0) as (r & s1 & H1).
  destruct (TimerFacts.list_expired_ok now probe [] s0 r s1 Hwf0 Hp0 H1) as (Hw1 & E & Hr & HE & _).
  rewrite (bind_step _ _ _ _ _ H1). apply timers_only_expired in H1 as (T & k & -> & Hk).
  simpl in Hr, HE, Hw1. simpl in Hk. rewrite Hk2 in Hk.
  assert (Hok1 : io_ok (with_timers T (with_kernel k s))) by by eapply timers_io_ok.
  destruct E as [|l E].
  { exists T, k, []. cbv zeta.
    assert (Heq : with_kernel k (with_timers T (enqueue [] s)) = with_timers T (with_kernel k s0)).
    { destruct s as [? [] ? ? ? ? ?]. unfold enqueue, with_kernel, with_timers. simpl. by rewrite app_nil_r. }
    change (timer_tasks _ []) with (@nil (Fiber_and_Thread B)).
    rewrite Heq, Hr. by split_and!. }
  destruct (schedule_range_ok (map (λ f, IsCb (timer_body <$> f)) r) (with_timers T (with_kernel k s0)))
    as (r2 & k3 & H2 & Hk3).
  exists T, k3, (l :: E).
  assert (Heq : with_kernel k3 (with_timers T (enqueue (timer_tasks (Timer.store (p_timers s)) (l :: E)) s)) =
    with_kernel k3 (enqueue (map (λ fc, MkTask fc (-1)) (map (λ f, IsCb (timer_body <$> f)) r)) (with_timers T (with_kernel k s0)))).
  { unfold enqueue, with_kernel, with_timers. simpl. do 3 f_equal. rewrite Hr. unfold timer_tasks. simpl. f_equal.
    clear. induction E as [|x E IH]; [done|]. simpl. by f_equal. }
  rewrite Heq. split.
  { rewrite Hr in H2 |- *. simpl in H2 |- *. rewrite (bind_step _ _ _ _ _ H2). done. }
  split; [|by split].
  eapply (io_ok_events (with_timers T (with_kernel k s))); [done| |done]. simpl. by rewrite Hk3.
Qed.
(** ** The round *)

(** [epoll_wait] with a timeout of [t], started again while signals interrupt it. *)
Inductive waits (t : Z) : nat → K → list epoll_event → K → Prop :=
  | waits_ready k evs k' : epoll_wait t k = (Ready evs, k') → interest k' = interest k →
      waits t 0 k evs k'
  | waits_error k k' : epoll_wait t k = (WaitError, k') → interest k' = interest k → waits t 0 k [] k'
  | waits_again n k k1 evs k' : epoll_wait t k = (Interrupted, k1) → interest k1 = interest k →
      waits t n k1 evs k' → waits t (Datatypes.S n) k evs k'.

Lemma wait_timeout_idem n : wait_timeout (wait_timeout n) = wait_timeout n.
Proof.
  unfold wait_timeout, MAX_TIMEOUT. destruct (n =? UINT64_MAX) eqn:E; [done|].
  destruct (Z.gtb_spec 5000 n); [|done]. rewrite E. by destruct (Z.gtb_spec 5000 n); [|lia].
Qed.

Lemma wait_loop_ok n k evs k' t : waits (i32 (wait_timeout t)) n k evs k' → ∀ s fuel,
  kernel s = k → (n < fuel)%nat →
  wait_loop fuel t s = Ok (evs, with_kernel k' s) ∧ interest k' = interest k.
Proof.
  remember (i32 (wait_timeout t)) as w eqn:Hw. intros H. revert t Hw.
  induction H as [k evs k' E Hk|k k' E Hk|n k k1 evs k' E Hk _ IH]; intros t -> s [|fuel] <- Hn; try lia;
    simpl; rewrite (bind_step _ _ _ _ _ (sys_ok _ _ _ _ E)); [by split|by split|].
  destruct (IH (wait_timeout t) ltac:(by rewrite wait_timeout_idem) (with_kernel k1 s) fuel) as [H Hi];
    [done|lia|].
  rewrite H. split; [by destruct s|congruence].
Qed.

Lemma kernel_io_ok k s : interest k = interest (kernel s) → io_ok s → io_ok (with_kernel k s).
Proof. intros Hk. by apply io_ok_events. Qed.

Lemma same_iom s s' : p_iom s' = p_iom s →
  (∀ ev, expected s ev → expected s' ev) ∧ (∀ ev, woken_by s' ev = woken_by s ev) ∧
  (∀ d e ev, reports s' d e ev = reports s d e ev) ∧ (∀ d e, waiting s' d e = waiting s d e).
Proof. unfold expected, woken_by, reports, waiting, mask_of, ctxs. by intros ->. Qed.

(** C8: one round of the idle loop, from the top of [idle] to the place where it swaps
    out, does everything that became due while it slept.  However often signals
    interrupt its wait and whether the pipe, descriptors or the timeout end it, the
    round comes to its end with the pipe read empty; it takes the timers that expire
    ([TimerFacts.expires]: among those due at exactly the clock's reading the address
    decides) out of the set, in firing order, puts their callbacks on the run queue,
    and behind them, for each descriptor the kernel reports, every waiter whose event
    occurred, in the order of the report.  These waiters and timers are gone
    afterwards (a recurring timer is armed again) and all others stay as they were.
    The kernel is taken to report each descriptor once, to report only registered
    events, and not to refuse the change or removal of an entry it has. *)
Theorem idle_round_collects n s tmo k0 k1 evs now k2 probe k3 :
  io_ok s → TimerFacts.wf (p_timers s) →
  stopping_timeout s = Ok ((false, tmo), with_kernel k0 s) → interest k0 = interest (kernel s) →
  waits (i32 (wait_timeout tmo)) n k0 evs k1 →
  clock_ms k1 = (now, k2) → allocate_address k2 = (probe, k3) →
  Timer.store (p_timers s) !! probe = None →
  Forall (expected s) evs → NoDup (map data evs) →
  ∃ enough s' E, (∀ fuel, (enough < fuel)%nat → idle fuel s = Ok (SwappedOut idle_body, s')) ∧
    io_ok s' ∧ TimerFacts.wf (p_timers s') ∧
    TimerFacts.expiry_result now probe (Timer.store (p_timers s)) (Timer.store (p_timers s')) E ∧
    Scheduler.m_fibers (p_sched s') =
      Scheduler.m_fibers (p_sched s) ++ timer_tasks (Timer.store (p_timers s)) E ++
      concat (map (woken_by s) evs) ∧
    (∀ d e, 0 <= d → is_event e →
       waiting s' d e = if existsb (reports s d e) evs then None else waiting s d e) ∧
    p_fibers s' = p_fibers s ∧ p_fds s' = p_fds s ∧ p_tinfos s' = p_tinfos s.
Proof.
  intros Hok Hwf Hstop Hk0 Hwait Hclock Halloc Hp Hevs Hnd.
  destruct (wait_loop_ok _ _ _ _ _ Hwait (with_kernel k0 s) (Datatypes.S n) eq_refl ltac:(lia)) as [_ Hk1].
  set (s1 := with_kernel k1 (with_kernel k0 s)).
  assert (Hok1 : io_ok s1) by (apply kernel_io_ok; [done|by apply kernel_io_ok]).
  destruct (schedule_timers_ok now probe k2 k3 s1 Hok1 Hwf Hclock Halloc Hp)
    as (T & k4 & E & H2 & Hok2 & Hwf2 & HE). set (s2 := with_kernel k4 _) in *.
  destruct (same_iom s s2 eq_refl) as (Hexp & Hwoken & Hrep & Hwt).
  destruct (deal_events_ok evs s2 Hok2) as (m & s3 & H3 & Hok3 & Hk3 & Hq3 & Hw3); [|done|].
  { eapply Forall_impl; [exact Hevs|apply Hexp]. }
  exists (Nat.max n m), s3, E. destruct Hk3 as (? & Ht3 & ? & ?). split.
  { intros fuel Hf. unfold idle, idle_round. rewrite (bind_step _ _ _ _ _ Hstop). simpl.
    destruct (wait_loop_ok _ _ _ _ _ Hwait (with_kernel k0 s) fuel eq_refl ltac:(lia)) as [Hw _].
    by rewrite (bind_step _ _ _ _ _ Hw), (bind_step _ _ _ _ _ H2), (bind_step _ _ _ _ _ (H3 fuel ltac:(lia))). }
  simpl in HE. rewrite Ht3.
  do 3 (split; [done|]). split; [|split; [|by split_and!]].
  - rewrite Hq3. unfold s2. simpl. rewrite <- (assoc_L (++)). done.
  - intros d e Hd He. rewrite (Hw3 d e Hd He), Hwt.
    assert (Hex : existsb (reports s2 d e) evs = existsb (reports s d e) evs).
    { clear -Hrep. induction evs as [|x l IH]; [done|]. simpl. by rewrite Hrep, IH. }
    by rewrite Hex.
Qed.
End idle.
(** ** On the simulated kernel *)
(** ** The end of the idle loop *)
Section ending.
Context {B K : Type} `{!Kernel K} `{!Bodies B}.
Local Abbreviation P := (Process B K).
Implicit Types (s : P).

(** A first read that finds no timer. *)
Lemma read_timeout_none s s' :
  read_timeout s = Ok (UINT64_MAX, s') → 0 < fst (clock_ms (kernel s)) →
  (∀ l x, Timer.store (p_timers s) !! l = Some x → is_u64 (Timer.m_next x)) →
  s' = with_kernel (snd (clock_ms (kernel s))) s ∧ Timer.m_timers (p_timers s) = [].
Proof.
  intros H Hnow Hnext. unfold read_timeout in H. apply bind_ok in H as (now & s2 & H2 & H3).
  unfold sys in H2. destruct (clock_ms (kernel s)) as [z k] eqn:E. injection H2 as -> <-. simpl in Hnow.
  unfold Timer.get_next_timeout in H3. apply bind_ok in H3 as (tm & s4 & [-> ->]%gets_ok & H3). simpl in H3.
  destruct (Timer.m_timers (p_timers s)) as [|l ts] eqn:El; [by apply ret_ok in H3 as [_ ->]|].
  exfalso. unfold id in *. destruct (_ >=? _) eqn:Ege; apply ret_ok in H3 as [H3 _]; [done|].
  assert (Hl : is_u64 (Timer.next_of (Timer.store (p_timers s)) l)).
  { unfold Timer.next_of. destruct (_ !! l) as [x|] eqn:Hx; [by eapply Hnext|]. unfold is_u64. lia. }
  unfold is_u64 in Hl. rewrite Z.geb_leb in Ege. apply Z.leb_gt in Ege.
  rewrite u64_id in H3 by (unfold is_u64; lia). unfold UINT64_MAX in H3. lia.
Qed.
(** When [idle] returns, and nobody acted between its reads, there is no timer and no
    pending event, and the base class is stopping. *)
Lemma idle_returned fuel s s' :
  idle fuel s = Ok (Returned, s') → 0 < fst (clock_ms (kernel s)) → TimerFacts.wf (p_timers s) →
  (∀ l x, Timer.store (p_timers s) !! l = Some x → is_u64 (Timer.m_next x)) →
  s' = with_kernel (snd (clock_ms (kernel s))) s ∧
  Timer.m_timers (p_timers s) = [] ∧ pending s = 0 ∧ base_stopping (p_sched s) = true.
Proof.
  intros H Hnow Hwf Hnext. unfold idle in H. apply bind_ok in H as ([stop next] & s1 & H1 & H). destruct stop.
  2: { unfold idle_round in H. apply bind_ok in H as (? & ? & _ & H). apply bind_ok in H as (? & ? & _ & H).
       apply bind_ok in H as (? & ? & _ & H). by apply ret_ok in H as [? _]. }
  apply ret_ok in H as [_ ->]. unfold stopping_timeout in H1. apply bind_ok in H1 as (tmo & s2 & H2 & H).
  destruct (Z.eqb_spec tmo UINT64_MAX) as [->|]; [|by apply ret_ok in H as [? _]].
  apply read_timeout_none in H2 as [-> Htm]; [|done|done].
  apply bind_ok in H as (n & s4 & [-> ->]%gets_ok & H).
  destruct (Z.eqb_spec (m_pending_event_count (p_iom (with_kernel (snd (clock_ms (kernel s))) s))) 0) as [Hp|];
    [|by apply ret_ok in H as [? _]].
  apply bind_ok in H as (ok & s4 & [-> ->]%gets_ok & H). apply ret_ok in H as [H ->]. by injection H as Hb _.
Qed.
Lemma stopping_queue_empty {T} (c : Scheduler T) : base_stopping c = true → m_fibers c = [].
Proof.
  unfold base_stopping. intros [[_ Hl]%andb_true_iff _]%andb_true_iff.
  apply bool_decide_eq_true in Hl. by apply nil_length_inv.
Qed.
End ending.

Section simulated.
Import IOManagerSim.

#[export] Instance sim_agrees : KernelAgrees sim.
Proof.
  constructor. intros op d ev k Hop [x Hx]. change (interest k !! d) with (sim_interest k !! d) in Hx.
  simpl. unfold sim_ctl. rewrite Hx. by destruct Hop as [->| ->].
Qed.

#[export] Instance sim_pipe_finite : PipeFinite sim.
Proof.
  apply (Build_PipeFinite sim _ (λ k, Z.to_nat (sim_pipe k))). intros k k' H. simpl in H.
  destruct (Z.gtb_spec (sim_pipe k) 0); [|discriminate]. injection H as <-. simpl. lia.
Qed.

(** Three timers are overdue, two callbacks wait on descriptor 3, two bytes are in the
    pipe, and the next wait reports the pipe and the descriptor readable. *)
Definition sim_due : Process nat sim :=
  with_timers (Timer.manager TimerFacts.sample)
    (with_kernel (MkSim (sim_interest (kernel sim_both)) 1000 50 2
                    [[MkEvent TickleFd EPOLLIN; MkEvent (Context 3) EPOLLIN]] 0) sim_both).
Lemma sim_due_ok : io_ok sim_due.
Proof. by apply (io_ok_events sim_both), sim_both_ok. Qed.
Lemma sim_expected : expected sim_due (MkEvent (Context 3) EPOLLIN).
Proof.
  destruct (ctxs sim_due !! 3%nat) as [c|] eqn:Hc; [|by vm_compute in Hc].
  right. exists 3%nat, c. split; [done|]. split; [done|]. vm_compute in Hc. injection Hc as <-.
  by intros e [->| ->].
Qed.

Lemma idle_round_collects_witness :
  ∃ enough s' E, (∀ fuel, (enough < fuel)%nat → idle fuel sim_due = Ok (SwappedOut idle_body, s')) ∧
    TimerFacts.expiry_result 1000 50 TimerFacts.sample_store (Timer.store (p_timers s')) E ∧
    Scheduler.m_fibers (p_sched s') =
      timer_tasks TimerFacts.sample_store E ++ [MkTask (IsCb (Some 7%nat)) (-1)] ∧
    waiting s' 3 READ = None ∧ waiting s' 3 WRITE = Some (IsCb (Some 8%nat)).
Proof.
  destruct (idle_round_collects 0 sim_due 0 (kernel sim_due) (MkSim (sim_interest (kernel sim_both)) 1000 50 2 [] 0)
              [MkEvent TickleFd EPOLLIN; MkEvent (Context 3) EPOLLIN] 1000
              (MkSim (sim_interest (kernel sim_both)) 1000 50 2 [] 0) 50
              (MkSim (sim_interest (kernel sim_both)) 1000 51 2 [] 0))
    as (enough & s' & E & H & _ & _ & HE & Hq & Hw & _).
  - apply sim_due_ok.
  - exact TimerFacts.sample_wf.
  - by vm_compute.
  - done.
  - by apply waits_ready.
  - done.
  - done.
  - done.
  - constructor; [by left|]. constructor; [apply sim_expected|constructor].
  - apply NoDup_cons. split; [|apply NoDup_singleton]. by intros H%list_elem_of_singleton.
  - exists enough, s', E. split; [exact H|]. split; [exact HE|]. split; [rewrite Hq; f_equal; by vm_compute|].
    rewrite (Hw 3 READ), (Hw 3 WRITE) by (lia || (by left) || (by right)). by vm_compute.
Defined.
End simulated.
End IdleFacts.
