(* ===== verification/Systems.v ===== *)
(** * Clients of the IO manager

    A process in which fibers call the hooked functions.  The functions and callbacks a
    client hands to the IO manager are written in a small language, [code]: they sleep, do
    I/O through the hooks, schedule functions, set timers, register functions for events and
    cancel events, and [exec] runs what stands in a fiber, on a thread, to its next transfer
    of control.  The language leaves out the calls with which a client can lose the
    wake-up of a fiber or make a second one: [del_event], [Fiber::Yield_to_Hold] called
    by the client itself, [schedule] with a fiber, and [cancel], [reset] and [refresh] of
    timers.  What the framework does for those is in IOManagers.v, Fibers.v, Schedulers.v
    and Timers.v; the theorems about whole processes do not cover their callers.  The bodies the framework makes itself (the
    idle function, the call of a timer's function, the lambdas of hook.cc) are bodies
    of the same type, so that [Scheduler.run_iter] at [exec] is the scheduler's loop
    with the IO manager, the timers and the hooks in it. *)
From stdpp Require Import base gmap list strings.
From Stdlib Require Import ZArith Lia.
From S2P Require Import Prelude StdSet Timers Fibers Schedulers FdManagers IOManagers Hooks.
Open Scope Z_scope.

Module System.
Import Fiber Scheduler IOManager Hook.

Section language.
Context {K : Type}.

(** What a client's function does next.  [CIo] stands for the functions of the [read] and
    the [write] family, told apart by the timeout option [so]; the calls of the C library
    behind them are given by the client, who chooses their arguments. *)
Inductive code :=
  | CReturn
  | CThrow
  | CYield (k : code)
  | CSleep (seconds : Z) (sleep_f : libc K) (k : code)
  | CUsleep (useconds : Z) (usleep_f : libc K) (k : code)
  | CNanosleep (tv_sec tv_nsec : Z) (nanosleep_f : libc K) (k : code)
  | CIo (fd so : Z) (f : libc K) (k : returned → code)
  | CAccept (sockfd : Z) (accept_f : libc K) (k : returned → code)
  | CConnect (fd timeout_ms : Z) (connect_f so_error : libc K) (k : returned → code)
  | CSocket (socket_f : libc K) (k : returned → code)
  | CClose (fd : Z) (close_f : libc K) (k : returned → code)
  | CSetsockopt (fd level optname tv_sec tv_usec : Z) (f : libc K) (k : returned → code)
  | CFcntl (fd cmd arg : Z) (f : Z → option Z → libc K) (k : returned → code)
  | CIoctl (fd request arg : Z) (ioctl_f : libc K) (k : returned → code)
  | CGetsockopt (getsockopt_f : libc K) (k : returned → code)
  | CSchedule (j : code) (thread : Z) (k : code)
  | CAddTimer (ms : Z) (j : code) (recurring : bool) (k : code)
  | CAddEvent (fd event : Z) (j : code) (k : Z → code)
  | CCancelEvent (fd event : Z) (k : bool → code)
  | CCancelAll (fd : Z) (k : bool → code).

(** What stands in a fiber or is handed to the scheduler: the idle function, [run], a
    client's function, the rest of one that waits in a hooked call ([Slept],
    [IoBlocked], [ConnectBlocked], with the local variables of the call), the call of a
    timer's function, and the lambdas of hook.cc. *)
Inductive body :=
  | Idle
  | Run
  | Program (c : code)
  | Slept (k : code)
  | IoBlocked (accepts : bool) (fd : Z) (f : libc K) (tinfo timeout : Z) (timer : option Z) (k : returned → code)
  | ConnectBlocked (tinfo : Z) (timer : option Z) (so_error : libc K) (k : returned → code)
  | TimerCall (f : Timer.closure body)
  | Wake (fiber : Z)
  | Timeout (winfo fd event : Z).

#[export] Instance system_bodies : Bodies body := {
  idle_body := Idle;
  scheduler_body := Run;
  timer_body := TimerCall;
}.
#[export] Instance system_hooks : HookBodies body := {
  wake_body := Wake;
  timeout_body := Timeout;
}.
End language.
Arguments code : clear implicits.
Arguments body : clear implicits.

Section execution.
Context {K : Type} `{!Kernel K}.
Local Abbreviation P := (Process (body K) K).
(** The bound of [IOManager::idle] on interruptions, and the thread. *)
Variables (fuel : nat) (t : Z).

(** The timeout [do_io] has read into a local variable. *)
Definition io_timeout (fd so : Z) : M P Z :=
  let* ctx := on_fds (FdManager.getFdCtx fd false) in
  match ctx with
  | None => ret 0
  | Some a => let* c := on_fds (FdManager.context_at a) in ret (i64 (FdManager.get_timeout so c))
  end.

(** The end of a call that may have waited. *)
Definition finish (accepts : bool) (r : returned) : M P returned := if accepts then accept_finish r else ret r.

(** A client's function up to its next transfer of control. *)
Fixpoint exec_code (c : code K) : M P (segment (body K)) :=
  let io accepts fd so f k :=
    let* timeout := io_timeout fd so in
    let* r := do_io fuel t fd f so in
    match fst r with
    | Done n => let* n := finish accepts n in exec_code (k n)
    | Yielded timer => ret (YieldedHold (IoBlocked accepts fd f (snd r) timeout timer k))
    end in
  match c with
  | CReturn => ret Returned
  | CThrow => ret Threw
  | CYield k => ret (YieldedReady (Program k))
  | CSleep seconds sleep_f k =>
      let* r := sleep t seconds sleep_f in
      match r with Done _ => exec_code k | Yielded _ => ret (YieldedHold (Slept k)) end
  | CUsleep useconds usleep_f k =>
      let* r := usleep t useconds usleep_f in
      match r with Done _ => exec_code k | Yielded _ => ret (YieldedHold (Slept k)) end
  | CNanosleep tv_sec tv_nsec nanosleep_f k =>
      let* r := nanosleep t tv_sec tv_nsec nanosleep_f in
      match r with Done _ => exec_code k | Yielded _ => ret (YieldedHold (Slept k)) end
  | CIo fd so f k => io false fd so f k
  | CAccept sockfd accept_f k => io true sockfd FdManager.SO_RCVTIMEO accept_f k
  | CConnect fd timeout_ms connect_f so_error k =>
      let* r := connect_with_timeout t fd connect_f so_error timeout_ms in
      match fst r with
      | Done n => exec_code (k n)
      | Yielded timer => ret (YieldedHold (ConnectBlocked (snd r) timer so_error k))
      end
  | CSocket socket_f k => let* r := socket t socket_f in exec_code (k r)
  | CClose fd close_f k => let* r := close t fd close_f in exec_code (k r)
  | CSetsockopt fd level optname tv_sec tv_usec f k =>
      let* r := setsockopt t fd level optname tv_sec tv_usec f in exec_code (k r)
  | CFcntl fd cmd arg f k => let* r := fcntl fd cmd arg f in exec_code (k r)
  | CIoctl fd request arg f k => let* r := ioctl fd request arg f in exec_code (k r)
  | CGetsockopt f k => let* r := getsockopt f in exec_code (k r)
  | CSchedule j thread k => schedule (IsCb (Some (Program j))) thread ;;; exec_code k
  | CAddTimer ms j recurring k =>
      let* a := sys allocate_address in
      let* now := sys clock_ms in
      Timer.add_timer a now ms (Some (Timer.Fun (Program j))) recurring ;;; exec_code k
  | CAddEvent fd event j k => let* r := add_event t fd event (Some (Program j)) in exec_code (k r)
  | CCancelEvent fd event k => let* r := cancel_event fd event in exec_code (k r)
  | CCancelAll fd k => let* r := cancel_all fd in exec_code (k r)
  end.

(** Whatever stands in a fiber.  [TimerCall] calls [Cond_cb] where the timer was made with
    a condition; [run] stands only in the root fiber of a caller's thread, which
    [Scheduler.stop] enters itself. *)
Fixpoint exec_body (b : body K) : M P (segment (body K)) :=
  match b with
  | Idle => idle fuel
  | Run => fail (AssertFailed "diverted")
  | Program c => exec_code c
  | Slept k => sleep_resumed ;;; exec_code k
  | IoBlocked accepts fd f tinfo timeout timer k =>
      let* r := do_io_resumed fuel t fd f tinfo timeout timer in
      match r with
      | Done n => let* n := finish accepts n in exec_code (k n)
      | Yielded timer => ret (YieldedHold (IoBlocked accepts fd f tinfo timeout timer k))
      end
  | ConnectBlocked tinfo timer so_error k =>
      let* r := connect_resumed tinfo timer so_error in exec_code (k r)
  | TimerCall (Timer.Fun b) => exec_body b
  | TimerCall (Timer.BindCond weak_cond cb) =>
      let* h := gets p_tinfos in
      if bool_decide (is_Some (h !! weak_cond)) then
        match cb with
        | Some b => exec_body b
        | None => fail (Uncaught "bad_function_call")
        end
      else ret Returned
  | Wake fiber => wake_fires fiber ;;; ret Returned
  | Timeout winfo fd event => timeout_fires winfo fd event ;;; ret Returned
  end.

(** The call of a timer with a condition is [Timer.Cond_cb]. *)
Lemma timer_call_is_Cond_cb w cb s :
  exec_body (TimerCall (Timer.BindCond w cb)) s =
    match Timer.Cond_cb (λ w, bool_decide (is_Some (p_tinfos s !! w))) w cb with
    | Ok (Some b) => exec_body b s
    | Ok None => Ok (Returned, s)
    | Fault e => Fault e
    end.
Proof.
  simpl. step_in. unfold Timer.Cond_cb. case_bool_decide; [|done]. by destruct cb.
Qed.
End execution.

(** [exec] as the scheduler's loop uses it; a round's environment is the bound on
    interruptions. *)
Definition exec {K} `{!Kernel K} (fuel : nat) (t : Z) (b : body K) : M (Process (body K) K) (segment (body K)) :=
  exec_body fuel t b.

(** Rounds of the loop of [run] on thread [t]: the new [cb_fiber]. *)
Fixpoint rounds {K} `{!Kernel K} (envs : list nat) (t idle_fiber : Z) (cb : option Z) : M (Process (body K) K) (option Z) :=
  match envs with
  | [] => ret cb
  | e :: envs => let* r := run_iter exec e t idle_fiber cb in rounds envs t idle_fiber (fst r)
  end.
End System.
