(* ===== verification/Wakeups.v ===== *)
(** * Wake-ups

    The wake-ups under way for a fiber: what stands on the run queue, is registered for an
    event or waits in a timer and will put the fiber on the run queue.  What a client may
    hand in, and the relation [evolves] between the states before and after an operation. *)
From stdpp Require Import base gmap list strings.
From Stdlib Require Import ZArith Lia.
From S2P Require Import Prelude StdSet Timers TimerFacts Fibers FiberFacts Schedulers SchedulerFacts.
From S2P Require Import FdManagers IOManagers IOManagerFacts Hooks HookFacts IdleFacts Systems.
Open Scope Z_scope.

Module Wakeup.
Import Fiber FiberFacts Scheduler SchedulerFacts IOManager IOManagerFacts Hook HookFacts System.

(** ** Time and memory

    What the kernel, the allocator and the clock do beside [KernelLaws]: an address is
    not handed out twice ([brk] is a bound on the addresses in use), the clock does not
    go back, and waiting leaves the interest list alone and reports what was registered. *)
Class KernelTime (K : Type) `{!Kernel K} `{!KernelLaws K} := {
  brk : K → Z;
  time : K → Z;
  alloc_later : ∀ (k k' : K) a, allocate_address k = (a, k') → brk k <= a < brk k' ∧ time k <= time k';
  clock_later : ∀ (k k' : K) z, clock_ms k = (z, k') → brk k <= brk k' ∧ time k <= z <= time k';
  ctl_later : ∀ op d ev (k k' : K) rt, epoll_ctl op d ev k = (rt, k') → brk k <= brk k' ∧ time k <= time k';
  wait_later : ∀ t (k k' : K) r, epoll_wait t k = (r, k') →
    brk k <= brk k' ∧ time k <= time k' ∧ interest k' = interest k ∧
    ∀ evs ev i, r = Ready evs → ev ∈ evs → data ev = Context i → 0 <= i;
  write_later : ∀ (k k' : K) rt, pipe_write k = (rt, k') → brk k <= brk k' ∧ time k <= time k';
  read_later : ∀ (k k' : K) rt, pipe_read k = (rt, k') → brk k <= brk k' ∧ time k <= time k';
}.

(** ** Sums over lists *)
Section sums.
Context {A : Type}.
Implicit Types (g h : A → nat) (l : list A).

Lemma sum_ext g h l : (∀ x, x ∈ l → g x = h x) → sum_list_with g l = sum_list_with h l.
Proof.
  induction l as [|x l IH]; [done|]. intros H. simpl. rewrite H by by left.
  rewrite IH; [done|]. intros y Hy. apply H. by right.
Qed.
(** Two functions that differ at one place of a list without duplicates. *)
Lemma sum_but_one g h x l :
  NoDup l → x ∈ l → (∀ y, y ∈ l → y ≠ x → g y = h y) →
  (sum_list_with g l + h x = sum_list_with h l + g x)%nat.
Proof.
  induction l as [|y l IH]; [by intros _ ?%not_elem_of_nil|]. intros [Hy Hnd]%NoDup_cons Hx Heq. simpl.
  apply elem_of_cons in Hx as [->|Hx].
  - rewrite (sum_ext g h l); [lia|]. intros z Hz. apply Heq; [by right|]. intros ->. done.
  - assert (Hne : y ≠ x) by (by intros ->). rewrite (Heq y) by (done || by left).
    rewrite <- Nat.add_assoc, IH; [lia|done|done|]. intros z Hz. apply Heq. by right.
Qed.
Lemma sum_zero g l : (∀ x, x ∈ l → g x = 0%nat) → sum_list_with g l = 0%nat.
Proof.
  induction l as [|x l IH]; [done|]. intros H. simpl. rewrite H by by left.
  apply IH. intros y Hy. apply H. by right.
Qed.
Lemma sum_pos g l x : x ∈ l → (g x <= sum_list_with g l)%nat.
Proof.
  induction l as [|y l IH]; [by intros ?%not_elem_of_nil|]. intros [->|Hx]%elem_of_cons; simpl; [lia|].
  specialize (IH Hx). lia.
Qed.
End sums.

Section wakeups.
Context {K : Type} `{!Kernel K} `{!KernelLaws K} `{!KernelTime K}.
Local Abbreviation B := (body K).
Local Abbreviation P := (Process (body K) K).
Implicit Types (s : P) (f c : Z) (b : body K) (T : Timer.TimerManager (body K)).

(** ** Who is owed a wake-up *)

Definition is_fiber f (g : Z) : nat := if decide (g = f) then 1 else 0.
Fixpoint body_wakes f b : nat :=
  match b with
  | Wake g => is_fiber f g
  | TimerCall (Timer.Fun b) => body_wakes f b
  | _ => 0
  end.
Definition closure_wakes f (o : option (Timer.closure B)) : nat :=
  match o with Some (Timer.Fun b) => body_wakes f b | _ => 0 end.
Definition task_wakes f (fc : fiber_or_cb B) : nat :=
  match fc with
  | IsFiber (Some g) => is_fiber f g
  | IsCb (Some b) => body_wakes f b
  | _ => 0
  end.
Definition waiter_wakes f (o : option (fiber_or_cb B)) : nat :=
  match o with Some w => task_wakes f w | None => 0 end.

Definition queue_wakes f s : nat := sum_list_with (λ it, task_wakes f (what it)) (Scheduler.m_fibers (p_sched s)).
Definition event_wakes_below f (n : nat) s : nat :=
  sum_list_with (λ i, waiter_wakes f (waiting s (Z.of_nat i) READ) + waiter_wakes f (waiting s (Z.of_nat i) WRITE))%nat
    (seq 0 n).
Definition event_wakes f s : nat := event_wakes_below f (length (ctxs s)) s.
Definition store_wakes f (h : gmap Z (Timer.Timer B)) : nat :=
  sum_list_with (λ p, closure_wakes f (Timer.m_cb p.2)) (map_to_list h).
Definition timer_wakes f s : nat := store_wakes f (Timer.store (p_timers s)).

(** The wake-ups under way for fiber [f]. *)
Definition wakes f s : nat := (queue_wakes f s + event_wakes f s + timer_wakes f s)%nat.

(** *** Events *)
Lemma waiting_beyond s i ev : (length (ctxs s) <= i)%nat → waiting s (Z.of_nat i) ev = None.
Proof. intros H. unfold waiting. by rewrite Nat2Z.id, lookup_ge_None_2. Qed.
Lemma event_wakes_any f n s : (length (ctxs s) <= n)%nat → event_wakes_below f n s = event_wakes f s.
Proof.
  intros Hn. unfold event_wakes, event_wakes_below.
  replace n with (length (ctxs s) + (n - length (ctxs s)))%nat by lia.
  rewrite seq_app, sum_list_with_app, (sum_zero _ (seq _ (_ - _))); [lia|].
  intros i [Hi _]%elem_of_seq. by rewrite !waiting_beyond by lia.
Qed.
(** Only the events of one descriptor have changed. *)
Lemma event_wakes_one f d s s' :
  0 <= d → (∀ d' ev, 0 <= d' → is_event ev → d' ≠ d → waiting s' d' ev = waiting s d' ev) →
  (event_wakes f s' + waiter_wakes f (waiting s d READ) + waiter_wakes f (waiting s d WRITE) =
   event_wakes f s + waiter_wakes f (waiting s' d READ) + waiter_wakes f (waiting s' d WRITE))%nat.
Proof.
  intros Hd H.
  set (n := (length (ctxs s) + length (ctxs s') + Z.to_nat d + 1)%nat).
  rewrite <- (event_wakes_any f n s), <- (event_wakes_any f n s') by lia. unfold event_wakes_below.
  pose proof (sum_but_one
    (λ i, waiter_wakes f (waiting s' (Z.of_nat i) READ) + waiter_wakes f (waiting s' (Z.of_nat i) WRITE))%nat
    (λ i, waiter_wakes f (waiting s (Z.of_nat i) READ) + waiter_wakes f (waiting s (Z.of_nat i) WRITE))%nat
    (Z.to_nat d) (seq 0 n)) as Hsum. simpl in Hsum. rewrite !Z2Nat.id in Hsum by done.
  rewrite <- !Nat.add_assoc. apply Hsum.
  - apply NoDup_seq.
  - apply elem_of_seq. lia.
  - intros i _ Hi. rewrite !H by (lia || (by left) || (by right)). done.
Qed.
Lemma event_wakes_now f d ev o s s' :
  0 <= d → is_event ev → now_waiting s s' d ev o →
  (event_wakes f s' + waiter_wakes f (waiting s d ev) = event_wakes f s + waiter_wakes f o)%nat.
Proof.
  intros Hd Hev H. pose proof (event_wakes_one f d s s' Hd) as Hone.
  assert (Hother : ∀ d' ev, 0 <= d' → is_event ev → d' ≠ d → waiting s' d' ev = waiting s d' ev).
  { intros d' ev' Hd' Hev' Hne. rewrite H by done. rewrite decide_False; [done|]. naive_solver. }
  specialize (Hone Hother). rewrite !(H d) in Hone by (done || (by left) || (by right)).
  destruct Hev as [->| ->].
  - rewrite (decide_True (P := d = d ∧ READ = READ)) in Hone by done.
    rewrite (decide_False (P := d = d ∧ WRITE = READ)) in Hone by (intros [_ E]; discriminate E). lia.
  - rewrite (decide_True (P := d = d ∧ WRITE = WRITE)) in Hone by done.
    rewrite (decide_False (P := d = d ∧ READ = WRITE)) in Hone by (intros [_ E]; discriminate E). lia.
Qed.
Lemma event_wakes_same f s s' :
  (∀ d ev, 0 <= d → is_event ev → waiting s' d ev = waiting s d ev) → event_wakes f s' = event_wakes f s.
Proof.
  intros H. pose proof (event_wakes_one f 0 s s' ltac:(lia)) as Hone.
  rewrite !(H 0) in Hone by (done || (by left) || (by right)).
  pose proof (Hone ltac:(intros; by apply H)). lia.
Qed.

(** *** Timers *)
Lemma store_wakes_insert f h l x : h !! l = None →
  store_wakes f (<[l := x]> h) = (closure_wakes f (Timer.m_cb x) + store_wakes f h)%nat.
Proof. intros Hl. unfold store_wakes. by rewrite map_to_list_insert. Qed.
Lemma store_wakes_split f h l x : h !! l = Some x →
  store_wakes f h = (closure_wakes f (Timer.m_cb x) + store_wakes f (base.delete l h))%nat.
Proof.
  intros Hl. rewrite <- (store_wakes_insert f (base.delete l h) l x) by apply lookup_delete_eq.
  by rewrite insert_delete_eq, insert_id.
Qed.
Lemma store_wakes_alter f h g l x : h !! l = Some x →
  (store_wakes f (alter g l h) + closure_wakes f (Timer.m_cb x) =
   store_wakes f h + closure_wakes f (Timer.m_cb (g x)))%nat.
Proof.
  intros Hl. rewrite (store_wakes_split f h l x Hl), (store_wakes_split f (alter g l h) l (g x)).
  - rewrite delete_alter_eq. lia.
  - by rewrite lookup_alter_eq, Hl.
Qed.

(** The timers of a list without duplicates are changed. *)
Lemma store_wakes_list f g E : NoDup E → ∀ h h',
  (∀ l, l ∈ E → is_Some (h !! l)) →
  (∀ l, h' !! l = if decide (l ∈ E) then g <$> h !! l else h !! l) →
  (store_wakes f h' + sum_list_with (λ l, closure_wakes f (TimerFacts.cb_of h l)) E =
   store_wakes f h + sum_list_with (λ l, closure_wakes f ((g <$> h !! l) ≫= Timer.m_cb)) E)%nat.
Proof.
  induction 1 as [|l E Hl Hnd IH]; intros h h' Hlive Hh'.
  - replace h' with h; [simpl; lia|]. apply map_eq. intros l. rewrite Hh'.
    rewrite decide_False by apply not_elem_of_nil. done.
  - destruct (Hlive l) as [x Hx]; [by left|].
    pose proof (store_wakes_alter f h g l x Hx) as Hone.
    assert (Hsame : ∀ l', l' ∈ E → alter g l h !! l' = h !! l').
    { intros l' Hl'. apply lookup_alter_ne. by intros ->. }
    pose proof (IH (alter g l h) h') as IH'.
    rewrite (sum_ext _ (λ l, closure_wakes f (TimerFacts.cb_of h l)) E) in IH'.
    2: { intros l' Hl'. unfold TimerFacts.cb_of. by rewrite Hsame. }
    rewrite (sum_ext (λ l', closure_wakes f ((g <$> alter g l h !! l') ≫= _)) (λ l, closure_wakes f ((g <$> h !! l) ≫= Timer.m_cb)) E) in IH'.
    2: { intros l' Hl'. by rewrite Hsame. }
    simpl. unfold TimerFacts.cb_of at 1. rewrite Hx. simpl.
    enough ((store_wakes f h' + sum_list_with (λ l, closure_wakes f (TimerFacts.cb_of h l)) E =
      store_wakes f (alter g l h) + sum_list_with (λ l, closure_wakes f ((g <$> h !! l) ≫= Timer.m_cb)) E)%nat) by lia.
    apply IH'.
    + intros l' Hl'. rewrite Hsame by done. apply Hlive. by right.
    + intros l'. rewrite Hh'. destruct (decide (l' ∈ E)) as [Hin|Hin].
      * rewrite decide_True by (by right). by rewrite Hsame.
      * destruct (decide (l' = l)) as [->|Hne].
        -- rewrite decide_True by by left. by rewrite lookup_alter_eq.
        -- rewrite decide_False by (by intros [?|?]%elem_of_cons). by rewrite lookup_alter_ne.
Qed.
(** ** What a client may hand in *)

(** From kernel state [k] to [k']. *)
Definition later (k k' : K) : Prop := interest k' = interest k ∧ brk k <= brk k' ∧ time k <= time k'.
(** A call of the C library that leaves the epoll instance alone. *)
Definition calm (f : libc K) : Prop := ∀ k, later k (f k).2.

Fixpoint code_ok (c : code K) : Prop :=
  match c with
  | CReturn | CThrow => True
  | CYield k => code_ok k
  | CSleep _ f k | CUsleep _ f k => calm f ∧ code_ok k
  | CNanosleep sec nsec f k => 0 <= sec * 1000 + nsec / 1000000 < 2 ^ 33 ∧ calm f ∧ code_ok k
  | CIo fd _ f k | CAccept fd f k => FdManager.is_fd fd ∧ calm f ∧ ∀ r, code_ok (k r)
  | CConnect fd _ f so_error k => FdManager.is_fd fd ∧ calm f ∧ calm so_error ∧ ∀ r, code_ok (k r)
  | CSocket f k | CSetsockopt _ _ _ _ _ f k | CGetsockopt f k => calm f ∧ ∀ r, code_ok (k r)
  | CClose fd f k | CIoctl fd _ _ f k => FdManager.is_fd fd ∧ calm f ∧ ∀ r, code_ok (k r)
  | CFcntl _ _ _ f k => (∀ cmd arg, calm (f cmd arg)) ∧ ∀ r, code_ok (k r)
  | CSchedule j _ k | CAddTimer _ j _ k => code_ok j ∧ code_ok k
  | CAddEvent fd event j k => FdManager.is_fd fd ∧ is_event event ∧ code_ok j ∧ ∀ r, code_ok (k r)
  | CCancelEvent fd event k => FdManager.is_fd fd ∧ is_event event ∧ ∀ r, code_ok (k r)
  | CCancelAll fd k => FdManager.is_fd fd ∧ ∀ r, code_ok (k r)
  end.

(** The callbacks on the run queue, in timers and of events. *)
Fixpoint callback_ok b : Prop :=
  match b with
  | Program c => code_ok c
  | Wake _ => True
  | Timeout _ fd event => desc fd ∧ is_event event
  | TimerCall (Timer.Fun b) => callback_ok b
  | TimerCall (Timer.BindCond _ (Some (Timeout _ fd event))) => desc fd ∧ is_event event
  | _ => False
  end.
Definition task_ok (fc : fiber_or_cb B) : Prop :=
  match fc with
  | IsFiber o => is_Some o
  | IsCb (Some b) => callback_ok b
  | IsCb None => False
  end.

(** The timer of a call that waits: it wakes nobody. *)
Definition timeout_only T (timer : option Z) : Prop :=
  match timer with
  | None => True
  | Some l => ∃ x, Timer.store T !! l = Some x ∧ ∀ b, Timer.m_cb x ≠ Some (Timer.Fun b)
  end.
(** What a fiber that waits, or has yielded, goes on with. *)
Definition rest_ok T b : Prop :=
  match b with
  | Program c | Slept c => code_ok c
  | IoBlocked _ fd f _ _ timer k => FdManager.is_fd fd ∧ calm f ∧ (∀ r, code_ok (k r)) ∧ timeout_only T timer
  | ConnectBlocked _ timer so_error k => calm so_error ∧ (∀ r, code_ok (k r)) ∧ timeout_only T timer
  | _ => False
  end.

(** ** The state a body works on, and what it may do to it *)
Section steps.
(** The thread, and the fiber that is running on it. *)
Variables (t c : Z).

Definition timer_ok (bound : Z) (l : Z) (x : Timer.Timer B) : Prop :=
  l < bound ∧ is_u64 (Timer.m_next x) ∧ ∀ cl, Timer.m_cb x = Some cl →
    callback_ok (TimerCall cl) ∧ (Timer.m_recurring x = true → ∀ g, closure_wakes g (Some cl) = 0%nat).

Record sound s : Prop := {
  so_io : io_ok s;
  so_room : 2 <= Z.of_nat (length (ctxs s));
  so_timers : TimerFacts.wf (p_timers s);
  so_store : ∀ l x, Timer.store (p_timers s) !! l = Some x → timer_ok (brk (kernel s)) l x;
  so_waiters : ∀ d ev w, 0 <= d → is_event ev → waiting s d ev = Some w → task_ok w;
  so_queue : ∀ it, it ∈ Scheduler.m_fibers (p_sched s) → task_ok (what it);
  so_here : t ∈ t_scheduler (p_sched s);
}.
Definition running s : Prop :=
  current t s = Some c ∧ ∃ x, heap (p_fibers s) !! c = Some x ∧ m_state x = EXEC.

(** Timers stay in the store.  They keep their callback or lose it, and one that is to
    wake a fiber stays as it is until it is due. *)
Definition timers_kept (now : Z) T T' : Prop :=
  ∀ l x, Timer.store T !! l = Some x →
    (∃ x', Timer.store T' !! l = Some x' ∧ (Timer.m_cb x' = Timer.m_cb x ∨ Timer.m_cb x' = None)) ∧
    (∀ b, Timer.m_cb x = Some (Timer.Fun b) → Timer.m_recurring x = false →
       Timer.store T' !! l = Some x ∨ Timer.m_next x <= now).

(** [s'] comes from [s], with [δ g] more wake-ups under way for each fiber [g]. *)
Record evolves (δ : Z → nat) s s' : Prop := {
  ev_sound : sound s';
  ev_fibers : p_fibers s' = p_fibers s;
  ev_wakes : ∀ g, wakes g s' = (wakes g s + δ g)%nat;
  ev_timers : timers_kept (time (kernel s')) (p_timers s) (p_timers s');
  ev_time : time (kernel s) <= time (kernel s');
  ev_brk : brk (kernel s) <= brk (kernel s');
}.
Definition none : Z → nat := λ _, 0%nat.

Lemma timers_kept_refl now T : timers_kept now T T.
Proof. intros l x Hx. split; [exists x; by split; [|left]|by left]. Qed.
Lemma timers_kept_trans n1 n2 T T1 T2 : n1 <= n2 →
  timers_kept n1 T T1 → timers_kept n2 T1 T2 → timers_kept n2 T T2.
Proof.
  intros Hn H1 H2 l x Hx. destruct (H1 l x Hx) as [(x1 & Hx1 & Hcb1) Hf1].
  destruct (H2 l x1 Hx1) as [(x2 & Hx2 & Hcb2) _]. split.
  - exists x2. split; [done|]. destruct Hcb2 as [->| ->]; [done|by right].
  - intros b Hb Hr. destruct (Hf1 b Hb Hr) as [H|H]; [|right; lia].
    destruct (H2 l x H) as [_ Hf2]. by apply (Hf2 b).
Qed.
Lemma timeout_only_kept now T T' timer : timers_kept now T T' → timeout_only T timer → timeout_only T' timer.
Proof.
  destruct timer as [l|]; [|done]. intros H (x & Hx & Hcb). destruct (H l x Hx) as [(x' & Hx' & Hor) _].
  exists x'. split; [done|]. intros b. destruct Hor as [->| ->]; [apply Hcb|done].
Qed.
Lemma rest_ok_kept now T T' b : timers_kept now T T' → rest_ok T b → rest_ok T' b.
Proof.
  intros H. destruct b; try done; simpl.
  - intros (? & ? & ? & ?). split_and!; try done. by eapply timeout_only_kept.
  - intros (? & ? & ?). split_and!; try done. by eapply timeout_only_kept.
Qed.

Lemma evolves_refl s : sound s → evolves none s s.
Proof. intros H. split; [done|done|intros g; unfold none; lia|apply timers_kept_refl|done|done]. Qed.
Lemma evolves_trans δ δ' s s1 s2 :
  evolves δ s s1 → evolves δ' s1 s2 → evolves (λ g, δ g + δ' g)%nat s s2.
Proof.
  intros H1 H2. split.
  - apply H2.
  - by rewrite (ev_fibers _ _ _ H2), (ev_fibers _ _ _ H1).
  - intros g. rewrite (ev_wakes _ _ _ H2), (ev_wakes _ _ _ H1). lia.
  - eapply timers_kept_trans; [apply H2|apply H1|apply H2].
  - etrans; [apply H1|apply H2].
  - etrans; [apply H1|apply H2].
Qed.
Lemma evolves_ext δ δ' s s' : (∀ g, δ g = δ' g) → evolves δ s s' → evolves δ' s s'.
Proof. intros E H. destruct H. split; try done. intros g. by rewrite <- E. Qed.
Lemma running_kept s s' : p_fibers s' = p_fibers s → running s → running s'.
Proof. unfold running, current. by intros ->. Qed.

(** [m] does that, however it returns. *)
Definition does {A} (δ : A → Z → nat) (m : M P A) : Prop :=
  ∀ s a s', sound s → running s → m s = Ok (a, s') → evolves (δ a) s s'.
Local Abbreviation neutral m := (does (λ _, none) m).

Lemma does_bind {A C} (m : M P A) (f : A → M P C) δ :
  neutral m → (∀ a, does δ (f a)) → does δ (bind m f).
Proof.
  intros Hm Hf s x s' Hs Hr (a & s1 & H1 & H2)%bind_ok. pose proof (Hm s a s1 Hs Hr H1) as E1.
  pose proof (Hf a s1 x s' (ev_sound _ _ _ E1) (running_kept _ _ (ev_fibers _ _ _ E1) Hr) H2) as E2.
  eapply evolves_ext; [|by eapply evolves_trans]. intros g. done.
Qed.
Lemma does_bind_ret {A C} (m : M P A) (f : A → C) δ δ' :
  does δ m → (∀ a, δ' (f a) = δ a) → does δ' (let* a := m in ret (f a)).
Proof.
  intros Hm E s x s' Hs Hr (a & s1 & H1 & H2)%bind_ok. apply ret_ok in H2 as [-> ->]. rewrite E. by apply Hm.
Qed.
Lemma does_ret {A} (a : A) : neutral (ret a).
Proof. intros s b s' Hs _ [_ ->]%ret_ok. by apply evolves_refl. Qed.
Lemma does_fail {A} δ e : does δ (fail e : M P A).
Proof. done. Qed.
Lemma does_pure {A} (m : M P A) : (∀ s a s', m s = Ok (a, s') → s' = s) → neutral m.
Proof. intros H s a s' Hs _ ->%H. by apply evolves_refl. Qed.
Lemma does_gets {A} (f : P → A) : neutral (gets f).
Proof. apply does_pure. by intros s a s' [_ ->]%gets_ok. Qed.
Lemma does_get_sched {A} (f : Scheduler B → A) : neutral (get_sched f).
Proof. apply does_gets. Qed.
Lemma does_assert (ok : bool) w : neutral (assert_ ok w).
Proof. apply does_pure. by intros s u s' [_ ->]%assert_ok. Qed.
Lemma does_deref {A} (o : option A) w : neutral (deref o w).
Proof. apply does_pure. by intros s u s' [_ ->]%deref_ok. Qed.
Lemma does_when (ok : bool) m : neutral m → neutral (when ok m).
Proof. destruct ok; [done|]. intros _. apply does_ret. Qed.
End steps.
End wakeups.
End Wakeup.
