(* ===== verification/SystemSteps.v ===== *)
(** * What the operations do to the wake-ups

    Each operation a body of [Systems] makes, as a step of [Wakeup.evolves]: which fibers
    it adds wake-ups for, in a state it finds and leaves sound. *)
From stdpp Require Import base gmap list strings.
From Stdlib Require Import ZArith Lia.
From S2P Require Import Prelude StdSet Timers TimerFacts Fibers FiberFacts Schedulers SchedulerFacts.
From S2P Require Import FdManagers IOManagers IOManagerFacts Hooks HookFacts IdleFacts Systems Wakeups.
Open Scope Z_scope.

Module SystemSteps.
Import Fiber FiberFacts Scheduler SchedulerFacts IOManager IOManagerFacts Hook HookFacts System Wakeup.

Create HintDb ages.
Create HintDb does.

(** [go] goes through the operations of a definition. *)
Ltac go :=
  repeat first
    [ progress intros | progress cbv zeta | solve [auto with does]
    | match goal with
      | |- does _ _ _ (bind _ _) => apply does_bind
      | |- does _ _ _ (match ?x with _ => _ end) => destruct x
      | |- does _ _ _ (when _ _) => apply does_when
      end ].

Section steps.
Context {K : Type} `{!Kernel K} `{!KernelLaws K} `{!KernelTime K}.
Local Abbreviation B := (body K).
Local Abbreviation P := (Process (body K) K).
Implicit Types (s : P) (b : body K) (T : Timer.TimerManager (body K)).
(** The thread, and the fiber that is running on it. *)
Variables (t c : Z).
Local Abbreviation sound := (sound t).
Local Abbreviation running := (running t c).
Local Abbreviation evolves := (evolves t).
Local Abbreviation does := (does t c).
Local Abbreviation neutral m := (Wakeup.does t c (λ _, none) m).

(** *** What never goes back

    The kernel's clock and memory, the room for descriptors and the thread's scheduler. *)
Record ages_to s s' : Prop := {
  ag_brk : brk (kernel s) <= brk (kernel s');
  ag_time : time (kernel s) <= time (kernel s');
  ag_room : (length (ctxs s) <= length (ctxs s'))%nat;
  ag_here : t_scheduler (p_sched s') = t_scheduler (p_sched s);
}.
Definition ages {A} (m : M P A) : Prop := ∀ s a s', m s = Ok (a, s') → ages_to s s'.

Lemma ages_to_refl s : ages_to s s.
Proof. by split. Qed.
Lemma ages_to_trans s1 s2 s3 : ages_to s1 s2 → ages_to s2 s3 → ages_to s1 s3.
Proof. intros [] []. split; (lia || congruence). Qed.
Lemma ages_bind {A C} (m : M P A) (f : A → M P C) : ages m → (∀ a, ages (f a)) → ages (bind m f).
Proof. intros Hm Hf s x s' (a & s1 & H1%Hm & H2%Hf)%bind_ok. by eapply ages_to_trans. Qed.
Lemma ages_pure {A} (m : M P A) : (∀ s a s', m s = Ok (a, s') → s' = s) → ages m.
Proof. intros H s a s' ->%H. apply ages_to_refl. Qed.
Lemma ages_ret {A} (a : A) : ages (ret a).
Proof. apply ages_pure. by intros s b s' [_ ->]%ret_ok. Qed.
Lemma ages_fail {A} e : ages (fail e : M P A).
Proof. done. Qed.
Lemma ages_gets {A} (f : P → A) : ages (gets f).
Proof. apply ages_pure. by intros s b s' [_ ->]%gets_ok. Qed.
Lemma ages_get_sched {A} (f : Scheduler B → A) : ages (get_sched f).
Proof. apply ages_gets. Qed.
Lemma ages_assert (ok : bool) w : ages (assert_ ok w).
Proof. apply ages_pure. by intros s u s' [_ ->]%assert_ok. Qed.
Lemma ages_deref {A} (o : option A) w : ages (deref o w).
Proof. apply ages_pure. by intros s u s' [_ ->]%deref_ok. Qed.
Lemma ages_when (ok : bool) m : ages m → ages (when ok m).
Proof. destruct ok; [done|]. intros _. apply ages_ret. Qed.
Lemma ages_same {A} (m : M P A) :
  (∀ s a s', m s = Ok (a, s') → kernel s' = kernel s ∧ ctxs s' = ctxs s ∧ p_sched s' = p_sched s) → ages m.
Proof. intros H s a s' (Hk & Hc & Hs)%H. split; by rewrite ?Hk, ?Hc, ?Hs. Qed.
Lemma ages_on_fibers {A} (m : M (Fibers B) A) : ages (on_fibers m).
Proof. apply ages_same. by intros s a s' (F & _ & ->)%on_fibers_inv. Qed.
Lemma ages_sys {A} (f : K → A * K) : (∀ k, brk k <= brk (f k).2 ∧ time k <= time (f k).2) → ages (sys f).
Proof.
  intros Hf s a s' H. unfold sys in H. destruct (f (kernel s)) as [b k] eqn:E. injection H as _ <-.
  destruct (Hf (kernel s)) as [? ?]. rewrite E in *. by split.
Qed.

Lemma ages_update_context (h : FdContext B → FdContext B) i : ages (update_context h i : M P unit).
Proof.
  intros s u s' ->%modify_ok. split; try done. unfold ctxs. simpl. by rewrite length_alter.
Qed.
Lemma ages_add_pending d : ages (add_pending d : M P unit).
Proof. apply ages_same. by intros s u s' ->%modify_ok. Qed.
Lemma ages_context_at i : ages (context_at i : M P (FdContext B)).
Proof. apply ages_pure. by intros s x s' [_ ->]%context_at_ok. Qed.
Lemma ages_tickle : ages (tickle : M P unit).
Proof.
  unfold tickle. apply ages_bind; [apply ages_gets|]. intros b. apply ages_when, ages_bind; [|intros; apply ages_assert].
  apply ages_sys. intros k. destruct (pipe_write k) eqn:E. by eapply write_later.
Qed.
Lemma ages_schedule fc thr : ages (schedule fc thr : M P unit).
Proof.
  unfold schedule, schedule_no_lock. apply ages_bind; [|intros b; apply ages_when, ages_tickle].
  apply ages_bind; [apply ages_get_sched|]. intros b. apply ages_bind; [|intros; apply ages_ret].
  intros s u s' ->%modify_ok. by split.
Qed.
Lemma ages_getContext ev (x : FdContext B) : ages (getContext ev x : M P _).
Proof. unfold getContext. destruct (ev =? READ), (ev =? WRITE); apply ages_ret || apply ages_fail. Qed.
Lemma ages_ctl op d ev : ages (sys (epoll_ctl op d ev) : M P Z).
Proof. apply ages_sys. intros k. destruct (epoll_ctl op d ev k) eqn:E. by eapply ctl_later. Qed.
#[local] Hint Resolve ages_bind ages_ret ages_fail ages_gets ages_get_sched ages_assert ages_deref ages_when
  ages_on_fibers ages_update_context ages_add_pending ages_context_at ages_tickle ages_schedule
  ages_getContext ages_ctl : ages.

(** [age] goes through the operations of a definition. *)
Ltac age :=
  repeat first
    [ progress intros | progress cbv zeta | solve [auto with ages]
    | match goal with
      | |- ages (bind _ _) => apply ages_bind
      | |- ages (match ?x with _ => _ end) => destruct x
      | |- ages (when _ _) => apply ages_when
      end ].

Lemma ages_grow fuel fd : ages (grow fuel fd : M P unit).
Proof.
  induction fuel as [|fuel IH]; [apply ages_fail|]. rewrite grow_S.
  intros s u s' (size & s0 & H0 & H)%bind_ok. apply gets_ok in H0 as [-> ->].
  destruct (_ <=? _); [|by apply ages_ret in H]. apply bind_ok in H as (v & s1 & H1 & H). apply IH in H.
  eapply ages_to_trans; [|exact H]. clear H. unfold context_resize in H1. destruct (_ <? _); [done|].
  apply bind_ok in H1 as (l & s2 & H2 & H1). apply gets_ok in H2 as [-> ->]. apply modify_ok in H1 as ->.
  split; try done. unfold ctxs. simpl. unfold resized.
  rewrite length_app, length_take, length_fmap, length_seq.
  pose proof (Z.div_pos (Z.of_nat (length (m_fd_contexts (p_iom s)))) 2). lia.
Qed.
Lemma ages_add_event fd ev (o : option B) : ages (add_event t fd ev o : M P Z).
Proof. unfold add_event, contexts_size. age. apply ages_grow. Qed.
Lemma ages_trigger ev i : ages (triggerEvent ev i : M P unit).
Proof. unfold triggerEvent. age. Qed.
#[local] Hint Resolve ages_trigger ages_add_event : ages.
Lemma ages_trigger_if mask ev i : ages (trigger_if mask ev i : M P unit).
Proof. unfold trigger_if. age. Qed.
#[local] Hint Resolve ages_trigger_if : ages.
Lemma ages_cancel_event fd ev : ages (cancel_event fd ev : M P bool).
Proof. unfold cancel_event, contexts_size. age. Qed.
Lemma ages_cancel_all fd : ages (cancel_all fd : M P bool).
Proof. unfold cancel_all, contexts_size. age. Qed.
(** *** The kernel, descriptors' contexts and timeout objects *)
Lemma same_evolves s s' :
  p_fibers s' = p_fibers s → p_sched s' = p_sched s → p_timers s' = p_timers s → p_iom s' = p_iom s →
  later (kernel s) (kernel s') → sound s → evolves none s s'.
Proof.
  intros Hf Hsch Ht Hi (Hk & Hb & Htm) [Hio Hroom Htim Hst Hw Hq Hh].
  assert (Hwait : ∀ d ev, waiting s' d ev = waiting s d ev) by (unfold waiting, ctxs; by rewrite Hi).
  split; try done.
  - split; try (rewrite ?Ht, ?Hsch; done).
    + by eapply io_ok_events.
    + unfold ctxs. by rewrite Hi.
    + intros l x. rewrite Ht. intros Hx. destruct (Hst l x Hx) as [Hlt Hcb]. split; [lia|done].
    + intros d ev w. rewrite Hwait. apply Hw.
  - intros g. unfold wakes, queue_wakes, timer_wakes, none.
    rewrite (event_wakes_same g s s') by (intros; apply Hwait). rewrite Hsch, Ht. lia.
  - rewrite Ht. apply timers_kept_refl.
Qed.
Lemma later_refl (k : K) : later k k.
Proof. done. Qed.

Lemma does_sys {A} (f : K → A * K) : (∀ k, later k (f k).2) → neutral (sys f).
Proof.
  intros Hf s a s' Hs _ H. unfold sys in H. specialize (Hf (kernel s)).
  destruct (f (kernel s)) as [b k]. injection H as _ <-. by apply same_evolves.
Qed.
Lemma does_calm (f : libc K) : calm f → neutral (sys f).
Proof. apply does_sys. Qed.
Lemma does_clock : neutral (sys clock_ms).
Proof.
  apply does_sys. intros k. destruct (clock_ms k) as [z k'] eqn:E. apply clock_interest in E as Hi.
  destruct (clock_later _ _ _ E) as [? ?]. split; [done|]. simpl. lia.
Qed.
Lemma does_allocate : neutral (sys allocate_address).
Proof.
  apply does_sys. intros k. destruct (allocate_address k) as [a k'] eqn:E. apply address_interest in E as Hi.
  destruct (alloc_later _ _ _ E) as [? ?]. split; [done|]. simpl. lia.
Qed.
Lemma does_read_pipe : neutral (sys pipe_read).
Proof.
  apply does_sys. intros k. destruct (pipe_read k) as [rt k'] eqn:E. apply read_interest in E as Hi.
  by destruct (read_later _ _ _ E).
Qed.
Lemma does_wait_epoll tmo : neutral (sys (epoll_wait tmo)).
Proof.
  apply does_sys. intros k. destruct (epoll_wait tmo k) as [r k'] eqn:E.
  by destruct (wait_later _ _ _ _ E) as (? & ? & ? & _).
Qed.
Lemma does_tickle : neutral tickle.
Proof.
  unfold tickle. apply does_bind; [apply does_gets|]. intros ok. apply does_when.
  intros s u s' Hs _ (rt & s1 & H1 & H)%bind_ok. apply assert_ok in H as [Hrt ->]. apply Z.eqb_eq in Hrt as ->.
  unfold sys in H1. destruct (write_one (kernel s)) as (k & Hk & Hi). rewrite Hk in H1. injection H1 as <-.
  apply same_evolves; try done. by destruct (write_later _ _ _ Hk).
Qed.
Lemma does_on_fds {A} (m : M FdManager.FdManger A) : neutral (on_fds m).
Proof.
  intros s a s' Hs _ H. unfold on_fds in H. destruct (m (p_fds s)) as [[x d]|]; [|done]. injection H as _ <-.
  by apply same_evolves.
Qed.
Lemma does_set_cancelled w e : neutral (set_cancelled w e : M P unit).
Proof. intros s u s' Hs _ ->%modify_ok. by apply same_evolves. Qed.
Lemma does_drop_tinfo w : neutral (drop_tinfo w : M P unit).
Proof. intros s u s' Hs _ ->%modify_ok. by apply same_evolves. Qed.
Lemma does_new_tinfo : neutral new_tinfo.
Proof.
  unfold new_tinfo. apply does_bind; [apply does_allocate|]. intros a. apply does_bind; [|intros; apply does_ret].
  intros s u s' Hs _ ->%modify_ok. by apply same_evolves.
Qed.
Lemma this_fiber s a s' : running s → on_fibers (GetThis t) s = Ok (a, s') → a = c ∧ s' = s.
Proof.
  intros [Hc _] H. unfold on_fibers in H. simpl in H. rewrite (GetThis_ok t c) in H by exact Hc.
  injection H as <- <-. by destruct s.
Qed.
Lemma does_this_iom : neutral (this_iom t).
Proof.
  unfold this_iom, GetThis_io. apply does_bind; [apply does_get_sched|]. intros here. apply does_deref.
Qed.
#[local] Hint Resolve does_bind does_ret does_fail does_gets does_get_sched does_assert does_deref does_when
  does_calm does_clock does_allocate does_read_pipe does_wait_epoll does_tickle does_on_fds does_set_cancelled
  does_drop_tinfo does_new_tinfo does_this_iom : does.

(** *** The run queue *)
Lemma queue_wakes_enqueue g items s :
  queue_wakes g (enqueue items s) = (queue_wakes g s + sum_list_with (λ it, task_wakes g (what it)) items)%nat.
Proof. unfold queue_wakes, enqueue. simpl. by rewrite sum_list_with_app. Qed.
Lemma enqueue_evolves items s :
  (∀ it, it ∈ items → task_ok (what it)) → sound s →
  evolves (λ g, sum_list_with (λ it, task_wakes g (what it)) items) s (enqueue items s).
Proof.
  intros Hit [Hio Hroom Htim Hst Hw Hq Hh]. split; try done.
  - split; try done; [by apply (io_ok_events s)|]. intros it. unfold enqueue. simpl. rewrite elem_of_app.
    intros [?|?]; auto.
  - intros g. unfold wakes. rewrite queue_wakes_enqueue.
    change (timer_wakes g (enqueue items s)) with (timer_wakes g s).
    change (event_wakes g (enqueue items s)) with (event_wakes g s). lia.
  - apply timers_kept_refl.
Qed.
Lemma does_schedule fc thr : task_ok fc → does (λ _ g, task_wakes g fc) (schedule fc thr).
Proof.
  intros Hfc s u s' Hs Hr H. unfold schedule in H. rewrite (bind_step _ _ _ _ _ (schedule_no_lock_ok fc thr s)) in H.
  assert (E1 : evolves (λ g, task_wakes g fc) s (enqueue [MkTask fc thr] s)).
  { eapply evolves_ext; [|apply enqueue_evolves; [|done]].
    - intros g. simpl. lia.
    - by intros it ->%list_elem_of_singleton. }
  assert (E2 : evolves none (enqueue [MkTask fc thr] s) s').
  { eapply (does_when t c _ _ does_tickle); [apply E1|by eapply running_kept; [apply E1|]|exact H]. }
  eapply evolves_ext; [|by eapply evolves_trans]. intros g. simpl. unfold none. lia.
Qed.
(** *** Timers *)
Lemma ages_get_tm {A} (f : Timer.TimerManager B → A) : ages (Timer.get_tm f : M P A).
Proof. apply ages_gets. Qed.
Lemma ages_modify_tm f : ages (Timer.modify_tm f : M P unit).
Proof. apply ages_same. by intros s u s' ->%modify_ok. Qed.
Lemma ages_timer_at l : ages (Timer.timer_at l : M P _).
Proof. unfold Timer.timer_at. age. apply ages_get_tm. Qed.
Lemma ages_clock : ages (sys clock_ms : M P Z).
Proof.
  apply ages_sys. intros k. destruct (clock_ms k) as [z k'] eqn:E. destruct (clock_later _ _ _ E). simpl. lia.
Qed.
Lemma ages_allocate : ages (sys allocate_address : M P Z).
Proof.
  apply ages_sys. intros k. destruct (allocate_address k) as [z k'] eqn:E. destruct (alloc_later _ _ _ E). simpl. lia.
Qed.
#[local] Hint Resolve ages_get_tm ages_modify_tm ages_timer_at ages_clock ages_allocate : ages.
Lemma ages_add_locked l : ages (Timer.add_timer_locked l : M P Z).
Proof. unfold Timer.add_timer_locked. age. Qed.
#[local] Hint Resolve ages_add_locked : ages.
Lemma ages_add_timer a now ms cb recurring : ages (Timer.add_timer a now ms cb recurring : M P Z).
Proof. unfold Timer.add_timer. age. Qed.
Lemma ages_push now E : ∀ cbs, ages (Timer.push_expired now E cbs : M P _).
Proof. induction E as [|l E IH]; intros cbs; simpl; unfold Timer.update_timer; age. Qed.
#[local] Hint Resolve ages_add_timer ages_push : ages.
Lemma ages_expired now probe cbs : ages (Timer.list_expired_cbs now probe cbs : M P _).
Proof. unfold Timer.list_expired_cbs, Timer.list_expired_empty, Timer.list_expired_write. age. Qed.

Lemma timers_evolve δ s T k :
  sound s → later (kernel s) k → TimerFacts.wf T →
  (∀ l x, Timer.store T !! l = Some x → timer_ok (brk k) l x) →
  (∀ g, store_wakes g (Timer.store T) = store_wakes g (Timer.store (p_timers s)) + δ g)%nat →
  timers_kept (time k) (p_timers s) T → evolves δ s (with_timers T (with_kernel k s)).
Proof.
  intros [Hio Hroom Htim Hst Hw Hq Hh] (Hk & Hb & Htm) Hwf Hst' Hwakes Hkept. split; try done.
  - split; try done. eapply (timers_io_ok s _ T k); done.
  - intros g. unfold wakes, timer_wakes. simpl. rewrite Hwakes. 
    change (queue_wakes g (with_timers T (with_kernel k s))) with (queue_wakes g s).
    change (event_wakes g (with_timers T (with_kernel k s))) with (event_wakes g s). lia.
Qed.
Lemma timer_ok_later k k' l x : brk k <= brk k' → timer_ok (brk k) l x → timer_ok (brk k') l x.
Proof. intros Hk [Hl Hx]. split; [lia|done]. Qed.

(** A new timer. *)
Definition arm (ms : Z) (cl : Timer.closure B) (recurring : bool) : M P Z :=
  let* a := sys allocate_address in
  let* now := sys clock_ms in
  Timer.add_timer a now ms (Some cl) recurring.

Lemma arm_evolves ms cl recurring s l s' :
  callback_ok (TimerCall cl) → (recurring = true → ∀ g, closure_wakes g (Some cl) = 0%nat) →
  sound s → arm ms cl recurring s = Ok (l, s') →
  evolves (λ g, closure_wakes g (Some cl)) s s' ∧ p_fibers s' = p_fibers s ∧
  ∃ now, time (kernel s) <= now <= time (kernel s') ∧ Timer.store (p_timers s) !! l = None ∧
    Timer.store (p_timers s') !! l = Some (Timer.MkTimer recurring ms (u64 (now + ms)) (Some cl)).
Proof.
  intros Hcl Hrec Hs H. unfold arm in H.
  destruct (allocate_address (kernel s)) as [a k1] eqn:Ea. rewrite (bind_step _ _ _ _ _ (sys_ok _ _ _ _ Ea)) in H.
  destruct (clock_ms k1) as [now k2] eqn:Ec. rewrite (bind_step _ _ (with_kernel k1 s) now (with_kernel k2 (with_kernel k1 s))) in H by by apply sys_ok.
  destruct (alloc_later _ _ _ Ea) as [Hb1 Ht1]. destruct (clock_later _ _ _ Ec) as [Hb2 Ht2].
  assert (Hfresh : Timer.store (p_timers s) !! a = None).
  { destruct (Timer.store (p_timers s) !! a) as [x|] eqn:E; [|done].
    destruct (so_store _ _ Hs _ _ E). lia. }
  pose proof (ages_add_timer _ _ _ _ _ _ _ _ H) as [Hb3 Ht3 _ _]. simpl in Hb3, Ht3.
  assert (Hwf0 : TimerFacts.wf (Timer.manager (with_kernel k2 (with_kernel k1 s)))) by exact (so_timers _ _ Hs).
  destruct (TimerFacts.add_refines (S:=P) a now ms (Some cl) recurring (with_kernel k2 (with_kernel k1 s)) l s'
              Hwf0 Hfresh ltac:(done) H) as (-> & Hwf & Hst). clear Hwf0.
  assert (Hshape : ∃ T k, s' = with_timers T (with_kernel k (with_kernel k2 (with_kernel k1 s))) ∧
            interest k = interest k2).
  { unfold Timer.add_timer in H. apply bind_ok in H as (u & s1 & H1 & H).
    apply IdleFacts.timers_only_modify in H1 as (T1 & k3 & -> & Hk3).
    apply IdleFacts.timers_only_add in H as (T & k & -> & Hk). exists T, k. split; [done|].
    by rewrite Hk. }
  destruct Hshape as (T & k & -> & Hk). simpl in *.
  split; [|split; [done|]].
  - change (with_timers T _) with (with_timers T (with_kernel k s)). apply timers_evolve; simpl; try done.
    + split; [|lia]. rewrite Hk, (clock_interest _ _ _ Ec). by eapply address_interest.
    + intros l x. rewrite Hst, lookup_insert_Some. intros [[<- <-]|[_ Hx]].
      * split; [lia|]. split; [apply u64_range|]. by intros cl' [= <-].
      * eapply timer_ok_later; [|by eapply so_store]. lia.
    + intros g. rewrite Hst, store_wakes_insert by done. simpl. lia.
    + intros l x Hx. rewrite Hst. assert (a ≠ l) by congruence. rewrite lookup_insert_ne by done.
      split; [exists x; by split; [|left]|by left].
  - exists now. split; [lia|]. split; [done|]. by rewrite Hst, lookup_insert_eq.
Qed.
Lemma kernel_same s : with_kernel (kernel s) s = s.
Proof. by destruct s. Qed.

(** A call that is over cancels its timer. *)
Lemma cancel_evolves l s ok s' :
  timeout_only (p_timers s) (Some l) → sound s → Timer.cancel l s = Ok (ok, s') → evolves none s s'.
Proof.
  intros (x & Hx & Hcb) Hs H.
  destruct (cancel_timer_ok l s (so_timers _ _ Hs) ltac:(by eexists)) as (ok' & T & H' & Hwf & _ & _).
  rewrite H' in H. injection H as -> <-.
  assert (Hwf0 : TimerFacts.wf (Timer.manager s)) by exact (so_timers _ _ Hs).
  destruct (TimerFacts.cancel_refines (S:=P) l s ok _ Hwf0 H') as [_ E].
  assert (Hst : Timer.store T = Timer.store (p_timers s) ∨
                Timer.store T = alter Timer.clear_cb l (Timer.store (p_timers s))).
  { simpl in E. case_decide; injection E as _ E; [by right|by left]. }
  rewrite <- (kernel_same s) at 2. apply timers_evolve; [done|apply later_refl|done| | |].
  - intros l' x'. destruct Hst as [->| ->]; [apply (so_store _ _ Hs)|].
    rewrite lookup_alter_Some. intros [(-> & y & Hy & ->)|[_ Hy]]; [|by apply (so_store _ _ Hs)].
    destruct (so_store _ _ Hs _ _ Hy) as (? & ? & _). by split_and!.
  - intros g. destruct Hst as [->| ->]; [unfold none; lia|].
    pose proof (store_wakes_alter g _ Timer.clear_cb l x Hx) as Hone. unfold none. simpl in Hone.
    assert (closure_wakes g (Timer.m_cb x) = 0%nat); [|lia].
    destruct (Timer.m_cb x) as [[b|]|]; [|done..]. by specialize (Hcb b).
  - destruct Hst as [Est|Est]; intros l' x' Hx'; rewrite Est.
    + split; [exists x'; by split; [|left]|by left].
    + destruct (decide (l' = l)) as [->|Hne].
      * rewrite Hx' in Hx. injection Hx as ->. rewrite lookup_alter_eq, Hx'. split; [eexists; split; [done|by right]|].
        intros b Hb. by specialize (Hcb b).
      * rewrite lookup_alter_ne by done. split; [exists x'; by split; [|left]|by left].
Qed.
Lemma cancel_if_evolves timer s u s' :
  timeout_only (p_timers s) timer → sound s → cancel_if timer s = Ok (u, s') → evolves none s s'.
Proof.
  intros Ht Hs H. destruct timer as [l|]; simpl in H.
  - apply bind_ok in H as (ok & s1 & H & H1). apply ret_ok in H1 as [_ ->]. by eapply cancel_evolves.
  - apply ret_ok in H as [_ ->]. by apply evolves_refl.
Qed.

(** The timers that are due go from the set to the run queue. *)
Lemma expired_evolves now probe s r s' :
  now <= time (kernel s) → Timer.store (p_timers s) !! probe = None →
  sound s → Timer.list_expired_cbs now probe [] s = Ok (r, s') →
  sound s' ∧ p_fibers s' = p_fibers s ∧ (∀ f, f ∈ r → ∃ cl, f = Some cl ∧ callback_ok (TimerCall cl)) ∧
  (∀ g, wakes g s' + sum_list_with (closure_wakes g) r = wakes g s)%nat ∧
  timers_kept (time (kernel s')) (p_timers s) (p_timers s') ∧
  time (kernel s) <= time (kernel s') ∧ brk (kernel s) <= brk (kernel s').
Proof.
  intros Hnow Hprobe Hs H.
  pose proof (ages_expired _ _ _ _ _ _ H) as [Hb Ht _ _].
  assert (Hwf0 : TimerFacts.wf (Timer.manager s)) by exact (so_timers _ _ Hs).
  assert (Hp0 : Timer.store (Timer.manager s) !! probe = None) by exact Hprobe.
  destruct (TimerFacts.list_expired_ok (S:=P) now probe [] s r s' Hwf0 Hp0 H) as (Hwf & E & -> & HX & _). pose proof (λ l, TimerFacts.expiry_due _ _ _ _ _ l HX) as Hdue. destruct HX as (HE & _ & Hst).
  apply IdleFacts.timers_only_expired in H as (T & k & -> & Hk). simpl in *.
  assert (Hlive : ∀ l, l ∈ E → ∃ x cl, Timer.store (p_timers s) !! l = Some x ∧ Timer.m_cb x = Some cl ∧ Timer.m_next x <= now).
  { intros l Hl. destruct (Hdue l Hl) as [(x & Hx & Hcb) Hn]. unfold Timer.next_of in Hn. rewrite Hx in Hn.
    destruct (Timer.m_cb x) as [cl|] eqn:Ecb; [|done]. by exists x, cl. }
  pose proof (StdSet.sorted_NoDup _ _ HE) as Hnd.
  assert (Hsum : ∀ g, (store_wakes g (Timer.store T) +
             sum_list_with (closure_wakes g) (TimerFacts.cb_of (Timer.store (p_timers s)) <$> E) =
           store_wakes g (Timer.store (p_timers s)))%nat).
  { intros g. pose proof (store_wakes_list g (TimerFacts.fire now) E Hnd _ _
      ltac:(intros l Hl; destruct (Hlive l Hl) as (x & cl & -> & _); by eexists) Hst) as Hlist.
    rewrite (sum_zero (λ l, closure_wakes g ((TimerFacts.fire now <$> Timer.store (p_timers s) !! l) ≫= Timer.m_cb)) E) in Hlist.
    - replace (sum_list_with (closure_wakes g) (TimerFacts.cb_of (Timer.store (p_timers s)) <$> E))
        with (sum_list_with (λ l, closure_wakes g (TimerFacts.cb_of (Timer.store (p_timers s)) l)) E); [lia|].
      clear. induction E as [|l E IH]; [done|]. simpl. by rewrite IH.
    - intros l Hl. destruct (Hlive l Hl) as (x & cl & Hx & Hcb & _). rewrite Hx. simpl. unfold TimerFacts.fire.
      destruct (Timer.m_recurring x) eqn:Erec; [|done]. simpl.
      destruct (so_store _ _ Hs _ _ Hx) as (_ & _ & Hok). rewrite Hcb. by apply (Hok cl). }
  destruct Hs as [Hio Hroom Htim Hst0 Hw Hq Hh]. split; [|split; [done|split; [|split; [|split; [|done]]]]].
  - split; try done; [by eapply (timers_io_ok s _ T k)|]. simpl. intros l x. rewrite Hst.
    case_decide as Hl; [|intros Hx; eapply timer_ok_later; [done|by apply Hst0]].
    destruct (Timer.store (p_timers s) !! l) as [y|] eqn:Hy; [|done]. intros [= <-].
    destruct (Hst0 l y Hy) as (Hlt & Hn & Hok). unfold TimerFacts.fire. split; [lia|].
    destruct (Timer.m_recurring y) eqn:Er; simpl; [|done]. split; [apply u64_range|]. rewrite Er. apply Hok.
  - intros f (l & -> & Hl)%list_elem_of_fmap. destruct (Hlive l Hl) as (x & cl & Hx & Hcb & _).
    unfold TimerFacts.cb_of. rewrite Hx. simpl. exists cl. split; [done|].
    destruct (Hst0 l x Hx) as (_ & _ & Hok). by apply Hok.
  - intros g. unfold wakes, timer_wakes. simpl. rewrite <- (Hsum g).
    change (queue_wakes g (with_timers T (with_kernel k s))) with (queue_wakes g s).
    change (event_wakes g (with_timers T (with_kernel k s))) with (event_wakes g s). lia.
  - intros l x Hx. rewrite Hst, Hx. case_decide as Hl; simpl.
    + unfold TimerFacts.fire. split.
      * eexists. split; [done|]. destruct (Timer.m_recurring x); [by left|by right].
      * intros b _ _. right. destruct (Hlive l Hl) as (y & cl & Hy & _ & Hn). rewrite Hx in Hy. injection Hy as ->. lia.
    + split; [exists x; by split; [|left]|by left].
Qed.

Lemma does_schedule_timers : neutral schedule_timers.
Proof.
  intros s u s' Hs Hr H. unfold schedule_timers in H.
  apply bind_ok in H as (now & s1 & H1 & H). apply bind_ok in H as (probe & s2 & H2 & H).
  pose proof (does_clock s now s1 Hs Hr H1) as E1.
  pose proof (running_kept _ _ _ _ (ev_fibers _ _ _ _ E1) Hr) as Hr1.
  pose proof (does_allocate s1 probe s2 (ev_sound _ _ _ _ E1) Hr1 H2) as E2.
  assert (Hnow : now <= time (kernel s2)).
  { unfold sys in H1. destruct (clock_ms (kernel s)) as [z k] eqn:Ec. injection H1 as -> <-.
    destruct (clock_later _ _ _ Ec). pose proof (ev_time _ _ _ _ E2). simpl in *. lia. }
  assert (Hprobe : Timer.store (p_timers s2) !! probe = None).
  { unfold sys in H2. destruct (allocate_address (kernel s1)) as [z k] eqn:Ea. injection H2 as -> <-. simpl.
    destruct (Timer.store (p_timers s1) !! probe) as [x|] eqn:Ex; [|done].
    destruct (so_store _ _ (ev_sound _ _ _ _ E1) _ _ Ex). destruct (alloc_later _ _ _ Ea). lia. }
  apply bind_ok in H as (r & s3 & H3 & H).
  destruct (expired_evolves now probe s2 r s3 Hnow Hprobe (ev_sound _ _ _ _ E2) H3) as (Hs3 & Hf3 & Hok & Hw & Hkept & Htime & Hbrk).
  pose proof (evolves_trans _ _ _ _ _ _ E1 E2) as E12.
  assert (Hr3 : running s3).
  { eapply running_kept; [|exact Hr]. rewrite Hf3. apply (ev_fibers _ _ _ _ E12). }
  assert (Hrun : (schedule_range (map (λ f, IsCb (timer_body <$> f)) r) ;;; ret tt) s3 = Ok (u, s') ∨ r = [] ∧ s' = s3).
  { destruct r; [right; by apply ret_ok in H as [_ ->]|by left]. }
  clear H. assert (E3 : evolves (λ g, sum_list_with (closure_wakes g) r) s3 s').
  { destruct Hrun as [H|[-> ->]].
    - apply bind_ok in H as (v & s4 & H4 & H). apply ret_ok in H as [_ ->]. unfold schedule_range in H4.
      rewrite (bind_step _ _ _ _ _ (schedule_loop_ok _ _ _)) in H4.
      set (items := map (λ fc, MkTask fc (-1)) (map (λ f, IsCb (timer_body <$> f)) r)) in *.
      assert (E3 : evolves (λ g, sum_list_with (λ it, task_wakes g (what it)) items) s3 (enqueue items s3)).
      { apply enqueue_evolves; [|done]. intros it. unfold items. rewrite map_map, list_elem_of_In, in_map_iff.
        intros (f & <- & Hf%list_elem_of_In). destruct (Hok f Hf) as (cl & -> & Hcl). exact Hcl. }
      apply bind_ok in H4 as (w & s5 & H4 & H5). apply ret_ok in H5 as [_ ->].
      assert (E4 : evolves none (enqueue items s3) s5).
      { eapply (does_when t c _ _ does_tickle); [apply E3|by eapply running_kept; [apply E3|]|exact H4]. }
      eapply evolves_ext; [|by eapply evolves_trans]. intros g. unfold none, items. simpl. clear -r.
      induction r as [|f r IH]; [done|]. simpl. rewrite <- IH. destruct f as [[b|]|]; simpl; lia.
    - by eapply evolves_refl. }
  pose proof (λ g, ev_wakes _ _ _ _ E3 g) as Hw3. split.
  - apply E3.
  - rewrite (ev_fibers _ _ _ _ E3), Hf3. apply (ev_fibers _ _ _ _ E12).
  - intros g. rewrite Hw3. pose proof (ev_wakes _ _ _ _ E12 g) as Hw12. specialize (Hw g). unfold none in *. simpl in Hw12. lia.
  - eapply (timers_kept_trans (time (kernel s3))); [apply E3| |apply E3].
    eapply (timers_kept_trans (time (kernel s2))); [done|apply E12|done].
  - pose proof (ev_time _ _ _ _ E3). pose proof (ev_time _ _ _ _ E12). lia.
  - pose proof (ev_brk _ _ _ _ E3). pose proof (ev_brk _ _ _ _ E12). lia.
Qed.
(** *** Events *)
Lemma events_evolve δ s s' :
  sound s → io_ok s' → p_fibers s' = p_fibers s → p_timers s' = p_timers s → ages_to s s' →
  (∀ d ev w, 0 <= d → is_event ev → waiting s' d ev = Some w → task_ok w) →
  (∀ it, it ∈ Scheduler.m_fibers (p_sched s') → task_ok (what it)) →
  (∀ g, queue_wakes g s' + event_wakes g s' = queue_wakes g s + event_wakes g s + δ g)%nat →
  evolves δ s s'.
Proof.
  intros [Hio Hroom Htim Hst Hw Hq Hh] Hio' Hf Ht [Hb Htm Hr Hh'] Hw' Hq' Hsum. split; try done.
  - split; try (rewrite ?Ht, ?Hh'; done); [lia|]. intros l x. rewrite Ht. intros Hx.
    eapply timer_ok_later; [done|by apply Hst].
  - intros g. specialize (Hsum g). unfold wakes, timer_wakes. rewrite Ht. lia.
  - rewrite Ht. apply timers_kept_refl.
Qed.

Definition new_task (o : option B) : fiber_or_cb B :=
  match o with Some b => IsCb (Some b) | None => IsFiber (Some c) end.
Lemma add_event_evolves fd ev (o : option B) s r s' :
  desc fd → is_event ev → (∀ b, o = Some b → callback_ok b) → sound s → running s →
  add_event t fd ev o s = Ok (r, s') →
  evolves (λ g, if r =? 0 then task_wakes g (new_task o) else 0%nat) s s' ∧ p_timers s' = p_timers s.
Proof.
  intros Hd Hev Ho Hs [Hc Hx] H.
  assert (Hnone : waiting s fd ev = None).
  { destruct (waiting s fd ev) as [w|] eqn:E; [|done]. exfalso.
    rewrite (add_event_twice_aborts t fd ev o s) in H; [done|apply Hs|done|done|by rewrite E]. }
  pose proof (ages_add_event _ _ _ _ _ _ H) as Hage.
  assert (Hwait : may_wait t o s) by (intros _; destruct Hx as (x & Hx & Hst); by exists c, x).
  destruct (add_event_ok t fd ev o s (so_io _ _ Hs) Hd Hev (so_room _ _ Hs) (so_here _ _ Hs) Hwait Hnone)
    as (r' & s2 & H' & Hio & (Hsch & Hf & Htim & _) & Hor & _).
  rewrite H' in H. injection H as -> ->. split; [|done].
  assert (Htask : new_waiter t o s = new_task o) by (unfold new_waiter; destruct o; [done|]; unfold current in Hc; by rewrite Hc).
  rewrite Htask in Hor.
  assert (Hd0 : 0 <= fd) by (unfold desc in Hd; lia).
  assert (Hok : task_ok (new_task o)) by (destruct o as [b|]; simpl; [by apply Ho|by eexists]).
  assert (Hq : ∀ g, queue_wakes g s' = queue_wakes g s) by (intros g; unfold queue_wakes; by rewrite Hsch).
  apply events_evolve; try done.
  - intros d' ev' w Hd' Hev' Hw.
    destruct Hor as [[_ Hnow]|[_ Hnow]]; rewrite (Hnow d' ev' Hd' Hev') in Hw; case_decide; try done.
    + by injection Hw as <-.
    + by eapply (so_waiters _ _ Hs).
    + by eapply (so_waiters _ _ Hs).
  - rewrite Hsch. apply Hs.
  - intros g. rewrite Hq.
    destruct Hor as [[-> Hnow]|[-> Hnow]]; pose proof (event_wakes_now g fd ev _ s s' Hd0 Hev Hnow) as He;
      rewrite Hnone in He; simpl in *; lia.
Qed.

Lemma queue_wakes_app g s s' q :
  Scheduler.m_fibers (p_sched s') = Scheduler.m_fibers (p_sched s) ++ q →
  queue_wakes g s' = (queue_wakes g s + sum_list_with (λ it, task_wakes g (what it)) q)%nat.
Proof. intros E. unfold queue_wakes. by rewrite E, sum_list_with_app. Qed.

Lemma does_cancel_event fd ev : desc fd → is_event ev → neutral (cancel_event fd ev).
Proof.
  intros Hd Hev s ok s' Hs Hr H. pose proof (ages_cancel_event _ _ _ _ _ H) as Hage.
  destruct (cancel_event_ok fd ev s (so_io _ _ Hs) Hd Hev) as (ok' & s2 & H' & _ & Hio & Hf & Htim & _ & Hnow & Hq).
  rewrite H' in H. injection H as -> ->. assert (Hd0 : 0 <= fd) by (unfold desc in Hd; lia).
  apply events_evolve; try done.
  - intros d' ev' w Hd' Hev' Hw. rewrite (Hnow d' ev' Hd' Hev') in Hw. case_decide.
    + destruct ok; [done|]. exact (so_waiters _ _ Hs _ _ _ Hd0 Hev Hw).
    + exact (so_waiters _ _ Hs _ _ _ Hd' Hev' Hw).
  - destruct ok; [|rewrite Hq; apply Hs]. destruct Hq as (w & Hw & ->). intros it.
    rewrite elem_of_app, list_elem_of_singleton. intros [Hit| ->]; [by apply (so_queue _ _ Hs)|].
    exact (so_waiters _ _ Hs fd ev w Hd0 Hev Hw).
  - intros g. pose proof (event_wakes_now g fd ev _ s s' Hd0 Hev Hnow) as He. unfold none. destruct ok.
    + destruct Hq as (w & Hw & Hq). rewrite (queue_wakes_app g s s' _ Hq). rewrite Hw in He. simpl in *. lia.
    + unfold queue_wakes. rewrite Hq. simpl in He. lia.
Qed.
(** The waiters of a mask of events of one descriptor go to the queue. *)
Lemma mask_woken_evolves i mask (x : FdContext B) s s' :
  sound s → io_ok s' → others_kept s s' → ages_to s s' → ctxs s !! i = Some x →
  (∀ ev, is_event ev → has mask ev = true → has (m_events x) ev = true) →
  mask_woken s s' i mask x → evolves none s s'.
Proof.
  intros Hs Hio (Hf & Htim & _) Hage Hx Hsub [Hq Hw].
  assert (Hwait : ∀ ev, waiting s (Z.of_nat i) ev = waiter ev x) by (intros; by apply waiting_nat).
  assert (Hslot : ∀ ev, is_event ev → has mask ev = true → waiter ev x = Some (waiter_of (slot ev x))).
  { intros ev Hev Hm. unfold waiter. by rewrite Hsub. }
  apply events_evolve; try done.
  - intros d ev w Hd Hev Hdw. rewrite (Hw d ev Hd Hev) in Hdw. case_decide as Heq.
    + subst d. destruct (has mask ev); [done|]. apply (so_waiters _ _ Hs (Z.of_nat i) ev); [lia|done|]. by rewrite Hwait.
    + by eapply (so_waiters _ _ Hs).
  - intros it. rewrite Hq. unfold wake, woken. rewrite !elem_of_app.
    assert (Hone : ∀ ev, is_event ev → it ∈ (if has mask ev then [MkTask (waiter_of (slot ev x)) (-1)] else []) → task_ok (what it)).
    { intros ev Hev. destruct (has mask ev) eqn:E; [|by intros ?%not_elem_of_nil].
      intros ->%list_elem_of_singleton. apply (so_waiters _ _ Hs (Z.of_nat i) ev); [lia|done|]. rewrite Hwait. by apply Hslot. }
    intros [Hit|[Hit|Hit]]; [by apply (so_queue _ _ Hs)|by apply (Hone READ); [left|]|by apply (Hone WRITE); [right|]].
  - intros g. rewrite (queue_wakes_app g s s' _ Hq).
    pose proof (event_wakes_one g (Z.of_nat i) s s' ltac:(lia)) as He.
    specialize (He ltac:(intros d' ev Hd' Hev Hne; rewrite (Hw d' ev Hd' Hev); by rewrite decide_False)).
    rewrite !(Hw (Z.of_nat i)) in He by (lia || (by left) || (by right)). rewrite !decide_True in He by done.
    rewrite !Hwait in He. unfold wake, woken, none. rewrite sum_list_with_app.
    pose proof (Hslot READ (or_introl eq_refl)) as HR. pose proof (Hslot WRITE (or_intror eq_refl)) as HW.
    destruct (has mask READ), (has mask WRITE); rewrite ?HR, ?HW in He by done; simpl in *; lia.
Qed.

Lemma does_cancel_all fd : desc fd → neutral (cancel_all fd).
Proof.
  intros Hd s ok s' Hs Hr H. pose proof (ages_cancel_all _ _ _ _ H) as Hage.
  destruct (cancel_all_ok fd s (so_io _ _ Hs) Hd) as (ok' & s2 & H' & _ & Hio & Hkept & Hb).
  rewrite H' in H. injection H as -> ->. destruct ok.
  - destruct Hb as (x & Hx & _ & Hw). by eapply (mask_woken_evolves (Z.to_nat fd) (m_events x) x).
  - destruct Hb as (k & -> & Hk). destruct Hage. by apply same_evolves.
Qed.

Lemma trigger_needs ev i s u s' :
  triggerEvent ev i s = Ok (u, s') → ∃ x, ctxs s !! Z.to_nat i = Some x ∧ has (m_events x) ev = true.
Proof.
  unfold triggerEvent. intros (x & s1 & H1 & H)%bind_ok. apply context_at_ok in H1 as [Hx ->].
  apply bind_ok in H as (v & s1 & H1 & _). apply assert_ok in H1 as [Hh _]. by exists x.
Qed.
Lemma trigger_if_needs mask ev i s u s' :
  trigger_if mask ev i s = Ok (u, s') → has mask ev = true →
  ∃ x, ctxs s !! Z.to_nat i = Some x ∧ has (m_events x) ev = true.
Proof.
  unfold trigger_if. fold (has mask ev). intros H Hm. rewrite Hm in H. simpl in H.
  apply bind_ok in H as (v & s1 & H1 & _). by eapply trigger_needs.
Qed.

(** The code's way through an event it reports: no event of interest, a kernel that
    refuses, or all of them registered. *)
Lemma deal_event_registered fuel i reported s u s' :
  io_ok s → deal_event fuel (MkEvent (Context (Z.of_nat i)) reported) s = Ok (u, s') →
  ∃ x, ctxs s !! i = Some x ∧
    ((∃ k, s' = with_kernel k s ∧ interest k = interest (kernel s)) ∨
     ∀ ev, is_event ev → has (real_events reported (m_events x)) ev = true → has (m_events x) ev = true).
Proof.
  intros [Hl Hm] H. unfold deal_event in H. simpl in H.
  apply bind_ok in H as (x & s1 & H1 & H). apply context_at_ok in H1 as [Hx ->]. rewrite Nat2Z.id in Hx.
  exists x. split; [done|]. set (real := real_events reported (m_events x)) in *.
  pose proof (c_mask _ _ (io_ctx _ Hl _ _ Hx)) as Hmask.
  destruct (Z.land (m_events x) real =? NONE).
  { apply ret_ok in H as [_ ->]. left. exists (kernel s). by rewrite kernel_same. }
  apply bind_ok in H as (rt & s1 & H1 & H). unfold sys in H1. destruct (epoll_ctl _ _ _ _) as [z k] eqn:E. injection H1 as -> <-.
  destruct (Z.eqb_spec rt 0) as [->|Hrt]; simpl in H.
  2: { apply ret_ok in H as [_ ->]. left. exists k. split; [done|]. by eapply ctl_refused. }
  right. apply bind_ok in H as (v & s1 & H1 & H2). set (s0 := with_kernel k s) in *.
  assert (Hl0 : io_local s0) by (destruct Hl; by split).
  assert (Hr : has real READ = true → has (m_events x) READ = true).
  { intros Hr. destruct (trigger_if_needs _ _ _ _ _ _ H1 Hr) as (y & Hy & Hh).
    rewrite Nat2Z.id in Hy. change (ctxs s0) with (ctxs s) in Hy. rewrite Hx in Hy. by injection Hy as <-. }
  intros ev [->| ->]; [done|]. intros Hwr.
  destruct (trigger_if_eq real READ i x s0 Hl0 Hx (or_introl eq_refl) Hr) as (s1' & H1' & _ & Hc1 & _).
  rewrite H1' in H1. injection H1 as _ <-.
  destruct (trigger_if_needs _ _ _ _ _ _ H2 Hwr) as (y & Hy & Hh). rewrite Nat2Z.id in Hy.
  rewrite (clear_if_lookup _ _ _ _ _ _ (Hx : ctxs s0 !! i = Some x) Hc1) in Hy. injection Hy as <-.
  rewrite clear_if_events in Hh. destruct (has real READ); [|done].
  rewrite has_without in Hh by (done || (by left) || (by right)). done.
Qed.

Lemma ages_drain fuel : ages (drain_pipe fuel : M P unit).
Proof.
  induction fuel as [|fuel IH]; [apply ages_fail|]. simpl. age.
  apply ages_sys. intros k. destruct (pipe_read k) eqn:E. by eapply read_later.
Qed.
#[local] Hint Resolve ages_drain : ages.
Lemma ages_deal_event fuel ev : ages (deal_event fuel ev : M P unit).
Proof. unfold deal_event. age. Qed.

Lemma does_drain fuel : neutral (drain_pipe fuel).
Proof. induction fuel as [|fuel IH]; [apply does_fail|]. simpl. go. Qed.

Lemma does_deal_event fuel ev : (∀ i, data ev = Context i → 0 <= i) → neutral (deal_event fuel ev).
Proof.
  intros Hi s u s' Hs Hr H. destruct ev as [[|i] reported]; [exact (does_drain fuel s u s' Hs Hr H)|].
  specialize (Hi i eq_refl). rewrite <- (Z2Nat.id i Hi) in H.
  pose proof (ages_deal_event _ _ _ _ _ H) as Hage.
  destruct (deal_event_registered _ _ _ _ _ _ (so_io _ _ Hs) H) as (x & Hx & [(k & -> & Hk)|Hsub]).
  { destruct Hage. by apply same_evolves. }
  destruct (deal_event_ok fuel (Z.to_nat i) reported x s (so_io _ _ Hs) Hx Hsub) as (s2 & H' & Hio & Hkept & Hd & _).
  rewrite H' in H. injection H as _ ->. destruct (drops _ _ _ _).
  - destruct Hd as [Hc Hq]. pose proof (c_mask _ _ (io_ctx _ (proj1 (so_io _ _ Hs)) _ _ Hx)) as Hmask.
    eapply mask_woken_evolves; try done. by eapply mask_woken_intro.
  - destruct Hd as (k & -> & Hk). destruct Hage. by apply same_evolves.
Qed.
Lemma does_deal_events fuel evs : (∀ ev i, ev ∈ evs → data ev = Context i → 0 <= i) → neutral (deal_events fuel evs).
Proof.
  induction evs as [|ev evs IH]; intros Hi; [apply does_ret|]. simpl. apply does_bind.
  - apply does_deal_event. intros i. apply Hi. by left.
  - intros _. apply IH. intros ev' i Hin. apply Hi. by right.
Qed.
(** *** The idle loop *)
Lemma wait_loop_events fuel : ∀ n s evs s', wait_loop fuel n s = Ok (evs, s') →
  ∀ ev i, ev ∈ evs → data ev = Context i → 0 <= i.
Proof.
  induction fuel as [|fuel IH]; intros n s evs s' H; [done|]. simpl in H.
  apply bind_ok in H as (r & s1 & H1 & H). unfold sys in H1. destruct (epoll_wait _ _) as [r' k] eqn:E. injection H1 as -> <-.
  destruct (wait_later _ _ _ _ E) as (_ & _ & _ & Hev). destruct r as [| |evs'].
  - by eapply IH.
  - apply ret_ok in H as [-> ->]. by intros ev i ?%not_elem_of_nil.
  - apply ret_ok in H as [-> ->]. intros ev i. by apply Hev.
Qed.
Lemma does_wait_loop fuel : ∀ n, neutral (wait_loop fuel n).
Proof. induction fuel as [|fuel IH]; intros n; [apply does_fail|]. simpl. go. Qed.
Lemma does_stopping_timeout : neutral stopping_timeout.
Proof.
  unfold stopping_timeout, read_timeout, read_pending, read_base. apply does_bind; [|go].
  apply does_bind; [apply does_clock|]. intros now. apply does_pure. intros s z s' H. unfold Timer.get_next_timeout in H.
  apply bind_ok in H as (tm & s1 & H1 & H). apply gets_ok in H1 as [-> ->].
  destruct (Timer.m_timers _); [by apply ret_ok in H as [_ ->]|]. destruct (_ >=? _); by apply ret_ok in H as [_ ->].
Qed.
#[local] Hint Resolve does_stopping_timeout does_wait_loop does_schedule_timers : does.

Lemma idle_evolves fuel s seg s' :
  sound s → running s → idle fuel s = Ok (seg, s') →
  evolves none s s' ∧ (seg = Returned ∨ seg = SwappedOut Idle).
Proof.
  intros Hs Hr H. unfold idle, idle_round in H. apply bind_ok in H as ([stop next] & s1 & H1 & H).
  pose proof (does_stopping_timeout s _ s1 Hs Hr H1) as E1.
  pose proof (running_kept _ _ _ _ (ev_fibers _ _ _ _ E1) Hr) as Hr1.
  destruct stop; [apply ret_ok in H as [-> ->]; by split; [|left]|].
  apply bind_ok in H as (evs & s2 & H2 & H).
  assert (Hrest : neutral (schedule_timers ;;; deal_events fuel evs ;;; ret (SwappedOut (@Idle K)))).
  { apply does_bind; [apply does_schedule_timers|]. intros _. apply does_bind; [|go].
    apply does_deal_events. by eapply wait_loop_events. }
  pose proof (does_wait_loop fuel _ s1 evs s2 (ev_sound _ _ _ _ E1) Hr1 H2) as E2.
  pose proof (running_kept _ _ _ _ (ev_fibers _ _ _ _ E2) Hr1) as Hr2.
  pose proof (Hrest s2 seg s' (ev_sound _ _ _ _ E2) Hr2 H) as E3. split.
  - eapply evolves_ext; [|eapply evolves_trans; [exact E1|eapply evolves_trans; [exact E2|exact E3]]]. done.
  - right. apply bind_ok in H as (? & ? & _ & H). apply bind_ok in H as (? & ? & _ & H). by apply ret_ok in H as [-> _].
Qed.
End steps.

#[export] Hint Resolve does_bind does_ret does_fail does_gets does_get_sched does_assert does_deref does_when
  does_calm does_clock does_allocate does_read_pipe does_wait_epoll does_tickle does_on_fds does_set_cancelled
  does_drop_tinfo does_new_tinfo does_this_iom does_cancel_event does_cancel_all : does.
End SystemSteps.
