(* ===== verification/SystemHooks.v ===== *)
(** * What the hooked calls and the bodies do to the wake-ups

    A body that runs to its next transfer of control adds wake-ups for the fibers it wakes,
    and one for its own fiber when it waits in a hooked call. *)
From stdpp Require Import base gmap list strings.
From Stdlib Require Import ZArith Lia.
From S2P Require Import Prelude StdSet Timers TimerFacts Fibers FiberFacts Schedulers SchedulerFacts.
From S2P Require Import FdManagers IOManagers IOManagerFacts Hooks HookFacts IdleFacts Systems Wakeups SystemSteps.
Open Scope Z_scope.

Module SystemHooks.
Import Fiber FiberFacts Scheduler SchedulerFacts IOManager IOManagerFacts Hook HookFacts System Wakeup SystemSteps.

Section hooks.
Context {K : Type} `{!Kernel K} `{!KernelLaws K} `{!KernelTime K}.
Local Abbreviation B := (body K).
Local Abbreviation P := (Process (body K) K).
Implicit Types (s : P) (b : body K) (T : Timer.TimerManager (body K)).
(** The thread, and the fiber that is running on it. *)
Variables (t c : Z).
Local Abbreviation sound := (sound t).
Local Abbreviation running := (running t c).
Local Abbreviation evolves := (evolves t).
Local Abbreviation does := (does t c).
Local Abbreviation neutral m := (Wakeup.does t c (λ _, none) m).

(** ** Calls that do not wait *)

Lemma does_call_again fuel (f : libc K) : calm f → neutral (call_again fuel f).
Proof. intros Hf. induction fuel as [|fuel IH]; [apply does_fail|]. simpl. go. Qed.
Lemma does_is_hook_enable : neutral (is_hook_enable t).
Proof. apply does_get_sched. Qed.
Lemma does_getContext fd create : neutral (on_fds (FdManager.getFdCtx fd create)).
Proof. apply does_on_fds. Qed.
#[local] Hint Resolve does_call_again does_is_hook_enable : does.

Lemma does_socket_context fd : neutral (socket_context fd).
Proof. unfold socket_context. go. Qed.
#[local] Hint Resolve does_socket_context : does.
Lemma does_socket (f : libc K) : calm f → neutral (socket t f).
Proof. intros Hf. unfold socket. go. Qed.
Lemma does_close fd (f : libc K) : desc fd → calm f → neutral (close t fd f).
Proof. intros Hd Hf. unfold close. go. Qed.
Lemma does_setsockopt fd level optname sec usec (f : libc K) : calm f → neutral (setsockopt t fd level optname sec usec f).
Proof. intros Hf. unfold setsockopt. go. Qed.
Lemma does_fcntl fd cmd arg (f : Z → option Z → libc K) : (∀ cmd arg, calm (f cmd arg)) → neutral (fcntl fd cmd arg f).
Proof. intros Hf. unfold fcntl. go. Qed.
Lemma does_ioctl fd request arg (f : libc K) : calm f → neutral (ioctl fd request arg f).
Proof. intros Hf. unfold ioctl. go. Qed.
Lemma does_getsockopt (f : libc K) : calm f → neutral (getsockopt f).
Proof. intros Hf. unfold getsockopt. go. Qed.
Lemma does_accept_finish r : neutral (accept_finish r).
Proof. unfold accept_finish. go. Qed.
Lemma does_connect_finish (f : libc K) : calm f → neutral (connect_finish f).
Proof. intros Hf. unfold connect_finish. go. Qed.
Lemma does_cancelled_of w : neutral (cancelled_of w).
Proof. unfold cancelled_of. go. Qed.
Lemma does_io_timeout fd so : neutral (io_timeout fd so).
Proof. unfold io_timeout. go. Qed.
Lemma does_timeout_fires w fd ev : desc fd → is_event ev → neutral (timeout_fires w fd ev).
Proof. intros Hd Hev. unfold timeout_fires. go. Qed.
#[local] Hint Resolve does_accept_finish does_connect_finish does_cancelled_of does_io_timeout : does.
Lemma does_finish accepts r : neutral (finish accepts r).
Proof. unfold finish. go. Qed.
Lemma does_wake_fires g : does (λ _ h, is_fiber h g) (wake_fires g).
Proof. apply (does_schedule t c). by eexists. Qed.

(** ** Calls that wait *)

Lemma then_evolves {A C} (m : M P A) (f : A → M P C) s x s' :
  neutral m → sound s → running s → bind m f s = Ok (x, s') →
  ∃ a s1, evolves none s s1 ∧ running s1 ∧ f a s1 = Ok (x, s').
Proof.
  intros Hm Hs Hr (a & s1 & H1 & H)%bind_ok. pose proof (Hm s a s1 Hs Hr H1) as E.
  exists a, s1. split; [done|]. split; [|done]. eapply running_kept; [apply E|done].
Qed.
(** One neutral operation first. *)
Lemma evolves_after δ s s1 s' : evolves none s s1 → evolves δ s1 s' → evolves δ s s'.
Proof. intros E1 E2. eapply evolves_ext; [|by eapply evolves_trans]. done. Qed.

(** The timer a call that waits may set. *)
Lemma timer_for_evolves (ok : bool) ms w fd ev s timer s' :
  desc fd → is_event ev → sound s →
  (if ok then let* l := make_condition_timer ms w (timeout_body w fd ev) in ret (Some l) else ret None) s = Ok (timer, s') →
  evolves none s s' ∧ timeout_only (p_timers s') timer.
Proof.
  intros Hd Hev Hs H. destruct ok; [|apply ret_ok in H as [-> ->]; split; [by apply evolves_refl|done]].
  apply bind_ok in H as (l & s1 & H & H1). apply ret_ok in H1 as [-> ->].
  destruct (arm_evolves t ms (Timer.BindCond w (Some (timeout_body w fd ev))) false s l s1) as (E & _ & now & _ & _ & Hl);
    [by split|done|done|exact H|]. split; [exact E|]. eexists. by split.
Qed.

(** The wake-ups a hooked call adds: its fiber's, if it waits. *)
Definition waits {A} (r : hook_step A) : Z → nat :=
  match r with Done _ => none | Yielded _ => λ g, is_fiber g c end.
Definition timer_of {A} (r : hook_step A) : option Z :=
  match r with Done _ => None | Yielded timer => timer end.

Lemma drop_after δ s s1 timer w {A} (r : A) u s' :
  evolves δ s s1 → running s1 → timeout_only (p_timers s1) timer →
  (cancel_if timer ;;; drop_tinfo w ;;; ret r) s1 = Ok (u, s') → evolves δ s s' ∧ u = r.
Proof.
  intros E Hr Ht (v & s2 & H2 & H)%bind_ok.
  pose proof (cancel_if_evolves t timer s1 v s2 Ht (ev_sound _ _ _ _ E) H2) as E2.
  destruct (then_evolves _ _ _ _ _ (does_drop_tinfo t c w) (ev_sound _ _ _ _ E2)
    (running_kept _ _ _ _ (ev_fibers _ _ _ _ E2) Hr) H) as (v' & s3 & E3 & _ & H3).
  apply ret_ok in H3 as [-> ->]. split; [|done].
  eapply evolves_ext; [|eapply evolves_trans; [exact E|eapply evolves_after; [exact E2|exact E3]]].
  intros g. unfold none. lia.
Qed.

Lemma do_io_try_evolves fuel fd (f : libc K) w tmo s r s' :
  FdManager.is_fd fd → calm f → sound s → running s → do_io_try fuel t fd f w tmo s = Ok (r, s') →
  evolves (waits r) s s' ∧ timeout_only (p_timers s') (timer_of r).
Proof.
  intros Hfd Hf Hs Hr H. assert (Hd : desc fd) by (unfold FdManager.is_fd in Hfd; unfold desc; lia).
  unfold do_io_try in H.
  destruct (then_evolves _ _ _ _ _ (does_call_again fuel f Hf) Hs Hr H) as (n & s1 & E1 & Hr1 & H1). clear H.
  destruct (_ && _).
  2: { apply bind_ok in H1 as (v & s2 & H1 & H2). apply ret_ok in H2 as [-> ->]. split; [|done].
       eapply evolves_after; [exact E1|]. exact (does_drop_tinfo t c w s1 v s2 (ev_sound _ _ _ _ E1) Hr1 H1). }
  destruct (then_evolves _ _ _ _ _ (does_this_iom t c) (ev_sound _ _ _ _ E1) Hr1 H1) as (v & s2 & E2 & Hr2 & H2). clear H1.
  apply bind_ok in H2 as (timer & s3 & H3 & H).
  destruct (timer_for_evolves _ _ _ _ _ _ _ _ Hd (or_introl eq_refl : is_event 1) (ev_sound _ _ _ _ E2) H3) as [E3 Ht3].
  pose proof (running_kept _ _ _ _ (ev_fibers _ _ _ _ E3) Hr2) as Hr3.
  apply bind_ok in H as (rt & s4 & H4 & H).
  destruct (add_event_evolves t c fd 1 None s3 rt s4 Hd (or_introl eq_refl) ltac:(done) (ev_sound _ _ _ _ E3) Hr3 H4) as [E4 Ht4].
  pose proof (evolves_after _ _ _ _ E1 (evolves_after _ _ _ _ E2 (evolves_after _ _ _ _ E3 E4))) as E.
  destruct (Z.eqb_spec rt 0) as [->|Hrt]; simpl in H.
  - apply ret_ok in H as [-> ->]. split; [exact E|]. simpl. by rewrite Ht4.
  - rewrite <- Ht4 in Ht3. destruct (drop_after _ _ _ _ _ _ _ _ E (running_kept _ _ _ _ (ev_fibers _ _ _ _ E4) Hr3) Ht3 H) as [E' ->].
    split; [|done]. by simpl.
Qed.

(** [m] adds the wake-ups [δ] and leaves timers for which [Q] holds. *)
Definition brings {A} (δ : A → Z → nat) (Q : A → Timer.TimerManager B → Prop) (m : M P A) : Prop :=
  ∀ s a s', sound s → running s → m s = Ok (a, s') → evolves (δ a) s s' ∧ Q a (p_timers s').

Lemma brings_bind {A C} (m : M P A) (f : A → M P C) δ Q :
  neutral m → (∀ a, brings δ Q (f a)) → brings δ Q (bind m f).
Proof.
  intros Hm Hf s x s' Hs Hr H. destruct (then_evolves _ _ _ _ _ Hm Hs Hr H) as (a & s1 & E1 & Hr1 & H1).
  destruct (Hf a s1 x s' (ev_sound _ _ _ _ E1) Hr1 H1) as [E2 HQ]. split; [|done]. by eapply evolves_after.
Qed.
Lemma brings_ret {A} δ Q (a : A) : (∀ g, δ a g = 0%nat) → (∀ T, Q a T) → brings δ Q (ret a).
Proof.
  intros Hδ HQ s x s' Hs _ [-> ->]%ret_ok. split; [|done]. by eapply evolves_ext; [|by apply evolves_refl].
Qed.
Lemma brings_fail {A} δ Q e : brings δ Q (fail e : M P A).
Proof. done. Qed.
Lemma brings_does {A} δ Q (m : M P A) : does δ m → (∀ a T, Q a T) → brings δ Q m.
Proof. intros H HQ s a s' Hs Hr Hm. split; [by apply H|done]. Qed.

Local Abbreviation call_waits m := (brings waits (λ r T, timeout_only T (timer_of r)) m).
Local Abbreviation call_of m := (brings (λ r, waits r.1) (λ r T, timeout_only T (timer_of r.1)) m).

Lemma do_io_try_waits fuel fd (f : libc K) w tmo :
  FdManager.is_fd fd → calm f → call_waits (do_io_try fuel t fd f w tmo).
Proof. intros Hfd Hf s r s' Hs Hr H. by eapply do_io_try_evolves. Qed.
(** [do_io] and [connect_with_timeout] return the address of the [timer_info] too. *)
Lemma waits_pair {A C} (m : M P (hook_step A)) (x : C) :
  call_waits m → call_of (let* r := m in ret (r, x)).
Proof. intros Hm s r s' Hs Hr (a & s1 & H1 & [-> ->]%ret_ok)%bind_ok. by apply Hm. Qed.
Lemma done_pair {A C} (m : M P A) (f : A → hook_step returned * C) :
  neutral m → (∀ a, ∃ r, (f a).1 = Done r) → call_of (let* a := m in ret (f a)).
Proof.
  intros Hm Hf. apply brings_bind; [done|]. intros a. destruct (Hf a) as [r Hr]. apply brings_ret; by rewrite Hr.
Qed.

(** [bring] goes through the operations before the one that may wait. *)
Ltac bring :=
  repeat first
    [ progress cbv zeta
    | match goal with
      | |- ∀ _, _ => intro
      | |- brings _ _ (bind _ (λ _, ret _)) =>
          first [apply done_pair; [solve [auto with does]|by intros; eexists] | apply waits_pair]
      | |- brings _ _ (bind _ _) => apply brings_bind; [solve [go]|]
      | |- brings _ _ (ret _) => apply brings_ret; done
      | |- brings _ _ (match ?x with _ => _ end) => destruct x
      end ].

Lemma do_io_waits fuel fd (f : libc K) so : FdManager.is_fd fd → calm f → call_of (do_io fuel t fd f so).
Proof. intros Hfd Hf. unfold do_io. bring. by apply do_io_try_waits. Qed.

Lemma do_io_resumed_evolves fuel fd (f : libc K) w tmo timer s r s' :
  FdManager.is_fd fd → calm f → timeout_only (p_timers s) timer → sound s → running s →
  do_io_resumed fuel t fd f w tmo timer s = Ok (r, s') →
  evolves (waits r) s s' ∧ timeout_only (p_timers s') (timer_of r).
Proof.
  intros Hfd Hf Ht Hs Hr (v & s1 & H1 & H)%bind_ok.
  pose proof (cancel_if_evolves t timer s v s1 Ht Hs H1) as E1.
  assert (Hrest : call_waits (let* cancelled := cancelled_of w in
    if negb (cancelled =? 0) then drop_tinfo w ;;; ret (Done (MkReturned (-1) (Some cancelled)))
    else do_io_try fuel t fd f w tmo)).
  { bring. by apply do_io_try_waits. }
  destruct (Hrest s1 r s' (ev_sound _ _ _ _ E1) (running_kept _ _ _ _ (ev_fibers _ _ _ _ E1) Hr) H) as [E2 HT].
  split; [|done]. by eapply evolves_after.
Qed.

(** The end of [connect_with_timeout], from where it would wait for the connection. *)
Lemma connect_waits fd timeout_ms (so_error : libc K) w :
  desc fd → calm so_error →
  call_of (let* timer :=
      if negb (timeout_ms =? UINT64_MAX) then
        let* l := make_condition_timer timeout_ms w (timeout_body w fd WRITE) in ret (Some l)
      else ret None in
    let* rt := add_event t fd WRITE None in
    if rt =? 0 then ret (Yielded timer, w)
    else
      cancel_if timer ;;; let* r := connect_finish so_error in drop_tinfo w ;;; ret (Done r, w)).
Proof.
  intros Hd Hso s x s' Hs Hr (timer & s3 & H3 & H)%bind_ok.
  destruct (timer_for_evolves _ _ _ _ _ _ _ _ Hd (or_intror eq_refl : is_event WRITE) Hs H3) as [E3 Ht3].
  pose proof (running_kept _ _ _ _ (ev_fibers _ _ _ _ E3) Hr) as Hr3.
  apply bind_ok in H as (rt & s4 & H4 & H).
  destruct (add_event_evolves t c fd WRITE None s3 rt s4 Hd (or_intror eq_refl) ltac:(done) (ev_sound _ _ _ _ E3) Hr3 H4) as [E4 Ht4].
  pose proof (evolves_after _ _ _ _ E3 E4) as E. pose proof (running_kept _ _ _ _ (ev_fibers _ _ _ _ E4) Hr3) as Hr4.
  destruct (Z.eqb_spec rt 0) as [->|Hrt].
  - apply ret_ok in H as [-> ->]. split; [exact E|]. simpl. by rewrite Ht4.
  - apply bind_ok in H as (v & s5 & H5 & H). rewrite <- Ht4 in Ht3.
    pose proof (cancel_if_evolves t timer s4 v s5 Ht3 (ev_sound _ _ _ _ E4) H5) as E5.
    assert (Hrest : call_of (let* r := connect_finish so_error in drop_tinfo w ;;; ret (Done r, w))).
    { apply brings_bind; [solve [go]|]. intros r. apply done_pair; [solve [go]|]. intros _. by eexists. }
    destruct (Hrest s5 x s' (ev_sound _ _ _ _ E5) (running_kept _ _ _ _ (ev_fibers _ _ _ _ E5) Hr4) H) as [E6 HT].
    split; [|done]. eapply evolves_after; [exact E|]. by eapply evolves_after.
Qed.
Lemma connect_with_timeout_waits fd timeout_ms (f so_error : libc K) :
  FdManager.is_fd fd → calm f → calm so_error → call_of (connect_with_timeout t fd f so_error timeout_ms).
Proof.
  intros Hfd Hf Hso. assert (Hd : desc fd) by (unfold FdManager.is_fd in Hfd; unfold desc; lia).
  unfold connect_with_timeout. bring. by apply connect_waits.
Qed.
Lemma connect_resumed_evolves w timer (so_error : libc K) s r s' :
  calm so_error → timeout_only (p_timers s) timer → sound s → running s →
  connect_resumed w timer so_error s = Ok (r, s') → evolves none s s'.
Proof.
  intros Hso Ht Hs Hr (v & s1 & H1 & H)%bind_ok.
  pose proof (cancel_if_evolves t timer s v s1 Ht Hs H1) as E1.
  assert (Hrest : neutral (let* cancelled := cancelled_of w in
    if negb (cancelled =? 0) then drop_tinfo w ;;; ret (MkReturned (-1) (Some cancelled))
    else let* r := connect_finish so_error in drop_tinfo w ;;; ret r)) by go.
  eapply evolves_after; [exact E1|]. eapply Hrest; [apply E1| |exact H].
  eapply running_kept; [apply E1|done].
Qed.

(** A sleeping call arms the timer that wakes its fiber. *)
Definition wakes_at (T : Timer.TimerManager B) (l deadline : Z) : Prop :=
  ∃ x, Timer.store T !! l = Some x ∧ Timer.m_cb x = Some (Timer.Fun (Wake c)) ∧ Timer.m_recurring x = false ∧
    Timer.m_next x = deadline.
Lemma sleep_for_evolves ms (f : libc K) s r s' :
  calm f → sound s → running s → sleep_for t ms f s = Ok (r, s') →
  evolves (waits r) s s' ∧
  ∀ timer, r = Yielded timer → ∃ l now, timer = Some l ∧ time (kernel s) <= now <= time (kernel s') ∧
    wakes_at (p_timers s') l (u64 (now + ms)).
Proof.
  intros Hf Hs Hr H. unfold sleep_for in H.
  destruct (then_evolves _ _ _ _ _ does_is_hook_enable Hs Hr H) as (ok & s1 & E1 & Hr1 & H1). clear H.
  destruct ok; simpl in H1.
  2: { apply bind_ok in H1 as (v & s2 & H1 & H2). apply ret_ok in H2 as [-> ->]. split; [|done].
       eapply evolves_after; [exact E1|]. exact (does_calm t c f Hf s1 v s2 (ev_sound _ _ _ _ E1) Hr1 H1). }
  apply bind_ok in H1 as (fiber & s2 & H1 & H). destruct (this_fiber t c s1 fiber s2 Hr1 H1) as [-> ->].
  destruct (then_evolves _ _ _ _ _ (does_this_iom t c) (ev_sound _ _ _ _ E1) Hr1 H) as (v & s2 & E2 & Hr2 & H2). clear H.
  apply bind_ok in H2 as (l & s3 & H3 & H). apply ret_ok in H as [-> ->].
  destruct (arm_evolves t ms (Timer.Fun (wake_body c)) false s2 l s3) as (E3 & _ & now & Hnow & _ & Hl);
    [done|done|by eapply ev_sound|exact H3|].
  split; [eapply evolves_after; [exact E1|]; by eapply evolves_after|].
  intros timer [= <-]. exists l, now. split; [done|]. split.
  - pose proof (ev_time _ _ _ _ E1). pose proof (ev_time _ _ _ _ E2). lia.
  - eexists. split; [exact Hl|]. done.
Qed.

(** ** Bodies *)

(** What a body adds beside the wake-ups it stands for: its own, where it waits. *)
Definition holds (seg : segment B) : Z → nat :=
  match seg with YieldedHold _ => λ g, is_fiber g c | _ => none end.
(** What it leaves to be run later. *)
Definition leaves_ok (seg : segment B) T : Prop :=
  match seg with
  | YieldedReady b | YieldedHold b => rest_ok T b
  | SwappedOut _ => False
  | _ => True
  end.
Local Abbreviation runs m := (brings holds leaves_ok m).

Lemma runs_after {A} (m : M P A) (f : A → M P (segment B)) :
  neutral m → (∀ a, runs (f a)) → runs (bind m f).
Proof. apply brings_bind. Qed.
(** A call that may wait, and what follows if it does not. *)
Lemma runs_call {A} (p : A → hook_step returned) Q (m : M P A) f :
  brings (λ r, waits (p r)) Q m → (∀ r n, p r = Done n → runs (f r)) →
  (∀ r timer, p r = Yielded timer → ∃ b, f r = ret (YieldedHold b) ∧ ∀ T, Q r T → rest_ok T b) →
  runs (bind m f).
Proof.
  intros Hm Hdone Hwait s seg s' Hs Hr (r & s1 & H1 & H)%bind_ok.
  destruct (Hm s r s1 Hs Hr H1) as [E HT]. destruct (p r) as [n|timer] eqn:Er; simpl in *.
  - destruct (Hdone r n Er s1 seg s' (ev_sound _ _ _ _ E) (running_kept _ _ _ _ (ev_fibers _ _ _ _ E) Hr) H) as [E1 HQ].
    split; [|done]. by eapply evolves_after.
  - destruct (Hwait r timer Er) as (b & Ef & HQ). rewrite Ef in H. apply ret_ok in H as [-> ->]. split; [done|]. by apply HQ.
Qed.
Lemma runs_sleep ms (f : libc K) (m : M P (segment B)) k : calm f → runs m → code_ok k →
  runs (let* r := sleep_for t ms f in match r with Done _ => m | Yielded _ => ret (YieldedHold (Slept k)) end).
Proof.
  intros Hf Hm Hk. apply (runs_call id (λ _ _, True)).
  - intros s r s' Hs Hr H. split; [|done]. by eapply sleep_for_evolves.
  - intros r n Er. unfold id in Er. by subst r.
  - intros r timer Er. unfold id in Er. subst r. by eexists.
Qed.

Lemma runs_new_timer ms j recurring (m : M P (segment B)) : code_ok j → runs m →
  runs (let* a := sys allocate_address in let* now := sys clock_ms in
        Timer.add_timer a now ms (Some (Timer.Fun (Program j))) recurring ;;; m).
Proof.
  intros Hj Hm s seg s' Hs Hr (a & s1 & H1 & (now & s2 & H2 & (l & s3 & H3 & H)%bind_ok)%bind_ok)%bind_ok.
  assert (Harm : arm ms (Timer.Fun (Program j)) recurring s = Ok (l, s3)).
  { unfold arm. by rewrite (bind_step _ _ _ _ _ H1), (bind_step _ _ _ _ _ H2). }
  destruct (arm_evolves t ms (Timer.Fun (Program j)) recurring s l s3) as (E & Hf & _); try done.
  destruct (Hm s3 seg s' (ev_sound _ _ _ _ E) (running_kept _ _ _ _ Hf Hr) H) as [E1 HQ].
  split; [|done]. by eapply evolves_after.
Qed.
Lemma does_add_event fd ev (j : code K) : FdManager.is_fd fd → is_event ev → code_ok j →
  neutral (add_event t fd ev (Some (Program j))).
Proof.
  intros Hfd Hev Hj s r s' Hs Hr H. assert (Hd : desc fd) by (unfold FdManager.is_fd in Hfd; unfold desc; lia).
  destruct (add_event_evolves t c fd ev (Some (Program j)) s r s' Hd Hev) as [E _]; try done.
  - by intros b [= <-].
  - eapply evolves_ext; [|exact E]. intros g. by destruct (r =? 0).
Qed.
Lemma is_fd_desc fd : FdManager.is_fd fd → desc fd.
Proof. unfold FdManager.is_fd, desc. lia. Qed.
Lemma does_schedule_code (j : code K) thr : code_ok j → neutral (schedule (IsCb (Some (Program j))) thr).
Proof. intros Hj s u s' Hs Hr H. eapply evolves_ext; [|by apply (does_schedule t c (IsCb (Some (Program j))) thr Hj s u s')]. done. Qed.

Lemma exec_code_runs fuel (x : code K) : code_ok x → runs (exec_code fuel t x).
Proof.
  induction x as [| |k IH|sec f k IH|usec f k IH|sec nsec f k IH|fd so f k IH|fd f k IH|fd ms f so k IH|f k IH|fd f k IH
                 |fd level opt sec usec f k IH|fd cmd arg f k IH|fd request arg f k IH|f k IH|j IHj thr k IH|ms j IHj recurring k IH
                 |fd ev j IHj k IH|fd ev k IH|fd k IH];
    simpl; intros Hx.
  - by apply brings_ret.
  - by apply brings_ret.
  - intros s seg s' Hs _ [-> ->]%ret_ok. split; [by apply evolves_refl|done].
  - destruct Hx as [Hf Hk]. apply runs_sleep; auto.
  - destruct Hx as [Hf Hk]. apply runs_sleep; auto.
  - destruct Hx as (_ & Hf & Hk). apply runs_sleep; auto.
  - destruct Hx as (Hfd & Hf & Hk). apply runs_after; [solve [go]|]. intros tmo.
    eapply (runs_call fst); [by apply do_io_waits| |].
    + intros r n ->. apply runs_after; [solve [go]|]. intros n'. by apply IH.
    + intros r timer er. rewrite er. eexists. split; [done|]. intros T HT. rewrite er in HT. simpl in HT |- *. by split_and!.
  - destruct Hx as (Hfd & Hf & Hk). apply runs_after; [solve [go]|]. intros tmo.
    eapply (runs_call fst); [by apply do_io_waits| |].
    + intros r n ->. apply runs_after; [solve [go]|]. intros n'. by apply IH.
    + intros r timer er. rewrite er. eexists. split; [done|]. intros T HT. rewrite er in HT. simpl in HT |- *. by split_and!.
  - destruct Hx as (Hfd & Hf & Hso & Hk). eapply (runs_call fst); [by apply connect_with_timeout_waits| |].
    + intros r n ->. by apply IH.
    + intros r timer er. rewrite er. eexists. split; [done|]. intros T HT. rewrite er in HT. simpl in HT |- *. by split_and!.
  - destruct Hx as [Hf Hk]. apply runs_after; [by apply does_socket|]. intros r. by apply IH.
  - destruct Hx as (Hfd & Hf & Hk). apply runs_after; [|intros r; by apply IH].
    apply does_close; [|done]. unfold FdManager.is_fd in Hfd. unfold desc. lia.
  - destruct Hx as [Hf Hk]. apply runs_after; [by apply does_setsockopt|]. intros r. by apply IH.
  - destruct Hx as [Hf Hk]. apply runs_after; [by apply does_fcntl|]. intros r. by apply IH.
  - destruct Hx as (_ & Hf & Hk). apply runs_after; [by apply does_ioctl|]. intros r. by apply IH.
  - destruct Hx as [Hf Hk]. apply runs_after; [by apply does_getsockopt|]. intros r. by apply IH.
  - destruct Hx as [Hj Hk]. apply runs_after; [by apply does_schedule_code|]. intros _. by apply IH.
  - destruct Hx as [Hj Hk].
    apply runs_new_timer; auto.
  - destruct Hx as (Hfd & Hev & Hj & Hk). apply runs_after; [by apply does_add_event|]. intros r. by apply IH.
  - destruct Hx as (Hfd & Hev & Hk).
    apply runs_after; [by apply does_cancel_event; [apply is_fd_desc|]|]. intros r. by apply IH.
  - destruct Hx as (Hfd & Hk). apply runs_after; [by apply does_cancel_all, is_fd_desc|]. intros r. by apply IH.
Qed.

(** What a client has handed in, what waits in a timer, or the rest of a fiber. *)
Definition may_run T b : Prop := callback_ok b ∨ rest_ok T b.

Lemma runs_body {A} b (m : M P A) :
  does (λ _ g, body_wakes g b) m →
  brings (λ seg g, (body_wakes g b + holds seg g)%nat) leaves_ok (m ;;; ret Returned).
Proof.
  intros Hm s seg s' Hs Hr (a & s1 & H1 & H)%bind_ok. apply ret_ok in H as [-> ->]. split; [|done].
  eapply evolves_ext; [|by eapply Hm]. intros g. simpl. unfold none. lia.
Qed.
Lemma runs_with b (m : M P (segment B)) :
  (∀ g, body_wakes g b = 0%nat) → runs m → brings (λ seg g, (body_wakes g b + holds seg g)%nat) leaves_ok m.
Proof.
  intros Hb Hm s seg s' Hs Hr H. destruct (Hm s seg s' Hs Hr H) as [E HQ]. split; [|done].
  eapply evolves_ext; [|done]. intros g. by rewrite Hb.
Qed.
Lemma runs_timeout w fd ev b :
  (∀ g, body_wakes g b = 0%nat) → desc fd → is_event ev →
  brings (λ seg g, (body_wakes g b + holds seg g)%nat) leaves_ok (timeout_fires w fd ev ;;; ret (@Returned B)).
Proof.
  intros Hb Hd Hev. apply runs_body. intros s u s' Hs Hr H. eapply evolves_ext; [|by eapply does_timeout_fires].
  intros g. simpl. unfold none. by rewrite Hb.
Qed.

Lemma exec_callback fuel : ∀ b, callback_ok b →
  brings (λ seg g, (body_wakes g b + holds seg g)%nat) leaves_ok (exec_body fuel t b).
Proof.
  fix IH 1. intros b Hb. destruct b as [| |x|k|acc fd f w tmo timer k|w timer so k|cl|g|w fd ev]; try done.
  - apply runs_with; [done|]. by apply exec_code_runs.
  - destruct cl as [b|w [b|]]; [exact (IH b Hb)| |done]. destruct b as [| | | | | | | |winfo fd0 event]; try done. destruct Hb as [Hd Hev].
    intros s seg s' Hs Hr H. simpl in H. apply bind_ok in H as (h & s1 & H1 & H). apply gets_ok in H1 as [-> ->].
    destruct (bool_decide _); [by eapply (runs_timeout winfo fd0 event)|].
    apply ret_ok in H as [-> ->]. split; [by apply evolves_refl|done].
  - apply (runs_body (Wake g)). apply does_wake_fires.
  - destruct Hb as [Hd Hev]. by apply runs_timeout.
Qed.

Lemma exec_rest fuel b s seg s' :
  rest_ok (p_timers s) b → sound s → running s → exec_body fuel t b s = Ok (seg, s') →
  evolves (holds seg) s s' ∧ leaves_ok seg (p_timers s').
Proof.
  destruct b as [| |x|k|acc fd f w tmo timer k|w timer so k|cl|g|w fd ev]; try done; simpl; intros Hb Hs Hr H.
  - exact (exec_code_runs fuel x Hb s seg s' Hs Hr H).
  - exact (exec_code_runs fuel k Hb s seg s' Hs Hr H).
  - destruct Hb as (Hfd & Hf & Hk & Ht). apply bind_ok in H as (r & s1 & H1 & H).
    destruct (do_io_resumed_evolves _ _ _ _ _ _ _ _ _ Hfd Hf Ht Hs Hr H1) as [E HT].
    destruct r as [n|timer']; simpl in *.
    + assert (Hrest : runs (let* n := finish acc n in exec_code fuel t (k n))).
      { apply runs_after; [apply does_finish|]. intros r. by apply exec_code_runs. }
      destruct (Hrest s1 seg s' (ev_sound _ _ _ _ E) (running_kept _ _ _ _ (ev_fibers _ _ _ _ E) Hr) H) as [E2 HQ].
      split; [|done]. by eapply evolves_after.
    + apply ret_ok in H as [-> ->]. split; [done|]. by split_and!.
  - destruct Hb as (Hso & Hk & Ht). apply bind_ok in H as (r & s1 & H1 & H).
    pose proof (connect_resumed_evolves _ _ _ _ _ _ Hso Ht Hs Hr H1) as E.
    destruct (exec_code_runs fuel (k r) (Hk r) s1 seg s' (ev_sound _ _ _ _ E)
      (running_kept _ _ _ _ (ev_fibers _ _ _ _ E) Hr) H) as [E2 HQ].
    split; [|done]. by eapply evolves_after.
Qed.
End hooks.
End SystemHooks.
