(* ===== verification/SystemFacts.v ===== *)
(** * Theorems about fibers that wait in the IO manager

    Rounds of the scheduler's loop on a thread of an IO manager whose fibers call the
    hooked functions: a fiber that waits is owed one wake-up, no sleeper is resumed
    before its time, and the loop does not end while a fiber waits. *)
From stdpp Require Import base gmap list strings.
From Stdlib Require Import ZArith Lia.
From S2P Require Import Prelude StdSet Timers TimerFacts Fibers FiberFacts Schedulers SchedulerFacts.
From S2P Require Import FdManagers IOManagers IOManagerFacts Hooks HookFacts IdleFacts.
From S2P Require Import Systems Wakeups SystemSteps SystemHooks.
Open Scope Z_scope.

Module SystemFacts.
Import Fiber FiberFacts Scheduler SchedulerFacts IOManager IOManagerFacts Hook HookFacts IdleFacts.
Import System Wakeup SystemSteps SystemHooks.

Section serving.
Context {K : Type} `{!Kernel K} `{!KernelLaws K} `{!KernelTime K}.
Local Abbreviation B := (body K).
Local Abbreviation P := (Process (body K) K).
Implicit Types (s : P) (b : body K) (T : Timer.TimerManager (body K)) (F : Fibers (body K)) (x : Fiber (body K)).
(** The thread, its main fiber and the idle fiber of its loop. *)
Variables (t m idle : Z).
Local Abbreviation sound := (sound t).
Local Abbreviation evolves := (evolves t).

(** ** The fibers of the loop *)

Definition suspended (st : State) : bool := match st with HOLD | READY => true | _ => false end.
(** Fiber [a] waits: for an event, for a timer, or for its turn. *)
Definition waiting_fiber F (a : Z) : bool :=
  match heap F !! a with Some x => suspended (m_state x) && negb (bool_decide (a = idle)) | None => false end.
Definition owed F (a : Z) : nat := if waiting_fiber F a then 1 else 0.

Definition idle_ready x : Prop :=
  m_state x ≠ EXEC ∧
  (m_ctx x = Some (PEntry MainFunc) ∧ m_cb x = Some Idle ∨ m_ctx x = Some (PBody MainFunc idle Idle)).

(** Between two tasks: the main fiber runs, the idle fiber has ended or can go on, and a
    fiber that waits stands in a call of its function. *)
Record fibers_ok F T : Prop := {
  fo_this : t_fiber (locals_of F t) = Some m;
  fo_main : t_main (locals_of F t) = Some m;
  fo_m : ∃ y, heap F !! m = Some y ∧ m_state y = EXEC;
  fo_idle : idle ≠ m ∧ ∃ x, heap F !! idle = Some x ∧ (m_state x = TERM ∨ idle_ready x);
  fo_fresh : ∀ a, next_address F <= a → heap F !! a = None;
  fo_rest : ∀ a x, heap F !! a = Some x → suspended (m_state x) = true → a ≠ idle →
    ∃ k, m_ctx x = Some (PBody MainFunc a k) ∧ rest_ok T k;
}.

(** The state of the process between two tasks, when the wake-ups [δ] have been taken
    off the run queue. *)
Record attends (δ : Z → nat) s : Prop := {
  at_sound : sound s;
  at_fibers : fibers_ok (p_fibers s) (p_timers s);
  at_wakes : ∀ a, (wakes a s + δ a)%nat = owed (p_fibers s) a;
}.

Lemma waiting_alter f (g : Fiber B → Fiber B) F a x :
  heap F !! f = Some x →
  waiting_fiber (upd_heap (alter g f) F) a =
    if decide (a = f) then suspended (m_state (g x)) && negb (bool_decide (f = idle)) else waiting_fiber F a.
Proof.
  intros Hx. unfold waiting_fiber. simpl. destruct (decide (a = f)) as [->|Hne].
  - by rewrite lookup_alter_eq, Hx.
  - by rewrite lookup_alter_ne.
Qed.

(** Another fiber changes. *)
Lemma fibers_ok_alter f g F T x :
  heap F !! f = Some x → f ≠ m → f ≠ idle →
  (suspended (m_state (g x)) = true → ∃ k, m_ctx (g x) = Some (PBody MainFunc f k) ∧ rest_ok T k) →
  fibers_ok F T → fibers_ok (upd_heap (alter g f) F) T.
Proof.
  intros Hx Hm Hi Hg [H1 H2 H3 [H4 H5] H6 H7]. split; simpl; try done.
  - by rewrite lookup_alter_ne.
  - split; [done|]. by rewrite lookup_alter_ne.
  - intros a Ha. rewrite lookup_alter_None. by apply H6.
  - intros a y Ha Hs Hai. destruct (decide (a = f)) as [->|Hne].
    + rewrite lookup_alter_eq, Hx in Ha. injection Ha as <-. by apply Hg.
    + rewrite lookup_alter_ne in Ha by done. by eapply H7.
Qed.
Lemma fibers_ok_kept now F T T' : timers_kept now T T' → fibers_ok F T → fibers_ok F T'.
Proof.
  intros HT [H1 H2 H3 H4 H5 H6]. split; try done. intros a x Ha Hs Hi.
  destruct (H6 a x Ha Hs Hi) as (k & Hk & Hok). exists k. split; [done|]. by eapply rest_ok_kept.
Qed.
Lemma attends_ext δ δ' s : (∀ g, δ g = δ' g) → attends δ s → attends δ' s.
Proof. intros E [H1 H2 H3]. split; [done|done|]. intros a. by rewrite <- E. Qed.
Lemma attends_evolves δ ε s s' : attends (λ g, δ g + ε g)%nat s → evolves ε s s' → attends δ s'.
Proof.
  intros [H1 H2 H3] E. split.
  - apply E.
  - rewrite (ev_fibers _ _ _ _ E). eapply fibers_ok_kept; [apply E|done].
  - intros a. rewrite (ev_wakes _ _ _ _ E), (ev_fibers _ _ _ _ E). specialize (H3 a). lia.
Qed.
Lemma attends_neutral δ s s' : attends δ s → evolves none s s' → attends δ s'.
Proof. intros H E. eapply attends_evolves; [|exact E]. eapply attends_ext; [|exact H]. intros g. unfold none. lia. Qed.
Lemma main_runs δ s : attends δ s → running t m s.
Proof.
  intros [_ Hok _]. split; [apply Hok|]. destruct (fo_m _ _ Hok) as (y & ? & ?). by exists y.
Qed.

(** The counts of the scheduler change. *)
Lemma counts_evolve a i s : sound s →
  evolves none s (set_sched (with_counts a i (p_sched s)) s).
Proof.
  intros [Hio Hroom Htim Hst Hw Hq Hh]. split; try done.
  - split; try done. by apply (io_ok_events s).
  - apply timers_kept_refl.
Qed.
Lemma add_active_evolves d s u s' : sound s → add_active d s = Ok (u, s') → evolves none s s'.
Proof. intros Hs ->%modify_ok. by apply counts_evolve. Qed.
Lemma add_idle_evolves d s u s' : sound s → add_idle d s = Ok (u, s') → evolves none s s'.
Proof. intros Hs ->%modify_ok. by apply counts_evolve. Qed.

(** ** A switch into a fiber *)

#[local] Instance process_fibers_laws : FiberHostLaws B P.
Proof. by split. Qed.

(** The state without its fibers is sound whatever they are. *)
Lemma sound_fibers F s : sound s → sound (set_fibers F s).
Proof. intros [Hio Hroom Htim Hst Hw Hq Hh]. split; try done. by apply (io_ok_events s). Qed.

(** The fibers after the switch to [f] has come back. *)
Definition back_from f (seg : segment B) F : Fibers B := settle t f m seg (swapped t f m F).

Lemma back_set f seg F s : p_fibers (set_fibers (back_from f seg F) s) = back_from f seg F.
Proof. done. Qed.
Lemma swap_evolves fuel f b ε (Q : segment B → P → Prop) s u s' :
  sound s → runnable t f m b (p_fibers s) →
  (∀ s1 seg s2, sound s1 → running t f s1 → set_fibers (p_fibers s) s1 = s → exec_body fuel t b s1 = Ok (seg, s2) →
     evolves (ε seg) s1 s2 ∧ Q seg s2) →
  swapIn (exec fuel t) t f s = Ok (u, s') →
  ∃ seg s2, evolves (ε seg) s (set_fibers (p_fibers s) s2) ∧ Q seg s2 ∧
    s' = set_fibers (back_from f seg (p_fibers s)) s2.
Proof.
  intros Hs Hrun Hexec H. pose proof Hrun as [_ Hne _ (x & Hx & _)].
  change (p_fibers s) with (fibers s) in Hrun.
  destruct (swapIn_inv (exec fuel t) t f m b s u s' Hrun H) as (seg & s1 & H1).
  set (s0 := set_fibers (swapped t f m (fibers s)) s) in *.
  assert (Hr0 : running t f s0).
  { split.
    - unfold current, s0. simpl. by rewrite locals_swapped.
    - exists (set_state EXEC x). split; [|done]. by apply (swapped_lookup t f m). }
  assert (Hs0 : set_fibers (p_fibers s) s0 = s) by (by destruct s).
  destruct (Hexec s0 seg s1 (sound_fibers _ _ Hs) Hr0 Hs0 H1) as [E HQ].
  pose proof (ev_fibers _ _ _ _ E) as Hf.
  assert (Hfr : frame (swapped t f m (fibers s)) (fibers s1)) by (change (fibers s1) with (p_fibers s1); rewrite Hf; split; auto).
  rewrite (swapIn_ok (exec fuel t) t f m b seg s s1 Hrun H1 Hfr) in H. injection H as _ <-.
  exists seg, s1. split; [|split; [done|]].
  - destruct E as [E1 E2 E3 E4 E5 E6]. split; try done. exact (sound_fibers (p_fibers s) s1 E1).
  - unfold back_from. change (fibers s1) with (p_fibers s1). by rewrite Hf.
Qed.

Section back.
Variables (f : Z) (x : Fiber B) (F : Fibers B).
Hypotheses (Hx : heap F !! f = Some x) (Hne : f ≠ m).

Lemma back_heap seg a :
  heap (back_from f seg F) !! a =
    if decide (a = f) then Some (after_fiber MainFunc f seg (set_state EXEC x))
    else if decide (a = m) then set_ctx (PWait f) <$> heap F !! m
    else heap F !! a.
Proof.
  unfold back_from, settle, swapped. simpl. case_decide as Hf; [subst a|].
  - by rewrite lookup_alter_eq, lookup_alter_ne, lookup_alter_eq, Hx.
  - rewrite lookup_alter_ne by done. case_decide as Hm.
    + subst a. by rewrite lookup_alter_eq, lookup_alter_ne.
    + by rewrite !lookup_alter_ne.
Qed.
Lemma back_locals seg : locals_of (back_from f seg F) t =
  MkLocals (Some m) (t_threadFiber (locals_of F t)) (t_main (locals_of F t)).
Proof.
  unfold back_from, settle. change (locals_of (upd_heap ?h ?G) t) with (locals_of G t).
  by rewrite locals_of_upd, locals_swapped.
Qed.
Lemma back_waiting seg a : (∃ y, heap F !! m = Some y) →
  waiting_fiber (back_from f seg F) a =
    if decide (a = f) then suspended (segment_state seg EXEC) && negb (bool_decide (f = idle))
    else waiting_fiber F a.
Proof.
  intros [y Hy]. unfold waiting_fiber. rewrite back_heap. destruct (decide (a = f)) as [->|Hf]; [done|].
  case_decide as Hm; [|done]. subst a. by rewrite Hy.
Qed.

Lemma back_fibers_ok seg T :
  (f ≠ idle → suspended (segment_state seg EXEC) = true → ∃ k, segment_point MainFunc f seg = PBody MainFunc f k ∧ rest_ok T k) →
  (f = idle → seg = Returned ∨ seg = YieldedHold Idle) → fibers_ok F T → fibers_ok (back_from f seg F) T.
Proof.
  intros Hseg Hidle [H1 H2 (y & Hy & Hye) [H4 (z & Hz & Hzr)] H6 H7].
  assert (Hfr : f < next_address F).
  { destruct (Z.lt_ge_cases f (next_address F)) as [?|Hge]; [done|]. rewrite (H6 f Hge) in Hx. done. }
  split.
  - by rewrite back_locals.
  - rewrite back_locals. exact H2.
  - rewrite back_heap. rewrite decide_False by done. rewrite decide_True by done. rewrite Hy. by eexists.
  - split; [done|]. rewrite back_heap. case_decide as Hf.
    + eexists. split; [done|]. destruct (Hidle (eq_sym Hf)) as [->| ->]; [by left|right].
      split; [done|]. right. simpl. by rewrite Hf.
    + rewrite decide_False by done. eauto.
  - intros a Ha. rewrite back_heap. simpl in Ha.
    rewrite !decide_False; [by apply H6| |].
    + intros ->. rewrite H6 in Hy by done. done.
    + intros ->. lia.
  - intros a w Ha Hs Hi. rewrite back_heap in Ha. case_decide as Hf; [|case_decide as Hm].
    + subst a. injection Ha as <-. destruct (Hseg Hi Hs) as (k & Hk & Hok). exists k. simpl. by rewrite Hk.
    + subst a. rewrite Hy in Ha. injection Ha as <-. simpl in Hs. by rewrite Hye in Hs.
    + by eapply H7.
Qed.
Lemma hold_back k : upd_heap (alter (set_state HOLD) f) (back_from f (SwappedOut k) F) = back_from f (YieldedHold k) F.
Proof.
  unfold back_from, settle, upd_heap. simpl. f_equal. apply map_eq. intros a.
  destruct (decide (a = f)) as [->|Ha].
  - by rewrite !lookup_alter_eq, !(lookup_alter_ne _ _ m) by done; rewrite !lookup_alter_eq, Hx.
  - by rewrite !(lookup_alter_ne _ _ f).
Qed.
End back.

Lemma attends_back f x seg ε δ s s' :
  heap (p_fibers s) !! f = Some x → f ≠ m → sound s → fibers_ok (p_fibers s) (p_timers s) →
  evolves ε s (set_fibers (p_fibers s) s') → p_fibers s' = back_from f seg (p_fibers s) →
  (f ≠ idle → suspended (segment_state seg EXEC) = true →
     ∃ k, segment_point MainFunc f seg = PBody MainFunc f k ∧ rest_ok (p_timers s') k) →
  (f = idle → seg = Returned ∨ seg = YieldedHold Idle) →
  (∀ a, (wakes a s + ε a + δ a)%nat =
     if decide (a = f) then (if suspended (segment_state seg EXEC) && negb (bool_decide (f = idle)) then 1%nat else 0%nat)
     else owed (p_fibers s) a) →
  attends δ s'.
Proof.
  intros Hx Hne Hs Hok E Hf Hseg Hidle Hw. split.
  - replace s' with (set_fibers (p_fibers s') (set_fibers (p_fibers s) s')) by (by destruct s').
    apply sound_fibers, E.
  - rewrite Hf. apply (back_fibers_ok f x); [done|done|done|done|]. eapply fibers_ok_kept; [apply E|done].
  - intros a. rewrite Hf. unfold owed.
    rewrite (back_waiting f x _ Hx Hne seg a) by (destruct (fo_m _ _ Hok) as (y & ? & _); by exists y).
    pose proof (ev_wakes _ _ _ _ E a) as Ha. change (wakes a (set_fibers (p_fibers s) s')) with (wakes a s') in Ha.
    rewrite Ha. rewrite Hw. unfold owed. by destruct (decide (a = f)).
Qed.

(** ** The branches of a round *)

Lemma owed_waiting F a : owed F a ≠ 0%nat →
  ∃ x, heap F !! a = Some x ∧ suspended (m_state x) = true ∧ a ≠ idle ∧ owed F a = 1%nat.
Proof.
  unfold owed, waiting_fiber. destruct (heap F !! a) as [x|]; [|done].
  destruct (suspended (m_state x)) eqn:E; [|done]. simpl. case_bool_decide; [done|]. intros _. by exists x.
Qed.
Lemma getState_inv f s st s' :
  on_fibers (getState f) s = Ok (st, s') → ∃ x, heap (p_fibers s) !! f = Some x ∧ m_state x = st ∧ s' = s.
Proof.
  intros (F & H & ->)%on_fibers_inv. unfold getState in H. apply bind_ok in H as (x & F1 & H1 & H).
  apply fiber_at_ok in H1 as [Hx ->]. apply ret_ok in H as [-> ->]. exists x. by destruct s.
Qed.
Lemma setState_inv st f s u s' :
  on_fibers (setState st f) s = Ok (u, s') →
  ∃ x, heap (p_fibers s) !! f = Some x ∧ s' = set_fibers (upd_heap (alter (set_state st) f) (p_fibers s)) s.
Proof.
  intros (F & H & ->)%on_fibers_inv. unfold setState in H. apply bind_ok in H as (x & F1 & H1 & H).
  apply fiber_at_ok in H1 as [Hx ->]. exists x. split; [done|]. by injection H as _ <-.
Qed.

(** What is left over from a segment when its fiber has yielded to be run again. *)
Definition again f (seg : segment B) : Z → nat :=
  match seg with YieldedReady _ => λ g, is_fiber g f | _ => none end.

(** It goes back to the queue, or holds. *)
Lemma requeue f s u s' :
  attends (λ g, is_fiber g f) s → schedule (IsFiber (Some f)) (-1) s = Ok (u, s') → attends none s'.
Proof.
  intros Ha H. eapply (attends_evolves none); [exact Ha|].
  apply (does_schedule t m (IsFiber (Some f)) (-1) ltac:(by eexists) s u s'); [apply Ha|by eapply main_runs|exact H].
Qed.
Lemma hold_same f x s u s' :
  heap (p_fibers s) !! f = Some x → m_state x = HOLD → on_fibers (setState HOLD f) s = Ok (u, s') → s' = s.
Proof.
  intros Hx Hst (y & Hy & ->)%setState_inv. rewrite Hx in Hy. injection Hy as <-.
  destruct s as [[h n i cnt sz loc] sch tm io fds ti k]. simpl in *. unfold upd_heap. simpl. do 2 f_equal.
  apply map_eq. intros a. destruct (decide (a = f)) as [->|Ha].
  - rewrite lookup_alter_eq, Hx. destruct x. simpl in *. by subst.
  - by rewrite lookup_alter_ne.
Qed.

(** What a round leaves alone: the fibers that wait, and the idle fiber, if they are not
    among those [δ] wakes. *)
Record keeps (δ : Z → nat) s s' : Prop := {
  ke_fibers : ∀ a x, heap (p_fibers s) !! a = Some x → suspended (m_state x) = true ∨ a = idle → δ a = 0%nat →
    heap (p_fibers s') !! a = Some x;
  ke_timers : timers_kept (time (kernel s')) (p_timers s) (p_timers s');
  ke_time : time (kernel s) <= time (kernel s');
}.
Lemma keeps_evolves δ ε s s' : evolves ε s s' → keeps δ s s'.
Proof. intros E. split; [|apply E|apply E]. intros a x. by rewrite (ev_fibers _ _ _ _ E). Qed.
Lemma keeps_trans δ s1 s2 s3 : keeps δ s1 s2 → keeps δ s2 s3 → keeps δ s1 s3.
Proof.
  intros [H1 H2 H3] [H4 H5 H6]. split; [eauto| |lia]. by eapply timers_kept_trans; [|exact H2|exact H5].
Qed.

(** The switch into a fiber that is not the idle fiber. *)
Lemma serve_switch e f b x δ (Q : segment B → P → Prop) s u s' :
  (∀ s1 seg s2, sound s1 → running t f s1 → set_fibers (p_fibers s) s1 = s →
     exec_body e t b s1 = Ok (seg, s2) → Q seg s2) →
  runnable t f m b (p_fibers s) → heap (p_fibers s) !! f = Some x → f ≠ idle →
  suspended (m_state x) = false ∨ δ f ≠ 0%nat →
  sound s → fibers_ok (p_fibers s) (p_timers s) →
  (∀ a, (wakes a s + body_wakes a b)%nat = if decide (a = f) then 0%nat else owed (p_fibers s) a) →
  may_run (p_timers s) b → swapIn (exec e t) t f s = Ok (u, s') →
  ∃ seg s2, leaves_ok seg (p_timers s') ∧ attends (again f seg) s' ∧ keeps δ s s' ∧
    heap (p_fibers s') !! f = Some (after_fiber MainFunc f seg (set_state EXEC x)) ∧
    Q seg s2 ∧ s' = set_fibers (p_fibers s') s2.
Proof.
  intros HQ' Hrun Hx Hni Hδ Hs Hok Hw Hb H. pose proof (run_ne _ _ _ _ _ Hrun) as Hne.
  destruct (swap_evolves e f b (λ seg g, body_wakes g b + holds f seg g)%nat (λ seg s, leaves_ok seg (p_timers s) ∧ Q seg s) s u s' Hs Hrun)
    as (seg & s2 & E & [HQ HQs] & ->); [|done|].
  { intros s1 seg s2 Hs1 Hr1 Ht1 H1. pose proof (HQ' s1 seg s2 Hs1 Hr1 Ht1 H1) as HQs.
    apply (f_equal p_timers) in Ht1. simpl in Ht1. destruct Hb as [Hb|Hb].
    - destruct (exec_callback t f e b Hb s1 seg s2 Hs1 Hr1 H1). by split_and!.
    - rewrite <- Ht1 in Hb. destruct (exec_rest t f e b s1 seg s2 Hb Hs1 Hr1 H1) as [E HQ]. split; [|by split].
      eapply evolves_ext; [|exact E]. intros g. destruct b; try done. }
  exists seg, s2. split; [done|]. split; [|split; [|split; [|done]]].
  - eapply (attends_back f x seg _ _ s); try done.
    + intros _ Hsusp. destruct seg; try done; by eexists.
    + intros a. specialize (Hw a). rewrite (bool_decide_false (f = idle)) by done. rewrite Nat.add_assoc, Hw.
      destruct (decide (a = f)) as [->|Haf]; destruct seg; simpl; unfold is_fiber, none;
        rewrite ?decide_True, ?decide_False by congruence; (done || lia).
  - destruct E. split; [|done|done]. intros a y Ha Hsusp Hδa. rewrite back_set, (back_heap f x _) by done.
    rewrite decide_False.
    + case_decide as Ham; [|done]. subst a. exfalso. destruct (fo_m _ _ Hok) as (z & Hz & Hze).
      rewrite Ha in Hz. injection Hz as ->. rewrite Hze in Hsusp. destruct (fo_idle _ _ Hok). by destruct Hsusp.
    + intros ->. rewrite Hx in Ha. injection Ha as ->. destruct Hδ as [Hδ|Hδ], Hsusp; congruence.
  - rewrite back_set, (back_heap f x _) by done. by rewrite decide_True.
Qed.

Lemma serve_fiber e f s u s' :
  attends (λ g, is_fiber g f) s → run_fiber exec e t f s = Ok (u, s') →
  attends none s' ∧ keeps (λ g, is_fiber g f) s s'.
Proof.
  intros Ha H. pose proof (at_wakes _ _ Ha f) as Hw. unfold is_fiber in Hw. rewrite decide_True in Hw by done.
  destruct (owed_waiting (p_fibers s) f) as (x & Hx & Hsusp & Hni & Hone); [lia|].
  destruct (fo_rest _ _ (at_fibers _ _ Ha) f x Hx Hsusp Hni) as (k & Hk & Hok).
  destruct (fo_m _ _ (at_fibers _ _ Ha)) as (y & Hy & Hye).
  unfold run_fiber in H. apply bind_ok in H as (st & s0 & H0 & H).
  apply getState_inv in H0 as (x' & Hx' & <- & ->). rewrite Hx in Hx'. injection Hx' as <-.
  rewrite bool_decide_false in H by (by intros E; rewrite E in Hsusp).
  apply bind_ok in H as (u1 & s1 & H1 & H). pose proof (add_active_evolves _ _ _ _ (at_sound _ _ Ha) H1) as E1.
  pose proof (attends_neutral _ _ _ Ha E1) as Ha1. pose proof (ev_fibers _ _ _ _ E1) as Hf1.
  apply bind_ok in H as (u2 & s2 & H2 & H).
  destruct (serve_switch e f k x (λ g, is_fiber g f) (λ _ _, True) s1 u2 s2) as (seg & s2' & HQ & Ha2 & Hk2 & Hx2 & _); [done|..|exact H2|]; rewrite ?Hf1; try done.
  { split; [apply Ha| |by exists y|].
    { intros <-. rewrite Hx in Hy. injection Hy as ->. by rewrite Hye in Hsusp. } exists x. split; [done|].
    split; [by intros E; rewrite E in Hsusp|by right]. }
  { right. unfold is_fiber. by rewrite decide_True. }
  { apply Ha1. }
  { rewrite <- Hf1. apply Ha1. }
  { intros a. pose proof (at_wakes _ _ Ha1 a) as Hwa. rewrite Hf1 in Hwa. unfold is_fiber in Hwa.
    assert (Hz : body_wakes a k = 0%nat) by by destruct k.
    case_decide as Haf; [subst a; rewrite decide_True by done|rewrite decide_False by congruence]; lia. }
  { right. eapply rest_ok_kept; [apply E1|done]. }
  apply bind_ok in H as (u3 & s3 & H3 & H). pose proof (add_active_evolves _ _ _ _ (at_sound _ _ Ha2) H3) as E3.
  pose proof (attends_neutral _ _ _ Ha2 E3) as Ha3.
  assert (Hk3 : keeps (λ g, is_fiber g f) s s3).
  { eapply keeps_trans; [by eapply keeps_evolves|]. eapply keeps_trans; [done|]. by eapply keeps_evolves. }
  apply bind_ok in H as (st & s4 & H4 & H). apply getState_inv in H4 as (x3 & Hx3 & <- & ->).
  rewrite (ev_fibers _ _ _ _ E3), Hx2 in Hx3. injection Hx3 as <-. simpl in H.
  destruct seg as [| |k'|k'|k']; simpl in *; try done.
  - by apply ret_ok in H as [_ ->].
  - by apply ret_ok in H as [_ ->].
  - split; [by eapply requeue|]. eapply keeps_trans; [done|].
    eapply keeps_evolves, (does_schedule t m (IsFiber (Some f)) (-1)); [by eexists|apply Ha3|by eapply main_runs|done].
  - eapply hold_same in H; [by subst s'| |].
    + by rewrite (ev_fibers _ _ _ _ E3), Hx2.
    + done.
Qed.

(** Other fibers come to be, or are taken back for a new callback. *)
Lemma attends_fibers δ F s :
  fibers_ok F (p_timers s) → (∀ a, owed F a = owed (p_fibers s) a) → attends δ s → attends δ (set_fibers F s).
Proof.
  intros HF Ho [H1 H2 H3]. split; [by apply sound_fibers|done|]. intros a. simpl. rewrite Ho. apply H3.
Qed.
Definition renewed (cb : option B) x : Fiber B :=
  MkFiber (m_id x) (m_stacksize x) INIT (Some (PEntry MainFunc)) (m_stack x) cb.
Lemma reset_inv (cb : option B) c s u s' :
  on_fibers (reset cb c) s = Ok (u, s') →
  ∃ x, heap (p_fibers s) !! c = Some x ∧ settled (m_state x) = true ∧
    s' = set_fibers (upd_heap (alter (renewed cb) c) (p_fibers s)) s.
Proof.
  intros (F & H & ->)%on_fibers_inv. unfold reset in H. apply bind_ok in H as (x & F1 & H1 & H).
  apply fiber_at_ok in H1 as [Hx ->]. apply bind_ok in H as (v & F1 & H1 & H). apply assert_ok in H1 as [_ ->].
  apply bind_ok in H as (v' & F1 & H1 & H). apply assert_ok in H1 as [Hst ->].
  exists x. split; [done|]. split; [done|]. by injection H as _ <-.
Qed.
Lemma reset_attends δ ε (cb : option B) c s u s' :
  c ≠ m → c ≠ idle → attends δ s → on_fibers (reset cb c) s = Ok (u, s') →
  attends δ s' ∧ keeps ε s s' ∧ ∃ x, heap (p_fibers s') !! c = Some (renewed cb x).
Proof.
  intros Hm Hi Ha (x & Hx & Hst & ->)%reset_inv. split; [|split].
  - apply attends_fibers; [|intros a; unfold owed|done].
    + eapply fibers_ok_alter; [done|done|done|done|apply Ha].
    + rewrite (waiting_alter c (renewed cb) _ a x Hx). simpl. case_decide as Hac; [|done]. subst a.
      unfold waiting_fiber. rewrite Hx. by destruct (m_state x).
  - split; [|apply timers_kept_refl|done]. intros a y Hy Hsusp _. simpl. rewrite lookup_alter_ne; [done|].
    intros <-. rewrite Hx in Hy. injection Hy as ->. destruct Hsusp; [by destruct (m_state y)|done].
  - exists x. simpl. by rewrite lookup_alter_eq, Hx.
Qed.
Lemma ctor_attends δ ε cb s c s' :
  attends δ s → on_fibers (Fiber_ctor (Some cb) 0 false) s = Ok (c, s') →
  attends δ s' ∧ keeps ε s s' ∧ c ≠ m ∧ c ≠ idle ∧ ∃ x, heap (p_fibers s') !! c = Some (renewed (Some cb) x).
Proof.
  intros Ha (F & H & ->)%on_fibers_inv. change (fibers s) with (p_fibers s) in H. rewrite Fiber_ctor_eq in H. injection H as <- <-.
  destruct (at_fibers _ _ Ha) as [H1 H2 (y & Hy & Hye) [H4 (z & Hz & Hzr)] H6 H7].
  set (n := next_address (p_fibers s)) in *. assert (Hn : heap (p_fibers s) !! n = None) by by apply H6.
  assert (Hnm : n ≠ m) by congruence. assert (Hni : n ≠ idle) by congruence.
  split; [|split; [|split; [done|split; [done|]]]].
  - apply attends_fibers; [|intros a; unfold owed, waiting_fiber|done].
    + split; simpl; try done.
      * exists y. by rewrite lookup_insert_ne.
      * split; [done|]. exists z. by rewrite lookup_insert_ne.
      * intros a Hle. fold n in Hle |- *. rewrite lookup_insert_ne by lia. apply H6. fold n. lia.
      * intros a x Hx Hs Hai. apply lookup_insert_Some in Hx as [[<- <-]|[_ Hx]]; [done|]. by eapply H7.
    + simpl. fold n. destruct (decide (a = n)) as [->|Han].
      * by rewrite lookup_insert_eq, Hn.
      * by rewrite lookup_insert_ne.
  - split; [|apply timers_kept_refl|done]. intros a x Hx _ _. simpl. fold n. rewrite lookup_insert_ne; [done|].
    intros <-. by rewrite Hn in Hx.
  - simpl. fold n. rewrite lookup_insert_eq. by eexists (MkFiber _ _ INIT None true None).
Qed.

Definition cb_ok (o : option Z) : Prop := ∀ c, o = Some c → c ≠ m ∧ c ≠ idle.
Lemma fiber_at_inv f s x s' :
  on_fibers (fiber_at f) s = Ok (x, s') → heap (p_fibers s) !! f = Some x ∧ s' = s.
Proof. intros (F & [Hx ->]%fiber_at_ok & ->)%on_fibers_inv. split; [done|by destruct s]. Qed.

Lemma serve_callback e o b (Q : Z → segment B → P → Prop) s r s' :
  (∀ c s1 seg s2, sound s1 → running t c s1 → time (kernel s) <= time (kernel s1) →
     t_hook_enable (p_sched s1) = t_hook_enable (p_sched s) → exec_body e t b s1 = Ok (seg, s2) → Q c seg s2) →
  callback_ok b → cb_ok o → attends (λ g, body_wakes g b) s → run_callback exec e t o b s = Ok (r, s') →
  attends none s' ∧ keeps (λ g, body_wakes g b) s s' ∧ cb_ok r ∧
  ∃ c seg s2, c ≠ idle ∧ Q c seg s2 ∧
    ∀ k, seg = YieldedHold k → p_timers s' = p_timers s2 ∧ time (kernel s2) <= time (kernel s') ∧
      ∃ x, heap (p_fibers s') !! c = Some x ∧ m_state x = HOLD ∧ m_ctx x = Some (PBody MainFunc c k).
Proof.
  intros HQ0 Hb Ho Ha H. unfold run_callback in H. apply bind_ok in H as (c & s1 & H1 & H).
  assert (Hc : attends (λ g, body_wakes g b) s1 ∧ keeps (λ g, body_wakes g b) s s1 ∧ c ≠ m ∧ c ≠ idle ∧
    (∃ x, heap (p_fibers s1) !! c = Some (renewed (Some b) x)) ∧ p_sched s1 = p_sched s).
  { destruct o as [c'|].
    - apply bind_ok in H1 as (v & s0 & H1 & H0). apply ret_ok in H0 as [-> ->]. destruct (Ho c' eq_refl) as [Hm Hi].
      destruct (reset_attends _ (λ g, body_wakes g b) _ _ _ _ _ Hm Hi Ha H1) as (? & ? & ?). split_and!; try done.
      by apply on_fibers_inv in H1 as (? & _ & ->).
    - destruct (ctor_attends _ (λ g, body_wakes g b) _ _ _ _ Ha H1) as (? & ? & ? & ? & ?). split_and!; try done.
      by apply on_fibers_inv in H1 as (? & _ & ->). }
  clear H1 Ha. destruct Hc as (Ha & Hk & Hm & Hi & [x Hx] & Hsch).
  apply bind_ok in H as (u1 & s2 & H1 & H). pose proof (add_active_evolves _ _ _ _ (at_sound _ _ Ha) H1) as E1.
  assert (Hhook : t_hook_enable (p_sched s2) = t_hook_enable (p_sched s)).
  { apply modify_ok in H1 as ->. simpl. by rewrite Hsch. }
  pose proof (attends_neutral _ _ _ Ha E1) as Ha1. pose proof (ev_fibers _ _ _ _ E1) as Hf1.
  apply bind_ok in H as (y & s3 & H2 & H). apply fiber_at_inv in H2 as [_ ->].
  apply bind_ok in H as (v & s3 & H2 & H). apply assert_ok in H2 as [_ ->].
  apply bind_ok in H as (u2 & s3 & H2 & H).
  destruct (fo_m _ _ (at_fibers _ _ Ha)) as (z & Hz & Hze).
  destruct (serve_switch e c b (renewed (Some b) x) (λ g, body_wakes g b) (Q c) s2 u2 s3) as (seg & s3' & HQ & Ha2 & Hk2 & Hx2 & HQs & Heq);
    [..|exact H2|]; rewrite ?Hf1; try done.
  { intros s4 seg s5 Hs4 Hr4 Heq H4. pose proof (f_equal kernel Heq) as Hk4. pose proof (f_equal p_sched Heq) as Hs4'.
    simpl in Hk4, Hs4'. apply (HQ0 c s4); [done|done| |by rewrite Hs4'|done]. rewrite Hk4.
    pose proof (ke_time _ _ _ Hk). pose proof (ev_time _ _ _ _ E1). lia. }
  { split; [apply Ha|done|by exists z|]. eexists. split; [done|]. split; [done|by left]. }
  { by left. }
  { apply Ha1. }
  { rewrite <- Hf1. apply Ha1. }
  { intros a. rewrite (at_wakes _ _ Ha1 a), Hf1. case_decide as Hac; [|done]. subst a.
    unfold owed, waiting_fiber. by rewrite Hx. }
  { by left. }
  apply bind_ok in H as (u3 & s4 & H3 & H). pose proof (add_active_evolves _ _ _ _ (at_sound _ _ Ha2) H3) as E3.
  pose proof (attends_neutral _ _ _ Ha2 E3) as Ha3.
  assert (Hk3 : keeps (λ g, body_wakes g b) s s4).
  { eapply keeps_trans; [exact Hk|]. eapply keeps_trans; [by eapply keeps_evolves|].
    eapply keeps_trans; [exact Hk2|]. by eapply keeps_evolves. }
  apply bind_ok in H as (st & s5 & H4 & H). apply getState_inv in H4 as (x3 & Hx3 & <- & ->).
  rewrite (ev_fibers _ _ _ _ E3), Hx2 in Hx3. injection Hx3 as <-. simpl in H.
  assert (Hsame : cb_ok (Some c)) by (intros c' [= <-]; done).
  destruct seg as [| |k|k|k]; simpl in *; try done; apply bind_ok in H as (v4 & s5 & H4 & H); apply ret_ok in H as [-> ->].
  - destruct (reset_attends _ (λ g, body_wakes g b) _ _ _ _ _ Hm Hi Ha3 H4) as (? & ? & _).
    split; [done|]. split; [by eapply keeps_trans|]. split; [done|]. eexists _, _, _. by split_and!.
  - destruct (reset_attends _ (λ g, body_wakes g b) _ _ _ _ _ Hm Hi Ha3 H4) as (? & ? & _).
    split; [done|]. split; [by eapply keeps_trans|]. split; [done|]. eexists _, _, _. by split_and!.
  - split; [by eapply requeue|]. split; [|split; [done|eexists _, _, _; by split_and!]]. eapply keeps_trans; [exact Hk3|].
    eapply keeps_evolves, (does_schedule t m (IsFiber (Some c)) (-1)); [by eexists|apply Ha3|by eapply main_runs|done].
  - eapply hold_same in H4; [subst s5| |].
    + split; [done|]. split; [done|]. split; [done|]. exists c, (YieldedHold k), s3'. split; [done|]. split; [done|].
      intros k' [= ->]. apply modify_ok in H3 as ->. rewrite Heq. split; [done|]. split; [done|].
      eexists. split; [exact Hx2|done].
    + by rewrite (ev_fibers _ _ _ _ E3), Hx2.
    + done.
Qed.

(** The idle fiber. *)
Definition idle_ended s : Prop := ∃ x, heap (p_fibers s) !! idle = Some x ∧ m_state x = TERM.
(** Nothing is left to run or to wait for. *)
Definition over s : Prop :=
  Timer.m_timers (p_timers s) = [] ∧ pending s = 0 ∧ Scheduler.m_fibers (p_sched s) = [].
Lemma idle_over fuel s s' :
  sound s → 0 < time (kernel s) → IOManager.idle fuel s = Ok (Returned, s') → over s'.
Proof.
  intros Hs Htime H. destruct (clock_ms (kernel s)) as [now k] eqn:E. destruct (clock_later _ _ _ E) as [_ ?].
  destruct (idle_returned fuel s s' H) as (-> & Htm & Hp & Hb).
  - rewrite E. simpl. lia.
  - apply Hs.
  - intros l x Hx. by destruct (so_store _ _ Hs l x Hx) as (_ & ? & _).
  - split; [done|]. split; [done|]. by apply stopping_queue_empty.
Qed.
Definition idle_end s (seg : segment B) s' : Prop :=
  seg = Returned ∧ (0 < time (kernel s) → over s') ∨ seg = SwappedOut Idle.
Lemma serve_idle e s stop s' :
  attends none s → run_idle exec e t idle s = Ok (stop, s') →
  attends none s' ∧ keeps (λ g, is_fiber g idle) s s' ∧ (stop = true → s' = s ∧ idle_ended s) ∧
  (idle_ended s' → s' = s ∧ idle_ended s ∨ (0 < time (kernel s) → over s')).
Proof.
  intros Ha H. unfold run_idle in H. apply bind_ok in H as (st & s0 & H0 & H).
  apply getState_inv in H0 as (x & Hx & <- & ->). case_bool_decide as Hst.
  { apply ret_ok in H as [-> ->]. split; [done|]. split; [|split; [intros _; split; [done|by exists x]|intros ?; by left]].
    split; [done|apply timers_kept_refl|done]. }
  destruct (at_fibers _ _ Ha) as [Hthis Hmain (y & Hy & Hye) [Him (x' & Hx' & [Hend|[Hne Hpt]])] Hfresh Hrest];
    rewrite Hx in Hx'; injection Hx' as <-; [done|].
  apply bind_ok in H as (u1 & s1 & H1 & H). pose proof (add_idle_evolves _ _ _ _ (at_sound _ _ Ha) H1) as E1.
  pose proof (attends_neutral _ _ _ Ha E1) as Ha1. pose proof (ev_fibers _ _ _ _ E1) as Hf1.
  apply bind_ok in H as (u2 & s2 & H2 & H).
  destruct (swap_evolves e idle Idle (λ _, none) (idle_end s1) s1 u2 s2)
    as (seg & s3 & E2 & Hseg & ->); [apply Ha1| | |exact H2|].
  { rewrite Hf1. split; [done|congruence|by exists y|]. by exists x. }
  { intros s3 seg s4 Hs3 Hr3 Heq H3. destruct (idle_evolves t idle e s3 seg s4 Hs3 Hr3 H3) as [E [->| ->]]; split; try done.
    - left. split; [done|]. intros Htime. eapply (idle_over e s3); [done| |done]. by rewrite <- Heq in Htime.
    - by right. }
  rewrite Hf1 in *.
  apply bind_ok in H as (u3 & s4 & ->%modify_ok & H). apply bind_ok in H as (st & s5 & H4 & H).
  apply getState_inv in H4 as (x3 & Hx3 & <- & ->).
  change (heap (back_from idle seg (p_fibers s)) !! idle = Some x3) in Hx3. rewrite (back_heap idle x _) in Hx3 by done. rewrite decide_True in Hx3 by done.
  injection Hx3 as <-. apply bind_ok in H as (u4 & s5 & H4 & H). apply ret_ok in H as [-> ->].
  assert (Hend : ∃ seg' a i, s5 = set_fibers (back_from idle seg' (p_fibers s)) (set_sched (with_counts a i (p_sched s3)) s3) ∧
     (seg' = Returned ∧ (0 < time (kernel s1) → over s3) ∨ seg' = YieldedHold Idle)).
  { destruct Hseg as [[-> Hov]| ->].
    - apply ret_ok in H4 as [_ ->]. eexists Returned, _, _. split; [reflexivity|by left].
    - apply setState_inv in H4 as (z & _ & ->). eexists (YieldedHold Idle), _, _. split; [|by right].
      rewrite <- (hold_back idle x (p_fibers s) Hx Him). reflexivity. }
  clear H4. destruct Hend as (seg' & a & i & -> & Hend).
  assert (E3 : evolves none s1 (set_fibers (p_fibers s) (set_sched (with_counts a i (p_sched s3)) s3))).
  { eapply evolves_after; [exact E2|]. exact (counts_evolve a i (set_fibers (p_fibers s) s3) (ev_sound _ _ _ _ E2)). }
  assert (Hidle : seg' = Returned ∨ seg' = YieldedHold Idle) by (destruct Hend as [[-> _]| ->]; auto).
  split; [|split; [|split; [done|]]].
  - eapply (attends_back idle x seg' none none s1); rewrite ?Hf1; try done; [apply Ha1| |].
    + rewrite <- Hf1. apply Ha1.
    + intros b. pose proof (at_wakes _ _ Ha1 b) as Hb. rewrite Hf1 in Hb. unfold none in *.
      rewrite bool_decide_true, andb_false_r by done. case_decide as Hbi; [|lia]. subst b.
      unfold owed, waiting_fiber in Hb. rewrite Hx, bool_decide_true, andb_false_r in Hb by done. lia.
  - pose proof (evolves_after _ _ _ _ _ E1 E3) as E. destruct E. split; [|done|done].
    intros b z Hz Hsusp Hbi. rewrite back_set, (back_heap idle x _) by done.
    rewrite decide_False by (intros ->; unfold is_fiber in Hbi; by rewrite decide_True in Hbi).
    case_decide as Hbm; [|done]. subst b. rewrite Hy in Hz. injection Hz as ->. rewrite Hye in Hsusp. by destruct Hsusp.
  - intros (z & Hz & Hzt). right. rewrite back_set, (back_heap idle x _), decide_True in Hz by done. injection Hz as <-.
    destruct Hend as [[-> Hov]| ->]; [|done]. intros Htime. apply Hov. pose proof (ev_time _ _ _ _ E1). lia.
Qed.

(** ** Rounds *)

Lemma pick_inv so (l : list (Fiber_and_Thread B)) r : pick so t l = Ok r →
  match picked r with
  | Some it => ∃ pre post, l = pre ++ it :: post ∧ left_over r = pre ++ post
  | None => left_over r = l
  end.
Proof.
  revert r. induction l as [|it l IH]; intros r; [by intros [= <-]|]. simpl.
  assert (Hskip : ∀ tk : bool, match pick so t l with Ok r => Ok (pass it tk r) | Fault e => Fault e end = Ok r →
    match picked r with
    | Some it' => ∃ pre post, it :: l = pre ++ it' :: post ∧ left_over r = pre ++ post
    | None => left_over r = it :: l
    end).
  { intros tk. destruct (pick so t l) as [r'|]; [|done]. intros [= <-]. specialize (IH r' eq_refl). simpl.
    destruct (picked r') as [it'|]; [|by rewrite IH]. destruct IH as (pre & post & -> & ->). by exists (it :: pre), post. }
  assert (Htake : ∀ tk, Ok (MkPick (Some it) l tk) = Ok r →
    match picked r with
    | Some it' => ∃ pre post, it :: l = pre ++ it' :: post ∧ left_over r = pre ++ post
    | None => left_over r = it :: l
    end) by (intros tk [= <-]; by exists [], l).
  destruct (_ && _); [by apply Hskip|]. destruct (what it) as [[f|]|]; [|done|by eapply Htake].
  destruct (so f) as [[]|]; first [by eapply Htake|by eapply Hskip|done].
Qed.
Lemma dequeue_attends pre it post s :
  Scheduler.m_fibers (p_sched s) = pre ++ it :: post → attends none s →
  task_ok (what it) ∧
  attends (λ g, task_wakes g (what it)) (set_sched (with_fibers (pre ++ post) (p_sched s)) s).
Proof.
  intros Hq [[Hio Hroom Htim Hst Hw Hqu Hh] H2 H3].
  split; [apply Hqu; rewrite Hq; apply elem_of_app; right; by left|]. split; [|done|].
  - split; try done; [by apply (io_ok_events s)|]. intros it' Hit'. apply Hqu. rewrite Hq. simpl in Hit'.
    apply elem_of_app in Hit' as [?|?]; apply elem_of_app; [by left|right; by right].
  - intros a. specialize (H3 a). unfold none, wakes in *.
    set (s1 := set_sched _ s). change (event_wakes a s1) with (event_wakes a s). change (timer_wakes a s1) with (timer_wakes a s).
    assert (queue_wakes a s = queue_wakes a s1 + task_wakes a (what it))%nat; [|change (p_fibers s1) with (p_fibers s); lia].
    unfold queue_wakes. change (Scheduler.m_fibers (p_sched s1)) with (pre ++ post).
    rewrite Hq, !sum_list_with_app. simpl. lia.
Qed.
Lemma same_queue s : set_sched (with_fibers (Scheduler.m_fibers (p_sched s)) (p_sched s)) s = s.
Proof. by destruct s as [? [] ? ? ? ? ?]. Qed.

Definition ends_over s : Prop := idle_ended s → over s.
Lemma pick_nil so r : pick so t ([] : list (Fiber_and_Thread B)) = Ok r → tickle_me r = false.
Proof. by intros [= <-]. Qed.

(** A round that finds a task. *)
Lemma serve_task e cb it pre post s s1 cb' stop s' :
  cb_ok cb → attends none s → Scheduler.m_fibers (p_sched s) = pre ++ it :: post →
  evolves none (set_sched (with_fibers (pre ++ post) (p_sched s)) s) s1 →
  match what it with
  | IsFiber (Some f) => run_fiber exec e t f ;;; ret (cb, false)
  | IsCb (Some b) => let* c := run_callback exec e t cb b in ret (c, false)
  | _ => let* stop := run_idle exec e t idle in ret (cb, stop)
  end s1 = Ok ((cb', stop), s') →
  cb_ok cb' ∧ attends none s' ∧ stop = false ∧ keeps (λ g, task_wakes g (what it)) s s'.
Proof.
  intros Hcb Ha Hq E H. destruct (dequeue_attends pre it post s Hq Ha) as [Hok Ha1].
  pose proof (attends_neutral _ _ _ Ha1 E) as Ha2.
  assert (Hk : keeps (λ g, task_wakes g (what it)) s s1).
  { pose proof (keeps_evolves (λ g, task_wakes g (what it)) _ _ _ E) as [H1 H2 H3]. by split. }
  destruct (what it) as [[f|]|[b|]]; try done.
  - apply bind_ok in H as (u & s2 & H2 & [H ->]%ret_ok). injection H as -> ->.
    destruct (serve_fiber e f s1 u s2 Ha2 H2) as [Ha3 Hk3]. split_and!; try done. by eapply keeps_trans.
    - destruct Hok as [? Hok]. done.
  - apply bind_ok in H as (u & s2 & H2 & [H ->]%ret_ok). injection H as -> ->.
    destruct (serve_callback e cb b (λ _ _ _, True) s1 u s2 ltac:(done) Hok Hcb Ha2 H2) as (Ha3 & Hk3 & Hcb' & _). split_and!; try done.
    by eapply keeps_trans.
Qed.

Lemma round_attends e cb s cb' stop s' :
  cb_ok cb → attends none s → run_iter exec e t idle cb s = Ok ((cb', stop), s') →
  cb_ok cb' ∧ attends none s' ∧ (stop = true → idle_ended s') ∧
  (0 < time (kernel s) → ends_over s → ends_over s') ∧
  ∃ δ, (∀ a, δ a <= queue_wakes a s + is_fiber a idle)%nat ∧ keeps δ s s'.
Proof.
  intros Hcb Ha H. unfold run_iter in H. apply bind_ok in H as (r & s1 & H1 & H). unfold take_task in H1.
  change (sched s) with (p_sched s) in H1.
  destruct (pick _ t (Scheduler.m_fibers (p_sched s))) as [r'|] eqn:Ep; [|done]. injection H1 as -> <-.
  pose proof (pick_inv _ _ _ Ep) as Hpick. apply bind_ok in H as (v & s2 & H2 & H).
  destruct (picked r) as [it|] eqn:Er.
  - destruct Hpick as (pre & post & Hq & Hl). rewrite Hl in H2.
    destruct (dequeue_attends pre it post s Hq Ha) as [Hok Ha1].
    pose proof (does_when t m _ _ (does_tickle t m) _ _ _ (at_sound _ _ Ha1) (main_runs _ _ Ha1) H2) as E.
    destruct (serve_task e cb it pre post s s2 cb' stop s' Hcb Ha Hq E H) as (Hcb' & Ha' & -> & Hk).
    assert (Hle : ∀ a, (task_wakes a (what it) <= queue_wakes a s)%nat).
    { intros a. unfold queue_wakes. rewrite Hq, sum_list_with_app. simpl. lia. }
    assert (Hi : task_wakes idle (what it) = 0%nat).
    { pose proof (at_wakes _ _ Ha1 idle) as Hw. unfold owed, waiting_fiber in Hw.
      destruct (heap _ !! idle); rewrite ?bool_decide_true, ?andb_false_r in Hw by done; simpl in Hw; lia. }
    split; [done|]. split; [done|]. split; [done|]. split.
    + intros _ Hover (x & Hx & Hxt). exfalso. destruct (fo_idle _ _ (at_fibers _ _ Ha)) as [_ (z & Hz & _)].
      pose proof (ke_fibers _ _ _ Hk idle z Hz (or_intror eq_refl) Hi) as Hz'. rewrite Hx in Hz'. injection Hz' as ->.
      destruct Hover as (_ & _ & Hnil); [by exists z|]. rewrite Hq in Hnil. by destruct pre.
    + exists (λ g, task_wakes g (what it)). split; [|done]. intros a. specialize (Hle a). lia.
  - rewrite Hpick in H2. change (when (tickle_me r) Scheduler.tickle
      (set_sched (with_fibers (Scheduler.m_fibers (p_sched s)) (p_sched s)) s) = Ok (v, s2)) in H2.
    rewrite same_queue in H2. simpl in H.
    pose proof (does_when t m _ _ (does_tickle t m) _ _ _ (at_sound _ _ Ha) (main_runs _ _ Ha) H2) as E.
    pose proof (attends_neutral _ _ _ Ha E) as Ha2.
    apply bind_ok in H as (b & s3 & H3 & [H ->]%ret_ok). injection H as -> ->.
    destruct (serve_idle e s2 b s3 Ha2 H3) as (Ha3 & Hk3 & Hstop & Hend).
    split; [done|]. split; [done|]. split; [intros ->; by destruct (Hstop eq_refl) as [-> ?]|]. split.
    + intros Htime Hover Hended. destruct (Hend Hended) as [[-> Hs2]|Hov].
      * assert (Hs : idle_ended s) by (unfold idle_ended in *; by rewrite (ev_fibers _ _ _ _ E) in Hs2).
        pose proof (Hover Hs) as Hov. rewrite (proj2 (proj2 Hov)) in Ep. rewrite (pick_nil _ _ Ep) in H2.
        by apply ret_ok in H2 as [_ ->].
      * apply Hov. pose proof (ev_time _ _ _ _ E). lia.
    + exists (λ g, is_fiber g idle). split; [intros; lia|]. eapply keeps_trans; [|exact Hk3]. by eapply keeps_evolves.
Qed.
End serving.
End SystemFacts.
