(* ===== verification/SystemRuns.v ===== *)
(** * The life of fibers that wait

    The invariant of [SystemFacts] from the start of [Scheduler::run] on, and what it
    says of the fibers that call the hooked functions. *)
From stdpp Require Import base gmap list strings.
From Stdlib Require Import ZArith Lia.
From S2P Require Import Prelude StdSet Timers TimerFacts Fibers FiberFacts Schedulers SchedulerFacts.
From S2P Require Import FdManagers IOManagers IOManagerFacts Hooks HookFacts.
From S2P Require Import Systems Wakeups SystemSteps SystemHooks SystemFacts.
Open Scope Z_scope.

Module SystemRuns.
Import Fiber FiberFacts Scheduler SchedulerFacts IOManager IOManagerFacts Hook HookFacts System Wakeup SystemSteps SystemHooks SystemFacts.

Section runs.
Context {K : Type} `{!Kernel K} `{!KernelLaws K} `{!KernelTime K}.
Local Abbreviation B := (body K).
Local Abbreviation P := (Process (body K) K).
Implicit Types (s : P) (b : body K).

(** Between two rounds of the loop on thread [t]. *)
Definition served (t idle : Z) (cb : option Z) s : Prop :=
  ∃ m, attends t m idle none s ∧ cb_ok m idle cb.

(** ** The start of [run] *)

(** What [run] does to the scheduler's thread-local variables. *)
Definition entered (t : Z) s : P :=
  set_sched (with_locals ({[t]} ∪ t_scheduler (p_sched s)) ({[t]} ∪ t_hook_enable (p_sched s)) (p_sched s)) s.

(** A process whose thread [t], not the one of the caller, is about to execute [run]: no
    fiber waits and nothing that will wake one is on the run queue, registered for an
    event or in a timer. *)
Record can_serve (t : Z) s : Prop := {
  cs_sound : sound t (entered t s);
  cs_worker : t ≠ m_root_thread_id (p_sched s);
  cs_this : ∀ g, t_fiber (locals_of (p_fibers s) t) = Some g →
    ∃ y, heap (p_fibers s) !! g = Some y ∧ m_state y = EXEC;
  cs_fresh : ∀ a, next_address (p_fibers s) <= a → heap (p_fibers s) !! a = None;
  cs_settled : ∀ a x, heap (p_fibers s) !! a = Some x → suspended (m_state x) = false;
  cs_wakes : ∀ a, wakes a s = 0%nat;
}.

(** The main fiber of the thread, which [GetThis] makes if there is none. *)
Lemma main_fiber t (F : Fibers B) :
  (∀ g, t_fiber (locals_of F t) = Some g → ∃ y, heap F !! g = Some y ∧ m_state y = EXEC) →
  (∀ a, next_address F <= a → heap F !! a = None) →
  (∀ a x, heap F !! a = Some x → suspended (m_state x) = false) →
  ∃ m F', GetThis t F = Ok (m, F') ∧ t_fiber (locals_of F' t) = Some m ∧
    (∃ y, heap F' !! m = Some y ∧ m_state y = EXEC) ∧
    (∀ a, next_address F' <= a → heap F' !! a = None) ∧
    (∀ a x, heap F' !! a = Some x → suspended (m_state x) = false).
Proof.
  intros Hthis Hfresh Hset. destruct (t_fiber (locals_of F t)) as [g|] eqn:E.
  - exists g, F. rewrite (GetThis_ok t g) by done. split_and!; try done. by apply Hthis.
  - eexists _, _. rewrite (GetThis_new t F E). split; [done|]. rewrite locals_of_upd. split; [done|].
    split; [|split]; simpl.
    + rewrite lookup_insert_eq. by eexists.
    + intros a Ha. rewrite lookup_insert_ne by lia. apply Hfresh. lia.
    + intros a x [[<- <-]|[_ Hx]]%lookup_insert_Some; [done|]. by eapply Hset.
Qed.

Lemma setup_runs t s : can_serve t s → ∃ idle s', run_setup t s = Ok (idle, s') ∧
  p_sched s' = p_sched (entered t s) ∧ p_timers s' = p_timers s ∧ p_iom s' = p_iom s ∧ kernel s' = kernel s.
Proof.
  intros [_ Hroot Hthis Hfresh Hset _]. destruct (main_fiber t (p_fibers s) Hthis Hfresh Hset) as (m & F1 & HG & _).
  unfold run_setup. do 3 step_in. simpl. rewrite (proj2 (Z.eqb_neq _ _) Hroot). simpl.
  unfold on_fibers. rewrite bind_assoc. unfold bind. simpl. rewrite HG. simpl.
  eexists _, _. split; [reflexivity|]. by destruct s as [? [] ? ? ? ? ?].
Qed.
Lemma setup_served t s idle s' :
  can_serve t s → run_setup t s = Ok (idle, s') → served t idle None s' ∧ time (kernel s') = time (kernel s) ∧ ¬ idle_ended idle s'.
Proof.
  intros [Hs Hroot Hthis Hfresh Hset Hw] H. unfold run_setup in H.
  apply bind_ok in H as (u1 & s1 & ->%modify_ok & H). apply bind_ok in H as (u2 & s2 & ->%modify_ok & H).
  apply bind_ok in H as (root & s3 & [-> ->]%gets_ok & H). simpl in H.
  rewrite (proj2 (Z.eqb_neq _ _) Hroot) in H. simpl in H.
  destruct (main_fiber t (p_fibers s) Hthis Hfresh Hset) as (m & F1 & HG & Ht1 & Hm1 & Hf1 & Hset1).
  apply bind_ok in H as (u4 & s4 & H4 & H). apply bind_ok in H4 as (m' & s5 & (F & H5 & ->)%on_fibers_inv & H4).
  change (GetThis t (p_fibers s) = Ok (m', F)) in H5. rewrite HG in H5. injection H5 as <- <-.
  apply on_fibers_inv in H4 as (F2 & ->%modify_ok & ->).
  apply on_fibers_inv in H as (F3 & H & ->). change (fibers _) with (upd_locals t (λ l, MkLocals (t_fiber l) (t_threadFiber l) (Some m)) F1) in H.
  rewrite Fiber_ctor_eq in H. injection H as <- <-.
  match goal with |- context [allocated ?y ?i ?G] => set (x := y) in *; set (id := i); set (F2 := G) end.
  set (n := next_address F2). change (served t n None (set_fibers (allocated x id F2) (entered t s)) ∧
    time (kernel s) = time (kernel s) ∧ ¬ idle_ended n (set_fibers (allocated x id F2) (entered t s))).
  assert (Hn : heap F1 !! n = None) by (apply Hf1; done).
  destruct Hm1 as (y & Hy & Hye). assert (Hnm : n ≠ m) by congruence.
  assert (Hl : locals_of (allocated x id F2) t = MkLocals (Some m) (t_threadFiber (locals_of F1 t)) (Some m)).
  { change (locals_of (allocated x id F2) t) with (locals_of F2 t). unfold F2. by rewrite locals_of_upd, Ht1. }
  assert (Hh : ∀ a, heap (allocated x id F2) !! a = if decide (a = n) then Some x else heap F1 !! a).
  { intros a. simpl. fold n. case_decide as Ha; [subst a; by rewrite lookup_insert_eq|by rewrite lookup_insert_ne]. }
  assert (Hwait : ∀ a, waiting_fiber n (allocated x id F2) a = false).
  { intros a. unfold waiting_fiber. rewrite Hh. case_decide; [by subst|].
    destruct (heap F1 !! a) as [z|] eqn:Ez; [|done]. by rewrite (Hset1 _ _ Ez). }
  split; [|split; [done|]].
  - exists m. split; [|done]. split; [by apply sound_fibers| |].
    + simpl. split; rewrite ?Hl; try done.
      * exists y. by rewrite Hh, decide_False.
      * split; [done|]. exists x. rewrite Hh, decide_True by done. split; [done|]. right. by split; [|left].
      * intros a Ha. assert (Ha' : n + 1 <= a) by exact Ha. rewrite Hh, decide_False by lia. apply Hf1. change (n <= a). lia.
      * intros a z Hz Hsusp _. rewrite Hh in Hz. case_decide; [by injection Hz as <-|]. by rewrite (Hset1 _ _ Hz) in Hsusp.
    + intros a. unfold owed. change (p_fibers (set_fibers (allocated x id F2) (entered t s))) with (allocated x id F2).
      rewrite Hwait. unfold none. rewrite Nat.add_0_r. exact (Hw a).
  - intros (z & Hz & Hzt). change (heap (allocated x id F2) !! n = Some z) in Hz. rewrite Hh, decide_True in Hz by done.
    by injection Hz as <-.
Qed.

(** ** Rounds *)
Lemma rounds_served t idle envs : ∀ cb s cb' s',
  served t idle cb s → rounds envs t idle cb s = Ok (cb', s') → served t idle cb' s'.
Proof.
  induction envs as [|e envs IH]; intros cb s cb' s' Hs H; [by apply ret_ok in H as [-> ->]|].
  simpl in H. apply bind_ok in H as ([cb1 stop] & s1 & H1 & H). destruct Hs as (m & Ha & Hcb).
  destruct (round_attends t m idle e cb s cb1 stop s1 Hcb Ha H1) as (Hcb1 & Ha1 & _).
  eapply IH; [|exact H]. by exists m.
Qed.
Lemma run_loop_over t idle envs : ∀ cb s u s',
  served t idle cb s → 0 < time (kernel s) → (idle_ended idle s → over s) →
  run_loop exec envs t idle cb s = Ok (u, s') → (∃ cb', served t idle cb' s') ∧ idle_ended idle s' ∧ over s'.
Proof.
  induction envs as [|e envs IH]; intros cb s u s' Hs Ht Hover H; [done|].
  simpl in H. apply bind_ok in H as ([cb1 stop] & s1 & H1 & H). destruct Hs as (m & Ha & Hcb).
  destruct (round_attends t m idle e cb s cb1 stop s1 Hcb Ha H1) as (Hcb1 & Ha1 & Hstop & Hov & δ & _ & Hk).
  specialize (Hov Ht Hover). destruct stop; simpl in H.
  - apply ret_ok in H as [_ ->]. split; [exists cb1, m; done|]. auto.
  - eapply IH; [by exists m| |exact Hov|exact H]. pose proof (ke_time _ _ _ _ Hk). lia.
Qed.

(** When the loop has ended nobody waits. *)
Lemma over_nobody_waits t idle cb s' :
  served t idle cb s' → idle_ended idle s' → over s' → Z.of_nat (length (ctxs s')) < 2 ^ 63 →
  (∀ a x, heap (p_fibers s') !! a = Some x → m_state x ≠ HOLD ∧ m_state x ≠ READY) ∧
  Scheduler.m_fibers (p_sched s') = [] ∧ Timer.m_timers (p_timers s') = [] ∧
  ∀ d ev, is_event ev → waiting s' d ev = None.
Proof.
  intros (m & Ha & _) (z & Hz & Hzt) (Htm & Hp & Hq) Hlen.
  pose proof (at_sound _ _ _ _ _ Ha) as Hso.
  assert (Hw : ∀ d ev, is_event ev → waiting s' d ev = None).
  { intros d ev Hev. apply no_pending_no_waiter; [apply Hso|done|done|done]. }
  split; [|done]. intros a x Hx.
  enough (suspended (m_state x) = false) by (destruct (m_state x); done).
  pose proof (at_wakes _ _ _ _ _ Ha a) as Hwk. unfold none in Hwk.
  assert (Hq0 : queue_wakes a s' = 0%nat) by (unfold queue_wakes; by rewrite Hq).
  assert (He0 : event_wakes a s' = 0%nat).
  { apply sum_zero. intros d _. by rewrite !Hw by ((by left) || (by right)). }
  assert (Ht0 : timer_wakes a s' = 0%nat).
  { apply sum_zero. intros [l y] Hy%elem_of_map_to_list. simpl. destruct (Timer.m_cb y) as [cl|] eqn:Ecb; [|done].
    assert (Hin : l ∈ Timer.m_timers (p_timers s')).
    { apply (TimerFacts.wf_armed _ (so_timers _ _ Hso)). exists y. split; [done|]. by rewrite Ecb. }
    rewrite Htm in Hin. by apply not_elem_of_nil in Hin. }
  unfold wakes in Hwk. rewrite Hq0, He0, Ht0 in Hwk. unfold owed, waiting_fiber in Hwk. rewrite Hx in Hwk.
  destruct (suspended (m_state x)) eqn:E; [|done]. case_bool_decide; [|done]. subst a.
  rewrite Hx in Hz. injection Hz as ->. by rewrite Hzt in E.
Qed.

(** ** A fiber whose wake-up is in a timer *)
Lemma asleep_not_queued t idle cb s a x l deadline :
  served t idle cb s → heap (p_fibers s) !! a = Some x → a ≠ idle → wakes_at a (p_timers s) l deadline →
  queue_wakes a s = 0%nat.
Proof.
  intros (m & Ha & _) Hx Hi (y & Hy & Hcb & _). pose proof (at_wakes _ _ _ _ _ Ha a) as Hw.
  pose proof (store_wakes_split a _ l y Hy) as Hs. rewrite Hcb in Hs. simpl in Hs. unfold is_fiber in Hs.
  rewrite decide_True in Hs by done. unfold wakes, timer_wakes, none, owed in Hw. destruct (waiting_fiber _ _ _); lia.
Qed.
Lemma stays_asleep t idle a x l deadline envs : ∀ cb s cb' s',
  served t idle cb s → heap (p_fibers s) !! a = Some x → suspended (m_state x) = true → a ≠ idle →
  wakes_at a (p_timers s) l deadline → rounds envs t idle cb s = Ok (cb', s') →
  time (kernel s') < deadline → heap (p_fibers s') !! a = Some x ∧ wakes_at a (p_timers s') l deadline.
Proof.
  assert (Htime : ∀ envs cb s cb' s', served t idle cb s → rounds envs t idle cb s = Ok (cb', s') →
    time (kernel s) <= time (kernel s')).
  { clear. induction envs as [|e envs IH]; intros cb s cb' s' Hs H; [by apply ret_ok in H as [_ ->]|].
    simpl in H. apply bind_ok in H as ([cb1 stop] & s1 & H1 & H). destruct Hs as (m & Ha & Hcb).
    destruct (round_attends t m idle e cb s cb1 stop s1 Hcb Ha H1) as (Hcb1 & Ha1 & _ & _ & δ & _ & Hk).
    pose proof (ke_time _ _ _ _ Hk). enough (time (kernel s1) <= time (kernel s')) by lia.
    eapply IH; [|exact H]. by exists m. }
  induction envs as [|e envs IH]; intros cb s cb' s' Hs Hx Hsusp Hi Hl H Hd; [by apply ret_ok in H as [-> ->]|].
  pose proof (asleep_not_queued _ _ _ _ _ _ _ _ Hs Hx Hi Hl) as Hq.
  simpl in H. apply bind_ok in H as ([cb1 stop] & s1 & H1 & H). destruct Hs as (m & Ha & Hcb).
  destruct (round_attends t m idle e cb s cb1 stop s1 Hcb Ha H1) as (Hcb1 & Ha1 & _ & _ & δ & Hδ & Hk).
  assert (Hs1 : served t idle cb1 s1) by by exists m. specialize (Hδ a). unfold is_fiber in Hδ.
  rewrite decide_False in Hδ by congruence. pose proof (Htime _ _ _ _ _ Hs1 H) as Ht1.
  eapply IH; [exact Hs1| |done|done| |exact H|done].
  - apply (ke_fibers _ _ _ _ Hk); [done|by left|lia].
  - destruct Hl as (y & Hy & Hcb' & Hr & <-).
    destruct (ke_timers _ _ _ _ Hk l y Hy) as [_ Hkept]. destruct (Hkept _ Hcb' Hr) as [Hy'|?]; [|lia].
    by exists y.
Qed.

(** A function that begins with [sleep], run on fiber [c]. *)
Lemma sleeping_segment e t c sec (f : libc K) k s seg s' :
  calm f → hooked t s → sound t s → running t c s →
  exec_body e t (Program (CSleep sec f k)) s = Ok (seg, s') →
  seg = YieldedHold (Slept k) ∧ ∃ l now, time (kernel s) <= now <= time (kernel s') ∧
    wakes_at c (p_timers s') l (u64 (now + u32 (sec * 1000))).
Proof.
  intros Hf Hh Hs Hr H. simpl in H. apply bind_ok in H as (r & s1 & H1 & H).
  destruct (sleep_for_evolves t c _ f s r s1 Hf Hs Hr H1) as [_ Hl].
  unfold sleep, sleep_for in H1. rewrite (bind_step _ _ _ _ _ (hook_enabled t s)), bool_decide_true in H1 by done.
  apply bind_ok in H1 as (? & ? & _ & H1). apply bind_ok in H1 as (? & ? & _ & H1).
  apply bind_ok in H1 as (l & ? & _ & H1). apply ret_ok in H1 as [-> _]. apply ret_ok in H as [-> ->].
  split; [done|]. destruct (Hl (Some l) eq_refl) as (l' & now & _ & Hnow & Hwake). by exists l', now.
Qed.

(** The first task of the queue is a callback that any thread may run. *)
Lemma round_first e t m idle cb b q (Q : Z → segment B → P → Prop) s cb1 stop s' :
  attends t m idle none s → cb_ok m idle cb → Scheduler.m_fibers (p_sched s) = MkTask (IsCb (Some b)) (-1) :: q →
  (∀ c s1 seg s2, sound t s1 → running t c s1 → time (kernel s) <= time (kernel s1) →
     t_hook_enable (p_sched s1) = t_hook_enable (p_sched s) → exec_body e t b s1 = Ok (seg, s2) → Q c seg s2) →
  run_iter exec e t idle cb s = Ok ((cb1, stop), s') →
  ∃ c seg s2, c ≠ idle ∧ Q c seg s2 ∧
    ∀ k, seg = YieldedHold k → p_timers s' = p_timers s2 ∧ time (kernel s2) <= time (kernel s') ∧
      ∃ x, heap (p_fibers s') !! c = Some x ∧ m_state x = HOLD ∧ m_ctx x = Some (PBody MainFunc c k).
Proof.
  intros Ha Hcb Hq HQ H. destruct (dequeue_attends t m idle [] _ q s Hq Ha) as [Hok Ha1]. simpl in Hok.
  unfold run_iter in H. apply bind_ok in H as (r & s1 & H1 & H). unfold take_task in H1.
  change (sched s) with (p_sched s) in H1. rewrite Hq in H1. simpl in H1. injection H1 as <- <-. simpl in H.
  set (s0 := set_sched (with_fibers q (p_sched s)) s) in *. change (attends t m idle (λ g, body_wakes g b) s0) in Ha1.
  apply bind_ok in H as (v & s1 & H1 & H).
  pose proof (does_when t m _ _ (does_tickle t m) _ _ _ (at_sound _ _ _ _ _ Ha1) (main_runs _ _ _ _ _ Ha1) H1) as E.
  pose proof (attends_neutral _ _ _ _ _ _ Ha1 E) as Ha2.
  assert (Hhook : t_hook_enable (p_sched s1) = t_hook_enable (p_sched s)).
  { unfold when in H1. destruct (negb _); [|by apply ret_ok in H1 as [_ ->]].
    destruct (tickle_ok s0) as (s2 & H2 & k & -> & _). change (tickle s0 = Ok (v, s1)) in H1. rewrite H2 in H1. by injection H1 as _ <-. }
  apply bind_ok in H as (c & s2 & H2 & H). apply ret_ok in H as [H ->]. injection H as -> ->.
  destruct (serve_callback t m idle e cb b Q s1 c s2) as (_ & _ & _ & Hres); try done.
  intros c' s3 seg s4 Hs3 Hr3 Ht3 Hh3 H3. apply (HQ c' s3 seg s4 Hs3 Hr3); [|by rewrite Hh3|done].
  pose proof (ev_time _ _ _ _ E). change (kernel s0) with (kernel s) in *. lia.
Qed.

(** ** Theorems *)

(** C5: no wake-up is lost and none comes twice.  From the moment a thread enters
    [Scheduler::run], after any rounds of its loop, whatever the operations of [code] its
    fibers have used: for each fiber that waits (in a hooked call, or because it has
    yielded) there is exactly one task on the run queue, waiter of an event, or timer that
    will put it back on the queue, and for every other fiber there is none.  [code] has no
    [del_event], no [Yield_to_Hold] called by the client itself, no [schedule] of a fiber
    and no [cancel], [reset] or [refresh] of timers: with those a client can take away or
    double the wake-up of a fiber. *)
Theorem one_wakeup_each t s idle s0 envs cb s1 :
  can_serve t s → run_setup t s = Ok (idle, s0) → rounds envs t idle None s0 = Ok (cb, s1) →
  ∀ a, wakes a s1 = if waiting_fiber idle (p_fibers s1) a then 1%nat else 0%nat.
Proof.
  intros Hc H0 H a. destruct (setup_served t s idle s0 Hc H0) as [Hs _].
  destruct (rounds_served _ _ _ _ _ _ _ Hs H) as (m & Ha & _).
  pose proof (at_wakes _ _ _ _ _ Ha a) as Hw. unfold none, owed in Hw. rewrite <- Hw. lia.
Qed.

(** C6: [run] does not return while a fiber of a client written in [code] waits.  When the
    loop of a thread has ended, no fiber is suspended, the run queue and the set of timers
    are empty, and no event has a waiter: what was handed to the IO manager has been run to
    its end.  A client that suspends itself without a wake-up, by [Yield_to_Hold] or by
    [del_event] on an event it waits for, is not one of [code]; it would be left behind. *)
Theorem run_leaves_nobody_waiting envs t s u s' :
  can_serve t s → 0 < time (kernel s) → run exec envs t s = Ok (u, s') →
  Z.of_nat (length (ctxs s')) < 2 ^ 63 →
  (∀ a x, heap (p_fibers s') !! a = Some x → m_state x ≠ HOLD ∧ m_state x ≠ READY) ∧
  Scheduler.m_fibers (p_sched s') = [] ∧ Timer.m_timers (p_timers s') = [] ∧
  ∀ d ev, is_event ev → waiting s' d ev = None.
Proof.
  intros Hc Ht H Hlen. unfold run in H. apply bind_ok in H as (idle & s0 & H0 & H).
  destruct (setup_served t s idle s0 Hc H0) as (Hs & Hk & Hi).
  destruct (run_loop_over t idle envs None s0 u s' Hs ltac:(lia) ltac:(done) H)
    as ((cb & m & Ha & ?) & (z & ? & ?) & Hov).
  apply (over_nobody_waits t idle cb s'); try done; [by exists m|by exists z].
Qed.

(** C10: a fiber that sleeps is not resumed before its time.  A callback that calls [sleep]
    on a thread with the hooks parks its fiber, and whatever rounds of the loop follow,
    with whatever tasks, events and timers, the fiber is as it was left as long as the
    clock has not reached the time of the call plus the seconds it asked for. *)
Theorem sleeper_waits_for_deadline e envs t idle cb cb1 cb2 stop sec (f : libc K) k q s s1 s2 :
  served t idle cb s → hooked t s →
  Scheduler.m_fibers (p_sched s) = MkTask (IsCb (Some (Program (CSleep sec f k)))) (-1) :: q →
  run_iter exec e t idle cb s = Ok ((cb1, stop), s1) → rounds envs t idle cb1 s1 = Ok (cb2, s2) →
  ∃ a x now, heap (p_fibers s1) !! a = Some x ∧ m_state x = HOLD ∧ m_ctx x = Some (PBody MainFunc a (Slept k)) ∧
    time (kernel s) <= now <= time (kernel s1) ∧
    (time (kernel s2) < u64 (now + u32 (sec * 1000)) → heap (p_fibers s2) !! a = Some x).
Proof.
  intros Hs Hh Hq H1 H2. pose proof Hs as (m & Ha & Hcb).
  assert (Hf : calm f) by (destruct (dequeue_attends t m idle [] _ q s Hq Ha) as [Hok _]; apply Hok).
  destruct (round_first e t m idle cb _ q (λ c seg s', seg = YieldedHold (Slept k) ∧ ∃ l now,
      time (kernel s) <= now <= time (kernel s') ∧ wakes_at c (p_timers s') l (u64 (now + u32 (sec * 1000))))
      s cb1 stop s1 Ha Hcb Hq) as (a & seg & s' & Hi & (-> & l & now & Hnow & Hl) & Hres); [|done|].
  { intros c s3 seg s4 Hs3 Hr3 Ht3 Hh3 H3.
    destruct (sleeping_segment e t c sec f k s3 seg s4 Hf) as (Hseg & l & now & Hnow & Hl); try done.
    - unfold hooked. by rewrite Hh3.
    - split; [done|]. exists l, now. split; [lia|done]. }
  destruct (Hres (Slept k) eq_refl) as (HT & Htime & x & Hx & Hst & Hctx). rewrite <- HT in Hl.
  exists a, x, now. split; [done|]. split; [done|]. split; [done|]. split; [lia|]. intros Hd.
  assert (Hs1 : served t idle cb1 s1).
  { destruct (round_attends t m idle e cb s cb1 stop s1 Hcb Ha H1) as (? & ? & _). by exists m. }
  eapply stays_asleep; [exact Hs1|done|by rewrite Hst|done|done|done|done].
Qed.
End runs.
End SystemRuns.
