(* ===== verification/SystemEnds.v ===== *)
(** * Clients that come to an end

    Functions that sleep, hand functions to the scheduler and set timers, and nothing
    else: what is left of them to do has a size, every round that finds a task makes it
    smaller, and while the loop is idle the first deadline comes nearer.  So [run]
    returns, with everything done. *)
From stdpp Require Import base gmap list strings.
From Stdlib Require Import ZArith Lia.
From S2P Require Import Prelude StdSet Timers TimerFacts Fibers FiberFacts Schedulers SchedulerFacts.
From S2P Require Import FdManagers IOManagers IOManagerFacts Hooks HookFacts IdleFacts.
From S2P Require Import Systems Wakeups SystemSteps SystemHooks SystemFacts SystemRuns.
Open Scope Z_scope.

Module SystemEnds.
Import Fiber FiberFacts Scheduler SchedulerFacts IOManager IOManagerFacts Hook HookFacts IdleFacts.
Import System Wakeup SystemSteps SystemHooks SystemFacts SystemRuns.

(** ** Sums over maps *)
Section sums.
Context {A : Type} (g : A → nat).

(** Values of size 0 take the place of those at some keys. *)
Lemma map_sum_drop (f : A → A) E : NoDup E → ∀ h h', (∀ x, g (f x) = 0%nat) →
  (∀ l, h' !! l = if decide (l ∈ E) then f <$> h !! l else h !! l) →
  (map_sum g h' + sum_list_with (λ l, size_of g (h !! l)) E = map_sum g h)%nat.
Proof.
  induction 1 as [|l E Hl Hnd IH]; intros h h' Hf Hh'.
  - simpl. rewrite Nat.add_0_r. apply map_sum_ext. intros l. rewrite Hh', decide_False; [done|]. apply not_elem_of_nil.
  - simpl. pose proof (map_sum_one g h (alter f l h) l) as Hone.
    rewrite lookup_alter_eq in Hone. assert (Hz : size_of g (f <$> h !! l) = 0%nat) by (destruct (h !! l); simpl; auto).
    rewrite Hz in Hone. pose proof (IH (alter f l h) h' Hf) as IH'.
    rewrite (sum_ext _ (λ l, size_of g (h !! l)) E) in IH'.
    2: { intros l' Hl'. rewrite lookup_alter_ne; [done|]. by intros ->. }
    assert (Ha : (map_sum g (alter f l h) + size_of g (h !! l) = map_sum g h)%nat).
    { rewrite Hone; [lia|]. intros l' Hne. by rewrite lookup_alter_ne. }
    enough (map_sum g h' + sum_list_with (λ l, size_of g (h !! l)) E = map_sum g (alter f l h))%nat by lia.
    apply IH'. intros l'. rewrite Hh'. destruct (decide (l' = l)) as [->|Hne].
    + rewrite (decide_True (P := l ∈ l :: E)) by by left. rewrite decide_False by done. by rewrite lookup_alter_eq.
    + rewrite lookup_alter_ne by done. destruct (decide (l' ∈ E)); [by rewrite decide_True by by right|].
      rewrite decide_False; [done|]. by intros [?|?]%elem_of_cons.
Qed.
End sums.

(** A wait returns, if not at once then when it has been started again often enough: at
    its timeout, or, when no descriptor is registered, because there is a byte in the
    pipe; the pipe holds the bytes that were written and not read. *)
Class KernelWaits (K : Type) `{!Kernel K} `{!KernelLaws K} `{!KernelTime K} := {
  bytes : K → nat;
  wait_ends : ∀ w (k : K), 0 <= w → (∀ d, 0 <= d → interest k !! d = None) →
    ∃ n evs k', IdleFacts.waits w n k evs k' ∧ bytes k' = bytes k ∧
      (evs = [] ∧ time k + w <= time k' ∨ (∃ r, evs = [MkEvent TickleFd r]) ∧ bytes k ≠ 0%nat);
  read_byte : ∀ (k k' : K) rt, pipe_read k = (rt, k') →
    if rt =? 1 then bytes k = Datatypes.S (bytes k') else bytes k = 0%nat ∧ bytes k' = 0%nat;
  clock_bytes : ∀ (k k' : K) z, clock_ms k = (z, k') → bytes k' = bytes k;
  address_bytes : ∀ (k k' : K) a, allocate_address k = (a, k') → bytes k' = bytes k;
}.

Section ends.
Context {K : Type} `{!Kernel K} `{!KernelLaws K} `{!KernelTime K}.
Local Abbreviation B := (body K).
Local Abbreviation P := (Process (body K) K).
Implicit Types (s : P) (b : body K) (c : code K) (x : Fiber (body K)) (T : Timer.TimerManager (body K)).
Variable t : Z.

(** ** What is left to do *)

(** A function that sleeps, schedules functions for this or any thread and sets timers
    that fire once. *)
Fixpoint modest c : Prop :=
  match c with
  | CReturn | CThrow => True
  | CSleep _ _ k | CUsleep _ _ k | CNanosleep _ _ _ k => modest k
  | CSchedule j thread k => (thread = -1 ∨ thread = t) ∧ modest j ∧ modest k
  | CAddTimer _ j recurring k => recurring = false ∧ modest j ∧ modest k
  | _ => False
  end.
Fixpoint modest_body b : Prop :=
  match b with
  | Program c => modest c
  | Wake _ => True
  | TimerCall (Timer.Fun b) => modest_body b
  | _ => False
  end.
Definition modest_task (it : Fiber_and_Thread B) : Prop :=
  (thread it = -1 ∨ thread it = t) ∧
  match what it with IsFiber (Some _) => True | IsCb (Some b) => modest_body b | _ => False end.
Definition modest_timers T : Prop :=
  ∀ l y, Timer.store T !! l = Some y → Timer.m_recurring y = false ∧
    ∀ cl, Timer.m_cb y = Some cl → ∃ b, cl = Timer.Fun b ∧ modest_body b.

(** How much is left of a function, of what stands on the queue, in timers and in the
    fibers that sleep. *)
Fixpoint code_size c : nat :=
  match c with
  | CSleep _ _ k | CUsleep _ _ k | CNanosleep _ _ _ k => 4 + code_size k
  | CSchedule j _ k => 1 + code_size j + code_size k
  | CAddTimer _ j _ k => 2 + code_size j + code_size k
  | _ => 0
  end.
Fixpoint body_size b : nat :=
  match b with
  | Program c => code_size c
  | Wake _ => 2
  | TimerCall (Timer.Fun b) => body_size b
  | _ => 0
  end.
Definition task_size (it : Fiber_and_Thread B) : nat :=
  match what it with IsCb (Some b) => 1 + body_size b | _ => 1 end.
Definition timer_size (y : Timer.Timer B) : nat :=
  match Timer.m_cb y with Some (Timer.Fun b) => 2 + body_size b | _ => 0 end.
Definition fiber_size x : nat :=
  if suspended (m_state x) then match m_ctx x with Some (PBody _ _ (Slept k)) => code_size k | _ => 0 end else 0.

Definition queue_size (q : list (Fiber_and_Thread B)) : nat := sum_list_with task_size q.
Definition timers_size T : nat := map_sum timer_size (Timer.store T).
Definition fibers_size (F : Fibers B) : nat := map_sum fiber_size (heap F).
Definition left_over_size s : nat :=
  (queue_size (Scheduler.m_fibers (p_sched s)) + timers_size (p_timers s) + fibers_size (p_fibers s))%nat.
Definition segment_size (seg : segment B) : nat :=
  match seg with YieldedHold (Slept k) => code_size k | _ => 0 end.
Definition modest_segment (seg : segment B) : Prop :=
  match seg with Returned | Threw => True | YieldedHold (Slept k) => modest k | _ => False end.

(** ** A segment *)

(** What a segment does to the process: new tasks and new timers. *)
Definition worked (q : list (Fiber_and_Thread B)) T (k : K) s : P := with_kernel k (with_timers T (enqueue q s)).

Lemma worked_worked q T k q' T' k' s : worked q' T' k' (worked q T k s) = worked (q ++ q') T' k' s.
Proof. unfold worked, enqueue, with_kernel, with_timers. simpl. by rewrite (assoc_L (++)). Qed.
Lemma worked_nothing s : worked [] (p_timers s) (kernel s) s = s.
Proof.
  destruct s as [F [] T io fds ti k]. unfold worked, enqueue, with_kernel, with_timers, with_fibers. simpl. by rewrite app_nil_r.
Qed.

Lemma worked_timers T k s : with_timers T (with_kernel k s) = worked [] T k s.
Proof. destruct s as [F [] T0 io fds ti k0]. unfold worked, enqueue, with_kernel, with_timers, with_fibers. simpl. by rewrite app_nil_r. Qed.
Lemma worked_queue q k s : with_kernel k (enqueue q s) = worked q (p_timers s) k s.
Proof. done. Qed.
Lemma worked_running f q T k s : running t f s → running t f (worked q T k s).
Proof. done. Qed.

(** What the code of a function comes to. *)
Definition works (n : nat) (m : M P (segment B)) s : Prop :=
  ∃ seg q T k, m s = Ok (seg, worked q T k s) ∧ Forall modest_task q ∧ modest_timers T ∧ modest_segment seg ∧
    (queue_size q + timers_size T + segment_size seg <= n + timers_size (p_timers s))%nat.

Lemma works_ret seg s : modest_timers (p_timers s) → modest_segment seg → works (segment_size seg) (ret seg) s.
Proof.
  intros HT Hseg. exists seg, [], (p_timers s), (kernel s). rewrite worked_nothing. split; [done|]. split; [done|].
  split; [done|]. split; [done|]. simpl. lia.
Qed.
Lemma works_less n n' m s : (n' <= n)%nat → works n' m s → works n m s.
Proof. intros Hn (seg & q & T & k & H1 & H2 & H3 & H4 & H5). exists seg, q, T, k. split_and!; try done. lia. Qed.
Lemma works_after {A} (m : M P A) (f : A → M P (segment B)) n d a q T k s :
  m s = Ok (a, worked q T k s) → Forall modest_task q →
  (queue_size q + timers_size T <= d + timers_size (p_timers s))%nat →
  works n (f a) (worked q T k s) → works (d + n) (bind m f) s.
Proof.
  intros Hm Hq Hd (seg & q' & T' & k' & H1 & H2 & H3 & H4 & H5). exists seg, (q ++ q'), T', k'.
  rewrite (bind_step _ _ _ _ _ Hm), H1, worked_worked. split; [done|]. split; [by apply Forall_app|]. split; [done|]. split; [done|].
  change (p_timers (worked q T k s)) with T in H5. unfold queue_size in *. rewrite sum_list_with_app. lia.
Qed.

(** A new timer. *)
Lemma timer_works ms b s : sound t s → modest_timers (p_timers s) → modest_body b → callback_ok b →
  ∃ l T k, make_timer ms (Timer.Fun b) s = Ok (l, worked [] T k s) ∧ modest_timers T ∧
    timers_size T = (2 + body_size b + timers_size (p_timers s))%nat ∧ (evolves t (λ g, body_wakes g b) s (worked [] T k s)).
Proof.
  intros Hs HT Hb Hok. destruct (allocate_address (kernel s)) as [l k1] eqn:Ea.
  assert (Hfresh : Timer.store (p_timers s) !! l = None).
  { destruct (Timer.store (p_timers s) !! l) as [x|] eqn:E; [|done].
    destruct (so_store _ _ Hs _ _ E). pose proof (alloc_later _ _ _ Ea). lia. }
  destruct (make_timer_ok ms (Timer.Fun b) s l k1 Ea (so_timers _ _ Hs) Hfresh) as (now & T & k & H & _ & _ & _ & Hst).
  exists l, T, k. rewrite worked_timers in H. split; [exact H|]. split; [|split].
  - intros l' y. rewrite Hst, lookup_insert_Some. intros [[<- <-]|[_ Hy]]; [|by eapply HT].
    split; [done|]. intros cl [= <-]. by exists b.
  - unfold timers_size. by rewrite Hst, map_sum_insert.
  - apply (arm_evolves t ms (Timer.Fun b) false s l (worked [] T k s)); [exact Hok|done|done|exact H].
Qed.
(** A function handed to the scheduler. *)
Lemma schedule_works fc thr s : ∃ k, schedule fc thr s = Ok (tt, worked [MkTask fc thr] (p_timers s) k s).
Proof. destruct (io_schedule_ok fc thr s) as (s' & H & k & -> & _). by exists k. Qed.

Lemma sleep_works fuel f ms (fn : libc K) k s :
  sound t s → running t f s → hooked t s → modest_timers (p_timers s) → modest k →
  works (4 + code_size k)
    (let* r := sleep_for t ms fn in match r with Done _ => exec_code fuel t k | Yielded _ => ret (YieldedHold (Slept k)) end) s.
Proof.
  intros Hs Hr Hh HT Hk. destruct (timer_works ms (Wake f) s Hs HT I I) as (l & T & k' & H & HT' & Hsize & _).
  assert (Hsl : sleep_for t ms fn s = Ok (Yielded (Some l), worked [] T k' s)).
  { unfold sleep_for. rewrite (bind_step _ _ _ _ _ (hook_enabled t s)), bool_decide_true by done. simpl.
    destruct Hr as [Hc _]. erewrite bind_step.
    2: { unfold on_fibers. simpl. rewrite (GetThis_ok t f) by exact Hc. reflexivity. }
    change (set_fibers (p_fibers s) s) with (MkProcess (p_fibers s) (p_sched s) (p_timers s) (p_iom s) (p_fds s) (p_tinfos s) (kernel s)).
    replace (MkProcess (p_fibers s) (p_sched s) (p_timers s) (p_iom s) (p_fds s) (p_tinfos s) (kernel s)) with s by (by destruct s).
    assert (Hiom : this_iom t s = Ok (tt, s)).
    { pose proof (so_here _ _ Hs) as Hhere. unfold this_iom, GetThis_io, get_sched, bind, gets. simpl.
      by rewrite bool_decide_true. }
    rewrite (bind_step _ _ _ _ _ Hiom).
    by rewrite (bind_step _ _ _ _ _ H). }
  eapply works_after; [exact Hsl|done| |].
  - simpl. rewrite Hsize. simpl. lia.
  - by apply (works_ret (YieldedHold (Slept k))).
Qed.

Lemma worked_sound q T k s δ : evolves t δ s (worked q T k s) → sound t (worked q T k s).
Proof. intros E. exact (ev_sound _ _ _ _ E). Qed.

Lemma code_works fuel f c : modest c → code_ok c → ∀ s,
  sound t s → running t f s → hooked t s → modest_timers (p_timers s) → works (code_size c) (exec_code fuel t c) s.
Proof.
  induction c as [| | |sec fn c IH|usec fn c IH|sec nsec fn c IH| | | | | | | | | |j _ thr c IH|ms j _ rec c IH| | |]; intros Hm Hok s Hs Hr Hh HT; try done.
  - by apply (works_ret Returned).
  - by apply (works_ret Threw).
  - by apply (sleep_works _ f).
  - by apply (sleep_works _ f).
  - destruct Hok as [_ Hok]. by apply (sleep_works _ f).
  - destruct Hm as (Hthr & Hj & Hk). destruct Hok as [Hjok Hkok].
    destruct (schedule_works (IsCb (Some (Program j))) thr s) as (k & H). simpl.
    eapply (works_after _ _ (code_size c) (S (code_size j))); [exact H|by apply Forall_singleton| |].
    + simpl. lia.
    + apply IH; try done. eapply worked_sound.
      apply (does_schedule t f (IsCb (Some (Program j))) thr Hjok s tt); done.
  - destruct Hm as (-> & Hj & Hk). destruct Hok as [Hjok Hkok].
    destruct (timer_works ms (Program j) s Hs HT Hj Hjok) as (l & T & k & H & HT' & Hsize & E).
    assert (Heq : exec_code fuel t (CAddTimer ms j false c) s =
      (let* _ := make_timer ms (Timer.Fun (Program j)) in exec_code fuel t c) s).
    { simpl. unfold make_timer. rewrite bind_assoc. apply bind_cong. intros a s1 _. by rewrite bind_assoc. }
    unfold works. rewrite Heq. fold (works (code_size (CAddTimer ms j false c)) (let* _ := make_timer ms (Timer.Fun (Program j)) in exec_code fuel t c) s).
    eapply (works_after _ _ (code_size c) (2 + code_size j)); [exact H|done| |].
    + rewrite Hsize. simpl. lia.
    + apply IH; try done. by eapply worked_sound.
Qed.

(** What stands in a fiber that is run for a task, and what it comes to. *)
Lemma callback_works fuel f b : modest_body b → callback_ok b → ∀ s,
  sound t s → running t f s → hooked t s → modest_timers (p_timers s) → works (body_size b) (exec_body fuel t b) s.
Proof.
  revert b. fix IH 1. intros [| |c|k|a d fn i o m k|i m so k|cl|g|w d ev] Hb Hok s Hs Hr Hh HT; try done.
  - clear IH. by apply (code_works _ f).
  - destruct cl as [b|w cb]; [exact (IH b Hb Hok s Hs Hr Hh HT)|done].
  - clear IH. simpl. unfold wake_fires. destruct (schedule_works (IsFiber (Some g)) (-1) s) as (k & H).
    eapply (works_after _ _ 0 2); [exact H|apply Forall_singleton; split; [by left|done]| |].
    + simpl. lia.
    + by apply (works_ret Returned).
Qed.
Lemma rest_works fuel f k : modest k → code_ok k → ∀ s,
  sound t s → running t f s → hooked t s → modest_timers (p_timers s) → works (code_size k) (exec_body fuel t (Slept k)) s.
Proof.
  intros Hm Hok s Hs Hr Hh HT. simpl. eapply (works_after _ _ (code_size k) 0 _ [] (p_timers s) (kernel s)).
  - rewrite worked_nothing. reflexivity.
  - done.
  - simpl. lia.
  - rewrite worked_nothing. by apply (code_works _ f).
Qed.

(** ** A switch *)
Section switch.
Variables (m idle : Z).
#[local] Instance ends_fibers_laws : FiberHostLaws B P.
Proof. by split. Qed.

Lemma switch_works e f b n s :
  runnable t f m b (p_fibers s) → sound t s → hooked t s → modest_timers (p_timers s) →
  (∀ s0, sound t s0 → running t f s0 → hooked t s0 → modest_timers (p_timers s0) → works n (exec_body e t b) s0) →
  ∃ seg q T k, swapIn (exec e t) t f s = Ok (tt, set_fibers (back_from t m f seg (p_fibers s)) (worked q T k s)) ∧
    Forall modest_task q ∧ modest_timers T ∧ modest_segment seg ∧
    (queue_size q + timers_size T + segment_size seg <= n + timers_size (p_timers s))%nat.
Proof.
  intros Hrun Hs Hh HT Hexec. pose proof Hrun as [_ Hne _ (x & Hx & _)].
  set (s0 := set_fibers (swapped t f m (p_fibers s)) s).
  destruct (Hexec s0) as (seg & q & T & k & H & Hq & HT' & Hseg & Hsize); [by apply sound_fibers| |done|done|].
  { split.
    - unfold current, s0. simpl. by rewrite locals_swapped.
    - exists (set_state EXEC x). split; [|done]. by apply (swapped_lookup t f m). }
  exists seg, q, T, k. split; [|done].
  exact (swapIn_ok (exec e t) t f m b seg s (worked q T k s0) Hrun H (frame_refl _)).
Qed.

Lemma back_size f x y seg F :
  heap F !! f = Some x → heap F !! m = Some y → m_state y = EXEC → f ≠ m → modest_segment seg →
  (fibers_size (back_from t m f seg F) + fiber_size x = fibers_size F + segment_size seg)%nat.
Proof.
  intros Hx Hy Hye Hne Hseg. unfold fibers_size.
  pose proof (map_sum_one fiber_size (heap F) (heap (back_from t m f seg F)) f) as H.
  rewrite Hx, (back_heap t m f x F Hx Hne seg f), decide_True in H by done. cbn [size_of] in H. rewrite H.
  - f_equal. by destruct seg.
  - intros a Ha. rewrite (back_heap t m f x F Hx Hne seg a), decide_False by done. case_decide as Hm; [|done].
    subst a. rewrite Hy. simpl. unfold fiber_size. simpl. by rewrite Hye.
Qed.

(** Beside the wake-ups: who is on the queue, in timers and asleep is as above, the
    hooks are on, and the manager stops when there is nothing left to do. *)
Record modest_state (cb : option Z) s : Prop := {
  ms_cb : ∀ a, cb = Some a → a ≠ m ∧ a ≠ idle ∧
    ∃ x, heap (p_fibers s) !! a = Some x ∧ m_stack x = true ∧ settled (m_state x) = true;
  ms_queue : Forall modest_task (Scheduler.m_fibers (p_sched s));
  ms_timers : modest_timers (p_timers s);
  ms_fibers : ∀ a x, heap (p_fibers s) !! a = Some x → suspended (m_state x) = true → a ≠ idle →
    ∃ k, m_ctx x = Some (PBody MainFunc a (Slept k)) ∧ modest k;
  ms_hooked : hooked t s;
  ms_active : m_active_thread_count (p_sched s) = 0;
  ms_stop : m_auto_stop (p_sched s) && m_stopping (p_sched s) = true;
  ms_pending : pending s = 0;
  ms_contexts : Z.of_nat (length (ctxs s)) < 2 ^ 63;
}.

(** The counts are raised and lowered around a switch. *)
Definition active s : P :=
  set_sched (with_counts (u64 (m_active_thread_count (p_sched s) + 1)) (m_idle_thread_count (p_sched s)) (p_sched s)) s.
Lemma active_ok s : add_active 1 s = Ok (tt, active s).
Proof. done. Qed.
Lemma active_back F q T k s : m_active_thread_count (p_sched s) = 0 →
  add_active (-1) (set_fibers F (worked q T k (active s))) = Ok (tt, set_fibers F (worked q T k s)).
Proof. destruct s as [F0 [] T0 io fds ti k0]. simpl. by intros ->. Qed.
Lemma active_sound s : sound t s → sound t (active s).
Proof. intros Hs. exact (ev_sound _ _ _ _ (counts_evolve t _ _ s Hs)). Qed.

Lemma state_at f x s : heap (p_fibers s) !! f = Some x → on_fibers (getState f) s = Ok (m_state x, s).
Proof. intros Hx. unfold on_fibers, getState, fiber_at, bind, gets, ret, deref. simpl. rewrite Hx. by destruct s. Qed.
Lemma fiber_found f x s : heap (p_fibers s) !! f = Some x → on_fibers (fiber_at f) s = Ok (x, s).
Proof. intros Hx. unfold on_fibers, fiber_at, bind, gets, deref. simpl. rewrite Hx. by destruct s. Qed.
Lemma hold_works f x s : heap (p_fibers s) !! f = Some x → m_state x = HOLD →
  on_fibers (setState HOLD f) s = Ok (tt, s).
Proof.
  intros Hx Hst. unfold on_fibers. simpl. rewrite (setState_ok HOLD f _ x Hx). do 2 f_equal.
  destruct s as [[h n i cnt sz loc] sch tm io fds ti k]. simpl in *. unfold upd_heap. simpl. do 2 f_equal.
  apply map_eq. intros a. destruct (decide (a = f)) as [->|Ha].
  - rewrite lookup_alter_eq, Hx. destruct x. simpl in *. by subst.
  - by rewrite lookup_alter_ne.
Qed.
Lemma reset_works (o : option B) f x s :
  heap (p_fibers s) !! f = Some x → m_stack x = true → settled (m_state x) = true →
  on_fibers (reset o f) s = Ok (tt, set_fibers (upd_heap (alter (renewed o) f) (p_fibers s)) s).
Proof.
  intros Hx Hs Hst. unfold on_fibers, reset, fiber_at, bind, gets, deref, assert_. simpl. rewrite Hx. simpl. by rewrite Hs, Hst.
Qed.

(** After a switch to a fiber that is neither the main nor the idle one. *)
Lemma back_modest cb cb' f x y seg q T k s :
  modest_state cb s → heap (p_fibers s) !! f = Some x → heap (p_fibers s) !! m = Some y → m_state y = EXEC →
  f ≠ m → Forall modest_task q → modest_timers T → modest_segment seg →
  (∀ a, cb' = Some a → a ≠ m ∧ a ≠ idle ∧
     ∃ z, heap (back_from t m f seg (p_fibers s)) !! a = Some z ∧ m_stack z = true ∧ settled (m_state z) = true) →
  modest_state cb' (set_fibers (back_from t m f seg (p_fibers s)) (worked q T k s)).
Proof.
  intros [H1 H2 H3 H4 H5 H6 H7 H8 H9] Hx Hy Hye Hne Hq HT Hseg Hcb. split; try done.
  - by apply Forall_app.
  - intros a z. rewrite back_set, (back_heap t m f x _ Hx Hne seg a). case_decide as Hf; [|case_decide as Hm].
    + subst a. intros [= <-] Hsusp Hi. destruct seg as [| |?|b|?]; try done. destruct b; try done. by eexists.
    + subst a. rewrite Hy. intros [= <-]. simpl. by rewrite Hye.
    + by apply H4.
Qed.
Lemma back_left f x y seg q T k s n :
  heap (p_fibers s) !! f = Some x → heap (p_fibers s) !! m = Some y → m_state y = EXEC → f ≠ m → modest_segment seg →
  (queue_size q + timers_size T + segment_size seg <= n + timers_size (p_timers s))%nat →
  (left_over_size (set_fibers (back_from t m f seg (p_fibers s)) (worked q T k s)) + fiber_size x <= left_over_size s + n)%nat.
Proof.
  intros Hx Hy Hye Hne Hseg Hn. pose proof (back_size f x y seg _ Hx Hy Hye Hne Hseg) as Hf.
  unfold left_over_size. rewrite back_set. simpl. unfold queue_size in *. rewrite sum_list_with_app.
  change (p_timers (set_fibers _ (worked q T k s))) with T. lia.
Qed.

(** ** Tasks *)
Lemma fiber_task e cb f s :
  attends t m idle (λ g, is_fiber g f) s → modest_state cb s →
  ∃ s', run_fiber exec e t f s = Ok (tt, s') ∧ modest_state cb s' ∧ (left_over_size s' <= left_over_size s)%nat.
Proof.
  intros Ha Hms. pose proof (at_wakes _ _ _ _ _ Ha f) as Hw. unfold is_fiber in Hw. rewrite decide_True in Hw by done.
  destruct (owed_waiting idle (p_fibers s) f) as (x & Hx & Hsusp & Hni & Hone); [lia|].
  destruct (fo_rest _ _ _ _ _ (at_fibers _ _ _ _ _ Ha) f x Hx Hsusp Hni) as (b & Hb & Hok).
  destruct (ms_fibers _ _ Hms f x Hx Hsusp Hni) as (c & Hc & Hmod). rewrite Hc in Hb. injection Hb as <-.
  destruct (fo_m _ _ _ _ _ (at_fibers _ _ _ _ _ Ha)) as (y & Hy & Hye).
  assert (Hne : f ≠ m). { intros ->. rewrite Hx in Hy. injection Hy as ->. by rewrite Hye in Hsusp. }
  assert (Hrun : runnable t f m (Slept c) (p_fibers (active s))).
  { split; [apply (at_fibers _ _ _ _ _ Ha)|done|by exists y|]. exists x. split; [done|].
    split; [by intros E; rewrite E in Hsusp|by right]. }
  destruct (switch_works e f (Slept c) (code_size c) (active s) Hrun) as (seg & q & T & k & H & Hq & HT & Hseg & Hsize).
  { by apply active_sound, (at_sound _ _ _ _ _ Ha). } { apply Hms. } { apply Hms. }
  { intros s0 Hs0 Hr0 Hh0 HT0. by apply (rest_works e f). }
  pose proof (back_heap t m f x (p_fibers s) Hx Hne seg f) as Hback. rewrite decide_True in Hback by done.
  set (s' := set_fibers (back_from t m f seg (p_fibers s)) (worked q T k s)).
  exists s'. split; [|split].
  - unfold run_fiber. rewrite (bind_step _ _ _ _ _ (state_at f x s Hx)).
    rewrite bool_decide_false by (by intros E; rewrite E in Hsusp).
    rewrite (bind_step _ _ _ _ _ (active_ok s)), (bind_step _ _ _ _ _ H).
    rewrite (bind_step _ _ _ _ _ (active_back _ q T k s (ms_active _ _ Hms))). fold s'.
    rewrite (bind_step _ _ _ _ _ (state_at f _ s' Hback)).
    destruct seg as [| |b|b|b]; try done. simpl. by eapply hold_works.
  - eapply back_modest; try done. intros a Ha'. destruct (ms_cb _ _ Hms a Ha') as (Hm & Hi & z & Hz & Hzs & Hzt).
    split; [done|]. split; [done|]. exists z. rewrite (back_heap t m f x _ Hx Hne seg a).
    rewrite !decide_False; [done|done|]. intros ->. rewrite Hx in Hz. injection Hz as ->. by destruct (m_state z).
  - pose proof (back_left f x y seg q T k s _ Hx Hy Hye Hne Hseg Hsize) as Hl. fold s' in Hl.
    assert (fiber_size x = code_size c) by (unfold fiber_size; by rewrite Hsusp, Hc). lia.
Qed.
(** The fiber that a callback is run in. *)
Lemma callback_fiber δ cb b s :
  attends t m idle δ s → modest_state cb s →
  ∃ (c : Z) F x, match cb with
           | Some c => on_fibers (reset (Some b) c) ;;; ret c
           | None => on_fibers (Fiber_ctor (Some b) 0 false)
           end s = Ok (c, set_fibers F s) ∧ c ≠ m ∧ c ≠ idle ∧
    attends t m idle δ (set_fibers F s) ∧ modest_state (Some c) (set_fibers F s) ∧
    heap F !! c = Some (renewed (Some b) x) ∧ m_stack x = true ∧ fibers_size F = fibers_size (p_fibers s).
Proof.
  intros Ha Hms.
  assert (Hstate : ∀ (c : Z) F x, c ≠ m → c ≠ idle → heap F !! c = Some (renewed (Some b) x) → m_stack x = true →
    (∀ a, a ≠ c → heap F !! a = heap (p_fibers s) !! a) → modest_state (Some c) (set_fibers F s)).
  { intros c F x Hm Hi Hc Hst HF. destruct Hms as [H1 H2 H3 H4 H5 H6 H7 H8 H9]. split; try done.
    - intros a [= <-]. split; [done|]. split; [done|]. by eexists.
    - intros a y. change (p_fibers (set_fibers F s)) with F. destruct (decide (a = c)) as [->|Hac]; [|by rewrite HF; first apply H4].
      rewrite Hc. by intros [= <-]. }
  assert (Hsize : ∀ (c : Z) F x, heap F !! c = Some (renewed (Some b) x) → size_of fiber_size (heap (p_fibers s) !! c) = 0%nat →
    (∀ a, a ≠ c → heap F !! a = heap (p_fibers s) !! a) → fibers_size F = fibers_size (p_fibers s)).
  { intros c F x Hc Hz HF. apply map_sum_ext. intros a. destruct (decide (a = c)) as [->|Hac]; [|by rewrite HF].
    by rewrite Hc, Hz. }
  destruct cb as [c|].
  - destruct (ms_cb _ _ Hms c eq_refl) as (Hm & Hi & x & Hx & Hst & Hset).
    pose proof (reset_works (Some b) c x s Hx Hst Hset) as H. set (F := upd_heap (alter (renewed (Some b)) c) (p_fibers s)) in *.
    assert (HF : ∀ a, a ≠ c → heap F !! a = heap (p_fibers s) !! a) by (intros a Hac; by apply lookup_alter_ne).
    assert (Hc : heap F !! c = Some (renewed (Some b) x)) by (unfold F; simpl; by rewrite lookup_alter_eq, Hx).
    exists c, F, x. rewrite (bind_step _ _ _ _ _ H). split_and!; try done.
    + by destruct (reset_attends t m idle δ δ _ _ _ _ _ Hm Hi Ha H) as (? & _).
    + by eapply Hstate.
    + eapply Hsize; [done| |done]. rewrite Hx. simpl. unfold fiber_size. by destruct (m_state x).
  - assert (H : on_fibers (Fiber_ctor (Some b) 0 false) s = Ok (next_address (p_fibers s),
      set_fibers (allocated (MkFiber (u64 (s_fiber_id (p_fibers s) + 1)) (u32 (fiber_stack_size (p_fibers s))) INIT (Some (PEntry MainFunc)) true (Some b))
        (u64 (s_fiber_id (p_fibers s) + 1)) (p_fibers s)) s)).
    { unfold on_fibers. by rewrite Fiber_ctor_eq. }
    destruct (ctor_attends t m idle δ δ _ _ _ _ Ha H) as (Ha' & _ & Hm & Hi & _).
    set (c := next_address (p_fibers s)) in *. set (z := MkFiber _ _ _ _ _ _) in *. set (F := allocated _ _ _) in *.
    assert (HF : ∀ a, a ≠ c → heap F !! a = heap (p_fibers s) !! a) by (intros a Hac; by apply lookup_insert_ne).
    assert (Hc : heap F !! c = Some (renewed (Some b) z)) by (by apply lookup_insert_eq).
    exists c, F, z. split_and!; try done.
    + by eapply Hstate.
    + eapply Hsize; [done| |done]. rewrite (fo_fresh _ _ _ _ _ (at_fibers _ _ _ _ _ Ha) c); done.
Qed.

(** What follows the switch to it. *)
Definition callback_end (c : Z) (seg : segment B) : M P (option Z) :=
  match seg with
  | Returned | Threw => on_fibers (reset None c) ;;; ret (Some c)
  | _ => on_fibers (setState HOLD c) ;;; ret None
  end.
Lemma callback_ends (c : Z) x seg s : heap (p_fibers s) !! c = Some (after_fiber MainFunc c seg x) → m_stack x = true →
  modest_segment seg → c ≠ m → c ≠ idle → modest_state None s →
  ∃ cb' s', callback_end c seg s = Ok (cb', s') ∧ modest_state cb' s' ∧ left_over_size s' = left_over_size s.
Proof.
  intros Hx Hst Hseg Hm Hi Hms.
  assert (Hhold : ∀ k, seg = YieldedHold k → ∃ cb' s', (on_fibers (setState HOLD c) ;;; ret None) s = Ok (cb', s') ∧
    modest_state cb' s' ∧ left_over_size s' = left_over_size s).
  { intros k ->. exists None, s. rewrite (bind_step _ _ _ _ _ (hold_works c _ s Hx eq_refl)). by split_and!. }
  assert (Hreset : settled (segment_state seg (m_state x)) = true →
    ∃ cb' s', (on_fibers (reset None c) ;;; ret (Some c)) s = Ok (cb', s') ∧
      modest_state cb' s' ∧ left_over_size s' = left_over_size s).
  { intros Hset. pose proof (reset_works None c _ s Hx Hst Hset) as H.
    set (F := upd_heap (alter (renewed None) c) (p_fibers s)) in *.
    assert (HF : ∀ a, a ≠ c → heap F !! a = heap (p_fibers s) !! a) by (intros a Hac; by apply lookup_alter_ne).
    assert (Hc : heap F !! c = Some (renewed None (after_fiber MainFunc c seg x))) by (unfold F; simpl; by rewrite lookup_alter_eq, Hx).
    exists (Some c), (set_fibers F s). rewrite (bind_step _ _ _ _ _ H). split; [done|]. split.
    - destruct Hms as [H1 H2 H3 H4 H5 H6 H7 H8 H9]. split; try done.
      + intros a [= <-]. split; [done|]. split; [done|]. by eexists.
      + intros a y. change (p_fibers (set_fibers F s)) with F. destruct (decide (a = c)) as [->|Hac]; [|by rewrite HF; first apply H4].
        rewrite Hc. by intros [= <-].
    - unfold left_over_size. f_equal. apply map_sum_ext. intros a. change (p_fibers (set_fibers F s)) with F.
      destruct (decide (a = c)) as [->|Hac]; [|by rewrite HF]. rewrite Hc, Hx. simpl.
      unfold fiber_size. simpl. by destruct (segment_state seg (m_state x)). }
  destruct seg as [| |k|k|k]; try done; simpl; [by apply Hreset|by apply Hreset|by eapply Hhold].
Qed.

Lemma callback_task e cb b s :
  attends t m idle (λ g, body_wakes g b) s → modest_state cb s → modest_body b → callback_ok b →
  ∃ cb' s', run_callback exec e t cb b s = Ok (cb', s') ∧ modest_state cb' s' ∧
    (left_over_size s' <= left_over_size s + body_size b)%nat.
Proof.
  intros Ha Hms Hb Hok.
  destruct (callback_fiber _ cb b s Ha Hms) as (c & F & x & H1 & Hm & Hi & Ha1 & Hms1 & Hx & Hst & Hsize1).
  set (s1 := set_fibers F s) in *. clear Ha Hms.
  destruct (fo_m _ _ _ _ _ (at_fibers _ _ _ _ _ Ha1)) as (y & Hy & Hye).
  assert (Hrun : runnable t c m b (p_fibers (active s1))).
  { split; [apply (at_fibers _ _ _ _ _ Ha1)|done|by exists y|]. eexists. split; [exact Hx|]. split; [done|by left]. }
  destruct (switch_works e c b (body_size b) (active s1) Hrun) as (seg & q & T & k & H & Hq & HT & Hseg & Hsize).
  { by apply active_sound, (at_sound _ _ _ _ _ Ha1). } { apply Hms1. } { apply Hms1. }
  { intros s0 Hs0 Hr0 Hh0 HT0. by apply (callback_works e c). }
  pose proof (back_heap t m c _ (p_fibers s1) Hx (not_eq_sym (not_eq_sym Hm)) seg c) as Hback. rewrite decide_True in Hback by done.
  set (s2 := set_fibers (back_from t m c seg (p_fibers s1)) (worked q T k s1)).
  assert (Hms2 : modest_state None s2) by by eapply back_modest.
  pose proof (back_left c _ y seg q T k s1 _ Hx Hy Hye Hm Hseg Hsize) as Hl. fold s2 in Hl.
  destruct (callback_ends c (set_state EXEC (renewed (Some b) x)) seg s2 Hback Hst Hseg Hm Hi Hms2) as (cb' & s' & H3 & Hms3 & Hl3).
  exists cb', s'. split; [|split; [done|]].
  - unfold run_callback. rewrite (bind_step _ _ _ _ _ H1). fold s1.
    rewrite (bind_step _ _ _ _ _ (active_ok s1)). erewrite bind_step by (apply (fiber_found c _ (active s1)); exact Hx).
    rewrite bool_decide_true by by eexists.
    rewrite (bind_step _ (λ _, let* _ := swapIn (exec e t) t c in _) _ _ _ eq_refl), (bind_step _ _ _ _ _ H).
    rewrite (bind_step _ _ _ _ _ (active_back _ q T k s1 (ms_active _ _ Hms1))). fold s2.
    rewrite (bind_step _ _ _ _ _ (state_at c _ s2 Hback)).
    rewrite <- H3. by destruct seg.
  - assert (left_over_size s1 = left_over_size s) by (unfold left_over_size, s1; simpl; by rewrite Hsize1). lia.
Qed.
(** ** A round that finds a task *)
Lemma tickles (ok : bool) s : ∃ k, when ok Scheduler.tickle s = Ok (tt, with_kernel k s).
Proof.
  destruct ok; [|exists (kernel s); by rewrite kernel_same].
  destruct (tickle_ok s) as (s' & H & k & -> & _). by exists k.
Qed.
Lemma takes_head it q s :
  attends t m idle none s → Scheduler.m_fibers (p_sched s) = it :: q → modest_task it →
  ∃ tk, take_task t s = Ok (MkPick (Some it) q tk, set_sched (with_fibers q (p_sched s)) s).
Proof.
  intros Ha Hq [Hthr Hit]. destruct (dequeue_attends t m idle [] it q s Hq Ha) as [_ Ha1].
  assert (Hskip : negb (thread it =? -1) && negb (thread it =? t) = false).
  { destruct Hthr as [->| ->]; [done|]. by rewrite Z.eqb_refl, andb_false_r. }
  unfold take_task. change (sched s) with (p_sched s). rewrite Hq. cbn [pick]. rewrite Hskip.
  destruct (what it) as [[f|]|o]; [|done|by eexists].
  pose proof (at_wakes _ _ _ _ _ Ha1 f) as Hw. simpl in Hw. unfold is_fiber in Hw. rewrite decide_True in Hw by done.
  destruct (owed_waiting idle (p_fibers s) f) as (x & Hx & Hsusp & _); [change (p_fibers _) with (p_fibers s) in Hw; lia|].
  unfold state_of. change (fibers s) with (p_fibers s). rewrite Hx. simpl. destruct (m_state x); try done; by eexists.
Qed.

Lemma task_round e cb it q s :
  attends t m idle none s → modest_state cb s → Scheduler.m_fibers (p_sched s) = it :: q →
  ∃ cb' s', run_iter exec e t idle cb s = Ok ((cb', false), s') ∧ modest_state cb' s' ∧
    (left_over_size s' < left_over_size s)%nat.
Proof.
  intros Ha Hms Hq. pose proof (ms_queue _ _ Hms) as Hqm. rewrite Hq in Hqm. apply Forall_cons in Hqm as [Hit Hqm].
  destruct (takes_head it q s Ha Hq Hit) as (tk & Htake).
  destruct (dequeue_attends t m idle [] it q s Hq Ha) as [Hok Ha1]. simpl in Ha1.
  set (s0 := set_sched (with_fibers q (p_sched s)) s) in *. destruct (tickles tk s0) as (k & Hk).
  assert (Ha2 : attends t m idle (λ g, task_wakes g (what it)) (with_kernel k s0)).
  { eapply attends_neutral; [exact Ha1|].
    eapply (does_when t m _ _ (does_tickle t m)); [apply Ha1|by eapply main_runs|exact Hk]. }
  assert (Hms2 : modest_state cb (with_kernel k s0)) by (destruct Hms; by split).
  assert (Hsize : left_over_size s = (task_size it + left_over_size (with_kernel k s0))%nat).
  { unfold left_over_size. rewrite Hq. simpl. lia. }
  assert (Hpos : (0 < task_size it)%nat) by (unfold task_size; destruct (what it) as [|[b|]]; lia).
  unfold run_iter. rewrite (bind_step _ _ _ _ _ Htake). simpl. rewrite (bind_step _ _ _ _ _ Hk).
  destruct Hit as [_ Hit]. unfold task_size in Hsize, Hpos. destruct (what it) as [[f|]|[b|]]; try done.
  - destruct (fiber_task e cb f _ Ha2 Hms2) as (s' & H & Hms' & Hle). exists cb, s'.
    rewrite (bind_step _ _ _ _ _ H). split; [done|]. split; [done|]. lia.
  - destruct (callback_task e cb b _ Ha2 Hms2 Hit Hok) as (cb' & s' & H & Hms' & Hle). exists cb', s'.
    rewrite (bind_step _ _ _ _ _ H). split; [done|]. split; [done|]. lia.
Qed.
End switch.

(** ** A round that finds none *)

(** The timers whose time has come become tasks. *)
Lemma expired_size now probe T T' E :
  modest_timers T → TimerFacts.expiry_result now probe (Timer.store T) (Timer.store T') E →
  Forall modest_task (timer_tasks (Timer.store T) E) ∧ modest_timers T' ∧
  (queue_size (timer_tasks (Timer.store T) E) + timers_size T' + length E = timers_size T)%nat.
Proof.
  intros HT HX. pose proof (λ l, TimerFacts.expiry_due _ _ _ _ _ l HX) as Hdue. destruct HX as (HE & _ & Hst). pose proof (StdSet.sorted_NoDup _ _ HE) as Hnd.
  set (h := Timer.store T) in *. set (h' := Timer.store T') in *.
  assert (Hone : ∀ l, l ∈ E → ∃ y b, h !! l = Some y ∧ Timer.m_cb y = Some (Timer.Fun b) ∧ modest_body b).
  { intros l Hl. destruct (Hdue l Hl) as [(y & Hy & Hcb) _]. destruct (HT l y Hy) as [_ Hf].
    destruct (Timer.m_cb y) as [cl|] eqn:Ecb; [|done]. destruct (Hf cl eq_refl) as (b & -> & Hb). by exists y, b. }
  assert (Hclear : ∀ l, h' !! l = if decide (l ∈ E) then Timer.clear_cb <$> h !! l else h !! l).
  { intros l. rewrite Hst. destruct (decide (l ∈ E)) as [Hl|]; [|done]. destruct (h !! l) as [y|] eqn:Hy; [|done].
    destruct (HT l y Hy) as [Hrec _]. simpl. unfold TimerFacts.fire. by rewrite Hrec. }
  split; [|split].
  - apply Forall_forall. intros it Hit. apply list_elem_of_fmap in Hit as (l & -> & Hl).
    destruct (Hone l Hl) as (y & b & Hy & Hcb & Hb). split; [by left|]. simpl. unfold TimerFacts.cb_of.
    rewrite Hy. simpl. by rewrite Hcb.
  - intros l y. change (Timer.store T' !! l) with (h' !! l). rewrite Hclear. case_decide as Hl; [|by apply HT].
    destruct (h !! l) as [z|] eqn:Hz; [|done]. intros [= <-]. by destruct (HT l z Hz).
  - pose proof (map_sum_drop timer_size Timer.clear_cb E Hnd h h' (λ _, eq_refl) Hclear) as Hsum.
    unfold timers_size. fold h h'. rewrite <- Hsum.
    enough (queue_size (timer_tasks h E) + length E = sum_list_with (λ l, size_of timer_size (h !! l)) E)%nat by lia.
    clear -Hone. induction E as [|l E IH]; [done|]. simpl.
    rewrite <- IH by (intros l' Hl'; apply Hone; by right).
    destruct (Hone l ltac:(by left)) as (y & b & Hy & Hcb & _). unfold queue_size. simpl.
    unfold TimerFacts.cb_of, task_size, timer_size. rewrite Hy. simpl. rewrite Hcb. simpl. lia.
Qed.

(** The wait of the idle loop. *)
Context `{!KernelWaits K}.

Lemma worked_kernel k s : with_kernel k s = worked [] (p_timers s) k s.
Proof. destruct s as [F [] T io fds ti k0]. unfold worked, enqueue, with_kernel, with_timers. simpl. by rewrite app_nil_r. Qed.
Lemma waits_later w n k evs k' : IdleFacts.waits w n k evs k' → brk k <= brk k' ∧ time k <= time k'.
Proof.
  induction 1 as [k evs k' E _|k k' E _|n k k1 evs k' E _ _ IH]; destruct (wait_later _ _ _ _ E) as (? & ? & _); [lia|lia|].
  destruct IH. lia.
Qed.
Lemma nothing_registered s : io_ok s → pending s = 0 → Z.of_nat (length (ctxs s)) < 2 ^ 63 →
  ∀ d, 0 <= d → interest (kernel s) !! d = None.
Proof.
  intros [Hl Hm] Hp Hlen d Hd. rewrite (Hm d Hd). destruct (ctxs s !! Z.to_nat d) as [c|] eqn:Hc; [|done]. simpl.
  rewrite (io_count _ Hl) in Hp. rewrite u64_id in Hp by (unfold is_u64; pose proof (total_bound (ctxs s)); lia).
  pose proof (total_zero _ _ _ Hp Hc) as Hb. pose proof (c_mask _ _ (io_ctx _ Hl _ _ Hc)) as Hmask.
  by destruct Hmask as [E|[E|[E|E]]]; rewrite E in Hb |- *; vm_compute in Hb.
Qed.
Lemma drains : ∀ fuel s, (bytes (kernel s) < fuel)%nat →
  ∃ k, drain_pipe fuel s = Ok (tt, with_kernel k s) ∧ bytes k = 0%nat ∧ time (kernel s) <= time k.
Proof.
  induction fuel as [|fuel IH]; intros s Hf; [lia|]. simpl. destruct (pipe_read (kernel s)) as [rt k] eqn:E.
  rewrite (bind_step _ _ _ _ _ (sys_ok _ _ _ _ E)). pose proof (read_byte _ _ _ E) as Hb. destruct (read_later _ _ _ E) as [_ Ht].
  destruct (rt =? 1); [|exists k; destruct Hb; by split_and!].
  destruct (IH (with_kernel k s)) as (k' & H & Hz & Ht'); [simpl; lia|]. exists k'. simpl in Ht'.
  split; [exact H|]. split; [done|lia].
Qed.

(** A round of the idle loop that only the pipe or the timeout ends. *)
Lemma idle_steps s tmo k1 n evs k2 s3 :
  stopping_timeout s = Ok ((false, tmo), with_kernel k1 s) → IdleFacts.waits (i32 (wait_timeout tmo)) n k1 evs k2 →
  schedule_timers (with_kernel k2 s) = Ok (tt, s3) → evs = [] ∨ (∃ r, evs = [MkEvent TickleFd r]) →
  ∃ e k, idle e s = Ok (SwappedOut (@Idle K), with_kernel k s3) ∧ time (kernel s3) <= time k ∧
    bytes k = if bool_decide (evs = []) then bytes (kernel s3) else 0%nat.
Proof.
  intros Hstop Hwait Hsch Hevs. set (e := (Datatypes.S n + Datatypes.S (bytes (kernel s3)))%nat).
  destruct (wait_loop_ok _ _ _ _ _ Hwait (with_kernel k1 s) e eq_refl ltac:(lia)) as [Hw _].
  change (with_kernel k2 (with_kernel k1 s)) with (with_kernel k2 s) in Hw.
  assert (Hdeal : ∃ k, deal_events e evs s3 = Ok (tt, with_kernel k s3) ∧ time (kernel s3) <= time k ∧
    bytes k = if bool_decide (evs = []) then bytes (kernel s3) else 0%nat).
  { destruct Hevs as [->|[r ->]].
    - exists (kernel s3). by rewrite kernel_same.
    - destruct (drains e s3 ltac:(lia)) as (k & H & Hz & Ht). exists k.
      split; [|by rewrite bool_decide_false]. simpl. unfold deal_event. simpl. by rewrite (bind_step _ _ _ _ _ H). }
  destruct Hdeal as (k & Hd & Ht & Hb). exists e, k. split; [|done]. unfold idle, idle_round. rewrite (bind_step _ _ _ _ _ Hstop).
  simpl. rewrite (bind_step _ _ _ _ _ Hw), (bind_step _ _ _ _ _ Hsch), (bind_step _ _ _ _ _ Hd). done.
Qed.

(** How far the loop is from its next deadline, and from an empty pipe. *)
Definition distance T (k : K) : nat :=
  match Timer.m_timers T with l :: _ => Z.to_nat (Timer.next_of (Timer.store T) l - time k) | [] => 0 end + bytes k.

Lemma not_due s l ts now k1 probe k2 :
  Timer.m_timers (p_timers s) = l :: ts → clock_ms (kernel s) = (now, k1) → allocate_address k1 = (probe, k2) →
  now < Timer.next_of (Timer.store (p_timers s)) l → schedule_timers s = Ok (tt, with_kernel k2 s).
Proof.
  intros Hl Hc Ha Hd. unfold schedule_timers. rewrite (bind_step _ _ _ _ _ (sys_ok _ _ _ _ Hc)).
  erewrite bind_step by (apply sys_ok; exact Ha).
  assert (H : ∀ s0 : P, p_timers s0 = p_timers s → Timer.list_expired_cbs now probe [] s0 = Ok ([], s0)).
  { intros s0 H0. unfold Timer.list_expired_cbs, Timer.list_expired_empty, Timer.list_expired_write, Timer.get_tm.
    step_in. change (Timer.manager s0) with (p_timers s0). rewrite H0, Hl.
    step_in. change (Timer.manager s0) with (p_timers s0). unfold id. rewrite H0, Hl.
    by rewrite (proj2 (Z.gtb_lt _ _) Hd). }
  rewrite (bind_step _ _ _ _ _ (H (with_kernel k2 (with_kernel k1 s)) eq_refl)). done.
Qed.

Lemma idle_segment s :
  sound t s → Scheduler.m_fibers (p_sched s) = [] → modest_timers (p_timers s) →
  m_active_thread_count (p_sched s) = 0 → m_auto_stop (p_sched s) && m_stopping (p_sched s) = true →
  pending s = 0 → Z.of_nat (length (ctxs s)) < 2 ^ 63 → 0 < time (kernel s) →
  ∃ e seg q T k, idle e s = Ok (seg, worked q T k s) ∧ Forall modest_task q ∧ modest_timers T ∧
    (seg = Returned ∧ q = [] ∧ T = p_timers s ∨
     seg = SwappedOut Idle ∧
       ((queue_size q + timers_size T < timers_size (p_timers s))%nat ∨
        q = [] ∧ T = p_timers s ∧ (distance T k < distance T (kernel s))%nat)).
Proof.
  intros Hs Hq HT Hact Hstp Hp Hlen Htime. destruct (clock_ms (kernel s)) as [now1 k1] eqn:Ec1.
  destruct (clock_later _ _ _ Ec1) as [Hb1 Ht1]. pose proof (clock_interest _ _ _ Ec1) as Hi1.
  pose proof (clock_bytes _ _ _ Ec1) as Hy1. pose proof (so_timers _ _ Hs) as Hwf.
  destruct (stopping_timeout_ok s now1 k1 Ec1) as (stop & tmo & Hstop & Hiff & Hw & _); [lia| |].
  { intros l Hl. apply (TimerFacts.wf_armed _ Hwf) in Hl as (y & Hy & _). unfold Timer.next_of. rewrite Hy.
    by destruct (so_store _ _ Hs l y Hy) as (_ & ? & _). }
  destruct stop.
  { exists 0%nat, Returned, [], (p_timers s), k1. rewrite <- worked_kernel. split; [|split; [done|split; [done|by left]]].
    unfold idle. by rewrite (bind_step _ _ _ _ _ Hstop). }
  destruct (Timer.m_timers (p_timers s)) as [|l ts] eqn:Hl.
  { exfalso. enough (false = true) by done. apply Hiff. split; [done|]. split; [done|].
    unfold base_stopping. by rewrite Hq, Hact, Hstp. }
  set (deadline := Timer.next_of (Timer.store (p_timers s)) l) in *.
  destruct (wait_ends (i32 (wait_timeout tmo)) k1) as (n & evs & k2 & Hwait & Hy2 & Hevs).
  { rewrite Hw. lia. } { rewrite Hi1. by apply nothing_registered; [apply Hs| |]. }
  destruct (waits_later _ _ _ _ _ Hwait) as [Hb2 Ht2].
  destruct (clock_ms k2) as [now2 k3] eqn:Ec2. destruct (clock_later _ _ _ Ec2) as [Hb3 Ht3].
  destruct (allocate_address k3) as [probe k4] eqn:Ea. destruct (alloc_later _ _ _ Ea) as [Hb4 Ht4].
  assert (Hevs' : evs = [] ∨ ∃ r, evs = [MkEvent TickleFd r]) by (destruct Hevs as [[? _]|[? _]]; auto).
  destruct (Z.lt_ge_cases now2 deadline) as [Hnot|Hdue].
  - pose proof (not_due (with_kernel k2 s) l ts now2 k3 probe k4 Hl Ec2 Ea Hnot) as Hsch.
    destruct (idle_steps s tmo k1 n evs k2 _ Hstop Hwait Hsch Hevs') as (e & k5 & H & Ht5 & Hy5). simpl in Ht5, Hy5.
    exists e, (SwappedOut Idle), [], (p_timers s), k5. rewrite <- worked_kernel. split; [exact H|].
    do 2 (split; [done|]). right. split; [done|]. right. split; [done|]. split; [done|].
    unfold distance. rewrite Hl. fold deadline.
    pose proof (address_bytes _ _ _ Ea) as Hy4. pose proof (clock_bytes _ _ _ Ec2) as Hy3.
    destruct Hevs as [[-> Hlate]|[[r ->] Hne]]; [rewrite bool_decide_true in Hy5 by done|rewrite bool_decide_false in Hy5 by done]; lia.
  - assert (Hp0 : Timer.store (p_timers (with_kernel k2 s)) !! probe = None).
    { destruct (Timer.store (p_timers s) !! probe) as [y|] eqn:Ey; [|done]. destruct (so_store _ _ Hs _ _ Ey). lia. }
    assert (Hio2 : io_ok (with_kernel k2 s)).
    { assert (Hi2 : interest k2 = interest k1).
      { by destruct (wait_loop_ok _ _ _ _ _ Hwait (with_kernel k1 s) (Datatypes.S n) eq_refl ltac:(lia)). }
      apply kernel_io_ok; [congruence|apply Hs]. }
    destruct (schedule_timers_ok now2 probe k3 k4 (with_kernel k2 s) Hio2 Hwf Ec2 Ea Hp0) as (T & k & E & Hsch & _ & _ & HE).
    destruct (expired_size now2 _ _ T E HT HE) as (Hqt & HT' & Hsize).
    destruct (idle_steps s tmo k1 n evs k2 _ Hstop Hwait Hsch Hevs') as (e & k5 & H & _ & _).
    exists e, (SwappedOut Idle), (timer_tasks (Timer.store (p_timers s)) E), T, k5.
    split; [exact H|]. split; [done|]. split; [done|]. right. split; [done|]. left.
    assert (Hne : E ≠ []).
    { pose proof (TimerFacts.head_expires _ _ probe _ _ Hwf Hl Hdue) as Hexp. destruct HE as (_ & HE & _).
      apply HE in Hexp. by intros ->; apply not_elem_of_nil in Hexp. }
    destruct E; [done|]. simpl in Hsize |- *. lia.
Qed.

(** The process after the idle fiber has run. *)
Section idles.
Variables (m idle : Z).
Local Abbreviation modest_state := (modest_state m idle).

Definition counted (a i : Z) s : P := set_sched (with_counts a i (p_sched s)) s.
Lemma idle_back cb seg q T k a i x s :
  attends t m idle none s → modest_state cb s → heap (p_fibers s) !! idle = Some x → idle_ready idle x →
  seg = Returned ∨ seg = YieldedHold Idle → Forall modest_task q → modest_timers T → a = 0 →
  let s' := set_fibers (back_from t m idle seg (p_fibers s)) (counted a i (worked q T k s)) in
  modest_state cb s' ∧
  (left_over_size s' + timers_size (p_timers s) = left_over_size s + queue_size q + timers_size T)%nat.
Proof.
  intros Ha [H1 H2 H3 H4 H5 H6 H7 H8 H9] Hx [_ Hpt] Hseg Hq HT -> s'.
  destruct (at_fibers _ _ _ _ _ Ha) as [_ _ (y & Hy & Hye) [Him _] _ _].
  assert (HF : ∀ a, heap (p_fibers s') !! a = if decide (a = idle) then Some (after_fiber MainFunc idle seg (set_state EXEC x))
    else if decide (a = m) then set_ctx (PWait idle) <$> heap (p_fibers s) !! m else heap (p_fibers s) !! a).
  { exact (back_heap t m idle x (p_fibers s) Hx Him seg). }
  split; [split; try done|].
  - intros a Hcb. destruct (H1 a Hcb) as (Hm & Hi & z & Hz). split; [done|]. split; [done|]. exists z.
    by rewrite HF, !decide_False.
  - by apply Forall_app.
  - intros a z. rewrite HF. case_decide; [done|]. case_decide; [|by apply H4]. subst a. rewrite Hy. intros [= <-].
    simpl. by rewrite Hye.
  - assert (Hf : fibers_size (p_fibers s') = fibers_size (p_fibers s)).
    { apply map_sum_ext. intros a. rewrite HF. case_decide as Hai; [subst a|case_decide as Ham; [subst a|done]].
      - rewrite Hx. simpl. assert (fiber_size x = 0%nat) as ->.
        { unfold fiber_size. destruct Hpt as [[Hc _]|Hc]; rewrite Hc; by destruct (suspended _). }
        by destruct Hseg as [->| ->].
      - rewrite Hy. simpl. unfold fiber_size. simpl. by rewrite Hye. }
    unfold left_over_size. rewrite Hf. unfold queue_size. simpl. rewrite sum_list_with_app. lia.
Qed.

Lemma takes_none s : Scheduler.m_fibers (p_sched s) = [] → take_task t s = Ok (MkPick None [] false, s).
Proof.
  intros Hq. unfold take_task. change (sched s) with (p_sched s). rewrite Hq. simpl.
  pose proof (same_queue s) as Hsame. rewrite Hq in Hsame. by do 2 f_equal.
Qed.
Lemma ended_stops cb e s :
  Scheduler.m_fibers (p_sched s) = [] → idle_ended idle s → run_loop exec [e] t idle cb s = Ok (tt, s).
Proof.
  intros Hq (x & Hx & Hst). unfold run_loop, run_iter.
  rewrite !bind_assoc, (bind_step _ _ _ _ _ (takes_none s Hq)). simpl. rewrite bind_assoc. step_in. unfold run_idle.
  rewrite !bind_assoc, (bind_step _ _ _ _ _ (state_at idle x s Hx)). by rewrite bool_decide_true.
Qed.

Lemma idle_round_works cb s :
  attends t m idle none s → modest_state cb s → Scheduler.m_fibers (p_sched s) = [] → 0 < time (kernel s) →
  ¬ idle_ended idle s →
  ∃ e s', run_iter exec e t idle cb s = Ok ((cb, false), s') ∧ modest_state cb s' ∧
    (idle_ended idle s' ∨ (left_over_size s' < left_over_size s)%nat ∨
     left_over_size s' = left_over_size s ∧
       (distance (p_timers s') (kernel s') < distance (p_timers s) (kernel s))%nat).
Proof.
  intros Ha Hms Hq Htime Hend. pose proof (at_fibers _ _ _ _ _ Ha) as Hfo.
  destruct (fo_idle _ _ _ _ _ Hfo) as [Him (x & Hx & [Hterm|Hready])]; [by destruct Hend; exists x|].
  destruct (fo_m _ _ _ _ _ Hfo) as (y & Hy & Hye).
  set (i := u64 (m_idle_thread_count (p_sched s) + 1)). set (s1 := counted (m_active_thread_count (p_sched s)) i s).
  assert (Hrun : runnable t idle m Idle (p_fibers s1)).
  { split; [apply Hfo|done|by exists y|]. exists x. split; [done|]. by destruct Hready as [? ?]. }
  destruct (idle_segment (set_fibers (swapped t idle m (p_fibers s1)) s1)) as (e & seg & q & T & k & H & Hqm & HT & Hseg); try apply Hms; try done.
  { apply sound_fibers. exact (ev_sound _ _ _ _ (counts_evolve t _ _ s (at_sound _ _ _ _ _ Ha))). }
  pose proof (swapIn_ok (exec e t) t idle m Idle seg s1 _ Hrun H (frame_refl _)) as Hsw.
  set (s2 := set_fibers (back_from t m idle seg (p_fibers s)) (worked q T k s1)).
  change (swapIn (exec e t) t idle s1 = Ok (tt, s2)) in Hsw.
  set (j := u64 (i + -1)). set (s3 := counted (m_active_thread_count (p_sched s)) j s2).
  assert (Hadd : add_idle (-1) s2 = Ok (tt, s3)) by done.
  pose proof (back_heap t m idle x (p_fibers s) Hx Him seg idle) as Hback. rewrite decide_True in Hback by done.
  assert (Hiter : run_iter exec e t idle cb s =
    (let* stop := (if ended (m_state (after_fiber MainFunc idle seg (set_state EXEC x))) then ret tt else on_fibers (setState HOLD idle)) ;;; ret false in
     ret (cb, stop)) s3).
  { unfold run_iter.
    rewrite (bind_step _ _ _ _ _ (takes_none s Hq)). simpl. step_in. unfold run_idle. rewrite !bind_assoc.
    rewrite (bind_step _ _ _ _ _ (state_at idle x s Hx)). rewrite bool_decide_false by (intros E; apply Hend; by exists x).
    rewrite !bind_assoc. rewrite (bind_step _ _ _ tt s1 eq_refl), !bind_assoc, (bind_step _ _ _ _ _ Hsw), !bind_assoc, (bind_step _ _ _ _ _ Hadd), !bind_assoc.
    rewrite (bind_step _ _ _ _ _ (state_at idle _ s3 Hback)). by rewrite bind_assoc. }
  assert (Hfinal : ∃ seg', (seg' = Returned ∧ seg = Returned ∨ seg' = YieldedHold Idle ∧ seg = SwappedOut Idle) ∧
    run_iter exec e t idle cb s = Ok ((cb, false), set_fibers (back_from t m idle seg' (p_fibers s))
      (counted (m_active_thread_count (p_sched s)) j (worked q T k s)))).
  { destruct Hseg as [[-> _]|[-> _]].
    - exists Returned. split; [by left|]. by rewrite Hiter.
    - exists (YieldedHold Idle). split; [by right|]. rewrite Hiter. cbn [ended segment_state after_fiber m_state set_state].
      unfold on_fibers. rewrite !bind_assoc. unfold bind at 1. simpl.
      rewrite (setState_ok HOLD idle _ _ Hback). rewrite <- (hold_back t m idle x (p_fibers s) Hx Him Idle). done. }
  destruct Hfinal as (seg' & Hs' & Hres). exists e, (set_fibers (back_from t m idle seg' (p_fibers s))
      (counted (m_active_thread_count (p_sched s)) j (worked q T k s))).
  destruct (idle_back cb seg' q T k (m_active_thread_count (p_sched s)) j x s Ha Hms Hx Hready) as [Hms' Hsize]; try done.
  { destruct Hs' as [[? _]|[? _]]; auto. } { apply Hms. }
  split; [done|]. split; [done|]. destruct Hseg as [(-> & -> & ->)|[-> Hseg]].
  - left. destruct Hs' as [[-> _]|[_ ?]]; [|done].
    exists (after_fiber MainFunc idle Returned (set_state EXEC x)). split; [|done].
    rewrite back_set, (back_heap t m idle x _ Hx Him Returned idle). by rewrite decide_True.
  - right. destruct Hseg as [Hlt|(-> & -> & Hlt)]; [left; change (p_timers (set_fibers _ s1)) with (p_timers s) in Hlt; lia|right].
    change (queue_size []) with 0%nat in Hsize. change (p_timers (set_fibers _ s1)) with (p_timers s) in Hsize.
    rewrite Nat.add_0_r in Hsize. split; [exact (proj1 (Nat.add_cancel_r _ _ _) Hsize)|exact Hlt].
Qed.

(** The loop ends. *)
Lemma loop_ends : ∀ n d cb s,
  (left_over_size s <= n)%nat → (distance (p_timers s) (kernel s) <= d)%nat →
  attends t m idle none s → modest_state cb s → 0 < time (kernel s) → ends_over idle s →
  ∃ envs cb' s', run_loop exec envs t idle cb s = Ok (tt, s') ∧ modest_state cb' s'.
Proof.
  induction n as [n IHn] using lt_wf_ind. induction d as [d IHd] using lt_wf_ind. intros cb s Hn Hd Ha Hms Htime Hover.
  assert (Hcb : cb_ok m idle cb).
  { intros a Hcb. by destruct (ms_cb _ _ _ _ Hms a Hcb) as (? & ? & _). }
  assert (Hnext : ∀ e cb1 s1, run_iter exec e t idle cb s = Ok ((cb1, false), s1) → modest_state cb1 s1 →
    (left_over_size s1 < left_over_size s)%nat ∨
    left_over_size s1 = left_over_size s ∧ (distance (p_timers s1) (kernel s1) < distance (p_timers s) (kernel s))%nat →
    ∃ envs cb' s', run_loop exec envs t idle cb s = Ok (tt, s') ∧ modest_state cb' s').
  { intros e cb1 s1 H1 Hms1 Hless.
    destruct (round_attends t m idle e cb s cb1 false s1 Hcb Ha H1) as (Hcb1 & Ha1 & _ & Hov & δ & _ & Hk).
    pose proof (ke_time _ _ _ _ Hk) as Ht1. specialize (Hov Htime Hover).
    assert (Hrest : ∃ envs cb' s', run_loop exec envs t idle cb1 s1 = Ok (tt, s') ∧ modest_state cb' s').
    { destruct Hless as [Hless|[Hsame Hless]].
      - eapply (IHn (left_over_size s1)); [lia|done|done|done|done|lia|done].
      - eapply (IHd (distance (p_timers s1) (kernel s1))); [lia|lia|done|done|done|lia|done]. }
    destruct Hrest as (envs & cb' & s' & H & Hms'). exists (e :: envs), cb', s'. split; [|done].
    simpl. by rewrite (bind_step _ _ _ _ _ H1). }
  destruct (Scheduler.m_fibers (p_sched s)) as [|it q] eqn:Hq.
  2: { destruct (task_round m idle 0 cb it q s Ha Hms Hq) as (cb1 & s1 & H1 & Hms1 & Hless). by eapply Hnext; [..|left]. }
  destruct (heap (p_fibers s) !! idle) as [x|] eqn:Hx.
  2: { destruct (fo_idle _ _ _ _ _ (at_fibers _ _ _ _ _ Ha)) as [_ (x & Hx' & _)]. by rewrite Hx in Hx'. }
  destruct (decide (m_state x = TERM)) as [Hterm|Hnot].
  { exists [0%nat], cb, s. split; [|done]. apply ended_stops; [done|by exists x]. }
  destruct (idle_round_works cb s Ha Hms Hq Htime) as (e & s1 & H1 & Hms1 & [Hend|Hless]).
  { intros (y & Hy & Hyt). rewrite Hx in Hy. injection Hy as <-. by apply Hnot. }
  - exists [e; 0%nat], cb, s1. split; [|done]. simpl. rewrite (bind_step _ _ _ _ _ H1). simpl.
    destruct (round_attends t m idle e cb s cb false s1 Hcb Ha H1) as (_ & _ & _ & Hov & _).
    destruct (Hov Htime Hover Hend) as (_ & _ & Hq1). exact (ended_stops cb 0%nat s1 Hq1 Hend).
  - by eapply Hnext.
Qed.
End idles.

(** ** The theorem *)

(** What the queue and the timers of a process hold at first; its manager has been asked
    to stop. *)
Record modest_process s : Prop := {
  mp_queue : Forall modest_task (Scheduler.m_fibers (p_sched s));
  mp_timers : modest_timers (p_timers s);
  mp_active : m_active_thread_count (p_sched s) = 0;
  mp_stop : m_auto_stop (p_sched s) && m_stopping (p_sched s) = true;
  mp_pending : pending s = 0;
  mp_contexts : Z.of_nat (length (ctxs s)) < 2 ^ 63;
}.

(** C11: clients that sleep, schedule functions and set timers that fire once finish.  A
    thread that enters [Scheduler::run] on a process that holds only such functions,
    asked to stop, goes through finitely many rounds of its loop: no call fails, the
    rounds without a task wait no further than the next deadline, and [run] returns
    with the run queue and the timers empty and no fiber that still waits. *)
Theorem sleepers_finish s :
  can_serve t s → modest_process s → 0 < time (kernel s) →
  ∃ envs s', run exec envs t s = Ok (tt, s') ∧
    (∀ a x, heap (p_fibers s') !! a = Some x → m_state x ≠ HOLD ∧ m_state x ≠ READY) ∧
    Scheduler.m_fibers (p_sched s') = [] ∧ Timer.m_timers (p_timers s') = [].
Proof.
  intros Hc [Hq HT Hact Hstop Hp Hlen] Htime. destruct (setup_runs t s Hc) as (idle & s0 & H0 & Hsch & Htm & Hiom & Hk).
  destruct (setup_served t s idle s0 Hc H0) as ((m & Ha & Hcb) & _ & Hi).
  assert (Hms : modest_state m idle None s0).
  { split; unfold hooked, pending, ctxs; rewrite ?Hsch, ?Htm, ?Hiom; try done.
    - intros a x Hx Hsusp Hai. exfalso. pose proof (at_wakes _ _ _ _ _ Ha a) as Hw.
      unfold owed, waiting_fiber in Hw. rewrite Hx, Hsusp, bool_decide_false in Hw by done.
      assert (Hz : wakes a s0 = wakes a s).
      { unfold wakes, queue_wakes, event_wakes, event_wakes_below, timer_wakes, waiting, ctxs. by rewrite Hsch, Htm, Hiom. }
      rewrite Hz, (cs_wakes _ _ Hc a) in Hw. done.
    - simpl. set_solver. }
  destruct (loop_ends m idle _ _ None s0 (le_n _) (le_n _) Ha Hms) as (envs & cb & s' & H & Hms'); [by rewrite Hk|done|].
  exists envs, s'. split; [unfold run; by rewrite (bind_step _ _ _ _ _ H0)|].
  destruct (run_loop_over t idle envs None s0 tt s') as ((cb' & Hs') & Hend & Hov); [by exists m|by rewrite Hk|done|done|].
  destruct (over_nobody_waits t idle cb' s' Hs' Hend Hov) as (? & ? & ? & _); [apply Hms'|done].
Qed.
End ends.
End SystemEnds.
