(* ===== verification/SystemSim.v ===== *)
(** * A process with a clock

    A kernel in which waiting takes time, a process whose callbacks sleep, yield and wait
    for an event, and the theorems of [SystemRuns] and [SystemEnds] applied to it. *)
From stdpp Require Import base gmap list strings.
From Stdlib Require Import ZArith Lia.
From S2P Require Import Prelude StdSet Timers TimerFacts Fibers FiberFacts Schedulers SchedulerFacts.
From S2P Require Import FdManagers IOManagers IOManagerFacts Hooks HookFacts IdleFacts.
From S2P Require Import Systems Wakeups SystemSteps SystemHooks SystemFacts SystemRuns SystemEnds.
Open Scope Z_scope.

Module SystemSim.
Import Fiber Scheduler IOManager IOManagerFacts Hook HookFacts System Wakeup SystemHooks SystemFacts SystemRuns SystemEnds.

(** The interest list, the clock, the next address and the bytes in the pipe. *)
Record ticking := MkTicking {
  tk_interest : gmap Z Z;
  tk_time : Z;
  tk_address : Z;
  tk_pipe : Z;
}.
Definition tk_set (h : gmap Z Z) (k : ticking) : ticking := MkTicking h (tk_time k) (tk_address k) (tk_pipe k).
Definition tk_with_pipe (n : Z) (k : ticking) : ticking := MkTicking (tk_interest k) (tk_time k) (tk_address k) n.
Definition tk_ctl (op d ev : Z) (k : ticking) : Z * ticking :=
  match tk_interest k !! d with
  | None => if op =? EPOLL_CTL_ADD then (0, tk_set (<[d := ev]> (tk_interest k)) k) else (-1, k)
  | Some _ =>
      if op =? EPOLL_CTL_MOD then (0, tk_set (<[d := ev]> (tk_interest k)) k)
      else if op =? EPOLL_CTL_DEL then (0, tk_set (base.delete d (tk_interest k)) k)
      else (-1, k)
  end.
(** Every registered descriptor is readable, and none sooner than the timeout. *)
Definition readable (h : gmap Z Z) : list epoll_event :=
  (λ d, MkEvent (Context d) EPOLLIN) <$> filter (λ d, 0 <= d) (map_to_list h).*1.

#[export] Instance ticking_kernel : Kernel ticking := {
  epoll_create := λ k, (3, k);
  pipe_create := λ k, (0, k);
  pipe_nonblock := λ k, (0, k);
  epoll_add_pipe := λ k, (0, k);
  clock_ms := λ k, (tk_time k, k);
  allocate_address := λ k, (tk_address k, MkTicking (tk_interest k) (tk_time k) (tk_address k + 1) (tk_pipe k));
  epoll_ctl := tk_ctl;
  epoll_wait := λ t k,
    (Ready (readable (tk_interest k)), MkTicking (tk_interest k) (tk_time k + Z.max 0 t) (tk_address k) (tk_pipe k));
  pipe_write := λ k, (1, tk_with_pipe (tk_pipe k + 1) k);
  pipe_read := λ k, if tk_pipe k >? 0 then (1, tk_with_pipe (tk_pipe k - 1) k) else (-1, k);
  close_own := λ _ k, (0, k);
}.

Lemma tk_ctl_cases op d ev k rt k' : tk_ctl op d ev k = (rt, k') →
  k' = k ∧ rt = -1 ∨
  rt = 0 ∧ k' = tk_set (if op =? EPOLL_CTL_DEL then base.delete d (tk_interest k) else <[d := ev]> (tk_interest k)) k ∧
    (op = EPOLL_CTL_ADD ∧ tk_interest k !! d = None ∨
     (op = EPOLL_CTL_MOD ∨ op = EPOLL_CTL_DEL) ∧ is_Some (tk_interest k !! d)).
Proof.
  unfold tk_ctl. destruct (tk_interest k !! d) eqn:E; [destruct (Z.eqb_spec op EPOLL_CTL_MOD) as [->|Hm];
    [|destruct (Z.eqb_spec op EPOLL_CTL_DEL) as [->|Hd]]|destruct (Z.eqb_spec op EPOLL_CTL_ADD) as [->|Ha]];
    intros [= <- <-]; eauto 8.
Qed.
#[export] Instance ticking_laws : KernelLaws ticking.
Proof.
  apply (Build_KernelLaws ticking _ tk_interest).
  - intros op d ev k k' rt H Hrt. by destruct (tk_ctl_cases _ _ _ _ _ _ H) as [[-> _]|[-> _]].
  - intros d ev k k' H. destruct (tk_ctl_cases _ _ _ _ _ _ H) as [[_ H1]|(_ & -> & [[_ H1]|[[H1|H1] _]])]; done.
  - intros d ev k k' H. destruct (tk_ctl_cases _ _ _ _ _ _ H) as [[_ H1]|(_ & -> & [[H1 _]|[_ H1]])]; done.
  - intros d ev k k' H. destruct (tk_ctl_cases _ _ _ _ _ _ H) as [[_ H1]|(_ & -> & [[H1 _]|[_ H1]])]; done.
  - intros k. by eexists.
  - by intros k k' z [= _ <-].
  - by intros k k' a [= _ <-].
  - intros k k' rt H. simpl in H. destruct (tk_pipe k >? 0); by injection H as _ <-.
Defined.
#[export] Instance ticking_time : KernelTime ticking.
Proof.
  apply (Build_KernelTime ticking _ _ tk_address tk_time).
  - intros k k' a [= <- <-]. simpl. lia.
  - intros k k' z [= <- <-]. lia.
  - intros op d ev k k' rt H. destruct (tk_ctl_cases _ _ _ _ _ _ H) as [[-> _]|(_ & -> & _)]; simpl; lia.
  - intros t k k' r [= <- <-]. simpl. split; [lia|]. split; [lia|]. split; [done|].
    intros evs ev i [= <-] Hev Hd. apply list_elem_of_fmap in Hev as (d & -> & Hin).
    apply list_elem_of_filter in Hin as [? _]. simpl in Hd. by injection Hd as <-.
  - intros k k' rt [= _ <-]. simpl. lia.
  - intros k k' rt H. simpl in H. destruct (tk_pipe k >? 0); injection H as _ <-; simpl; lia.
Defined.

#[export] Instance ticking_waits : KernelWaits ticking.
Proof.
  apply (Build_KernelWaits ticking _ _ _ (λ k, Z.to_nat (tk_pipe k))).
  - intros w k Hw Hnone.
    assert (Hno : readable (tk_interest k) = []).
    { unfold readable. destruct (filter _ _) as [|d l] eqn:E; [done|]. exfalso.
      assert (Hin : d ∈ filter (λ d, 0 <= d) (map_to_list (tk_interest k)).*1) by (rewrite E; by left).
      apply list_elem_of_filter in Hin as [Hd Hin]. apply list_elem_of_fmap in Hin as ([d' ev] & -> & Hin).
      apply elem_of_map_to_list in Hin. pose proof (Hnone _ Hd) as Hn.
      change (tk_interest k !! d' = None) in Hn. congruence. }
    exists 0%nat, [], (MkTicking (tk_interest k) (tk_time k + Z.max 0 w) (tk_address k) (tk_pipe k)).
    split; [|split; [done|]].
    + apply IdleFacts.waits_ready; [|done]. by rewrite <- Hno.
    + left. split; [done|]. simpl. lia.
  - intros k k' rt H. simpl in H. destruct (Z.gtb_spec (tk_pipe k) 0); injection H as <- <-; simpl; lia.
  - by intros k k' z [= _ <-].
  - by intros k k' a [= _ <-].
Defined.

(** ** Clients

    One callback sleeps for a second and then waits for descriptor 3 to become readable;
    another gives up its turn once. *)
Definition nothing : libc ticking := λ k, (MkResult 0 0, k).
Definition napper : code ticking := CSleep 1 nothing (CAddEvent 3 READ CReturn (λ _, CReturn)).
Definition polite : code ticking := CYield CReturn.
Definition task (c : code ticking) : Fiber_and_Thread (body ticking) := MkTask (IsCb (Some (Program c))) (-1).

(** The manager of thread 1, asked to stop once there is nothing to do. *)
Definition idle_process (q : list (Fiber_and_Thread (body ticking))) : Process (body ticking) ticking :=
  MkProcess (FiberFacts.no_fibers 1024) (MkScheduler q [] [] 1 None (-1) 0 0 true true ∅ ∅)
    (Timer.MkTimerManager ∅ [] 0) (MkIOManager [] 0) FdManager.no_contexts ∅ (MkTicking ∅ 1000 1 0).
Definition serving_process q : Process (body ticking) ticking := with_ctxs (news 0 32) 0 (idle_process q).

Lemma unarmed_wf {C} (T : Timer.TimerManager C) :
  Timer.store T = ∅ → Timer.m_timers T = [] → TimerFacts.wf T.
Proof.
  intros Hs Hm. split; rewrite Hm; [constructor|]. intros l. rewrite Hs.
  split; [by intros ?%not_elem_of_nil|]. by intros (x & Hx & _).
Qed.
Lemma serving_events q : io_ok (entered 1 (serving_process q)) ∧
  ∀ d ev, is_event ev → waiting (entered 1 (serving_process q)) d ev = None.
Proof.
  assert (Hio : io_ok (idle_process q)).
  { split; [split|].
    - intros i c H. by rewrite (lookup_nil i : ctxs (idle_process q) !! i = None) in H.
    - done.
    - intros d _. done. }
  destruct (grown_ok (idle_process q) 32 Hio) as [H1 H2]. split.
  - by apply (io_ok_events (serving_process q)).
  - intros d ev Hev. exact (H2 d ev Hev).
Qed.
Lemma serving_can_serve q : Forall (λ it, ∃ c, it = task c ∧ code_ok c) q → can_serve 1 (serving_process q).
Proof.
  intros Hq. destruct (serving_events q) as [Hio Hw]. rewrite Forall_forall in Hq. split; try done.
  - split; try done.
    + by apply unarmed_wf.
    + intros d ev w Hd Hev H. by rewrite Hw in H.
    + intros it Hit. destruct (Hq it Hit) as (c & -> & Hc). exact Hc.
  - intros a. unfold wakes.
    assert (queue_wakes a (serving_process q) = 0%nat) as ->.
    { apply sum_zero. intros it Hit. by destruct (Hq it Hit) as (c & -> & _). }
    assert (event_wakes a (serving_process q) = 0%nat) as ->.
    { change (event_wakes a (entered 1 (serving_process q)) = 0%nat). apply sum_zero. intros d _.
      by rewrite !Hw by ((by left) || (by right)). }
    done.
Qed.
Lemma napper_ok : code_ok napper.
Proof.
  split; [by intros k|]. split; [unfold FdManager.is_fd; lia|]. split; [by left|]. by split.
Qed.
Lemma clients_ok : Forall (λ it, ∃ c, it = task c ∧ code_ok c) [task napper; task polite].
Proof. repeat constructor; eexists; (split; [reflexivity|]); [apply napper_ok|done]. Qed.

Definition value_of {A} (d : A) (r : outcome (A * Process (body ticking) ticking)) : A :=
  match r with Ok (a, _) => a | Fault _ => d end.
Definition state_after {A} (r : outcome (A * Process (body ticking) ticking)) : Process (body ticking) ticking :=
  match r with Ok (_, s) => s | Fault _ => idle_process [] end.

Definition clients : Process (body ticking) ticking := serving_process [task napper; task polite].
Definition set_up : Process (body ticking) ticking := state_after (run_setup 1 clients).
Definition envs (n : nat) : list nat := repeat 5%nat n.
Definition after_rounds (n : nat) : Process (body ticking) ticking := state_after (rounds (envs n) 1 2 None set_up).
Definition cb_after (n : nat) : option Z := value_of None (rounds (envs n) 1 2 None set_up).

(** The fiber of [napper] is the third; it waits in its timer, then on the queue. *)
Lemma one_wakeup_each_witness :
  map (λ n, (waiting_fiber 2 (p_fibers (after_rounds n)) 3, wakes 3 (after_rounds n))) [0; 2; 4; 6]%nat =
    [(false, 0%nat); (true, 1%nat); (true, 1%nat); (false, 0%nat)] ∧
  ∀ a, wakes a (after_rounds 4) = if waiting_fiber 2 (p_fibers (after_rounds 4)) a then 1%nat else 0%nat.
Proof.
  split; [by vm_compute|].
  apply (one_wakeup_each 1 clients 2 set_up (envs 4) (cb_after 4) (after_rounds 4)).
  - apply serving_can_serve, clients_ok.
  - by vm_compute.
  - by vm_compute.
Defined.

Definition after_run : Process (body ticking) ticking := state_after (run exec (envs 12) 1 clients).
Lemma run_leaves_nobody_waiting_witness :
  run exec (envs 12) 1 clients = Ok (tt, after_run) ∧
  (∀ a x, heap (p_fibers after_run) !! a = Some x → m_state x ≠ HOLD ∧ m_state x ≠ READY) ∧
  Scheduler.m_fibers (p_sched after_run) = [] ∧ Timer.m_timers (p_timers after_run) = [] ∧
  ∀ d ev, is_event ev → waiting after_run d ev = None.
Proof.
  assert (H : run exec (envs 12) 1 clients = Ok (tt, after_run)) by by vm_compute.
  split; [exact H|]. apply (run_leaves_nobody_waiting (envs 12) 1 clients tt after_run).
  - apply serving_can_serve, clients_ok.
  - by vm_compute.
  - exact H.
  - by vm_compute.
Defined.

(** The first round parks the sleeper at time 1000; two more leave it where it is. *)
Lemma sleeper_waits_for_deadline_witness :
  time (kernel (after_rounds 3)) = 1000 ∧
  ∃ a x now, heap (p_fibers (after_rounds 1)) !! a = Some x ∧ m_state x = HOLD ∧
    m_ctx x = Some (PBody MainFunc a (Slept (CAddEvent 3 READ CReturn (λ _, CReturn)))) ∧
    time (kernel set_up) <= now <= time (kernel (after_rounds 1)) ∧
    (time (kernel (after_rounds 3)) < u64 (now + u32 (1 * 1000)) →
       heap (p_fibers (after_rounds 3)) !! a = Some x).
Proof.
  split; [by vm_compute|].
  apply (sleeper_waits_for_deadline 5 (envs 2) 1 2 None (cb_after 1) (cb_after 3) false 1 nothing
           (CAddEvent 3 READ CReturn (λ _, CReturn)) [task polite] set_up (after_rounds 1) (after_rounds 3)).
  - destruct (setup_served 1 clients 2 set_up) as [Hs _]; [apply serving_can_serve, clients_ok|by vm_compute|exact Hs].
  - unfold hooked. vm_compute. done.
  - by vm_compute.
  - by vm_compute.
  - by vm_compute.
Defined.
(** One callback sleeps, hands a second one to the scheduler, which sleeps too, and sets a
    timer. *)
Definition sleepy : code ticking :=
  CSleep 1 nothing (CSchedule (CUsleep 5000 nothing CReturn) 1 (CAddTimer 20 CReturn false CReturn)).
Lemma sleepers_finish_witness :
  ∃ envs s', run exec envs 1 (serving_process [task sleepy]) = Ok (tt, s') ∧
    (∀ a x, heap (p_fibers s') !! a = Some x → m_state x ≠ HOLD ∧ m_state x ≠ READY) ∧
    Scheduler.m_fibers (p_sched s') = [] ∧ Timer.m_timers (p_timers s') = [].
Proof.
  apply (sleepers_finish 1 (serving_process [task sleepy])).
  - apply serving_can_serve. repeat constructor. exists sleepy. split; [done|]. by repeat split.
  - split; try done. repeat constructor; by right.
  - by vm_compute.
Defined.
End SystemSim.
