(* ===== verification/SystemPool.v ===== *)
(** * Several threads of an IO manager

    The bodies of [Systems] use the scheduler through [schedule] alone, so that the theorems
    of [PoolFacts] hold of the threads of an IO manager. *)
From stdpp Require Import base gmap list strings.
From Stdlib Require Import ZArith Lia.
From S2P Require Import Prelude StdSet Timers TimerFacts Fibers FiberFacts Schedulers SchedulerFacts Workers PoolFacts.
From S2P Require Import FdManagers IOManagers IOManagerFacts Hooks HookFacts IdleFacts Systems Wakeups SystemSim.
Open Scope Z_scope.

Module SystemPool.
Import Fiber FiberFacts Scheduler SchedulerFacts Worker PoolFacts IOManager IOManagerFacts Hook HookFacts IdleFacts System SystemSim.

Section pool.
Context {K : Type} `{!Kernel K} `{!KernelLaws K}.
Local Abbreviation B := (body K).
Local Abbreviation P := (Process (body K) K).
Implicit Types (s : P) (b : body K).
Local Abbreviation quiet m := (PoolFacts.quiet (S := P) m).

(** What leaves the scheduler alone. *)
Lemma quiet_gets {A} (f : P → A) : quiet (gets f).
Proof. apply quiet_same. by intros s a s' [_ ->]%gets_ok. Qed.
Lemma quiet_sys {A} (f : K → A * K) : quiet (sys f).
Proof. apply quiet_same. intros s a s' H. unfold sys in H. destruct (f (kernel s)). by injection H as _ <-. Qed.
Lemma quiet_deref {A} (o : option A) w : quiet (deref o w).
Proof. apply quiet_same. by intros s u s' [_ ->]%deref_ok. Qed.
Lemma quiet_part (f : P → P) : (∀ s, p_sched (f s) = p_sched s) → quiet (modify f).
Proof. intros Hf. apply quiet_same. intros s u s' ->%modify_ok. apply Hf. Qed.
Lemma quiet_on_fds {A} (m : M FdManager.FdManger A) : quiet (on_fds m).
Proof. apply quiet_same. intros s a s' H. unfold on_fds in H. destruct (m (p_fds s)) as [[x d]|]; [|done]. by injection H as _ <-. Qed.
Lemma quiet_get_tm {A} (f : Timer.TimerManager B → A) : quiet (Timer.get_tm f).
Proof. apply quiet_gets. Qed.
Lemma quiet_modify_tm f : quiet (Timer.modify_tm f).
Proof. by apply quiet_part. Qed.
Lemma quiet_update_context (f : FdContext B → FdContext B) i : quiet (update_context f i).
Proof. by apply quiet_part. Qed.
Lemma quiet_set_contexts l : quiet (set_contexts l).
Proof. by apply quiet_part. Qed.
Lemma quiet_add_pending d : quiet (add_pending d).
Proof. by apply quiet_part. Qed.
Lemma quiet_set_cancelled w e : quiet (set_cancelled w e).
Proof. by apply quiet_part. Qed.
Lemma quiet_drop_tinfo w : quiet (drop_tinfo w).
Proof. by apply quiet_part. Qed.
#[local] Hint Resolve quiet_bind quiet_ret quiet_fail quiet_assert quiet_when quiet_gets quiet_sys quiet_deref quiet_on_fds quiet_get_tm quiet_modify_tm quiet_update_context
  quiet_set_contexts quiet_add_pending quiet_set_cancelled quiet_drop_tinfo : quiet.

Lemma quiet_enqueue fc thr : quiet (schedule fc thr).
Proof. apply quiet_schedule. Qed.
Lemma quiet_notify : quiet tickle.
Proof. change (quiet (Scheduler.tickle (S := P))). apply quiet_tickle. Qed.
Lemma quiet_fibers {A} (m : M (Fibers B) A) : quiet (on_fibers m).
Proof. apply quiet_same. by intros s a s' (F & _ & ->)%on_fibers_inv. Qed.
Lemma quiet_of_sched {A} (f : Scheduler B → A) : quiet (get_sched f).
Proof. apply quiet_gets. Qed.
#[local] Hint Resolve quiet_enqueue quiet_notify quiet_fibers quiet_of_sched : quiet.

(** [hush] goes through the operations of a definition. *)
Ltac hush :=
  repeat first
    [ progress cbv zeta | solve [auto with quiet]
    | match goal with
      | |- ∀ _, _ => intro
      | |- PoolFacts.quiet (bind _ _) => apply quiet_bind
      | |- PoolFacts.quiet (match ?x with _ => _ end) => destruct x
      | |- PoolFacts.quiet (when _ _) => apply quiet_when
      end ].

(** *** Timers *)
Lemma quiet_timer_at l : quiet (Timer.timer_at l).
Proof. unfold Timer.timer_at. hush. Qed.
Lemma quiet_update_timer f l : quiet (Timer.update_timer f l).
Proof. unfold Timer.update_timer. hush. Qed.
Lemma quiet_front : quiet (Timer.on_timer_insert_at_front (S := P)).
Proof. apply quiet_notify. Qed.
#[local] Hint Resolve quiet_timer_at quiet_update_timer quiet_front : quiet.
Lemma quiet_add_locked l : quiet (Timer.add_timer_locked l).
Proof. unfold Timer.add_timer_locked. hush. Qed.
#[local] Hint Resolve quiet_add_locked : quiet.
Lemma quiet_add_timer a now ms cb recurring : quiet (Timer.add_timer a now ms cb recurring).
Proof. unfold Timer.add_timer. hush. Qed.
Lemma quiet_timer_cancel l : quiet (Timer.cancel l).
Proof. unfold Timer.cancel. hush. Qed.
Lemma quiet_next_timeout now : quiet (Timer.get_next_timeout now).
Proof. unfold Timer.get_next_timeout. hush. Qed.
Lemma quiet_push now E : ∀ cbs, quiet (Timer.push_expired now E cbs).
Proof. induction E as [|l E IH]; intros cbs; simpl; hush. Qed.
#[local] Hint Resolve quiet_add_timer quiet_timer_cancel quiet_next_timeout quiet_push : quiet.
Lemma quiet_expired now probe cbs : quiet (Timer.list_expired_cbs now probe cbs).
Proof. unfold Timer.list_expired_cbs, Timer.list_expired_empty, Timer.list_expired_write. hush. Qed.
#[local] Hint Resolve quiet_expired : quiet.

(** *** Events *)
Lemma quiet_grow fuel fd : quiet (grow fuel fd).
Proof.
  induction fuel as [|fuel IH]; [apply quiet_fail|]. rewrite grow_S.
  unfold context_resize, contexts_size, get_contexts. hush.
Qed.
Lemma quiet_getContext ev (x : FdContext B) : quiet (getContext ev x).
Proof. unfold getContext. hush. Qed.
Lemma quiet_context_at i : quiet (context_at i).
Proof. unfold context_at, get_contexts. hush. Qed.
#[local] Hint Resolve quiet_grow quiet_getContext quiet_context_at : quiet.
Lemma quiet_trigger ev i : quiet (triggerEvent ev i).
Proof. unfold triggerEvent. hush. Qed.
#[local] Hint Resolve quiet_trigger : quiet.
Lemma quiet_trigger_if mask ev i : quiet (trigger_if mask ev i).
Proof. unfold trigger_if. hush. Qed.
#[local] Hint Resolve quiet_trigger_if : quiet.
Lemma quiet_add_event t fd ev o : quiet (add_event t fd ev o).
Proof. unfold add_event, contexts_size. hush. Qed.
Lemma quiet_cancel_event fd ev : quiet (cancel_event fd ev).
Proof. unfold cancel_event, contexts_size. hush. Qed.
Lemma quiet_cancel_all fd : quiet (cancel_all fd).
Proof. unfold cancel_all, contexts_size. hush. Qed.
#[local] Hint Resolve quiet_add_event quiet_cancel_event quiet_cancel_all : quiet.

(** *** The idle function *)
Lemma quiet_range items : quiet (schedule_range items).
Proof.
  unfold schedule_range. apply quiet_bind; [|hush]. generalize false. induction items as [|it items IH]; intros n; simpl; [hush|].
  apply quiet_bind; [|intros; apply IH]. unfold schedule_no_lock. apply quiet_bind; [hush|]. intros b.
  apply quiet_bind; [|hush]. apply quiet_modify. intros c. do 3 (split; [done|]). by eexists.
Qed.
Lemma quiet_read_timeout : quiet read_timeout.
Proof. unfold read_timeout. hush. Qed.
#[local] Hint Resolve quiet_read_timeout : quiet.
Lemma quiet_stopping_timeout : quiet stopping_timeout.
Proof. unfold stopping_timeout, read_pending, read_base. hush. Qed.
Lemma quiet_wait_loop fuel : ∀ n, quiet (wait_loop fuel n).
Proof. induction fuel as [|fuel IH]; intros n; simpl; hush. Qed.
Lemma quiet_drain fuel : quiet (drain_pipe fuel).
Proof. induction fuel as [|fuel IH]; simpl; hush. Qed.
#[local] Hint Resolve quiet_range quiet_stopping_timeout quiet_wait_loop quiet_drain : quiet.
Lemma quiet_deal_events fuel evs : quiet (deal_events fuel evs).
Proof. induction evs as [|ev evs IH]; simpl; [hush|]. unfold deal_event. hush. Qed.
#[local] Hint Resolve quiet_deal_events : quiet.
Lemma quiet_idle_round fuel next : quiet (idle_round fuel next).
Proof. unfold idle_round, schedule_timers. hush. Qed.
#[local] Hint Resolve quiet_idle_round : quiet.
Lemma quiet_idle fuel : quiet (idle fuel).
Proof. unfold idle. hush. Qed.

(** *** The hooked functions *)
Lemma quiet_this_iom t : quiet (this_iom t).
Proof. unfold this_iom, GetThis_io. hush. Qed.
Lemma quiet_new_tinfo : quiet new_tinfo.
Proof. unfold new_tinfo. hush. by apply quiet_part. Qed.
Lemma quiet_call_again fuel (f : libc K) : quiet (call_again fuel f).
Proof. induction fuel as [|fuel IH]; simpl; hush. Qed.
Lemma quiet_cancel_if timer : quiet (cancel_if timer).
Proof. unfold cancel_if. hush. Qed.
Lemma quiet_is_hook_enable t : quiet (is_hook_enable t).
Proof. apply quiet_get. Qed.
Lemma quiet_condition_timer ms w b : quiet (make_condition_timer ms w b).
Proof. unfold make_condition_timer, Timer.add_condition_timer. hush. Qed.
#[local] Hint Resolve quiet_idle quiet_this_iom quiet_new_tinfo quiet_call_again quiet_cancel_if quiet_is_hook_enable
  quiet_condition_timer : quiet.
Lemma quiet_do_io_try fuel t fd (f : libc K) w tmo : quiet (do_io_try fuel t fd f w tmo).
Proof. unfold do_io_try. hush. Qed.
#[local] Hint Resolve quiet_do_io_try : quiet.
Lemma quiet_do_io fuel t fd (f : libc K) so : quiet (do_io fuel t fd f so).
Proof. unfold do_io. hush. Qed.
Lemma quiet_sleep_for t ms (f : libc K) : quiet (sleep_for t ms f).
Proof. unfold sleep_for, make_timer. hush. Qed.
Lemma quiet_connect_finish (f : libc K) : quiet (connect_finish f).
Proof. unfold connect_finish. hush. Qed.
Lemma quiet_finish accepts r : quiet (finish accepts r).
Proof. unfold finish, accept_finish. hush. Qed.
#[local] Hint Resolve quiet_do_io quiet_sleep_for quiet_connect_finish quiet_finish : quiet.
Lemma quiet_connect t fd ms (f so : libc K) : quiet (connect_with_timeout t fd f so ms).
Proof. unfold connect_with_timeout. hush. Qed.
#[local] Hint Resolve quiet_connect : quiet.

Lemma quiet_code fuel t (x : code K) : quiet (exec_code fuel t x).
Proof.
  induction x; simpl; unfold sleep, usleep, nanosleep, ioctl, getsockopt, io_timeout, socket, close, setsockopt, fcntl, socket_context, accept_finish; hush.
Qed.
#[local] Hint Resolve quiet_code : quiet.
(** Every body uses the scheduler through [schedule] alone. *)
Lemma quiet_exec fuel t b : quiet (exec fuel t b).
Proof.
  unfold exec. revert b. fix IH 1. intros b.
  destruct b as [| |x|k|acc fd f w tmo timer k|w timer so k|cl|g|w fd ev]; simpl;
    unfold sleep_resumed, do_io_resumed, connect_resumed, cancelled_of, wake_fires, timeout_fires;
    try solve [clear IH; hush].
  destruct cl as [b|w [b|]]; [apply IH| |clear IH; hush]. apply quiet_bind; [clear IH; hush|].
  intros h. destruct (bool_decide _); [apply IH|clear IH; hush].
Qed.

End pool.

End SystemPool.
