(* ===== verification/StoppingReads.v ===== *)
(** * The reads of [IOManager::stopping] among other threads

    In [Workers] what a body does between two switches is one step.  For the idle function
    that is too coarse: [IOManager::stopping] reads the timers, the pending events and the
    base class one after the other under no common lock.  Here a thread that has entered
    its idle function asks in steps of its own, and the other threads of the pool act in
    between. *)
From stdpp Require Import base gmap list strings.
From Stdlib Require Import ZArith Lia.
From S2P Require Import Prelude StdSet Timers TimerFacts Fibers FiberFacts Schedulers SchedulerFacts Workers PoolFacts.
From S2P Require Import FdManagers IOManagers IOManagerFacts Hooks HookFacts IdleFacts Systems SystemSim SystemPool.
Open Scope Z_scope.

Module StoppingReads.
Import Fiber FiberFacts Scheduler SchedulerFacts Worker PoolFacts IOManager IOManagerFacts HookFacts IdleFacts System SystemPool SystemSim.

(** ** The idle function in parts *)
Section model.
Context {K : Type} `{!Kernel K}.
Local Abbreviation B := (body K).
Local Abbreviation P := (Process (body K) K).

(** How far a thread is in the test at the top of [idle]: nothing read, no timer seen, no
    pending event seen either; or the answer is no, with the timeout that was stored. *)
Inductive progress := Begin | SawNoTimer | SawNoEvent | Stays (next_timeout : Z).

(** The next read, or, once the answer is there, the rest of [idle] to its switch. *)
Definition ask (e : nat) (q : progress) : M P (progress + segment B) :=
  match q with
  | Begin =>
      let* timeout := read_timeout in
      ret (inl (if timeout =? UINT64_MAX then SawNoTimer else Stays timeout))
  | SawNoTimer =>
      let* n := read_pending in
      ret (inl (if n =? 0 then SawNoEvent else Stays UINT64_MAX))
  | SawNoEvent =>
      let* b := read_base in
      ret (if b then inr Returned else inl (Stays UINT64_MAX))
  | Stays next_timeout => let* seg := idle_round e next_timeout in ret (inr seg)
  end.
Fixpoint asks (n e : nat) (q : progress) : M P (segment B) :=
  match n with
  | O => fail StillRunning
  | Datatypes.S n' =>
      let* r := ask e q in
      match r with inl q' => asks n' e q' | inr seg => ret seg end
  end.

(** Thread [t] is at the point [p] of a fiber, about to run the idle function: how the
    fiber was entered, and which it is. *)
Definition begin_idle (t : Z) (p : point B) : M P (option (entry * Z)) :=
  match p with
  | PEntry en =>
      let* cur := on_fibers (GetThis t) in
      let* x := on_fibers (fiber_at cur) in
      ret (match m_cb x with Some Idle => Some (en, cur) | _ => None end)
  | PBody en cur Idle => ret (Some (en, cur))
  | _ => ret None
  end.

(** ** The pool with threads that are asking *)
Record poll := MkPoll { poll_entry : entry; poll_fiber : Z; saw : progress }.
Definition fine : Type := config (B := B) (S := P) * gmap Z poll.

(** A move of the pool by a thread that is not asking or from outside; a thread enters its
    idle function; a thread makes its next read. *)
Inductive fmove := Pool (m : move (B := B) (Env := nat)) | Enter (t : Z) | Ask (e : nat) (t : Z).

Definition mover (m : move (B := B) (Env := nat)) : option Z :=
  match m with Turn _ t => Some t | _ => None end.

Definition ftry (m : fmove) (x : fine) : option fine :=
  let '((pool, s), A) := x in
  match m with
  | Pool m =>
      if decide (is_Some (mover m ≫= λ t, A !! t)) then None
      else (λ c, (c, A)) <$> try_move exec m (pool, s)
  | Enter t =>
      match pool !! t, A !! t with
      | Some w, None =>
          match stands w with
          | Arrived d p =>
              match begin_idle t p s with
              | Ok (Some (en, cur), s') => Some ((pool, s'), <[t := MkPoll en cur Begin]> A)
              | _ => None
              end
          | _ => None
          end
      | _, _ => None
      end
  | Ask e t =>
      match pool !! t, A !! t with
      | Some w, Some a =>
          match stands w with
          | Arrived d _ =>
              match ask e (saw a) s with
              | Ok (inl q, s') => Some ((pool, s'), <[t := MkPoll (poll_entry a) (poll_fiber a) q]> A)
              | Ok (inr seg, s') =>
                  Some ((<[t := go (Gave d (poll_entry a) (poll_fiber a) seg) w]> pool, s'), base.delete t A)
              | Fault _ => None
              end
          | _ => None
          end
      | _, _ => None
      end
  end.
Fixpoint fplay (ms : list fmove) (x : fine) : option fine :=
  match ms with
  | [] => Some x
  | m :: ms' => match ftry m x with Some x' => fplay ms' x' | None => None end
  end.
Definition reaches : fine → fine → Prop := rtc (λ x x', ∃ m, ftry m x = Some x').
End model.

Section facts.
Context {K : Type} `{!Kernel K} `{!KernelLaws K}.
Local Abbreviation B := (body K).
Local Abbreviation P := (Process (body K) K).
Implicit Types (s : P) (x : fine (K := K)).

(** The parts make up the function, and what a thread runs at that place. *)
Theorem idle_in_parts e s : asks 4 e Begin s = idle e s.
Proof.
  assert (Hrest : ∀ n tmo s', asks (Datatypes.S n) e (Stays tmo) s' = idle_round e tmo s').
  { intros n tmo s'. simpl. unfold bind. by destruct (idle_round e tmo s') as [[seg s2]|]. }
  unfold idle, stopping_timeout. change (asks 4 e Begin s) with
    ((let* r := ask e Begin in match r with inl q' => asks 3 e q' | inr seg => ret seg end) s).
  unfold ask. rewrite !bind_assoc. apply bind_cong. intros tmo s1 _. step_in.
  destruct (tmo =? UINT64_MAX) eqn:E; [apply Z.eqb_eq in E as ->|by rewrite Hrest].
  change (asks 3 e SawNoTimer s1) with
    ((let* r := ask e SawNoTimer in match r with inl q' => asks 2 e q' | inr seg => ret seg end) s1).
  unfold ask, read_pending. rewrite !bind_assoc. step_in. symmetry. step_in. symmetry. step_in.
  destruct (_ =? 0); [|by rewrite Hrest].
  change (asks 2 e SawNoEvent s1) with
    ((let* r := ask e SawNoEvent in match r with inl q' => asks 1 e q' | inr seg => ret seg end) s1).
  unfold ask, read_base. rewrite !bind_assoc. step_in. symmetry. step_in. symmetry. step_in.
  destruct (base_stopping _); [done|by rewrite Hrest].
Qed.
Theorem begin_idle_runs e t p s en cur s1 :
  begin_idle t p s = Ok (Some (en, cur), s1) →
  run_segment exec e t p s = (let* seg := idle e in ret (en, cur, seg)) s1.
Proof.
  unfold begin_idle, run_segment. destruct p as [en0|en0 cur0 b|en0 cur0|a|]; try (by intros [? _]%ret_ok).
  - intros H. apply bind_ok in H as (c & s2 & H1 & H). rewrite (bind_step _ _ _ _ _ H1).
    apply bind_ok in H as (y & s3 & H2 & H). rewrite (bind_step _ _ _ _ _ H2).
    apply ret_ok in H as [H ->]. destruct (m_cb y) as [[]|]; try done. by injection H as <- <-.
  - destruct b; try (by intros [? _]%ret_ok). intros [[= <- <-] ->]%ret_ok. done.
Qed.


(** *** Every order of moves *)
Definition counted_in x : Prop := counts_ok x.1.




End facts.

(** ** Two threads that leave a timer behind

    Thread 1 takes a function that schedules another; before it raises the count of active
    threads, thread 2 asks [stopping], ends its idle fiber and is back at the top of its
    loop.  There it takes the second function, which sets a timer, and before it sets it
    thread 1 reads that there is none. *)
Definition setter : code ticking := CAddTimer 20 CReturn false CReturn.
Definition two_threads : fine (K := ticking) :=
  (({[1 := MkWorker 0 None Starting]} ∪ {[2 := MkWorker 0 None Starting]},
    serving_process [task (CSchedule setter (-1) CReturn)]), ∅).
Definition turns (n : nat) (t : Z) : list (fmove (K := ticking)) := repeat (Pool (Turn 5%nat t)) n.
Definition asking (n : nat) (t : Z) : list (fmove (K := ticking)) := repeat (Ask 5%nat t) n.

Definition second_leaves_idle : list fmove := turns 3 1 ++ turns 6 2 ++ Enter 2 :: asking 3 2 ++ turns 5 2.
Definition first_sees_no_timer : list fmove := turns 9 1 ++ turns 5 2 ++ turns 5 1 ++ Enter 1 :: asking 1 1.
Definition timer_is_set : list fmove := turns 9 2 ++ asking 1 1.
Definition both_leave : list fmove := asking 1 1 ++ turns 8 1.
Definition reached (ms : list fmove) : fine := default two_threads (fplay ms two_threads).

Definition armed_timers (x : fine (K := ticking)) : list Z := Timer.m_timers (p_timers x.1.2).
Definition all_left (x : fine (K := ticking)) : bool :=
  forallb (λ p, match stands p.2 with Left => true | _ => false end) (map_to_list x.1.1).

Lemma fplay_reaches {K} `{!Kernel K} (ms : list fmove) : ∀ x x' : fine (K := K), fplay ms x = Some x' → reaches x x'.
Proof.
  induction ms as [|m ms IH]; intros x x' H; simpl in H; [by injection H as <-|].
  destruct (ftry m x) as [x1|] eqn:E; [|done]. eapply rtc_l; [by exists m|by apply IH].
Qed.

(** The threads that work off a queue can all leave while a timer that was set by a task is
    armed: nothing is left to run its callback. *)
Theorem all_leave_with_timer_armed :
  ∃ x x', reaches two_threads x ∧ reaches x x' ∧ all_left x' = true ∧ armed_timers x' = [1] ∧
    (* before thread 1 returns from idle: the timer is armed and its answer is still yes *)
    armed_timers x = [1] ∧
    ∃ a, x.2 !! 1 = Some a ∧ ∃ s', ask 5 (saw a) x.1.2 = Ok (inr Returned, s').
Proof.
  set (ms := second_leaves_idle ++ first_sees_no_timer ++ timer_is_set).
  assert (H1 : fplay ms two_threads = Some (reached ms)) by (vm_compute; reflexivity).
  assert (H2 : fplay both_leave (reached ms) = Some (default two_threads (fplay both_leave (reached ms))))
    by (vm_compute; reflexivity).
  exists (reached ms), (default two_threads (fplay both_leave (reached ms))).
  split; [by eapply fplay_reaches|]. split; [by eapply fplay_reaches|].
  split; [vm_compute; reflexivity|]. split; [vm_compute; reflexivity|]. split; [vm_compute; reflexivity|].
  eexists. split; [vm_compute; reflexivity|]. eexists. vm_compute. reflexivity.
Qed.

End StoppingReads.
