(* ===== verification/UnlockedEvents.v ===== *)
(** * Removing events without their lock

    [del_event] and [cancel_event] declare a copy of the context's mutex where they mean to
    lock it, so that other threads act between their parts.  The parts, that they make up
    the whole, and what happens when another thread comes in between. *)
From stdpp Require Import base gmap list strings.
From Stdlib Require Import ZArith Lia.
From S2P Require Import Prelude Fibers FiberFacts Schedulers SchedulerFacts FdManagers IOManagers.
From S2P Require Import IOManagerFacts IOManagerSim Hooks HookFacts IdleFacts.
Open Scope Z_scope.

Module UnlockedEvents.
Import Fiber FiberFacts Scheduler SchedulerFacts IOManager IOManagerFacts HookFacts IdleFacts.

Section parts.
Context {B K : Type} `{!Kernel K} `{!Bodies B}.
Local Abbreviation P := (Process B K).

(** Up to the test: the events that will be left, or none if the result is false. *)
Definition look (fd event : Z) : M P (option Z) :=
  let* size := contexts_size in
  if size <=? u64 fd then ret None
  else
    let* c := context_at (u64 fd) in
    ret (if Z.land (m_events c) event =? 0 then None else Some (Z.land (m_events c) (Z.lnot event))).

(** The call of [epoll_ctl], and whether it succeeds. *)
Definition tell (fd new_event : Z) : M P bool :=
  let* rt := sys (epoll_ctl (if new_event =? 0 then EPOLL_CTL_DEL else EPOLL_CTL_MOD) fd
                    (Z.lor new_event EPOLLET)) in
  ret (rt =? 0).

(** The rest of [del_event] and of [cancel_event]. *)
Definition forget (fd event new_event : Z) : M P unit :=
  add_pending (-1) ;;;
  update_context (set_events new_event) (u64 fd) ;;;
  let* c := context_at (u64 fd) in
  getContext event c ;;;
  resetContext event (u64 fd).
Definition wake_waiter (fd event : Z) : M P unit :=
  triggerEvent event (u64 fd) ;;; add_pending (-1).

Definition in_parts (fd event : Z) (rest : Z → M P unit) : M P bool :=
  let* stay := look fd event in
  match stay with
  | None => ret false
  | Some new_event =>
      let* told := tell fd new_event in
      if told then rest new_event ;;; ret true else ret false
  end.

Lemma getContext_cases ev (c c' : FdContext B) (s : P) {A} (m : M P A) :
  (getContext ev c ;;; m) s = (getContext ev c' ;;; m) s.
Proof. unfold getContext. by destruct (ev =? READ), (ev =? WRITE). Qed.

Lemma context_stays i f c (s s0 s1 s2 s3 : P) u u' :
  context_at i s0 = Ok (c, s) → p_iom s1 = p_iom s → add_pending (-1) s1 = Ok (u, s2) →
  update_context f i s2 = Ok (u', s3) → ∃ c', context_at i s3 = Ok (c', s3).
Proof.
  unfold context_at, get_contexts, add_pending, update_context, modify_iom. intros H H1 H2 H3. inv_ok.
  exists (f c). unfold bind, gets, deref. simpl. rewrite H1, list_lookup_alter_eq.
  match goal with H : _ !! _ = Some c |- _ => by rewrite H end.
Qed.

(** The parts make up the functions. *)
Theorem parts_make_del_event fd ev s : in_parts fd ev (forget fd ev) s = del_event fd ev s.
Proof.
  unfold in_parts, look, tell, del_event. align. destruct (_ <=? _); [done|]. align.
  destruct (Z.land _ _ =? 0); [done|]. align. destruct (a1 =? 0); [|done]. simpl. unfold forget. align.
  destruct (context_stays (u64 fd) (set_events (Z.land (m_events a0) (Z.lnot ev))) a0 s0 s1 s2 s3 s4 a2 a3) as [c Hc];
    [done|by unfold sys in H1; destruct (epoll_ctl _ _ _ _); injection H1 as _ <-|done..|].
  rewrite (bind_step _ _ _ _ _ Hc), bind_assoc. apply getContext_cases.
Qed.
Theorem parts_make_cancel_event fd ev s : in_parts fd ev (λ _, wake_waiter fd ev) s = cancel_event fd ev s.
Proof.
  unfold in_parts, look, tell, cancel_event. align. destruct (_ <=? _); [done|]. align.
  destruct (Z.land _ _ =? 0); [done|]. align. destruct (a1 =? 0); [|done]. simpl. unfold wake_waiter. by align.
Qed.
End parts.

(** ** Another thread in between *)
Section races.
Context {B K : Type} `{!Kernel K} `{!KernelLaws K} `{!KernelAgrees K} `{!Bodies B}.
Local Abbreviation P := (Process B K).
Implicit Types (s : P) (c : FdContext B).

Lemma look_ok d ev c s : desc d → ctxs s !! Z.to_nat d = Some c → has (m_events c) ev = true →
  look d ev s = Ok (Some (without (m_events c) ev), s).
Proof.
  intros Hd Hc Hhas. unfold look. step_in. fold (ctxs s). rewrite u64_desc by done.
  rewrite (proj2 (Z.leb_gt _ _)) by (apply lookup_lt_Some in Hc; unfold desc in Hd; lia).
  erewrite bind_step by (by apply context_at_ok).
  unfold has in Hhas. apply negb_true_iff in Hhas. by rewrite Hhas.
Qed.

Lemma ctl_done d n (k : K) : is_Some (interest k !! d) →
  ∃ k', epoll_ctl (if n =? 0 then EPOLL_CTL_DEL else EPOLL_CTL_MOD) d (Z.lor EPOLLET n) k = (0, k') ∧
    interest k' = asked d n (interest k).
Proof.
  intros Hi. destruct (epoll_ctl _ d _ k) as [rt k'] eqn:E. exists k'.
  assert (rt = 0) as ->.
  { pose proof (ctl_agrees (if n =? 0 then EPOLL_CTL_DEL else EPOLL_CTL_MOD) d (Z.lor EPOLLET n) k) as H.
    rewrite E in H. apply H; [destruct (n =? 0); [by right|by left]|done]. }
  split; [done|]. by apply (ctl_shrink d n k).
Qed.

Lemma tell_ok d n s : is_Some (interest (kernel s) !! d) →
  ∃ k, tell d n s = Ok (true, with_kernel k s) ∧ interest k = asked d n (interest (kernel s)).
Proof.
  intros Hi. destruct (ctl_done d n (kernel s) Hi) as (k & E & Hk). exists k. split; [|done].
  unfold tell. rewrite (Z.lor_comm n). by rewrite (bind_step _ _ _ _ _ (sys_ok _ _ _ _ E)).
Qed.

Lemma watched d c s : io_ok s → desc d → ctxs s !! Z.to_nat d = Some c → m_events c ≠ 0 →
  is_Some (interest (kernel s) !! d).
Proof.
  intros [_ Hm] Hd Hc Hne. rewrite (Hm d) by (unfold desc in Hd; lia). rewrite Hc. simpl.
  rewrite (proj2 (Z.eqb_neq _ _) Hne). by eexists.
Qed.

(** The rest of [cancel_event] is what the idle loop does for a reported event. *)
Lemma wake_waiter_eq d ev s : desc d → is_event ev → wake_waiter d ev s = trigger_if ev ev (Z.of_nat (Z.to_nat d)) s.
Proof.
  intros Hd Hev. unfold wake_waiter, trigger_if. rewrite u64_desc, Z2Nat.id by (done || (unfold desc in Hd; lia)).
  by destruct Hev as [->| ->].
Qed.

(** C13: a cancellation that runs while the idle loop deals with the same event can stop
    the process.  The cancelling thread has tested the event and told the kernel, without
    holding the lock the idle loop takes; the idle loop, to which the event alone was
    reported, finds it still registered.  When both events of the descriptor are
    registered its call of [epoll_ctl] succeeds again: it wakes the waiter, and then the
    assertion of [triggerEvent] fails in the cancelling thread.  When the event is the only
    one, the canceller has already removed the descriptor: the idle loop's call is
    refused, it wakes nobody, and the canceller wakes the waiter and finishes. *)
Theorem unlocked_cancel_aborts fuel d ev reported c s :
  io_ok s → desc d → is_event ev → ctxs s !! Z.to_nat d = Some c →
  m_events c = Z.lor READ WRITE ∨ m_events c = ev → real_events reported (m_events c) = ev →
  let woken s' := Scheduler.m_fibers (p_sched s') =
    Scheduler.m_fibers (p_sched s) ++ [MkTask (waiter_of (slot ev c)) (-1)] in
  ∃ n s1 s2, look d ev s = Ok (Some n, s) ∧ tell d n s = Ok (true, s1) ∧
    deal_event fuel (MkEvent (Context d) reported) s1 = Ok (tt, s2) ∧
    if m_events c =? ev then
      Scheduler.m_fibers (p_sched s2) = Scheduler.m_fibers (p_sched s) ∧
      ∃ s3, wake_waiter d ev s2 = Ok (tt, s3) ∧ woken s3
    else woken s2 ∧ wake_waiter d ev s2 = Fault (AssertFailed "m_events & event").
Proof.
  intros Hok Hd Hev Hc Hmask Hreal woken. pose proof (io_ctx _ (proj1 Hok) _ _ Hc) as Hcok.
  assert (Hhas : has (m_events c) ev = true) by (destruct Hmask as [->| ->]; by destruct Hev as [->| ->]).
  assert (Hne0 : m_events c ≠ 0) by (intros E; by rewrite E in Hhas).
  assert (Hi : Z.of_nat (Z.to_nat d) = d) by (unfold desc in Hd; lia).
  destruct (tell_ok d (without (m_events c) ev) s) as (k & Htell & Hk); [by eapply watched|].
  set (s1 := with_kernel k s).
  set (op := if without (m_events c) ev =? 0 then EPOLL_CTL_DEL else EPOLL_CTL_MOD).
  destruct (epoll_ctl op d (Z.lor EPOLLET (without (m_events c) ev)) k) as [rt k2] eqn:E.
  assert (Hdeal : deal_event fuel (MkEvent (Context d) reported) s1 =
    (if negb (rt =? 0) then ret tt
     else trigger_if ev READ (Z.of_nat (Z.to_nat d)) ;;; trigger_if ev WRITE (Z.of_nat (Z.to_nat d)))
      (with_kernel k2 s1)).
  { unfold deal_event. simpl. erewrite bind_step by (by apply context_at_ok). rewrite Hreal, Hi.
    rewrite (proj2 (Z.eqb_neq _ NONE)) by (intros E0; unfold has in Hhas; by rewrite E0 in Hhas).
    rewrite (c_fd _ _ Hcok), Hi. erewrite bind_step by (apply (sys_ok _ s1 rt k2); exact E). done. }
  assert (Hlook : look d ev s = Ok (Some (without (m_events c) ev), s)) by (by apply look_ok).
  assert (Hset : mask_ok (m_events c)) by apply Hcok.
  destruct (Z.eqb_spec (m_events c) ev) as [Hone|Hboth].
  - assert (Hno : without (m_events c) ev = 0) by (rewrite Hone; by destruct Hev as [->| ->]).
    assert (Hrt : rt ≠ 0).
    { intros ->. unfold op in E. rewrite Hno in E. apply ctl_del in E as [[y Hy] _].
      rewrite Hk, Hno in Hy. unfold asked in Hy. simpl in Hy. by rewrite lookup_delete_eq in Hy. }
    rewrite (proj2 (Z.eqb_neq _ _) Hrt) in Hdeal.
    exists (without (m_events c) ev), s1, (with_kernel k2 s1). do 3 (split; [done|]). split; [done|].
    destruct (trigger_if_eq ev ev (Z.to_nat d) c (with_kernel k2 s1)) as (s3 & H3 & _ & _ & _ & Hq & _);
      [by destruct Hok as [[] _]|done..|].
    exists s3. rewrite wake_waiter_eq by done. split; [done|]. unfold woken. rewrite Hq. f_equal.
    unfold IOManagerFacts.woken. by destruct Hev as [->| ->].
  - destruct Hmask as [Hm|]; [|done].
    assert (Hn : without (m_events c) ev ≠ 0) by (rewrite Hm; by destruct Hev as [->| ->]).
    assert (rt = 0) as ->.
    { destruct (ctl_done d (without (m_events c) ev) k) as (k' & E' & _).
      - rewrite Hk. unfold asked. rewrite (proj2 (Z.eqb_neq _ _) Hn), lookup_insert_eq. by eexists.
      - unfold op in E. rewrite E' in E. by injection E as <- _. }
    destruct (trigger_both ev (Z.to_nat d) c (with_kernel k2 s1)) as (s2 & H2 & _ & Hc2 & _ & Hq & _);
      [by destruct Hok as [[] _]|done|done|rewrite Hm; by destruct Hev as [->| ->]..|].
    exists (without (m_events c) ev), s1, s2. do 2 (split; [done|]). rewrite Hdeal. split; [exact H2|]. split.
    + unfold woken. rewrite Hq. f_equal. unfold wake, IOManagerFacts.woken. by destruct Hev as [->| ->].
    + unfold wake_waiter, triggerEvent. rewrite u64_desc by done. unfold bind at 1.
      erewrite bind_step by (apply context_at_ok; split; [|done]; rewrite Hc2; apply list_lookup_insert_eq; by eapply lookup_lt_Some).
      unfold clear_mask. rewrite !clear_if_events, Hm. by destruct Hev as [->| ->].
Qed.

(** A descriptor's context without a registered event. *)
Lemma unregistered fuel d e reported c s : desc d → ctxs s !! Z.to_nat d = Some c → m_events c = 0 →
  deal_event fuel (MkEvent (Context d) reported) s = Ok (tt, s) ∧
  cancel_event d e s = Ok (false, s) ∧ cancel_all d s = Ok (false, s).
Proof.
  intros Hd Hc H0.
  assert (Hsize : (Z.of_nat (length (ctxs s)) <=? d) = false).
  { apply Z.leb_gt. apply lookup_lt_Some in Hc. unfold desc in Hd. lia. }
  unfold deal_event, cancel_event, cancel_all. simpl. split; [|split].
  - erewrite bind_step by (by apply context_at_ok). by rewrite H0.
  - step_in. fold (ctxs s). rewrite u64_desc, Hsize by done. erewrite bind_step by (by apply context_at_ok). by rewrite H0.
  - step_in. fold (ctxs s). rewrite u64_desc, Hsize by done. erewrite bind_step by (by apply context_at_ok). by rewrite H0.
Qed.

Lemma forget_ok d ev n c s : desc d → is_event ev → ctxs s !! Z.to_nat d = Some c →
  forget d ev n s = Ok (tt, with_ctxs (<[Z.to_nat d := set_context ev empty_event (set_events n c)]> (ctxs s))
                              (u64 (pending s + -1)) s).
Proof.
  intros Hd Hev Hc. unfold forget. rewrite u64_desc by done. step_in. erewrite bind_step by by apply update_context_ok.
  erewrite bind_step by (apply context_at_ok; split; [by eapply lookup_updated|done]).
  erewrite bind_step by by apply getContext_ok. unfold resetContext.
  erewrite update_context_ok by (by eapply lookup_updated). rewrite ctxs_with, list_insert_insert_eq. done.
Qed.

(** C14: a thread that deletes the one event of a descriptor, while another thread adds the
    other event, can lose the added one: when the deletion computed what stays before the
    addition, it then takes the descriptor out of epoll and clears both events.  The new
    waiter is still in its slot, but no report of epoll and no cancellation will ever
    reach it, and the count of pending events is one too many, so that the manager does
    not count as stopping either. *)
Theorem unlocked_del_loses_waiter t d ev ev' f c s s1 :
  io_ok s → desc d → is_event ev → is_event ev' → ev' ≠ ev → ctxs s !! Z.to_nat d = Some c → m_events c = ev →
  2 <= Z.of_nat (length (ctxs s)) → t ∈ t_scheduler (p_sched s) → may_wait t f s →
  add_event t d ev' f s = Ok (0, s1) →
  ∃ s2 s3 c3, look d ev s = Ok (Some 0, s) ∧ tell d 0 s1 = Ok (true, s2) ∧ forget d ev 0 s2 = Ok (tt, s3) ∧
    ctxs s3 !! Z.to_nat d = Some c3 ∧ waiter_of (slot ev' c3) = new_waiter t f s ∧
    interest (kernel s3) !! d = None ∧ Scheduler.m_fibers (p_sched s3) = Scheduler.m_fibers (p_sched s) ∧
    pending s3 = u64 (total (ctxs s3) + 1) ∧
    ∀ fuel reported e, deal_event fuel (MkEvent (Context d) reported) s3 = Ok (tt, s3) ∧
      cancel_event d e s3 = Ok (false, s3) ∧ cancel_all d s3 = Ok (false, s3).
Proof.
  intros Hok Hd Hev Hev' Hne Hc Hmask H2 Ht Hwait Hadd.
  assert (Hhas : ∀ e, is_event e → has (m_events c) e = (e =? ev)).
  { intros e He. rewrite Hmask. by destruct Hev as [->| ->], He as [->| ->]. }
  assert (Hnone : waiting s d ev' = None).
  { rewrite (waiting_has s d ev' c Hc). apply waiter_None. rewrite Hhas by done. by apply Z.eqb_neq. }
  destruct (add_event_ok t d ev' f s Hok Hd Hev' H2 Ht Hwait Hnone) as (r & s1' & H & Hok1 & (Hs1 & _) & Hres & _).
  rewrite Hadd in H. injection H as <- <-. destruct Hres as [[_ Hw]|[? _]]; [|done].
  assert (Hd0 : 0 <= d) by (unfold desc in Hd; lia).
  pose proof (Hw d ev' Hd0 Hev') as Hw'. rewrite decide_True in Hw' by done.
  pose proof (Hw d ev Hd0 Hev) as Hwe. rewrite decide_False in Hwe by naive_solver.
  rewrite (waiting_has s d ev c Hc) in Hwe. unfold waiter in Hwe. rewrite Hhas, Z.eqb_refl in Hwe by done.
  destruct (ctxs s1 !! Z.to_nat d) as [c1|] eqn:Hc1; [|by unfold waiting in Hw'; rewrite Hc1 in Hw'].
  rewrite (waiting_has s1 d ev' c1 Hc1) in Hw'. rewrite (waiting_has s1 d ev c1 Hc1) in Hwe. unfold waiter in Hw', Hwe.
  destruct (has (m_events c1) ev') eqn:Hh'; [|done]. injection Hw' as Hw'.
  destruct (has (m_events c1) ev) eqn:Hh; [|done]. clear Hwe.
  pose proof (c_mask _ _ (io_ctx _ (proj1 Hok1) _ _ Hc1)) as Hm1.
  assert (H5 : m_events c1 = 5).
  { destruct Hm1 as [E|[E|[E|E]]]; rewrite E in Hh, Hh' |- *; destruct Hev as [->| ->], Hev' as [->| ->]; try done;
      by vm_compute in Hh, Hh'. }
  destruct (tell_ok d 0 s1) as (k & Htell & Hk); [eapply watched; [done..|by rewrite H5]|].
  do 3 eexists. split; [|split; [exact Htell|split; [by apply forget_ok|]]].
  { rewrite look_ok with (c := c); [by rewrite Hmask; destruct Hev as [->| ->]|done|done|]. by rewrite Hhas, Z.eqb_refl. }
  set (c3 := set_context ev empty_event (set_events 0 c1)). set (s3 := with_ctxs _ _ _).
  assert (Hc3 : ctxs s3 !! Z.to_nat d = Some c3).
  { unfold s3. rewrite ctxs_with. apply list_lookup_insert_eq. by eapply lookup_lt_Some. }
  assert (Hm3 : m_events c3 = 0) by (unfold c3; by destruct (set_context_keeps ev empty_event (set_events 0 c1)) as [_ ->]).
  split; [exact Hc3|]. split; [|split; [|split; [|split]]].
  - rewrite <- Hw'. unfold c3. rewrite slot_set by done. by rewrite (proj2 (Z.eqb_neq _ _) Hne).
  - simpl. rewrite Hk. apply lookup_delete_eq.
  - simpl. by rewrite Hs1.
  - change (pending s3) with (u64 (pending s1 + -1)). rewrite (io_count _ (proj1 Hok1)).
    change (ctxs s3) with (<[Z.to_nat d := c3]> (ctxs s1)). rewrite (total_insert _ _ c1) by done.
    rewrite Hm3, H5. unfold u64. rewrite Zplus_mod_idemp_l. f_equal. vm_compute (bits _). lia.
  - intros fuel reported e. by apply (unregistered fuel d e reported c3).
Qed.
End races.

(** ** On the simulated kernel *)
Section simulated.
Import IOManagerSim.

Lemma unlocked_cancel_aborts_witness :
  ∃ n s1 s2, look 3 READ sim_both = Ok (Some n, sim_both) ∧ tell 3 n sim_both = Ok (true, s1) ∧
    deal_event 0 (MkEvent (Context 3) EPOLLIN) s1 = Ok (tt, s2) ∧
    Scheduler.m_fibers (p_sched s2) = [MkTask (IsCb (Some 7%nat)) (-1)] ∧
    wake_waiter 3 READ s2 = Fault (AssertFailed "m_events & event").
Proof.
  destruct (ctxs sim_both !! Z.to_nat 3) as [c|] eqn:Hc; [|vm_compute in Hc; discriminate Hc].
  destruct (unlocked_cancel_aborts 0 3 READ EPOLLIN c sim_both sim_both_ok desc_3 ltac:(by left) Hc)
    as (n & s1 & s2 & Hl & Ht & Hd & Hres).
  - left. vm_compute in Hc. by injection Hc as <-.
  - vm_compute in Hc. by injection Hc as <-.
  - exists n, s1, s2. split; [exact Hl|]. split; [exact Ht|]. split; [exact Hd|].
    assert (Hm : (m_events c =? READ) = false) by (vm_compute in Hc; by injection Hc as <-).
    rewrite Hm in Hres. destruct Hres as [Hq Hw]. split; [|exact Hw].
    rewrite Hq. vm_compute in Hc. injection Hc as <-. by vm_compute.
Defined.

Lemma unlocked_del_loses_waiter_witness :
  ∃ s2 s3 c3, look 3 READ sim_read = Ok (Some 0, sim_read) ∧ tell 3 0 sim_both = Ok (true, s2) ∧
    forget 3 READ 0 s2 = Ok (tt, s3) ∧ ctxs s3 !! 3%nat = Some c3 ∧
    waiter_of (slot WRITE c3) = IsCb (Some 8%nat) ∧ pending s3 = 1 ∧
    cancel_all 3 s3 = Ok (false, s3).
Proof.
  destruct (ctxs sim_read !! Z.to_nat 3) as [c|] eqn:Hc; [|vm_compute in Hc; discriminate Hc].
  destruct (unlocked_del_loses_waiter 1 3 READ WRITE (Some 8%nat) c sim_read sim_both sim_read_ok desc_3
              ltac:(by left) ltac:(by right) ltac:(by vm_compute) Hc)
    as (s2 & s3 & c3 & Hl & Ht & Hf & Hc3 & Hw & _ & _ & Hp & Hall).
  - vm_compute in Hc. by injection Hc as <-.
  - by vm_compute.
  - by apply in_scheduler.
  - by intros ?.
  - by vm_compute.
  - exists s2, s3, c3. split; [exact Hl|]. split; [exact Ht|]. split; [exact Hf|]. split; [exact Hc3|].
    split; [exact Hw|]. split; [|by apply (Hall 0%nat 0 0)].
    vm_compute in Ht. injection Ht as <-. vm_compute in Hf. injection Hf as <-. by vm_compute.
Defined.
End simulated.
End UnlockedEvents.
