(* ===== verification/LogFormats.v ===== *)
(** * Log levels, events and formatters (log.h, log.cc)

    [LogFormatter::init] walks through the pattern with an index.  The walk is modelled
    by recursion on what is left of the pattern: [i] is the index, and [skip] the number
    of characters the code has jumped over by assigning to [i].  [localtime_r] and
    [strftime] are one parameter, [strftime]. *)
From stdpp Require Import base list strings pretty.
From Stdlib Require Import ZArith Lia Ascii String.
From S2P Require Import Prelude.
Open Scope Z_scope.

Module LogFormat.

(** ** [LogLevel] *)
Definition UNKNOWN : Z := 0.
Definition DEBUG : Z := 1.
Definition INFO : Z := 2.
Definition WARN : Z := 3.
Definition ERROR : Z := 4.
Definition FATAL : Z := 5.

Definition level_toString (level : Z) : string :=
  if level =? DEBUG then "DEBUG"
  else if level =? INFO then "INFO"
  else if level =? WARN then "WARN"
  else if level =? ERROR then "ERROR"
  else if level =? FATAL then "FATAL"
  else "UNKNOWN".

Definition level_fromString (str : string) : Z :=
  if String.eqb str "debug" then DEBUG
  else if String.eqb str "info" then INFO
  else if String.eqb str "warn" then WARN
  else if String.eqb str "error" then ERROR
  else if String.eqb str "fatal" then FATAL
  else if String.eqb str "DEBUG" then DEBUG
  else if String.eqb str "INFO" then INFO
  else if String.eqb str "WARN" then WARN
  else if String.eqb str "ERROR" then ERROR
  else if String.eqb str "FATAL" then FATAL
  else UNKNOWN.

(** ** [LogEvent]; [m_ss] holds what has been written to the stream.  Its getters are the
    fields. *)
Record LogEvent := MkLogEvent {
  m_file : string;
  m_line : Z;
  m_elapse : Z;
  m_threadId : Z;
  m_threadName : string;
  m_fiberId : Z;
  m_time : Z;
  m_ss : string;
  m_logger : Z;
  m_level : Z;
}.

(** ** The subclasses of [FormatItem] *)
Inductive FormatItem :=
  | MessageFormatItem
  | NormalStringFormatItem (m_string : string)
  | LevelFormatItem
  | FilenameFormatItem
  | NameFormatItem
  | NewLineFormatItem
  | LineFormatItem
  | ElapseFormatItem
  | ThreadIdFormatItem
  | ThreadNameFormatItem
  | FiberIdFormatItem
  | TabFormatItem
  | DateTimeFormatItem (m_format : string).

(** [DateTimeFormatItem(format)] *)
Definition DateTimeFormatItem_ctor (format : string) : FormatItem :=
  DateTimeFormatItem (if String.eqb format "" then "%Y-%m-%d %H:%M:%S" else format).

(** [s_format_items] *)
Definition s_format_items (str : string) : option (string → FormatItem) :=
  if String.eqb str "m" then Some (λ _, MessageFormatItem)
  else if String.eqb str "p" then Some (λ _, LevelFormatItem)
  else if String.eqb str "r" then Some (λ _, ElapseFormatItem)
  else if String.eqb str "c" then Some (λ _, NameFormatItem)
  else if String.eqb str "t" then Some (λ _, ThreadIdFormatItem)
  else if String.eqb str "n" then Some (λ _, NewLineFormatItem)
  else if String.eqb str "F" then Some (λ _, FiberIdFormatItem)
  else if String.eqb str "T" then Some (λ _, TabFormatItem)
  else if String.eqb str "d" then Some DateTimeFormatItem_ctor
  else if String.eqb str "f" then Some (λ _, FilenameFormatItem)
  else if String.eqb str "l" then Some (λ _, LineFormatItem)
  else if String.eqb str "N" then Some (λ _, ThreadNameFormatItem)
  else None.

(** ** [LogFormatter] *)
Record LogFormatter := MkFormatter {
  m_pattern : string;
  m_items : list FormatItem;
  m_isError : bool;
}.

(** [isalpha] of the C locale. *)
Definition isalpha (c : ascii) : bool :=
  let n := nat_of_ascii c in
  ((65 <=? n) && (n <=? 90) || (97 <=? n) && (n <=? 122))%nat.
Definition stops_scan (c : ascii) : bool :=
  negb (isalpha c) && negb (Ascii.eqb c "{") && negb (Ascii.eqb c "}").

(** What the inner loop of [init] leaves: [n], [fmt_status], [str] and [fmt]. *)
Record scanned := MkScanned { s_n : nat; fmt_status : nat; s_str : string; s_fmt : string }.

(** The inner loop, for the item that starts at index [i] of pattern [p]; [rest] is the
    pattern from index [n]. *)
Fixpoint scan (p : string) (i : nat) (rest : string) (n status fmt_begin : nat) (str : string) : scanned :=
  match rest with
  | EmptyString => MkScanned n status str ""
  | String c rest' =>
      if stops_scan c then MkScanned n status str ""
      else if (status =? 0)%nat && Ascii.eqb c "{" then
        scan p i rest' (S n) 1 n (String.substring (i + 1) (n - i - 1) p)
      else if (status =? 1)%nat && Ascii.eqb c "}" then
        MkScanned n 2 str (String.substring (fmt_begin + 1) (n - fmt_begin - 1) p)
      else scan p i rest' (S n) status fmt_begin str
  end.

(** [vec], [nstr] and [m_isError] during [init]. *)
Record parsing := MkParsing { vec : list (string * string * bool); nstr : string; p_error : bool }.

(** [if (!nstr.empty()) { vec.emplace_back(nstr, "", 0); nstr.clear(); }] *)
Definition flush (st : parsing) : parsing :=
  if String.eqb (nstr st) "" then st
  else MkParsing (vec st ++ [(nstr st, "", false)]) "" (p_error st).
Definition push (x : string * string * bool) (st : parsing) : parsing :=
  MkParsing (vec st ++ [x]) (nstr st) (p_error st).
Definition append_text (c : ascii) (st : parsing) : parsing :=
  MkParsing (vec st) (nstr st +:+ String c "") (p_error st).

(** The outer loop from index [i], where [rest] is the pattern from there. *)
Fixpoint parse (p rest : string) (i skip : nat) (st : parsing) : parsing :=
  match rest with
  | EmptyString => st
  | String c rest' =>
      match skip with
      | S k => parse p rest' (S i) k st
      | O =>
          if negb (Ascii.eqb c "%") then parse p rest' (S i) 0 (append_text c st)
          else if match rest' with String c' _ => Ascii.eqb c' "%" | EmptyString => false end then
            parse p rest' (S i) 0 (append_text "%" st)
          else
            let r := scan p i rest' (i + 1) 0 0 "" in
            match fmt_status r with
            | 0%nat => parse p rest' (S i) (s_n r - 1 - i)
                     (push (String.substring (i + 1) (s_n r - i - 1) p, s_fmt r, true) (flush st))
            | 1%nat => let st := push ("<<pattern_error>>", s_fmt r, false) st in
                   parse p rest' (S i) 0 (MkParsing (vec st) (nstr st) true)
            | _ => parse p rest' (S i) (s_n r - i) (push (s_str r, s_fmt r, true) (flush st))
            end
      end
  end.

(** The loop over [vec]: the item for an element, and whether it is an error. *)
Definition make_item (x : string * string * bool) : FormatItem * bool :=
  let '(str, fmt, is_item) := x in
  if is_item then
    match s_format_items str with
    | None => (MessageFormatItem, true)
    | Some make => (make fmt, false)
    end
  else (NormalStringFormatItem str, false).

(** [LogFormatter::LogFormatter(pattern)], with [init]. *)
Definition LogFormatter_ctor (pattern : string) : LogFormatter :=
  let st := flush (parse pattern pattern 0 0 (MkParsing [] "" false)) in
  let items := map make_item (vec st) in
  MkFormatter pattern (map fst items) (p_error st || existsb snd items).

(** *** Output *)
Section output.
Variable strftime : string → Z → string.

(** [FormatItem::format]; [name] is the name of the event's logger. *)
Definition item_format (name : string) (level : Z) (event : LogEvent) (item : FormatItem) : string :=
  match item with
  | MessageFormatItem => m_ss event
  | NormalStringFormatItem s => s
  | LevelFormatItem => level_toString level
  | FilenameFormatItem => m_file event
  | NameFormatItem => name
  | NewLineFormatItem => String "010" ""
  | LineFormatItem => pretty (m_line event)
  | ElapseFormatItem => pretty (m_elapse event)
  | ThreadIdFormatItem => pretty (m_threadId event)
  | ThreadNameFormatItem => m_threadName event
  | FiberIdFormatItem => pretty (m_fiberId event)
  | TabFormatItem => String "009" ""
  | DateTimeFormatItem f => strftime f (m_time event)
  end.

(** [LogFormatter::format]: what it returns or writes to the stream. *)
Definition format (name : string) (level : Z) (event : LogEvent) (f : LogFormatter) : string :=
  foldr (λ i s, item_format name level event i +:+ s) "" (m_items f).
End output.

Definition default_pattern : string := "%d%T%t%T%N%T%F%T[%p]%T[%c]%T<%f:%l>%T%m%n".
Example default_ok : m_isError (LogFormatter_ctor default_pattern) = false.
Proof. reflexivity. Qed.
End LogFormat.
