(* ===== verification/LogFormatFacts.v ===== *)
(** * Theorems about log levels and formatters

    Patterns are described by their segments; parsing the pattern a list of segments
    renders to gives the items of the segments. *)
From stdpp Require Import base list strings.
From Stdlib Require Import ZArith Lia Ascii String.
From S2P Require Import Prelude LogFormats.
Open Scope Z_scope.

Module LogFormatFacts.
Import LogFormat.

(** ** Strings *)
#[local] Arguments String.append !_ _ /.
Fixpoint all (f : ascii → bool) (s : string) : bool :=
  match s with EmptyString => true | String c s' => f c && all f s' end.

Lemma append_assoc (a b c : string) : (a +:+ b) +:+ c = a +:+ (b +:+ c).
Proof. induction a as [|x a IH]; [done|]. simpl. by rewrite IH. Qed.
Lemma append_nil (a : string) : a +:+ "" = a.
Proof. induction a as [|x a IH]; [done|]. simpl. by rewrite IH. Qed.
Lemma length_append (a b : string) : String.length (a +:+ b) = (String.length a + String.length b)%nat.
Proof. induction a as [|x a IH]; [done|]. simpl. by rewrite IH. Qed.
Lemma substring_prefix (b c : string) : String.substring 0 (String.length b) (b +:+ c) = b.
Proof. induction b as [|x b IH]; [by destruct c|]. simpl. by rewrite IH. Qed.
(** [p.substr(n, m)] where the wanted part is known. *)
Lemma substring_mid n m (a b c p : string) :
  p = a +:+ b +:+ c → n = String.length a → m = String.length b → String.substring n m p = b.
Proof.
  intros -> -> ->. induction a as [|x a IH]; [exact (substring_prefix b c)|]. exact IH.
Qed.

(** ** Scanning an item *)
Definition fmt_char (c : ascii) : bool := isalpha c || Ascii.eqb c "{".
(** What ends an item: the end of the pattern or a character the scan stops at. *)
Definition ends (s : string) : bool :=
  match s with EmptyString => true | String c _ => stops_scan c end.

Lemma alpha_not c : isalpha c = true → stops_scan c = false ∧ Ascii.eqb c "{" = false ∧ Ascii.eqb c "}" = false.
Proof.
  intros H. unfold stops_scan. rewrite H. split; [done|].
  split; apply Ascii.eqb_neq; intros ->; discriminate H.
Qed.
Lemma fmt_not c : fmt_char c = true → stops_scan c = false ∧ Ascii.eqb c "}" = false.
Proof.
  unfold fmt_char. intros [H|H]%orb_true_iff.
  - by destruct (alpha_not c H) as (? & _ & ?).
  - apply Ascii.eqb_eq in H as ->. done.
Qed.

Lemma scan_letters p i k : ∀ rest n b str,
  all isalpha k = true → scan p i (k +:+ rest) n 0 b str = scan p i rest (n + String.length k) 0 b str.
Proof.
  induction k as [|c k IH]; intros rest n b str H; [simpl; by rewrite Nat.add_0_r|].
  simpl in H. apply andb_prop in H as [Hc Hk]. simpl.
  destruct (alpha_not c Hc) as (-> & -> & _). simpl. rewrite IH by done. f_equal. simpl. lia.
Qed.
Lemma scan_fmt p i f : ∀ rest n b str,
  all fmt_char f = true → scan p i (f +:+ rest) n 1 b str = scan p i rest (n + String.length f) 1 b str.
Proof.
  induction f as [|c f IH]; intros rest n b str H; [simpl; by rewrite Nat.add_0_r|].
  simpl in H. apply andb_prop in H as [Hc Hf]. simpl.
  destruct (fmt_not c Hc) as (-> & ->). simpl. rewrite IH by done. f_equal. simpl. lia.
Qed.
Lemma scan_ends p i rest n st b str :
  ends rest = true → scan p i rest n st b str = MkScanned n st str "".
Proof. destruct rest as [|c rest]; [done|]. simpl. by intros ->. Qed.

(** An item without a format; with one; with one that is broken off. *)
Lemma scan_item p pre k rest i :
  p = pre +:+ "%" +:+ k +:+ rest → i = String.length pre → all isalpha k = true → ends rest = true →
  scan p i (k +:+ rest) (i + 1) 0 0 "" = MkScanned (i + 1 + String.length k) 0 "" "".
Proof. intros -> -> Hk Hr. by rewrite scan_letters, scan_ends by done. Qed.
Lemma scan_spec p pre k f rest i :
  p = pre +:+ "%" +:+ k +:+ "{" +:+ f +:+ "}" +:+ rest → i = String.length pre →
  all isalpha k = true → all fmt_char f = true →
  scan p i (k +:+ "{" +:+ f +:+ "}" +:+ rest) (i + 1) 0 0 "" =
    MkScanned (i + 2 + String.length k + String.length f) 2 k f.
Proof.
  intros Hp Hi Hk Hf. rewrite scan_letters by done. simpl.
  rewrite scan_fmt by done. simpl. f_equal; [lia|..].
  - apply (substring_mid _ _ (pre +:+ "%") k ("{" +:+ f +:+ "}" +:+ rest)).
    + by rewrite Hp, append_assoc.
    + rewrite length_append. simpl. lia.
    + lia.
  - apply (substring_mid _ _ (pre +:+ "%" +:+ k +:+ "{") f ("}" +:+ rest)).
    + by rewrite Hp, !append_assoc.
    + rewrite !length_append. simpl. lia.
    + lia.
Qed.
Lemma scan_broken p i k f rest n :
  all isalpha k = true → all fmt_char f = true → ends rest = true →
  fmt_status (scan p i (k +:+ "{" +:+ f +:+ rest) n 0 0 "") = 1%nat.
Proof.
  intros Hk Hf Hr. rewrite scan_letters by done. simpl. by rewrite scan_fmt, scan_ends by done.
Qed.

(** ** Parsing *)
Definition no_percent (s : string) : bool := all (λ c, negb (Ascii.eqb c "%")) s.
Definition append_string (t : string) (st : parsing) : parsing :=
  MkParsing (vec st) (nstr st +:+ t) (p_error st).

Lemma parse_skip p a : ∀ rest i st,
  parse p (a +:+ rest) i (String.length a) st = parse p rest (i + String.length a) 0 st.
Proof.
  induction a as [|c a IH]; intros rest i st; [simpl; by rewrite Nat.add_0_r|].
  simpl. rewrite IH. f_equal. lia.
Qed.
Lemma parse_text p t : ∀ rest i st,
  no_percent t = true →
  parse p (t +:+ rest) i 0 st = parse p rest (i + String.length t) 0 (append_string t st).
Proof.
  induction t as [|c t IH]; intros rest i st H.
  - simpl. rewrite Nat.add_0_r. unfold append_string. rewrite append_nil. by destruct st.
  - unfold no_percent in H. simpl in H. apply andb_prop in H as [Hc Ht]. simpl. rewrite Hc.
    rewrite IH by done. unfold append_string, append_text. simpl. rewrite append_assoc.
    f_equal. lia.
Qed.

Lemma alpha_not_percent c : isalpha c = true → Ascii.eqb c "%" = false.
Proof. intros H. apply Ascii.eqb_neq. intros ->. discriminate H. Qed.
Lemma not_double k rest :
  k ≠ ""%string → all isalpha k = true →
  match k +:+ rest with String c' _ => Ascii.eqb c' "%" | EmptyString => false end = false.
Proof.
  destruct k as [|c k]; [done|]. intros _ H. simpl in H. apply andb_prop in H as [Hc _].
  simpl. by apply alpha_not_percent.
Qed.

Lemma parse_item p pre k rest i st :
  p = pre +:+ "%" +:+ k +:+ rest → i = String.length pre →
  k ≠ ""%string → all isalpha k = true → ends rest = true →
  parse p ("%" +:+ k +:+ rest) i 0 st =
    parse p rest (i + 1 + String.length k) 0 (push (k, ""%string, true) (flush st)).
Proof.
  intros Hp Hi Hne Hk Hr. simpl. rewrite not_double by done. rewrite (scan_item p pre k rest i) by done. simpl.
  rewrite (substring_mid _ _ (pre +:+ "%") k rest p).
  - replace (i + 1 + String.length k - 1 - i)%nat with (String.length k) by lia.
    rewrite parse_skip. f_equal. lia.
  - by rewrite Hp, append_assoc.
  - rewrite length_append. simpl. lia.
  - lia.
Qed.
Lemma parse_spec p pre k f rest i st :
  p = pre +:+ "%" +:+ k +:+ "{" +:+ f +:+ "}" +:+ rest → i = String.length pre →
  k ≠ ""%string → all isalpha k = true → all fmt_char f = true →
  parse p ("%" +:+ k +:+ "{" +:+ f +:+ "}" +:+ rest) i 0 st =
    parse p rest (i + 3 + String.length k + String.length f) 0 (push (k, f, true) (flush st)).
Proof.
  intros Hp Hi Hne Hk Hf. simpl. rewrite not_double by done.
  change (String "{" (f +:+ String "}" rest)) with ("{" +:+ f +:+ "}" +:+ rest).
  rewrite (scan_spec p pre k f rest i) by done. simpl.
  set (a := k +:+ "{" +:+ f +:+ "}").
  replace (k +:+ String "{" (f +:+ String "}" rest)) with (a +:+ rest)
    by (unfold a; by rewrite !append_assoc).
  assert (Ha : String.length a = (String.length k + String.length f + 2)%nat).
  { unfold a. rewrite !length_append. simpl. lia. }
  replace (i + 2 + String.length k + String.length f - i)%nat with (String.length a) by lia.
  rewrite parse_skip. f_equal. lia.
Qed.
(** ** Segments of a pattern *)
Inductive segment :=
  | Text (t : string)
  | Item (k : string)
  | Spec (k f : string).

Definition render_segment (x : segment) : string :=
  match x with
  | Text t => t
  | Item k => "%" +:+ k
  | Spec k f => "%" +:+ k +:+ "{" +:+ f +:+ "}"
  end.
Definition render (l : list segment) : string := foldr (λ x s, render_segment x +:+ s) ""%string l.

Definition is_key (k : string) : bool := negb (String.eqb k "") && all isalpha k.

(** A segment in front of [rest]: text has no percent sign, keys are letters and not
    followed by what would go on with them, formats are letters. *)
Definition segment_ok (x : segment) (rest : string) : bool :=
  match x with
  | Text t => no_percent t
  | Item k => is_key k && ends rest
  | Spec k f => is_key k && all fmt_char f
  end.
Fixpoint segments_ok (l : list segment) (rest : string) : bool :=
  match l with
  | [] => true
  | x :: l' => segment_ok x (render l' +:+ rest) && segments_ok l' rest
  end.

(** What a segment does to the state of [init]. *)
Definition parsed (x : segment) (st : parsing) : parsing :=
  match x with
  | Text t => append_string t st
  | Item k => push (k, ""%string, true) (flush st)
  | Spec k f => push (k, f, true) (flush st)
  end.

Lemma is_key_ok k : is_key k = true → k ≠ ""%string ∧ all isalpha k = true.
Proof. unfold is_key. intros [H ?]%andb_prop. split; [|done]. intros ->. discriminate H. Qed.

Lemma parse_segment p pre x rest st :
  p = pre +:+ render_segment x +:+ rest → segment_ok x rest = true →
  parse p (render_segment x +:+ rest) (String.length pre) 0 st =
    parse p rest (String.length (pre +:+ render_segment x)) 0 (parsed x st).
Proof.
  intros Hp Hx. destruct x as [t|k|k f]; simpl in Hx; unfold render_segment in *.
  - rewrite parse_text by done. by rewrite length_append.
  - apply andb_prop in Hx as [[Hne Hk]%is_key_ok Hr]. rewrite append_assoc in Hp |- *.
    rewrite (parse_item p pre) by done. f_equal. rewrite !length_append. simpl. lia.
  - apply andb_prop in Hx as [[Hne Hk]%is_key_ok Hf]. rewrite !append_assoc in Hp |- *.
    rewrite (parse_spec p pre k f rest) by done.
    f_equal. rewrite !length_append. simpl. lia.
Qed.

Lemma parse_segments p l : ∀ pre rest st,
  p = pre +:+ render l +:+ rest → segments_ok l rest = true →
  parse p (render l +:+ rest) (String.length pre) 0 st =
    parse p rest (String.length (pre +:+ render l)) 0 (foldl (λ st x, parsed x st) st l).
Proof.
  induction l as [|x l IH]; intros pre rest st Hp Hl; simpl in Hl |- *.
  - by rewrite append_nil.
  - apply andb_prop in Hl as [Hx Hl]. rewrite append_assoc.
    rewrite parse_segment; [|by rewrite Hp; simpl; rewrite append_assoc|done].
    rewrite IH; [by rewrite !append_assoc|by rewrite Hp; simpl; rewrite !append_assoc|done].
Qed.

(** *** Whole patterns *)

(** No text is empty or next to another. *)
Fixpoint separated (l : list segment) : bool :=
  match l with
  | [] => true
  | Text t :: l' => negb (String.eqb t "") && match l' with Text _ :: _ => false | _ => separated l' end
  | _ :: l' => separated l'
  end.

(** The element of [vec] for a segment. *)
Definition element (x : segment) : string * string * bool :=
  match x with
  | Text t => (t, ""%string, false)
  | Item k => (k, ""%string, true)
  | Spec k f => (k, f, true)
  end.

Lemma flush_empty v e : flush (MkParsing v "" e) = MkParsing v "" e.
Proof. done. Qed.
Lemma flush_text v t e : t ≠ ""%string → flush (MkParsing v t e) = MkParsing (v ++ [(t, ""%string, false)]) "" e.
Proof. intros H. unfold flush. simpl. by rewrite (proj2 (String.eqb_neq _ _) H). Qed.

Lemma flush_segments l : ∀ v e, separated l = true →
  flush (foldl (λ st x, parsed x st) (MkParsing v "" e) l) = MkParsing (v ++ map element l) "" e.
Proof.
  assert (Hgo : ∀ l v e, separated l = true →
    flush (foldl (λ st x, parsed x st) (MkParsing v "" e) l) = MkParsing (v ++ map element l) "" e ∧
    (∀ t, t ≠ ""%string → match l with Text _ :: _ => False | _ => True end →
     flush (foldl (λ st x, parsed x st) (MkParsing v t e) l) =
       MkParsing (v ++ (t, ""%string, false) :: map element l) "" e)).
  { clear l. induction l as [|x l IH]; intros v e Hl.
    - simpl. rewrite app_nil_r. split; [done|]. intros t Ht _. by rewrite flush_text.
    - destruct x as [t|k|k f]; simpl in Hl |- *.
      + apply andb_prop in Hl as [Ht Hl]. apply negb_true_iff, String.eqb_neq in Ht.
        split; [|by intros ??[]]. unfold append_string. simpl.
        apply IH; [by destruct l as [|[]]|done|by destruct l as [|[]]].
      + split.
        * unfold push. simpl. rewrite (proj1 (IH _ _ Hl)). by rewrite <- (assoc_L (++)).
        * intros t Ht _. rewrite flush_text by done. unfold push. simpl. rewrite (proj1 (IH _ _ Hl)).
          by rewrite <- !(assoc_L (++)).
      + split.
        * unfold push. simpl. rewrite (proj1 (IH _ _ Hl)). by rewrite <- (assoc_L (++)).
        * intros t Ht _. rewrite flush_text by done. unfold push. simpl. rewrite (proj1 (IH _ _ Hl)).
          by rewrite <- !(assoc_L (++)). }
  intros v e Hl. by apply Hgo.
Qed.

(** The item a segment stands for. *)
Definition item_of (x : segment) : FormatItem :=
  match x with
  | Text t => NormalStringFormatItem t
  | Item k => match s_format_items k with Some make => make ""%string | None => MessageFormatItem end
  | Spec k f => match s_format_items k with Some make => make f | None => MessageFormatItem end
  end.
Definition unknown (x : segment) : bool :=
  match x with
  | Text _ => false
  | Item k | Spec k _ => match s_format_items k with Some _ => false | None => true end
  end.

Lemma make_element x : make_item (element x) = (item_of x, unknown x).
Proof. destruct x as [t|k|k f]; simpl; [done|..]; by destruct (s_format_items k). Qed.

(** C24: a pattern that is a sequence of texts without percent signs, none empty and no two
    next to each other, items [%key] and items [%key{format}], with keys of letters,
    formats of letters and open braces, and each [%key] followed by something else than a
    letter or an open brace, is parsed into exactly the items of the sequence, in order,
    each with its format; it is an error exactly when a key is unknown.  Formatting
    concatenates what the items give.  Other patterns are not covered:
    [documented_patterns_refused] shows forms that the comments list and the parser
    refuses. *)
Theorem pattern_roundtrip l :
  segments_ok l "" = true → separated l = true →
  LogFormatter_ctor (render l) = MkFormatter (render l) (map item_of l) (existsb unknown l) ∧
  ∀ strftime name level event,
    format strftime name level event (LogFormatter_ctor (render l)) =
      foldr (λ x s, item_format strftime name level event (item_of x) +:+ s) ""%string l.
Proof.
  intros Hok Hsep.
  assert (E : LogFormatter_ctor (render l) = MkFormatter (render l) (map item_of l) (existsb unknown l)).
  { unfold LogFormatter_ctor. pose proof (parse_segments (render l) l "" "" (MkParsing [] "" false)) as H.
    rewrite append_nil in H. simpl in H. rewrite H by done. simpl. rewrite flush_segments by done. simpl.
    rewrite map_map, !map_map. f_equal.
    - apply map_ext. intros x. by rewrite make_element.
    - clear. induction l as [|x l IH]; [done|]. simpl. rewrite make_element. simpl. by rewrite IH. }
  split; [done|]. intros strftime name level event. rewrite E. unfold format. simpl.
  clear. induction l as [|x l IH]; [done|]. simpl. by rewrite IH.
Qed.

(** ** Patterns that are refused *)

Lemma flush_keeps x st : x ∈ vec st → x ∈ vec (flush st).
Proof. intros H. unfold flush. destruct (String.eqb _ _); [done|]. simpl. rewrite elem_of_app. by left. Qed.
Lemma push_keeps x y st : x ∈ vec st → x ∈ vec (push y st).
Proof. intros H. simpl. rewrite elem_of_app. by left. Qed.
Lemma flush_error st : p_error (flush st) = p_error st.
Proof. unfold flush. by destruct (String.eqb _ _). Qed.

(** Nothing is taken back. *)
Lemma parse_keeps p rest : ∀ i skip st,
  (p_error st = true → p_error (parse p rest i skip st) = true) ∧
  (∀ x, x ∈ vec st → x ∈ vec (parse p rest i skip st)).
Proof.
  induction rest as [|c rest IH]; intros i skip st; [done|]. simpl.
  destruct skip as [|k]; [|apply IH].
  destruct (negb (Ascii.eqb c "%")); [apply (IH _ _ (append_text c st))|].
  destruct (match rest with String c' _ => _ | _ => _ end); [apply (IH _ _ (append_text "%" st))|].
  destruct (scan p i rest (i + 1) 0 0 "") as [n status str fmt]. simpl.
  destruct status as [|[|status]].
  - destruct (IH (S i) (n - 1 - i)%nat (push (String.substring (i + 1) (n - i - 1) p, fmt, true) (flush st))) as [H1 H2].
    split; [intros; apply H1; simpl; by rewrite flush_error|].
    intros x Hx. by apply H2, push_keeps, flush_keeps.
  - match goal with |- context [parse p rest (S i) 0 ?s2] => destruct (IH (S i) 0%nat s2) as [H1 H2] end.
    split; [by intros; apply H1|]. intros x Hx. apply H2. simpl. rewrite elem_of_app. by left.
  - destruct (IH (S i) (n - i)%nat (push (str, fmt, true) (flush st))) as [H1 H2].
    split; [intros; apply H1; simpl; by rewrite flush_error|].
    intros x Hx. by apply H2, push_keeps, flush_keeps.
Qed.

Lemma error_refused p : p_error (parse p p 0 0 (MkParsing [] "" false)) = true → m_isError (LogFormatter_ctor p) = true.
Proof. intros H. unfold LogFormatter_ctor. simpl. by rewrite flush_error, H. Qed.
Lemma unknown_refused p x :
  x ∈ vec (parse p p 0 0 (MkParsing [] "" false)) → snd (make_item x) = true → m_isError (LogFormatter_ctor p) = true.
Proof.
  intros Hx He. unfold LogFormatter_ctor. simpl. apply orb_true_iff. right.
  apply existsb_exists. exists (make_item x). split; [|done].
  apply in_map. by apply list_elem_of_In, flush_keeps.
Qed.

(** Two forms the comment on [init] lists are refused.  A [%key{format}] whose format
    holds anything but letters before its closing brace, as every useful date format
    does, ends the scan there; and in [%%] the second percent sign is kept as the start
    of an item, which has no key unless letters follow. *)
Theorem documented_patterns_refused l k f post :
  is_key k = true → all fmt_char f = true → ends post = true →
  (segments_ok l ("%" +:+ k +:+ "{" +:+ f +:+ post) = true →
   m_isError (LogFormatter_ctor (render l +:+ "%" +:+ k +:+ "{" +:+ f +:+ post)) = true) ∧
  (segments_ok l ("%%" +:+ post) = true → match post with String c _ => c ≠ "%"%char | _ => True end →
   m_isError (LogFormatter_ctor (render l +:+ "%%" +:+ post)) = true).
Proof.
  intros [Hne Hk]%is_key_ok Hf Hpost. split.
  - intros Hl. apply error_refused. set (rest := "%" +:+ k +:+ "{" +:+ f +:+ post) in *.
    rewrite (parse_segments _ l "" rest) by done. simpl.
    set (st := foldl _ _ l). unfold rest at 2. simpl. rewrite not_double by done.
    pose proof (scan_broken (render l +:+ rest) (String.length (render l)) k f post
                  (String.length (render l) + 1)%nat Hk Hf Hpost) as Hscan.
    change (k +:+ String "{" (f +:+ post)) with (k +:+ "{" +:+ f +:+ post).
    destruct (scan _ _ _ _ _ _ _) as [n status str fmt]. simpl in Hscan. subst status. simpl.
    by apply parse_keeps.
  - intros Hl Hc. apply (unknown_refused _ (""%string, ""%string, true)); [|done].
    set (rest := "%%" +:+ post) in *. rewrite (parse_segments _ l "" rest) by done. simpl.
    set (st := foldl _ _ l). unfold rest at 2. simpl.
    assert (match post with String c' _ => Ascii.eqb c' "%" | EmptyString => false end = false) as ->.
    { destruct post as [|c post]; [done|]. by apply Ascii.eqb_neq. }
    rewrite !scan_ends by done. simpl. apply parse_keeps. simpl. rewrite elem_of_app. right.
    match goal with |- context [String.substring ?a ?b ?s] =>
      assert (String.substring a b s = ""%string) as ->; [|by left];
      replace b with 0%nat by lia; generalize s as p, a as n end.
    clear. induction p as [|c p IH]; intros [|n]; simpl; done.
Qed.
(** ** Concrete patterns *)
Definition default_segments : list segment :=
  [Item "d"; Item "T"; Item "t"; Item "T"; Item "N"; Item "T"; Item "F"; Item "T"; Text "["; Item "p"; Text "]";
   Item "T"; Text "["; Item "c"; Text "]"; Item "T"; Text "<"; Item "f"; Text ":"; Item "l"; Text ">"; Item "T";
   Item "m"; Item "n"].
Example default_rendered : render default_segments = default_pattern.
Proof. reflexivity. Qed.

Lemma pattern_roundtrip_witness :
  segments_ok default_segments "" = true ∧
  m_items (LogFormatter_ctor default_pattern) = map item_of default_segments ∧
  m_isError (LogFormatter_ctor "%q{x} %m") = true.
Proof.
  split; [reflexivity|].
  destruct (pattern_roundtrip default_segments) as [H _]; [reflexivity|reflexivity|].
  destruct (pattern_roundtrip [Spec "q" "x"; Text " "; Item "m"]) as [H2 _]; [reflexivity|reflexivity|].
  change default_pattern with (render default_segments). rewrite H. split; [done|].
  change "%q{x} %m"%string with (render [Spec "q" "x"; Text " "; Item "m"]). by rewrite H2.
Defined.

Lemma documented_patterns_refused_witness :
  m_isError (LogFormatter_ctor "[%p] %d{%Y-%m-%d %H:%M:%S}") = true ∧
  m_isError (LogFormatter_ctor "100%%") = true.
Proof.
  split.
  - exact (proj1 (documented_patterns_refused [Text "["; Item "p"; Text "] "] "d" "" "%Y-%m-%d %H:%M:%S}"
                    eq_refl eq_refl eq_refl) eq_refl).
  - exact (proj2 (documented_patterns_refused [Text "100"] "d" "" "" eq_refl eq_refl eq_refl) eq_refl I).
Defined.
End LogFormatFacts.
