(* ===== verification/Loggers.v ===== *)
(** * Loggers, appenders and the logger manager (log.h, log.cc)

    [Logger] and [LogAppender] objects are shared by handles and live in stores indexed
    by address; formatters are never modified once made and are held by value.  What
    appenders write is kept apart from the diagnostics the code prints on [std::cout],
    which are left out.  A file holds what its stream has been given, flushed or not;
    whether a file can be opened is the parameter [can_open]. *)
From stdpp Require Import base gmap list strings.
From Stdlib Require Import ZArith Lia String.
From S2P Require Import Prelude LogFormats.
Open Scope Z_scope.

Module Log.
Import LogFormat.

(** [StdoutLogAppender], and [FileLogAppender] with its [m_filename]. *)
Inductive sink := StdoutLogAppender | FileLogAppender (m_filename : string).
Record LogAppender := MkAppender {
  a_sink : sink;
  a_level : Z;
  a_formatter : option LogFormatter;
}.

Record Logger := MkLogger {
  m_name : string;
  l_level : Z;
  m_appenders : list Z;
  m_formatter : option LogFormatter;
  m_root : option Z;
}.

(** The [LoggerManager] (its [m_loggers] and [m_root]), [G_Level()], and the world. *)
Record Logs := MkLogs {
  loggers : gmap Z Logger;
  appenders : gmap Z LogAppender;
  next : Z;
  m_loggers : gmap string Z;
  manager_root : Z;
  G_Level : Z;
  out : string;
  files : gmap string string;
}.

(** [LogAppenderDefine] and [LogDefine] *)
Record LogAppenderDefine := MkAppenderDefine {
  ad_type : Z;
  ad_level : Z;
  ad_formatter : string;
  ad_file : string;
}.
Record LogDefine := MkDefine {
  d_name : string;
  d_level : Z;
  d_formatter : string;
  d_appenders : list LogAppenderDefine;
}.
#[export] Instance appender_define_eq : EqDecision LogAppenderDefine.
Proof. solve_decision. Defined.
#[export] Instance define_eq : EqDecision LogDefine.
Proof. solve_decision. Defined.

Definition set_loggers (h : gmap Z Logger) (s : Logs) : Logs :=
  MkLogs h (appenders s) (next s) (m_loggers s) (manager_root s) (G_Level s) (out s) (files s).
Definition set_appenders (h : gmap Z LogAppender) (s : Logs) : Logs :=
  MkLogs (loggers s) h (next s) (m_loggers s) (manager_root s) (G_Level s) (out s) (files s).
Definition set_next (n : Z) (s : Logs) : Logs :=
  MkLogs (loggers s) (appenders s) n (m_loggers s) (manager_root s) (G_Level s) (out s) (files s).
Definition set_names (m : gmap string Z) (s : Logs) : Logs :=
  MkLogs (loggers s) (appenders s) (next s) m (manager_root s) (G_Level s) (out s) (files s).
Definition set_output (o : string) (fs : gmap string string) (s : Logs) : Logs :=
  MkLogs (loggers s) (appenders s) (next s) (m_loggers s) (manager_root s) (G_Level s) o fs.

Definition logger_at (l : Z) : M Logs Logger := let* h := gets loggers in deref (h !! l) "Logger".
Definition appender_at (a : Z) : M Logs LogAppender := let* h := gets appenders in deref (h !! a) "LogAppender".
Definition update_logger (f : Logger → Logger) (l : Z) : M Logs unit :=
  logger_at l ;;; modify (λ s, set_loggers (alter f l (loggers s)) s).
Definition update_appender (f : LogAppender → LogAppender) (a : Z) : M Logs unit :=
  appender_at a ;;; modify (λ s, set_appenders (alter f a (appenders s)) s).

(** [Filter] *)
Definition Filter (level : Z) : M Logs unit :=
  modify (λ s, MkLogs (loggers s) (appenders s) (next s) (m_loggers s) (manager_root s) level (out s) (files s)).

(** ** [LogAppender] *)
Definition new_appender (k : sink) : M Logs Z :=
  let* a := gets next in
  modify (λ s, set_next (a + 1) (set_appenders (<[a := MkAppender k DEBUG None]> (appenders s)) s)) ;;;
  ret a.
Definition appender_setFormatter (f : option LogFormatter) (a : Z) : M Logs unit :=
  update_appender (λ x, MkAppender (a_sink x) (a_level x) f) a.
Definition appender_setLevel (level : Z) (a : Z) : M Logs unit :=
  update_appender (λ x, MkAppender (a_sink x) level (a_formatter x)) a.

(** ** [Logger] *)
Definition Logger_ctor (name : string) : M Logs Z :=
  let* l := gets next in
  modify (λ s, set_next (l + 1) (set_loggers
    (<[l := MkLogger name DEBUG [] (Some (LogFormatter_ctor default_pattern)) None]> (loggers s)) s)) ;;;
  ret l.
Definition setLevel (val l : Z) : M Logs unit :=
  update_logger (λ x, MkLogger (m_name x) val (m_appenders x) (m_formatter x) (m_root x)) l.
Definition set_m_appenders (as_ : list Z) (x : Logger) : Logger :=
  MkLogger (m_name x) (l_level x) as_ (m_formatter x) (m_root x).

Definition addAppender (l a : Z) : M Logs unit :=
  let* x := logger_at l in
  let* ap := appender_at a in
  when (negb (bool_decide (is_Some (a_formatter ap)))) (appender_setFormatter (m_formatter x) a) ;;;
  update_logger (λ x, set_m_appenders (m_appenders x ++ [a]) x) l.

(** The list without its first [a]. *)
Fixpoint erase_first (a : Z) (as_ : list Z) : list Z :=
  match as_ with
  | [] => []
  | x :: rest => if x =? a then rest else x :: erase_first a rest
  end.
Definition delAppender (l a : Z) : M Logs unit :=
  update_logger (λ x, set_m_appenders (erase_first a (m_appenders x)) x) l.
Definition clearAppenders (l : Z) : M Logs unit := update_logger (set_m_appenders []) l.

Definition setFormatter_ptr (val : option LogFormatter) (l : Z) : M Logs unit :=
  update_logger (λ x, MkLogger (m_name x) (l_level x) (m_appenders x) val (m_root x)) l.
Definition setFormatter (val : string) (l : Z) : M Logs unit :=
  let new_val := LogFormatter_ctor val in
  logger_at l ;;;
  if m_isError new_val then ret tt else setFormatter_ptr (Some new_val) l.
Definition getFormatter (l : Z) : M Logs (option LogFormatter) :=
  let* x := logger_at l in ret (m_formatter x).

(** ** Logging *)
Section output.
Variable strftime : string → Z → string.
Variable can_open : string → bool.

(** [FileLogAppender::reopen]: [open] truncates the file. *)
Definition reopen (filename : string) : M Logs bool :=
  if can_open filename then
    modify (λ s, set_output (out s) (<[filename := ""%string]> (files s)) s) ;;; ret true
  else ret false.

(** [StdoutLogAppender::log], [FileLogAppender::log], and the virtual call. *)
Definition StdoutLogAppender_log (level : Z) (event : LogEvent) (ap : LogAppender) : M Logs unit :=
  let* g := gets G_Level in
  if (level >=? a_level ap) && (level >=? g) then
    let* f := deref (a_formatter ap) "m_formatter" in
    let* e := logger_at (m_logger event) in
    modify (λ s, set_output (out s +:+ format strftime (m_name e) level event f) (files s) s)
  else ret tt.
Definition FileLogAppender_log (filename : string) (level : Z) (event : LogEvent) (ap : LogAppender) : M Logs unit :=
  let* g := gets G_Level in
  if (level >=? a_level ap) && (level >=? g) then
    let* is_open := reopen filename in
    let* f := deref (a_formatter ap) "m_formatter" in
    let* e := logger_at (m_logger event) in
    when is_open (modify (λ s, set_output (out s)
      (alter (λ t, t +:+ format strftime (m_name e) level event f) filename (files s)) s))
  else ret tt.
Definition appender_log (level : Z) (event : LogEvent) (a : Z) : M Logs unit :=
  let* ap := appender_at a in
  match a_sink ap with
  | StdoutLogAppender => StdoutLogAppender_log level event ap
  | FileLogAppender filename => FileLogAppender_log filename level event ap
  end.
Fixpoint each_appender (level : Z) (event : LogEvent) (as_ : list Z) : M Logs unit :=
  match as_ with
  | [] => ret tt
  | a :: rest => appender_log level event a ;;; each_appender level event rest
  end.

(** [Logger::log]; [fuel] bounds the chain of roots. *)
Fixpoint log (fuel : nat) (l level : Z) (event : LogEvent) : M Logs unit :=
  match fuel with
  | O => fail StillRunning
  | S fuel' =>
      let* x := logger_at l in
      if level >=? l_level x then
        match m_appenders x with
        | [] => match m_root x with Some r => log fuel' r level event | None => ret tt end
        | as_ => each_appender level event as_
        end
      else ret tt
  end.
(** The root of a logger made by the manager has no root. *)
Definition log_fuel : nat := 2.

(** [Logger::debug] to [Logger::fatal] *)
Definition debug (event : LogEvent) (l : Z) : M Logs unit := log log_fuel l DEBUG event.
Definition info (event : LogEvent) (l : Z) : M Logs unit := log log_fuel l INFO event.
Definition warn (event : LogEvent) (l : Z) : M Logs unit := log log_fuel l WARN event.
Definition error (event : LogEvent) (l : Z) : M Logs unit := log log_fuel l ERROR event.
Definition fatal (event : LogEvent) (l : Z) : M Logs unit := log log_fuel l FATAL event.

(** [SYLAR_LOG_LEVEL]: the event is logged by the destructor of its [LogEventWrap]. *)
Definition LogEventWrap_dtor (event : LogEvent) : M Logs unit := log log_fuel (m_logger event) (m_level event) event.
Definition SYLAR_LOG_LEVEL (event : LogEvent) : M Logs unit :=
  let* x := logger_at (m_logger event) in
  when (l_level x <=? m_level event) (LogEventWrap_dtor event).

(** ** [LoggerManager] *)
Definition LoggerManager_ctor : M Logs unit :=
  let* l := Logger_ctor "root" in
  let* a := new_appender StdoutLogAppender in
  addAppender l a ;;;
  let* x := logger_at l in
  modify (λ s, MkLogs (loggers s) (appenders s) (next s) (<[m_name x := l]> (m_loggers s)) l (G_Level s) (out s) (files s)).
Definition getLogger (name : string) : M Logs Z :=
  let* names := gets m_loggers in
  match names !! name with
  | Some l => ret l
  | None =>
      let* l := Logger_ctor name in
      let* r := gets manager_root in
      update_logger (λ x, MkLogger (m_name x) (l_level x) (m_appenders x) (m_formatter x) (Some r)) l ;;;
      modify (λ s, set_names (<[name := l]> (m_loggers s)) s) ;;;
      ret l
  end.
Definition addLogger (name : string) (l : Z) : M Logs bool :=
  modify (λ s, set_names (<[name := l]> (m_loggers s)) s) ;;; ret true.
Definition getRoot : M Logs Z := gets manager_root.

(** ** The listener of [g_log_defines]; a set of definitions is the list of its
    elements in order, found by name. *)
Definition find_define (name : string) (set : list LogDefine) : option LogDefine :=
  list_find (λ d, d_name d = name) set ≫= λ r, Some (snd r).

Fixpoint define_appenders (l : Z) (as_ : list LogAppenderDefine) : M Logs unit :=
  match as_ with
  | [] => ret tt
  | a :: rest =>
      let* ap := if ad_type a =? 1 then (let* p := new_appender (FileLogAppender (ad_file a)) in ret (Some p))
                 else if ad_type a =? 2 then (let* p := new_appender StdoutLogAppender in ret (Some p))
                 else ret None in
      let* ap := deref ap "ap" in
      appender_setLevel (ad_level a) ap ;;;
      addAppender l ap ;;;
      define_appenders l rest
  end.

(** The body of the loop over the new definitions. *)
Definition apply_define (old_value : list LogDefine) (i : LogDefine) : M Logs unit :=
  let* logger :=
    match find_define (d_name i) old_value with
    | None => let* l := Logger_ctor (d_name i) in ret (Some l)
    | Some o => if bool_decide (i = o) then ret None
                else let* l := getLogger (d_name i) in ret (Some l)
    end in
  let* logger := deref logger "logger" in
  setLevel (d_level i) logger ;;;
  when (negb (String.eqb (d_formatter i) "")) (setFormatter (d_formatter i) logger) ;;;
  define_appenders logger (d_appenders i) ;;;
  addLogger (d_name i) logger ;;;
  ret tt.
Fixpoint apply_defines (old_value new_value : list LogDefine) : M Logs unit :=
  match new_value with
  | [] => ret tt
  | i :: rest => apply_define old_value i ;;; apply_defines old_value rest
  end.

(** The body of the loop over the old definitions. *)
Definition drop_define (new_value : list LogDefine) (i : LogDefine) : M Logs unit :=
  match find_define (d_name i) new_value with
  | Some _ => ret tt
  | None => let* l := getLogger (d_name i) in setLevel 100 l ;;; clearAppenders l
  end.
Fixpoint drop_defines (new_value old_value : list LogDefine) : M Logs unit :=
  match old_value with
  | [] => ret tt
  | i :: rest => drop_define new_value i ;;; drop_defines new_value rest
  end.

(** [announce] is the event of its [SYLAR_LOG_INFO] on the root logger. *)
Definition logs_changed (announce : LogEvent) (old_value new_value : list LogDefine) : M Logs unit :=
  SYLAR_LOG_LEVEL announce ;;;
  apply_defines old_value new_value ;;;
  drop_defines new_value old_value.
End output.

(** Before the manager's constructor. *)
Definition no_logs : Logs := MkLogs ∅ ∅ 1 ∅ 0 DEBUG "" ∅.
End Log.
