(* ===== verification/LoggerFacts.v ===== *)
(** * Theorems about loggers

    Where a logged event goes, and what the listener of the log configuration does. *)
From stdpp Require Import base gmap list strings.
From Stdlib Require Import ZArith Lia String.
From S2P Require Import Prelude LogFormats Loggers.
Open Scope Z_scope.

Module LoggerFacts.
Import LogFormat Log.

(** ** The invariant *)

(** Every appender of a logger exists and has a formatter, every logger has a
    formatter and its root, if any, is the manager's, which has none; the manager
    knows each logger by its name. *)
Definition appender_ok s (a : Z) : Prop := ∃ ap f, appenders s !! a = Some ap ∧ a_formatter ap = Some f.
Definition rootless s (l : Z) : Prop := ∃ x, loggers s !! l = Some x ∧ m_root x = None.
Record logger_ok s (x : Logger) : Prop := {
  lo_appenders : Forall (appender_ok s) (m_appenders x);
  lo_formatter : is_Some (m_formatter x);
  lo_root : ∀ r, m_root x = Some r → r = manager_root s;
}.
Record logs_ok s : Prop := {
  ok_logger : ∀ l x, loggers s !! l = Some x → l < next s ∧ logger_ok s x;
  ok_appender : ∀ a ap, appenders s !! a = Some ap → a < next s;
  ok_root : rootless s (manager_root s);
  ok_name : ∀ n l, m_loggers s !! n = Some l → ∃ x, loggers s !! l = Some x ∧ m_name x = n;
}.

(** The appenders of [s] are what they were. *)
Definition keeps s s' : Prop := ∀ a ap, appenders s !! a = Some ap → appenders s' !! a = Some ap.

(** [s'] is [s] but for logger [l], and for loggers and appenders made since. *)
Record only_logger (l : Z) s s' : Prop := {
  on_others : ∀ l', l' ≠ l → l' < next s → loggers s' !! l' = loggers s !! l';
  on_keeps : keeps s s';
  on_next : next s <= next s';
  on_root : manager_root s' = manager_root s;
}.

Lemma appenders_keep_same s s' : appenders s' = appenders s → keeps s s'.
Proof. by intros E a ap; rewrite E. Qed.
Lemma appenders_keep_trans s1 s2 s3 : keeps s1 s2 → keeps s2 s3 → keeps s1 s3.
Proof. unfold keeps. auto. Qed.
Lemma on_appenders l s s' a : only_logger l s s' → appender_ok s a → appender_ok s' a.
Proof. intros H (ap & f & Ha & Hf). exists ap, f. split; [by apply (on_keeps _ _ _ H)|done]. Qed.
Lemma only_refl l s : only_logger l s s.
Proof. split; [done|by apply appenders_keep_same|lia|done]. Qed.
Lemma only_trans l s1 s2 s3 : only_logger l s1 s2 → only_logger l s2 s3 → only_logger l s1 s3.
Proof.
  intros [Ha Hb Hc Hd] [Ha' Hb' Hc' Hd']. split; [|by eapply appenders_keep_trans|lia|congruence].
  intros l' Hl Hn. rewrite Ha' by (done || lia). by apply Ha.
Qed.

Lemma logger_ok_mono s s' x :
  (∀ a, appender_ok s a → appender_ok s' a) → manager_root s' = manager_root s → logger_ok s x → logger_ok s' x.
Proof.
  intros Ha Hr [H1 H2 H3]. split; [by eapply Forall_impl|done|]. intros r Hx. rewrite Hr. by apply H3.
Qed.

Lemma logger_at_ok l x s : loggers s !! l = Some x → logger_at l s = Ok (x, s).
Proof. intros H. unfold logger_at. step_ok. unfold deref. by rewrite H. Qed.
Lemma appender_at_ok a ap s : appenders s !! a = Some ap → appender_at a s = Ok (ap, s).
Proof. intros H. unfold appender_at. step_ok. unfold deref. by rewrite H. Qed.
Lemma update_logger_ok f l x s :
  loggers s !! l = Some x → update_logger f l s = Ok (tt, set_loggers (<[l := f x]> (loggers s)) s).
Proof.
  intros H. unfold update_logger. rewrite (bind_step _ _ _ _ _ (logger_at_ok l x s H)).
  unfold modify. do 3 f_equal. apply map_eq. intros k. destruct (decide (l = k)) as [->|Hne].
  - by rewrite lookup_alter_eq, lookup_insert_eq, H.
  - by rewrite lookup_alter_ne, lookup_insert_ne.
Qed.
Lemma update_appender_ok f a ap s :
  appenders s !! a = Some ap → update_appender f a s = Ok (tt, set_appenders (<[a := f ap]> (appenders s)) s).
Proof.
  intros H. unfold update_appender. rewrite (bind_step _ _ _ _ _ (appender_at_ok a ap s H)).
  unfold modify. do 3 f_equal. apply map_eq. intros k. destruct (decide (a = k)) as [->|Hne].
  - by rewrite lookup_alter_eq, lookup_insert_eq, H.
  - by rewrite lookup_alter_ne, lookup_insert_ne.
Qed.

(** Changing one logger that stays well formed. *)
Lemma set_logger_ok l x y s :
  logs_ok s → loggers s !! l = Some x → logger_ok s y → m_name y = m_name x → m_root y = m_root x →
  let s' := set_loggers (<[l := y]> (loggers s)) s in logs_ok s' ∧ only_logger l s s'.
Proof.
  intros [Hl Ha (r & Hr & Hrr) Hn] Hx Hy Hname Hroot. simpl. split; [split|split]; simpl; try done; try lia.
  - intros l' x'. destruct (decide (l' = l)) as [->|Hne].
    + rewrite lookup_insert_eq. intros [= <-]. split; [by apply (Hl l x)|]. by apply (logger_ok_mono s).
    + rewrite lookup_insert_ne by done. intros H. destruct (Hl l' x' H). split; [done|]. by apply (logger_ok_mono s).
  - unfold rootless. simpl. destruct (decide (manager_root s = l)) as [E|Hne].
    + exists y. rewrite E, lookup_insert_eq. split; [done|]. rewrite Hroot. rewrite E, Hx in Hr. by injection Hr as ->.
    + exists r. by rewrite lookup_insert_ne.
  - intros n l' H. destruct (Hn n l' H) as (x' & Hx' & Hnn). destruct (decide (l' = l)) as [->|Hne].
    + exists y. rewrite lookup_insert_eq. split; [done|]. rewrite Hname. rewrite Hx in Hx'. by injection Hx' as ->.
    + exists x'. by rewrite lookup_insert_ne.
  - intros l' Hne _. by rewrite lookup_insert_ne.
  - by apply appenders_keep_same.
Qed.

(** Making a logger; making an appender. *)
Definition fresh_logger (name : string) : Logger :=
  MkLogger name DEBUG [] (Some (LogFormatter_ctor default_pattern)) None.
Lemma Logger_ctor_ok name s :
  logs_ok s → ∃ s', Logger_ctor name s = Ok (next s, s') ∧ logs_ok s' ∧ only_logger (next s) s s' ∧
    loggers s' !! next s = Some (fresh_logger name) ∧ m_loggers s' = m_loggers s ∧ G_Level s' = G_Level s.
Proof.
  intros [Hl Ha (r & Hr & Hrr) Hn]. eexists. split; [done|]. simpl.
  assert (Hfresh : loggers s !! next s = None).
  { destruct (loggers s !! next s) as [x|] eqn:E; [|done]. destruct (Hl _ _ E). lia. }
  split; [split|split; [split|]]; simpl; try done; try lia.
  - intros l' x'. destruct (decide (l' = next s)) as [->|Hne].
    + rewrite lookup_insert_eq. intros [= <-]. split; [lia|]. split; simpl; [constructor|by eexists|done].
    + rewrite lookup_insert_ne by done. intros H. destruct (Hl l' x' H). split; [lia|]. by apply (logger_ok_mono s).
  - intros a ap H. specialize (Ha a ap H). lia.
  - exists r. simpl. rewrite lookup_insert_ne; [done|]. intros E. rewrite E in Hfresh. congruence.
  - intros n l' H. destruct (Hn n l' H) as (x' & Hx' & Hnn). exists x'. split; [|done].
    rewrite lookup_insert_ne; [done|]. intros E. rewrite E in Hfresh. congruence.
  - intros l' Hne Hlt. by rewrite lookup_insert_ne.
  - by apply appenders_keep_same.
  - by rewrite lookup_insert_eq.
Qed.
(** A new appender, with its level set, added to a logger: the logger's formatter is
    the appender's. *)
Lemma add_new_appender_ok k level l x f s :
  logs_ok s → loggers s !! l = Some x → m_formatter x = Some f →
  ∃ s', (let* ap := new_appender k in appender_setLevel level ap ;;; addAppender l ap) s = Ok (tt, s') ∧
    logs_ok s' ∧ only_logger l s s' ∧
    loggers s' !! l = Some (set_m_appenders (m_appenders x ++ [next s]) x) ∧
    appenders s' = <[next s := MkAppender k level (Some f)]> (appenders s) ∧
    m_loggers s' = m_loggers s ∧ G_Level s' = G_Level s.
Proof.
  intros Hok Hx Hf. pose proof Hok as [Hl Ha Hr Hn].
  destruct (Hl l x Hx) as [Hlt [Hap Hfm Hrt]].
  set (s1 := set_next (next s + 1) (set_appenders (<[next s := MkAppender k DEBUG None]> (appenders s)) s)).
  set (s2 := set_appenders (<[next s := MkAppender k level None]> (appenders s)) s1).
  set (s3 := set_appenders (<[next s := MkAppender k level (Some f)]> (appenders s)) s1).
  rewrite (bind_step _ _ s (next s) s1) by done.
  rewrite (bind_step _ _ s1 tt s2).
  2: { unfold appender_setLevel. erewrite update_appender_ok by (simpl; apply lookup_insert_eq).
       unfold s2. simpl. by rewrite insert_insert_eq. }
  set (y := set_m_appenders (m_appenders x ++ [next s]) x).
  set (s4 := set_loggers (<[l := y]> (loggers s3)) s3).
  assert (Hrun : addAppender l (next s) s2 = Ok (tt, s4)).
  { unfold addAppender. rewrite (bind_step _ _ s2 x s2) by by apply logger_at_ok.
    rewrite (bind_step _ _ s2 (MkAppender k level None) s2) by (apply appender_at_ok; simpl; apply lookup_insert_eq).
    rewrite (bind_step _ _ s2 tt s3).
    2: { simpl. unfold appender_setFormatter. erewrite update_appender_ok by (simpl; apply lookup_insert_eq).
         unfold s3. simpl. by rewrite insert_insert_eq, Hf. }
    by rewrite (update_logger_ok _ l x s3). }
  exists s4. split; [exact Hrun|].
  assert (Hkeep : ∀ a, appender_ok s a → appender_ok s3 a).
  { intros a (ap & g & Hg & Hgf). destruct (decide (a = next s)) as [->|Hne].
    - eexists _, f. simpl. by rewrite lookup_insert_eq.
    - exists ap, g. simpl. by rewrite lookup_insert_ne. }
  assert (Hok3 : logs_ok s3).
  { split; simpl.
    - intros l' x' H. destruct (Hl l' x' H). split; [lia|]. by apply (logger_ok_mono s).
    - intros a ap. destruct (decide (a = next s)) as [->|Hne]; [intros _; lia|].
      rewrite lookup_insert_ne by done. intros H. specialize (Ha a ap H). lia.
    - exact Hr.
    - exact Hn. }
  destruct (set_logger_ok l x y s3 Hok3 Hx) as [Hok4 Honly]; [|done|done|].
  { split; simpl.
    - apply Forall_app. split; [by eapply Forall_impl|]. apply Forall_singleton.
      eexists _, f. split; [apply lookup_insert_eq|done].
    - by exists f.
    - exact Hrt. }
  split; [exact Hok4|]. split.
  - eapply only_trans; [|exact Honly]. split; simpl; [done| |lia|done].
    intros a ap H. simpl. rewrite lookup_insert_ne; [done|]. intros <-. specialize (Ha _ _ H). lia.
  - split; [|done]. simpl. by rewrite lookup_insert_eq.
Qed.

(** ** The listener *)

Definition appender_type (a : LogAppenderDefine) : Prop := ad_type a = 1 ∨ ad_type a = 2.
Definition sink_of (a : LogAppenderDefine) : sink :=
  if ad_type a =? 1 then FileLogAppender (ad_file a) else StdoutLogAppender.

(** Appender [p] is the one definition [a] asks for, with formatter [f]. *)
Definition made s (f : option LogFormatter) (a : LogAppenderDefine) (p : Z) : Prop :=
  appenders s !! p = Some (MkAppender (sink_of a) (ad_level a) f).
Lemma made_mono s s' f as_ new : keeps s s' → Forall2 (made s f) as_ new → Forall2 (made s' f) as_ new.
Proof. intros Hk H. eapply Forall2_impl; [exact H|]. intros a p. apply Hk. Qed.

Lemma define_appenders_ok l as_ : ∀ x s,
  logs_ok s → loggers s !! l = Some x → Forall appender_type as_ →
  ∃ s' new, define_appenders l as_ s = Ok (tt, s') ∧ logs_ok s' ∧ only_logger l s s' ∧
    loggers s' !! l = Some (set_m_appenders (m_appenders x ++ new) x) ∧
    Forall2 (made s' (m_formatter x)) as_ new ∧ m_loggers s' = m_loggers s ∧ G_Level s' = G_Level s.
Proof.
  induction as_ as [|a as_ IH]; intros x s Hok Hx Has.
  - exists s, []. simpl. split; [done|]. split; [done|]. split; [apply only_refl|].
    rewrite app_nil_r. split; [by destruct x|done].
  - apply Forall_cons in Has as [Ha Has].
    assert (is_Some (m_formatter x)) as [f Hf] by (destruct Hok as [Hl _ _ _]; apply (Hl l x Hx)).
    destruct (add_new_appender_ok (sink_of a) (ad_level a) l x f s Hok Hx Hf)
      as (s1 & H1 & Hok1 & Honly1 & Hx1 & Ha1 & Hn1 & Hg1).
    destruct (IH _ s1 Hok1 Hx1 Has) as (s2 & new & H2 & Hok2 & Honly2 & Hx2 & Hlen & Hn2 & Hg2).
    exists s2, (next s :: new). split.
    { simpl. unfold bind in H1 |- *. unfold sink_of in H1.
      destruct Ha as [E|E]; rewrite E in H1 |- *; simpl in H1 |- *;
        destruct (appender_setLevel _ _ _) as [[[] s3]|] eqn:E3; try discriminate H1; by rewrite H1. }
    split; [done|]. split; [by eapply only_trans|]. split.
    { rewrite Hx2. simpl. by rewrite <- (assoc_L (++)). }
    split; [|split; congruence]. constructor; [|exact Hlen].
    unfold made. rewrite Hf. apply (on_keeps _ _ _ Honly2). by rewrite Ha1, lookup_insert_eq.
Qed.

Lemma getLogger_ok name s :
  logs_ok s → ∃ l x s', getLogger name s = Ok (l, s') ∧ logs_ok s' ∧ only_logger l s s' ∧
    loggers s' !! l = Some x ∧ m_name x = name ∧ m_loggers s' = <[name := l]> (m_loggers s) ∧ G_Level s' = G_Level s ∧
    match m_loggers s !! name with
    | Some l' => l' = l ∧ s' = s
    | None => m_appenders x = [] ∧ l = next s
    end.
Proof.
  intros Hok. unfold getLogger. step_in. destruct (m_loggers s !! name) as [l|] eqn:E.
  - destruct (ok_name _ Hok name l E) as (x & Hx & Hname). exists l, x, s.
    split; [done|]. split; [done|]. split; [apply only_refl|]. split; [done|]. split; [done|].
    split; [by rewrite insert_id|]. done.
  - destruct (Logger_ctor_ok name s Hok) as (s1 & H1 & Hok1 & Honly1 & Hx1 & Hn1 & Hg1).
    rewrite (bind_step _ _ _ _ _ H1). step_in. erewrite bind_step by by apply update_logger_ok.
    step_in. set (y := MkLogger _ _ _ _ _). eexists (next s), y, _. split; [done|].
    assert (Hr1 : rootless s1 (manager_root s1)) by apply (ok_root _ Hok1).
    assert (Hfr : manager_root s1 ≠ next s).
    { rewrite (on_root _ _ _ Honly1). destruct (ok_root _ Hok) as (r & Hr & _).
      destruct (ok_logger _ Hok _ _ Hr). lia. }
    split; [|split; [|split; [apply lookup_insert_eq|]]].
    + destruct Hok1 as [Hl Ha Hr Hn]. split; simpl.
      * intros l' x'. destruct (decide (l' = next s)) as [->|Hne].
        -- rewrite lookup_insert_eq. intros [= <-]. destruct (Hl _ _ Hx1) as [Hlt [? ? _]]. split; [done|].
           split; simpl; [constructor|by eexists|by intros r [= <-]].
        -- rewrite lookup_insert_ne by done. intros H. destruct (Hl l' x' H). split; [done|].
           by apply (logger_ok_mono s1).
      * exact Ha.
      * destruct Hr as (r & Hr & Hrr). exists r. simpl. by rewrite lookup_insert_ne.
      * intros n l'. rewrite Hn1. destruct (decide (n = name)) as [->|Hne].
        -- rewrite lookup_insert_eq. intros [= <-]. exists y. by rewrite lookup_insert_eq.
        -- rewrite lookup_insert_ne by done. intros H. destruct (ok_name _ Hok n l' H) as (x' & Hx' & Hnn).
           exists x'. split; [|done]. destruct (ok_logger _ Hok _ _ Hx').
           rewrite lookup_insert_ne by (intros <-; lia). rewrite (on_others _ _ _ Honly1) by (done || lia). done.
    + destruct Honly1 as [Ha Hb Hc Hd]. split; simpl; [|done|done|done].
      intros l' Hne Hlt. rewrite lookup_insert_ne by done. by apply Ha.
    + simpl. rewrite Hn1. done.
Qed.
(** ** Delivery *)
Section delivery.
Variable strftime : string → Z → string.
Variable can_open : string → bool.

(** What appender [a] makes of an event of a logger called [name], if it lets it pass. *)
Definition line (name : string) (level : Z) (event : LogEvent) s (a : Z) : option (sink * string) :=
  match appenders s !! a with
  | Some (MkAppender k al (Some f)) =>
      if (level >=? al) && (level >=? G_Level s) then Some (k, format strftime name level event f) else None
  | _ => None
  end.
Definition stdout_line name level event s a : option string :=
  match line name level event s a with Some (StdoutLogAppender, t) => Some t | _ => None end.
Definition file_line (n : string) name level event s a : option string :=
  match line name level event s a with
  | Some (FileLogAppender m, t) => if bool_decide (m = n) && can_open n then Some t else None
  | _ => None
  end.

(** The appenders an event given to logger [l] reaches. *)
Definition targets (l level : Z) s : list Z :=
  match loggers s !! l with
  | None => []
  | Some x =>
      if level >=? l_level x then
        match m_appenders x, m_root x with
        | [], Some r =>
            match loggers s !! r with
            | Some y => if level >=? l_level y then m_appenders y else []
            | None => []
            end
        | as_, _ => as_
        end
      else []
  end.

Definition texts (l : list string) : string := foldr (λ t r, t +:+ r) ""%string l.
Lemma texts_assoc (a b c : string) : (a +:+ b) +:+ c = a +:+ (b +:+ c).
Proof. induction a as [|x a IH]; [done|]. change (String x ((a +:+ b) +:+ c) = String x (a +:+ (b +:+ c))). by rewrite IH. Qed.
Lemma texts_nil (a : string) : a +:+ "" = a.
Proof. induction a as [|x a IH]; [done|]. change (String x (a +:+ "") = String x a). by rewrite IH. Qed.

(** The output after the appenders [as_] have dealt with the event. *)
Definition delivered name level event (as_ : list Z) s s' : Prop :=
  s' = set_output (out s') (files s') s ∧
  out s' = out s +:+ texts (omap (stdout_line name level event s) as_) ∧
  ∀ n, files s' !! n = match last (omap (file_line n name level event s) as_) with
                       | Some t => Some t
                       | None => files s !! n
                       end.

Lemma delivered_nil name level event s : delivered name level event [] s s.
Proof. split; [by destruct s|]. split; [by rewrite texts_nil|done]. Qed.

Lemma line_output name level event s o fs a :
  line name level event (set_output o fs s) a = line name level event s a.
Proof. done. Qed.

Lemma appender_log_ok level event a e s :
  appender_ok s a → loggers s !! m_logger event = Some e →
  ∃ s', appender_log strftime can_open level event a s = Ok (tt, s') ∧ delivered (m_name e) level event [a] s s'.
Proof.
  intros (ap & f & Hap & Hf) He. unfold appender_log.
  rewrite (bind_step _ _ _ _ _ (appender_at_ok a ap s Hap)).
  assert (Hline : line (m_name e) level event s a =
    if (level >=? a_level ap) && (level >=? G_Level s)
    then Some (a_sink ap, format strftime (m_name e) level event f) else None).
  { unfold line. rewrite Hap. destruct ap as [k al af]. simpl in *. by rewrite Hf. }
  set (text := format strftime (m_name e) level event f) in *.
  assert (Hnone : (level >=? a_level ap) && (level >=? G_Level s) = false →
    ∃ s', ret tt s = Ok (tt, s') ∧ delivered (m_name e) level event [a] s s').
  { intros Eg. rewrite Eg in Hline. exists s. split; [done|]. split; [by destruct s|]. simpl.
    unfold stdout_line, file_line. rewrite Hline. split; [by rewrite texts_nil|done]. }
  destruct (a_sink ap) as [|filename] eqn:Ek; unfold StdoutLogAppender_log, FileLogAppender_log; step_in;
    (destruct (_ && _); [|by apply Hnone]); rewrite Hf.
  - step_in. erewrite bind_step by (by apply logger_at_ok). eexists. split; [done|].
    split; [done|]. simpl. unfold stdout_line, file_line. rewrite Hline. simpl. fold text.
    split; [by rewrite texts_nil|done].
  - unfold reopen. destruct (can_open filename) eqn:Ho.
    + set (s1 := set_output (out s) (<[filename := ""%string]> (files s)) s).
      rewrite (bind_step _ _ s true s1) by done. step_in.
      rewrite (bind_step _ _ s1 e s1) by by apply logger_at_ok. eexists. split; [done|].
      split; [done|]. simpl. unfold stdout_line, file_line. rewrite Hline. split; [by rewrite texts_nil|].
      intros n. fold text. destruct (decide (filename = n)) as [->|Hne].
      * rewrite bool_decide_true, Ho by done. simpl. by rewrite lookup_alter_eq, lookup_insert_eq.
      * rewrite bool_decide_false by done. simpl. by rewrite lookup_alter_ne, lookup_insert_ne.
    + rewrite (bind_step _ _ s false s) by done. step_in.
      rewrite (bind_step _ _ s e s) by by apply logger_at_ok. exists s. split; [done|].
      split; [by destruct s|]. simpl. unfold stdout_line, file_line. rewrite Hline.
      split; [by rewrite texts_nil|]. intros n. destruct (decide (filename = n)) as [->|Hne].
      * by rewrite Ho, andb_false_r.
      * by rewrite bool_decide_false.
Qed.

Lemma texts_app l1 l2 : texts (l1 ++ l2) = texts l1 +:+ texts l2.
Proof. induction l1 as [|t l1 IH]; [done|]. simpl. by rewrite IH, texts_assoc. Qed.

Lemma omap_same {A B} (f g : A → option B) (l : list A) : (∀ a, f a = g a) → omap f l = omap g l.
Proof. intros H. apply list_omap_ext, Forall2_same_length_lookup. split; [done|]. intros. congruence. Qed.

Lemma delivered_app name level event l1 l2 s s1 s2 :
  delivered name level event l1 s s1 → delivered name level event l2 s1 s2 →
  delivered name level event (l1 ++ l2) s s2.
Proof.
  intros (E1 & Ho1 & Hf1) (E2 & Ho2 & Hf2).
  assert (Hl : ∀ a, line name level event s1 a = line name level event s a) by (intros a; by rewrite E1).
  split; [rewrite E2; by rewrite E1|]. rewrite !omap_app. split.
  - rewrite Ho2, Ho1, texts_app, texts_assoc. do 3 f_equal. apply omap_same. intros a. unfold stdout_line. by rewrite Hl.
  - intros n. rewrite omap_app, last_app, Hf2, Hf1.
    assert (omap (file_line n name level event s1) l2 = omap (file_line n name level event s) l2) as ->.
    { apply omap_same. intros a. unfold file_line. by rewrite Hl. }
    by destruct (last (omap (file_line n name level event s) l2)), (last (omap (file_line n name level event s) l1)).
Qed.

Lemma each_appender_ok level event as_ e : ∀ s,
  Forall (appender_ok s) as_ → loggers s !! m_logger event = Some e →
  ∃ s', each_appender strftime can_open level event as_ s = Ok (tt, s') ∧ delivered (m_name e) level event as_ s s'.
Proof.
  induction as_ as [|a as_ IH]; intros s Has He; simpl.
  - exists s. split; [done|]. apply delivered_nil.
  - apply Forall_cons in Has as [Ha Has].
    destruct (appender_log_ok level event a e s Ha He) as (s1 & H1 & Hd1).
    pose proof Hd1 as (E1 & _). rewrite (bind_step _ _ _ _ _ H1).
    destruct (IH s1) as (s2 & H2 & Hd2); [by rewrite E1|by rewrite E1|].
    exists s2. split; [done|]. by apply (delivered_app _ _ _ [a] as_ s s1 s2).
Qed.

(** Logging an event never fails on a well-formed set of loggers and always
    returns.  The event reaches the logger's appenders in order, or those of the root
    if it has none, each logger and appender filtering by its level and by the
    global one.  What the standard output appenders format is written in that order;
    a file that has been given an event holds the last one only, because the
    appender opens the file anew, truncating it, for every event. *)
Lemma log_ok l level event e s :
  logs_ok s → loggers s !! m_logger event = Some e → is_Some (loggers s !! l) →
  ∃ s', log strftime can_open log_fuel l level event s = Ok (tt, s') ∧
    delivered (m_name e) level event (targets l level s) s s'.
Proof.
  intros Hok He [x Hx]. destruct (ok_logger _ Hok l x Hx) as [_ [Hap _ Hroot]].
  unfold log_fuel, targets. rewrite Hx. cbn [log]. rewrite (bind_step _ _ _ _ _ (logger_at_ok l x s Hx)).
  destruct (level >=? l_level x); [|exists s; split; [done|apply delivered_nil]].
  destruct (m_appenders x) as [|a as_] eqn:Eas; [|by apply each_appender_ok].
  destruct (m_root x) as [r|]; [|exists s; split; [done|apply delivered_nil]].
  rewrite (Hroot r eq_refl). destruct (ok_root _ Hok) as (y & Hy & Hyr). rewrite Hy.
  rewrite (bind_step _ _ _ _ _ (logger_at_ok _ y s Hy)).
  destruct (ok_logger _ Hok _ y Hy) as [_ [Hapy _ _]].
  destruct (level >=? l_level y); [|exists s; split; [done|apply delivered_nil]].
  destruct (m_appenders y) as [|b bs] eqn:Eb; [rewrite Hyr; exists s; split; [done|apply delivered_nil]|].
  by apply each_appender_ok.
Qed.

(** ** The configuration *)

(** The logger known by a name. *)
Definition named s (n : string) : option Logger := m_loggers s !! n ≫= λ l, loggers s !! l.

(** What a definition makes of logger [base]: the appenders of the definition, in order,
    behind those it had. *)
Definition configured (base : Logger) (i : LogDefine) (x : Logger) s : Prop :=
  l_level x = d_level i ∧
  m_formatter x = (if String.eqb (d_formatter i) "" || m_isError (LogFormatter_ctor (d_formatter i))
                   then m_formatter base else Some (LogFormatter_ctor (d_formatter i))) ∧
  ∃ new, Forall2 (made s (m_formatter x)) (d_appenders i) new ∧ m_appenders x = m_appenders base ++ new.

End delivery.

Lemma named_frame l n s s' :
  logs_ok s → only_logger l s s' → m_loggers s' !! n = m_loggers s !! n →
  (∀ x, loggers s !! l = Some x → m_name x ≠ n) → named s' n = named s n.
Proof.
  intros Hok Honly Hn Hname. unfold named. rewrite Hn.
  destruct (m_loggers s !! n) as [k|] eqn:E; [|done]. simpl.
  destruct (ok_name _ Hok n k E) as (x & Hx & Hxn). destruct (ok_logger _ Hok k x Hx).
  apply (on_others _ _ _ Honly); [|done]. intros ->. by apply (Hname x).
Qed.
Lemma named_at s n l x : m_loggers s !! n = Some l → loggers s !! l = Some x → named s n = Some x.
Proof. intros Hn Hx. unfold named. by rewrite Hn. Qed.

Lemma setLevel_ok v l x s :
  logs_ok s → loggers s !! l = Some x →
  ∃ s' y, setLevel v l s = Ok (tt, s') ∧ logs_ok s' ∧ only_logger l s s' ∧ loggers s' !! l = Some y ∧
    m_loggers s' = m_loggers s ∧
    y = MkLogger (m_name x) v (m_appenders x) (m_formatter x) (m_root x).
Proof.
  intros Hok Hx. unfold setLevel. rewrite (update_logger_ok _ l x s Hx).
  set (y := MkLogger _ _ _ _ _). destruct (ok_logger _ Hok l x Hx) as [_ [? ? ?]].
  destruct (set_logger_ok l x y s Hok Hx) as [Hok' Honly]; [by split|done|done|].
  eexists _, y. split; [done|]. split; [done|]. split; [done|]. split; [|done]. apply lookup_insert_eq.
Qed.

Lemma setFormatter_ok (val : string) l x s :
  logs_ok s → loggers s !! l = Some x →
  ∃ s' y, when (negb (String.eqb val "")) (setFormatter val l) s = Ok (tt, s') ∧ logs_ok s' ∧ only_logger l s s' ∧
    loggers s' !! l = Some y ∧ m_loggers s' = m_loggers s ∧
    y = MkLogger (m_name x) (l_level x) (m_appenders x)
          (if String.eqb val "" || m_isError (LogFormatter_ctor val) then m_formatter x
           else Some (LogFormatter_ctor val)) (m_root x).
Proof.
  intros Hok Hx.
  assert (Hsame : ∃ y, only_logger l s s ∧ loggers s !! l = Some y ∧ y = x ∧ m_loggers s = m_loggers s)
    by (exists x; split; [apply only_refl|done]).
  destruct (String.eqb val "") eqn:Ev; cbn [negb when orb].
  { destruct Hsame as (y & ? & ? & -> & _). exists s, x. repeat (split; [done|]). by destruct x. }
  unfold setFormatter. rewrite (bind_step _ _ _ _ _ (logger_at_ok l x s Hx)).
  destruct (m_isError (LogFormatter_ctor val)).
  { destruct Hsame as (y & ? & ? & -> & _). exists s, x. repeat (split; [done|]). by destruct x. }
  unfold setFormatter_ptr. rewrite (update_logger_ok _ l x s Hx).
  set (y := MkLogger _ _ _ (Some _) _). destruct (ok_logger _ Hok l x Hx) as [_ [? ? ?]].
  destruct (set_logger_ok l x y s Hok Hx) as [Hok' Honly]; [split; try done; by eexists|done|done|].
  eexists _, y. split; [done|]. split; [done|]. split; [done|]. split; [|done]. apply lookup_insert_eq.
Qed.

(** Putting a configured logger in its place. *)
Lemma addLogger_ok name l x s :
  logs_ok s → loggers s !! l = Some x → m_name x = name →
  ∃ s', (addLogger name l ;;; ret tt) s = Ok (tt, s') ∧ logs_ok s' ∧ only_logger l s s' ∧ appenders s' = appenders s ∧
    named s' name = Some x ∧ m_loggers s' = <[name := l]> (m_loggers s).
Proof.
  intros Hok Hx Hname. pose proof Hok as [Hl Ha Hr Hn]. eexists. split; [done|]. split; [split; simpl; try done|].
  - intros l' x' H. destruct (Hl l' x' H). split; [done|]. by apply (logger_ok_mono s).
  - intros n l'. destruct (decide (n = name)) as [->|Hne].
    + rewrite lookup_insert_eq. intros [= <-]. by exists x.
    + rewrite lookup_insert_ne by done. apply Hn.
  - split; [split; [done|by apply appenders_keep_same|simpl; lia|done]|]. split; [done|]. split; [|done].
    apply (named_at _ _ l); [apply lookup_insert_eq|done].
Qed.

(** The logger a definition starts from: the one of that name when the definition has
    changed, a new one when there was none. *)
Definition starting (old_value : list LogDefine) (i : LogDefine) s : Logger :=
  match find_define (d_name i) old_value, named s (d_name i) with
  | Some _, Some x => x
  | _, _ => fresh_logger (d_name i)
  end.

Lemma configured_mono s s' base i x : keeps s s' → configured base i x s → configured base i x s'.
Proof. intros Hk (? & ? & new & Hn & ?). split; [done|]. split; [done|]. exists new. split; [by apply (made_mono s)|done]. Qed.

Lemma apply_define_ok old_value i s :
  logs_ok s → Forall appender_type (d_appenders i) → find_define (d_name i) old_value ≠ Some i →
  ∃ s' x, apply_define old_value i s = Ok (tt, s') ∧ logs_ok s' ∧ keeps s s' ∧
    (∀ n, n ≠ d_name i → named s' n = named s n) ∧ named s' (d_name i) = Some x ∧
    configured (starting old_value i s) i x s'.
Proof.
  intros Hok Hty Hne.
  assert (Hstart : ∃ l x s1, (match find_define (d_name i) old_value with
      | None => let* l := Logger_ctor (d_name i) in ret (Some l)
      | Some o => if bool_decide (i = o) then ret None else let* l := getLogger (d_name i) in ret (Some l)
      end) s = Ok (Some l, s1) ∧ logs_ok s1 ∧ only_logger l s s1 ∧ loggers s1 !! l = Some x ∧
      m_name x = d_name i ∧ (∀ n, n ≠ d_name i → m_loggers s1 !! n = m_loggers s !! n) ∧
      m_formatter x = m_formatter (starting old_value i s) ∧ m_appenders x = m_appenders (starting old_value i s) ∧
      (∀ y, loggers s !! l = Some y → m_name y = d_name i)).
  { unfold starting. destruct (find_define (d_name i) old_value) as [o|] eqn:Ef.
    - rewrite bool_decide_false by congruence.
      destruct (getLogger_ok (d_name i) s Hok) as (l & x & s1 & H1 & Hok1 & Honly1 & Hx1 & Hn1 & Hm1 & _ & Hcase).
      exists l, x, s1. rewrite (bind_step _ _ _ _ _ H1).
      split; [done|]. do 4 (split; [done|]). split; [intros n Hn; by rewrite Hm1, lookup_insert_ne|].
      destruct (m_loggers s !! d_name i) as [l'|] eqn:Em.
      + destruct Hcase as [-> ->]. rewrite (named_at s (d_name i) l x Em Hx1).
        split; [done|]. split; [done|]. intros y Hy. rewrite Hx1 in Hy. by injection Hy as <-.
      + destruct Hcase as [Happ ->]. unfold named. rewrite Em. simpl. rewrite Happ.
        assert (Hf : loggers s !! next s = None).
        { destruct (loggers s !! next s) eqn:E; [|done]. destruct (ok_logger _ Hok _ _ E). lia. }
        split; [|split; [done|intros y Hy; congruence]].
        revert H1 Hx1. unfold getLogger, bind at 1, gets at 1. rewrite Em.
        destruct (Logger_ctor_ok (d_name i) s Hok) as (s2 & H2 & _ & _ & Hx2 & _).
        rewrite (bind_step _ _ _ _ _ H2). unfold bind at 1, gets at 1.
        erewrite bind_step by by apply update_logger_ok.
        intros [= <-]. simpl. rewrite lookup_insert_eq. by intros [= <-].
    - destruct (Logger_ctor_ok (d_name i) s Hok) as (s1 & H1 & Hok1 & Honly1 & Hx1 & Hm1 & _).
      exists (next s), (fresh_logger (d_name i)), s1. rewrite (bind_step _ _ _ _ _ H1).
      split; [done|]. do 4 (split; [done|]). split; [by rewrite Hm1|]. split; [done|]. split; [done|].
      intros y Hy. destruct (ok_logger _ Hok _ _ Hy). lia. }
  destruct Hstart as (l & x & s1 & H1 & Hok1 & Honly1 & Hx1 & Hname1 & Hm1 & Hf1 & Ha1 & Hold).
  destruct (setLevel_ok (d_level i) l x s1 Hok1 Hx1) as (s2 & x2 & H2 & Hok2 & Honly2 & Hx2 & Hm2 & E2).
  destruct (setFormatter_ok (d_formatter i) l x2 s2 Hok2 Hx2) as (s3 & x3 & H3 & Hok3 & Honly3 & Hx3 & Hm3 & E3).
  destruct (define_appenders_ok l (d_appenders i) x3 s3 Hok3 Hx3 Hty)
    as (s4 & new & H4 & Hok4 & Honly4 & Hx4 & Hlen & Hm4 & _).
  destruct (addLogger_ok (d_name i) l _ s4 Hok4 Hx4) as (s5 & H5 & Hok5 & Honly5 & Ha5 & Hx5 & Hm5);
    [by rewrite E3, E2|].
  assert (Honly : only_logger l s s5) by (do 4 (eapply only_trans; [eassumption|]); exact Honly5).
  eexists s5, _. split; [|split; [done|split; [by apply (on_keeps _ _ _ Honly)|split; [|split; [exact Hx5|]]]]].
  - unfold apply_define. rewrite (bind_step _ _ _ _ _ H1). step_in.
    rewrite (bind_step _ _ _ _ _ H2), (bind_step _ _ _ _ _ H3), (bind_step _ _ _ _ _ H4). exact H5.
  - intros n Hn. eapply (named_frame l); [done| |rewrite Hm5, lookup_insert_ne by congruence; rewrite Hm4, Hm3, Hm2; by apply Hm1|].
    + exact Honly.
    + intros y Hy E. apply Hn. rewrite <- E. by apply Hold.
  - split; [by rewrite E3, E2|]. split; [by rewrite E3, E2; cbn [m_formatter]; rewrite Hf1|].
    exists new. split; [|by simpl; rewrite E3, E2; simpl; rewrite Ha1].
    eapply made_mono; [by apply appenders_keep_same|exact Hlen].
Qed.
(** An unchanged definition has no logger. *)
Lemma unchanged_define_faults old_value i s :
  find_define (d_name i) old_value = Some i → apply_define old_value i s = Fault (NullDeref "logger").
Proof. intros H. unfold apply_define. by rewrite H, bool_decide_true by done. Qed.

Lemma apply_defines_ok old_value new_value : ∀ s,
  logs_ok s → Forall (λ i, Forall appender_type (d_appenders i)) new_value →
  Forall (λ i, find_define (d_name i) old_value ≠ Some i) new_value → NoDup (map d_name new_value) →
  ∃ s', apply_defines old_value new_value s = Ok (tt, s') ∧ logs_ok s' ∧ keeps s s' ∧
    (∀ n, n ∉ map d_name new_value → named s' n = named s n) ∧
    ∀ i, i ∈ new_value → ∃ x, named s' (d_name i) = Some x ∧ configured (starting old_value i s) i x s'.
Proof.
  induction new_value as [|i rest IH]; intros s Hok Hty Hne Hnd; simpl.
  { exists s. split; [done|]. split; [done|]. split; [by apply appenders_keep_same|]. split; [done|].
    intros i Hi. by apply not_elem_of_nil in Hi. }
  apply Forall_cons in Hty as [Hty1 Hty]. apply Forall_cons in Hne as [Hne1 Hne].
  apply NoDup_cons in Hnd as [Hi Hnd].
  destruct (apply_define_ok old_value i s Hok Hty1 Hne1) as (s1 & x & H1 & Hok1 & Hk1 & Hframe1 & Hx1 & Hc1).
  destruct (IH s1 Hok1 Hty Hne Hnd) as (s2 & H2 & Hok2 & Hk2 & Hframe2 & Hall).
  exists s2. rewrite (bind_step _ _ _ _ _ H1). split; [done|]. split; [done|].
  split; [by eapply appenders_keep_trans|]. split.
  - intros n Hn. rewrite not_elem_of_cons in Hn. destruct Hn as [Hn Hn'].
    by rewrite Hframe2, Hframe1.
  - intros j Hj. apply elem_of_cons in Hj as [->|Hj].
    + exists x. rewrite Hframe2 by done. split; [done|]. by apply (configured_mono s1).
    + destruct (Hall j Hj) as (y & Hy & Hcy). exists y. split; [done|].
      assert (Hij : d_name j ≠ d_name i).
      { intros E. apply Hi. rewrite <- E. by apply list_elem_of_In, in_map, list_elem_of_In. }
      unfold starting in *. by rewrite Hframe1 in Hcy.
Qed.

(** A logger that has been switched off. *)
Definition silenced (x : Logger) : Prop := l_level x = 100 ∧ m_appenders x = [].

Lemma drop_define_ok new_value i s :
  logs_ok s →
  ∃ s', drop_define new_value i s = Ok (tt, s') ∧ logs_ok s' ∧ keeps s s' ∧ (∀ n, n ≠ d_name i → named s' n = named s n) ∧
    match find_define (d_name i) new_value with
    | Some _ => s' = s
    | None => ∃ x, named s' (d_name i) = Some x ∧ silenced x
    end.
Proof.
  intros Hok. unfold drop_define. destruct (find_define (d_name i) new_value).
  { exists s. split; [done|]. split; [done|]. split; [by apply appenders_keep_same|done]. }
  destruct (getLogger_ok (d_name i) s Hok) as (l & x & s1 & H1 & Hok1 & Honly1 & Hx1 & Hn1 & Hm1 & _ & Hcase).
  rewrite (bind_step _ _ _ _ _ H1).
  destruct (setLevel_ok 100 l x s1 Hok1 Hx1) as (s2 & x2 & H2 & Hok2 & Honly2 & Hx2 & Hm2 & E2).
  rewrite (bind_step _ _ _ _ _ H2). unfold clearAppenders. rewrite (update_logger_ok _ l x2 s2 Hx2).
  set (y := set_m_appenders [] x2). destruct (ok_logger _ Hok2 l x2 Hx2) as [_ [_ ? ?]].
  destruct (set_logger_ok l x2 y s2 Hok2 Hx2) as [Hok3 Honly3]; [split; try done; constructor|done|done|].
  assert (Honly : only_logger l s (set_loggers (<[l := y]> (loggers s2)) s2))
    by (do 2 (eapply only_trans; [eassumption|]); done).
  eexists. split; [done|]. split; [done|]. split; [apply (on_keeps _ _ _ Honly)|].
  assert (Hname : ∀ n, m_loggers s2 !! n = <[d_name i := l]> (m_loggers s) !! n) by (intros n; by rewrite Hm2, Hm1).
  split.
  - intros n Hn. apply (named_frame l); [done|done| |].
    + simpl. by rewrite Hname, lookup_insert_ne by congruence.
    + intros z Hz E. apply Hn. rewrite <- E. destruct (m_loggers s !! d_name i) as [l'|] eqn:Em.
      * destruct Hcase as [-> ->]. rewrite Hx1 in Hz. by injection Hz as <-.
      * destruct Hcase as [_ ->]. destruct (ok_logger _ Hok _ _ Hz). lia.
  - exists y. split; [|unfold y; by rewrite E2]. apply (named_at _ _ l); simpl.
    + by rewrite Hname, lookup_insert_eq.
    + apply lookup_insert_eq.
Qed.

Lemma drop_defines_ok new_value old_value : ∀ s,
  logs_ok s → NoDup (map d_name old_value) →
  ∃ s', drop_defines new_value old_value s = Ok (tt, s') ∧ logs_ok s' ∧ keeps s s' ∧
    (∀ n, n ∉ map d_name old_value ∨ find_define n new_value ≠ None → named s' n = named s n) ∧
    ∀ i, i ∈ old_value → find_define (d_name i) new_value = None →
      ∃ x, named s' (d_name i) = Some x ∧ silenced x.
Proof.
  induction old_value as [|i rest IH]; intros s Hok Hnd; simpl.
  { exists s. split; [done|]. split; [done|]. split; [by apply appenders_keep_same|]. split; [done|].
    intros i Hi. by apply not_elem_of_nil in Hi. }
  apply NoDup_cons in Hnd as [Hi Hnd].
  destruct (drop_define_ok new_value i s Hok) as (s1 & H1 & Hok1 & Hk1 & Hframe1 & Hcase).
  destruct (IH s1 Hok1 Hnd) as (s2 & H2 & Hok2 & Hk2 & Hframe2 & Hall).
  exists s2. rewrite (bind_step _ _ _ _ _ H1). split; [done|]. split; [done|].
  split; [by eapply appenders_keep_trans|]. split.
  - intros n Hn. destruct (decide (n = d_name i)) as [->|Hne].
    + destruct Hn as [Hn|Hn]; [by rewrite not_elem_of_cons in Hn; destruct Hn|].
      rewrite Hframe2 by by left. destruct (find_define (d_name i) new_value); [by subst|done].
    + rewrite Hframe2; [by apply Hframe1|]. destruct Hn as [Hn|]; [left|by right].
      rewrite not_elem_of_cons in Hn. by destruct Hn.
  - intros j Hj Hnone. apply elem_of_cons in Hj as [->|Hj]; [|by apply Hall].
    rewrite Hnone in Hcase. rewrite Hframe2 by by left. done.
Qed.

Lemma find_define_elem n set d : find_define n set = Some d → d ∈ set ∧ d_name d = n.
Proof.
  unfold find_define. destruct (list_find _ set) as [[k x]|] eqn:E; [|done]. simpl. intros [= <-].
  apply list_find_Some in E as (H & ? & _). split; [|done]. by apply list_elem_of_lookup_2 in H.
Qed.
Lemma find_define_None n set : find_define n set = None ↔ n ∉ map d_name set.
Proof.
  unfold find_define. destruct (list_find _ set) as [[k x]|] eqn:E; simpl; split; try done.
  - apply list_find_Some in E as (H & <- & _). intros Hn. destruct Hn.
    apply list_elem_of_In, in_map, list_elem_of_In. by apply list_elem_of_lookup_2 in H.
  - intros _ Hn. apply list_find_None in E. apply list_elem_of_In, in_map_iff in Hn as (d & Hd & Hin).
    rewrite Forall_forall in E. by apply (E d); [apply list_elem_of_In|].
Qed.
Lemma find_define_unique set d : NoDup (map d_name set) → d ∈ set → find_define (d_name d) set = Some d.
Proof.
  intros Hnd Hd. destruct (find_define (d_name d) set) as [x|] eqn:E.
  - apply find_define_elem in E as [Hx Hn]. f_equal.
    apply list_elem_of_lookup in Hd as [i Hi]. apply list_elem_of_lookup in Hx as [j Hj].
    assert (i = j) as ->; [|congruence].
    change (map d_name set) with (d_name <$> set) in Hnd.
    eapply (NoDup_lookup (d_name <$> set)); [done|by rewrite list_lookup_fmap, Hi|].
    rewrite list_lookup_fmap, Hj. simpl. by rewrite Hn.
  - apply find_define_None in E. destruct E. by apply list_elem_of_In, in_map, list_elem_of_In.
Qed.
Lemma apply_defines_faults old_value new_value d : ∀ s,
  logs_ok s → Forall (λ i, Forall appender_type (d_appenders i)) new_value →
  d ∈ new_value → find_define (d_name d) old_value = Some d →
  apply_defines old_value new_value s = Fault (NullDeref "logger").
Proof.
  induction new_value as [|i rest IH]; intros s Hok Hty Hd Hf; [by apply not_elem_of_nil in Hd|].
  apply Forall_cons in Hty as [Hty1 Hty]. simpl.
  destruct (decide (find_define (d_name i) old_value = Some i)) as [Hi|Hi].
  - unfold bind. by rewrite unchanged_define_faults.
  - destruct (apply_define_ok old_value i s Hok Hty1 Hi) as (s1 & x & H1 & Hok1 & _).
    rewrite (bind_step _ _ _ _ _ H1). apply IH; try done.
    apply elem_of_cons in Hd as [->|Hd]; [by destruct Hi|done].
Qed.

Lemma output_ok o fs s : logs_ok s → logs_ok (set_output o fs s).
Proof. intros [Hl Ha Hr Hn]. split; simpl; try done. intros l x Hx. destruct (Hl l x Hx) as [? [? ? ?]]. by split. Qed.
Lemma announce_ok strftime can_open announce e s :
  logs_ok s → loggers s !! m_logger announce = Some e →
  ∃ o fs, SYLAR_LOG_LEVEL strftime can_open announce s = Ok (tt, set_output o fs s).
Proof.
  intros Hok He. unfold SYLAR_LOG_LEVEL. rewrite (bind_step _ _ _ _ _ (logger_at_ok _ e s He)).
  destruct (l_level e <=? m_level announce); simpl.
  - destruct (log_ok strftime can_open (m_logger announce) (m_level announce) announce e s Hok He)
      as (s' & H & E & _); [by eexists|]. rewrite E in H. eauto.
  - exists (out s), (files s). by destruct s.
Qed.

(** The listener of the log configuration.  If a definition is in the old set and
    the new one, unchanged, it dereferences a null logger.  Otherwise it returns:
    every new definition's name has a logger with the definition's level, its
    formatter if it is valid, and its appenders behind those the logger had if it
    existed; the loggers that lost their definition are switched off; the others are
    as they were. *)
Lemma logs_listener_ok strftime can_open announce e old_value new_value s :
  logs_ok s → loggers s !! m_logger announce = Some e →
  Forall (λ i, Forall appender_type (d_appenders i)) new_value →
  NoDup (map d_name old_value) → NoDup (map d_name new_value) →
  ((∃ d, d ∈ new_value ∧ d ∈ old_value) →
   logs_changed strftime can_open announce old_value new_value s = Fault (NullDeref "logger")) ∧
  ((∀ d, d ∈ new_value → d ∉ old_value) →
   ∃ s', logs_changed strftime can_open announce old_value new_value s = Ok (tt, s') ∧ logs_ok s' ∧ keeps s s' ∧
    (∀ d, d ∈ new_value → ∃ x, named s' (d_name d) = Some x ∧ configured (starting old_value d s) d x s') ∧
    (∀ d, d ∈ old_value → d_name d ∉ map d_name new_value →
       ∃ x, named s' (d_name d) = Some x ∧ silenced x) ∧
    (∀ n, n ∉ map d_name new_value → n ∉ map d_name old_value → named s' n = named s n)).
Proof.
  intros Hok He Hty Hold Hnew. destruct (announce_ok strftime can_open announce e s Hok He) as (o & fs & Ha).
  set (s0 := set_output o fs s) in *. assert (Hok0 : logs_ok s0) by by apply output_ok.
  unfold logs_changed. rewrite (bind_step _ _ _ _ _ Ha). split.
  - intros (d & Hd & Hd'). unfold bind at 1.
    by rewrite (apply_defines_faults old_value new_value d) by (done || by apply find_define_unique).
  - intros Hchanged.
    destruct (apply_defines_ok old_value new_value s0 Hok0 Hty) as (s1 & H1 & Hok1 & Hk1 & Hframe1 & Hall1); [|done|].
    { rewrite Forall_forall. intros i Hi E. apply find_define_elem in E as [E _].
      by apply (Hchanged i). }
    destruct (drop_defines_ok new_value old_value s1 Hok1 Hold) as (s2 & H2 & Hok2 & Hk2 & Hframe2 & Hall2).
    exists s2. rewrite (bind_step _ _ _ _ _ H1). split; [done|]. split; [done|].
    split; [by apply (appenders_keep_trans s0 s1)|]. split; [|split].
    + intros d Hd. destruct (Hall1 d Hd) as (x & Hx & Hc). exists x. split; [|by apply (configured_mono s1)].
      rewrite Hframe2; [done|]. right. intros E. apply find_define_None in E. destruct E.
      by apply list_elem_of_In, in_map, list_elem_of_In.
    + intros d Hd Hn. apply Hall2; [done|]. by apply find_define_None.
    + intros n Hn Hn'. rewrite Hframe2 by by left. by apply Hframe1.
Qed.

(** ** A started manager, with a logger [system] that writes to a file *)
Definition root_logger : Logger :=
  MkLogger "root" DEBUG [2] (Some (LogFormatter_ctor default_pattern)) None.
Definition system_logger : Logger :=
  MkLogger "system" INFO [4] (Some (LogFormatter_ctor "%p %m")) (Some 1).
Definition sample : Logs :=
  MkLogs {[1 := root_logger; 3 := system_logger]}
    {[2 := MkAppender StdoutLogAppender DEBUG (m_formatter root_logger);
      4 := MkAppender (FileLogAppender "log.txt") DEBUG (m_formatter system_logger)]}
    5 {["root" := 1; "system" := 3]} 1 DEBUG "" {["log.txt" := "earlier"]}%string.

Example LoggerManager_starts :
  ∃ s, LoggerManager_ctor no_logs = Ok (tt, s) ∧ loggers s !! 1 = Some root_logger ∧ m_loggers s !! "root"%string = Some 1.
Proof. eexists. split; [reflexivity|done]. Qed.

Lemma sample_ok : logs_ok sample.
Proof.
  split.
  - intros l x Hx. simpl in Hx. apply lookup_insert_Some in Hx as [[<- <-]|[_ Hx]].
    + split; [done|]. split; simpl.
      * apply Forall_singleton. by eexists _, _.
      * by eexists.
      * done.
    + apply lookup_singleton_Some in Hx as [<- <-]. split; [done|]. split; simpl.
      * apply Forall_singleton. by eexists _, _.
      * by eexists.
      * by intros r [= <-].
  - intros a ap Ha. simpl in Ha. apply lookup_insert_Some in Ha as [[<- _]|[_ Ha]]; [done|].
    by apply lookup_singleton_Some in Ha as [<- _].
  - by exists root_logger.
  - intros n l Hn. simpl in Hn. apply lookup_insert_Some in Hn as [[<- <-]|[_ Hn]]; [by exists root_logger|].
    apply lookup_singleton_Some in Hn as [<- <-]. by exists system_logger.
Qed.

Definition sample_event (l level : Z) : LogEvent := MkLogEvent "log.cc" 7 0 1 "main" 0 0 "hello" l level.
End LoggerFacts.
