(* ===== verification/Yamls.v ===== *)
(** * YAML nodes (yaml-cpp)

    What config.h, config.cc and log.cc use of [YAML::Node], as an interface: the class
    [Yaml] has one function for each call, and [YamlLaws] says what the documentation of
    yaml-cpp promises about them.  A node is a value here: the code never looks at a
    node again through a handle it kept while the node was changed. *)
From stdpp Require Import base list strings.
From Stdlib Require Import Ascii String.
From S2P Require Import Prelude.

Module Yaml.

(** [None] is an exception, but for [subscript], where it is inside an [option] that
    says whether the element [IsDefined()], and for [at_index], where it is a node that
    is not defined.  [iterate] is what [for (auto n : node)] yields, [members] the pairs
    of a map; [assign k v n] is [n[k] = v]; [emit] is [<<].  [depth] bounds the nesting
    of a node. *)
Class Yaml (Node : Type) := {
  null : Node;
  of_string : string → Node;
  assign : string → Node → Node → Node;
  push_back : Node → Node → Node;
  IsMap : Node → bool;
  IsScalar : Node → bool;
  Scalar : Node → string;
  as_string : Node → option string;
  subscript : string → Node → option (option Node);
  at_index : nat → Node → option Node;
  size : Node → nat;
  iterate : Node → list Node;
  members : Node → list (Node * Node);
  emit : Node → string;
  Load : string → option Node;
  depth : Node → nat;
}.

(** A word of letters. *)
Fixpoint word (s : string) : bool :=
  match s with
  | EmptyString => true
  | String c s =>
      let n := nat_of_ascii c in ((65 <=? n) && (n <=? 90) || (97 <=? n) && (n <=? 122))%nat && word s
  end.

(** A new node is null; an assignment to a key makes it a map and [push_back] a
    sequence.  [text] holds of the strings that YAML can represent, [plain] of the
    nodes that are made of such strings; these are loaded as they were emitted. *)
Class YamlLaws (Node : Type) `{!Yaml Node} := {
  mapping : Node → Prop;
  sequence : Node → Prop;
  text : string → Prop;
  plain : Node → Prop;
  mapping_null : mapping null;
  mapping_assign : ∀ k v n, mapping n → mapping (assign k v n);
  subscript_null : ∀ k, subscript k null = Some None;
  subscript_assign : ∀ k k' v n, mapping n →
    subscript k (assign k' v n) = if String.eqb k k' then Some (Some v) else subscript k n;
  sequence_null : sequence null;
  sequence_push : ∀ n v, sequence n → sequence (push_back n v);
  iterate_null : iterate null = [];
  iterate_push : ∀ n v, sequence n → iterate (push_back n v) = iterate n ++ [v];
  size_iterate : ∀ n, sequence n → size n = Datatypes.length (iterate n);
  index_iterate : ∀ x n, sequence n → at_index x n = iterate n !! x;
  as_string_of : ∀ s, as_string (of_string s) = Some s;
  text_word : ∀ s, word s = true → text s;
  plain_null : plain null;
  plain_string : ∀ s, text s → plain (of_string s);
  plain_assign : ∀ k v n, text k → plain v → plain n → plain (assign k v n);
  plain_push : ∀ n v, plain n → plain v → plain (push_back n v);
  load_emit : ∀ n, plain n → Load (emit n) = Some n;
  member_depth : ∀ n k v, (k, v) ∈ members n → (depth v < depth n)%nat;
}.

#[export] Hint Resolve mapping_null mapping_assign sequence_null sequence_push
  text_word plain_null plain_string plain_assign plain_push : sylar.

Section build.
Context {Node : Type} `{!Yaml Node}.

(** [n[k].push_back(v)] *)
Definition push_at (k : string) (v n : Node) : Node :=
  let old := match subscript k n with Some (Some c) => c | _ => null end in
  assign k (push_back old v) n.

Definition push_all (k : string) (vs : list Node) (n : Node) : Node := foldl (λ n v, push_at k v n) n vs.

(** A new node with [push_back] called for each element. *)
Definition seq_node (l : list Node) : Node := foldl push_back null l.

Context `{!YamlLaws Node}.

Lemma seq_node_snoc l v : seq_node (l ++ [v]) = push_back (seq_node l) v.
Proof. unfold seq_node. by rewrite foldl_app. Qed.

Lemma sequence_seq l : sequence (seq_node l).
Proof.
  induction l as [|v l IH] using rev_ind; [apply sequence_null|].
  rewrite seq_node_snoc. by apply sequence_push.
Qed.

Lemma iterate_seq l : iterate (seq_node l) = l.
Proof.
  induction l as [|v l IH] using rev_ind; [apply iterate_null|].
  rewrite seq_node_snoc, iterate_push by apply sequence_seq. by rewrite IH.
Qed.

Lemma plain_seq l : Forall plain l → plain (seq_node l).
Proof.
  induction l as [|v l IH] using rev_ind; [intros; apply plain_null|].
  intros [Hl Hv]%Forall_app. rewrite seq_node_snoc. apply plain_push; [by apply IH|].
  by inversion Hv.
Qed.

Lemma sequence_index l x : at_index x (seq_node l) = l !! x.
Proof. rewrite index_iterate by apply sequence_seq. by rewrite iterate_seq. Qed.
Lemma sequence_size l : size (seq_node l) = Datatypes.length l.
Proof. rewrite size_iterate by apply sequence_seq. by rewrite iterate_seq. Qed.

Lemma push_all_ok k vs : ∀ n l,
  mapping n → subscript k n = Some (match l with [] => None | _ => Some (seq_node l) end) →
  let n' := push_all k vs n in
  mapping n' ∧ subscript k n' = Some (match l ++ vs with [] => None | _ => Some (seq_node (l ++ vs)) end) ∧
  (∀ k', k' ≠ k → subscript k' n' = subscript k' n) ∧
  (plain n → text k → Forall plain (l ++ vs) → plain n').
Proof.
  induction vs as [|v vs IH]; intros n l Hn Hk; simpl.
  { rewrite app_nil_r. done. }
  assert (E : push_at k v n = assign k (seq_node (l ++ [v])) n).
  { unfold push_at. rewrite Hk, seq_node_snoc. by destruct l. }
  assert (Hk1 : subscript k (push_at k v n) =
    Some (match l ++ [v] with [] => None | _ => Some (seq_node (l ++ [v])) end)).
  { rewrite E, subscript_assign by done. rewrite String.eqb_refl. by destruct l. }
  destruct (IH (push_at k v n) (l ++ [v])) as (H1 & H2 & H3 & H4); [rewrite E; by apply mapping_assign|done|].
  rewrite <- (assoc_L (++)) in *. simpl in *. split; [exact H1|]. split; [exact H2|]. split.
  - intros k' Hne. rewrite H3 by done. rewrite E, subscript_assign by done.
    by rewrite (proj2 (String.eqb_neq k' k)).
  - intros Hp Ht Hl. apply H4; [|done|done]. rewrite E. apply plain_assign; [done| |done].
    apply plain_seq. change (l ++ v :: vs) with (l ++ ([v] ++ vs)) in Hl. rewrite (assoc_L (++)) in Hl. by apply Forall_app in Hl as [Hl _].
Qed.
End build.
End Yaml.
