(* ===== verification/YamlTrees.v ===== *)
(** * A concrete YAML library

    Trees with an emitter and a loader: the instance of [Yaml] at which the theorems on
    conversions and on configuration are applied.  A scalar is emitted as it is unless
    it could be taken for something else; every other node as an ampersand and the
    digits of its number. *)
From stdpp Require Import base countable list strings gmap.
From Stdlib Require Import ZArith Lia Ascii String.
From S2P Require Import Prelude Yamls.

Module YamlTree.
Import Yaml.

Inductive tree := Nil | Leaf (s : string) | Seq (l : list tree) | Branch (l : list (string * tree)).

(** ** Numbering *)
Fixpoint to_gen (n : tree) : gen_tree string :=
  match n with
  | Nil => GenNode 0 []
  | Leaf s => GenLeaf s
  | Seq l => GenNode 1 (map to_gen l)
  | Branch l => GenNode 2 (flat_map (λ x, [GenLeaf (fst x); to_gen (snd x)]) l)
  end.
Fixpoint of_gen (g : gen_tree string) : tree :=
  match g with
  | GenLeaf s => Leaf s
  | GenNode 0 _ => Nil
  | GenNode 1 l => Seq (map of_gen l)
  | GenNode _ l =>
      Branch ((fix pairs (l : list (gen_tree string)) : list (string * tree) :=
                 match l with
                 | GenLeaf k :: v :: l' => (k, of_gen v) :: pairs l'
                 | _ => []
                 end) l)
  end.
Lemma of_to_gen : ∀ n, of_gen (to_gen n) = n.
Proof.
  fix IH 1. intros [|s|l|l]; simpl; [done|done|f_equal..].
  - induction l as [|n l IHl]; [done|]. simpl. by rewrite IH, IHl.
  - induction l as [|[k v] l IHl]; [done|]. simpl. by rewrite IH, IHl.
Qed.

Fixpoint digits (p : positive) : string :=
  match p with
  | xH => EmptyString
  | xO p => String "0" (digits p)
  | xI p => String "1" (digits p)
  end.
Fixpoint number (s : string) : positive :=
  match s with
  | EmptyString => xH
  | String c s => if Ascii.eqb c "0" then xO (number s) else xI (number s)
  end.
Lemma number_digits p : number (digits p) = p.
Proof. induction p as [p IH|p IH|]; simpl; by rewrite ?IH. Qed.

Definition tree_emit (n : tree) : string :=
  match n with
  | Nil => ""
  | Leaf (String c s as t) => if Ascii.eqb c "&" then String "&" (digits (encode (to_gen n))) else t
  | _ => String "&" (digits (encode (to_gen n)))
  end.
Definition tree_load (s : string) : option tree :=
  match s with
  | EmptyString => Some Nil
  | String c t => if Ascii.eqb c "&" then of_gen <$> decode (number t) else Some (Leaf s)
  end.
Lemma tree_load_emit n : tree_load (tree_emit n) = Some n.
Proof.
  assert (H : tree_load (String "&" (digits (encode (to_gen n)))) = Some n).
  { simpl. rewrite number_digits, decode_encode. simpl. by rewrite of_to_gen. }
  destruct n as [|[|c s]|l|l]; [done|exact H| |exact H..].
  cbn -[encode to_gen] in *. destruct (Ascii.eqb c "&") eqn:E; [exact H|]. simpl. by rewrite E.
Qed.

(** ** The interface *)
Fixpoint put (k : string) (v : tree) (l : list (string * tree)) : list (string * tree) :=
  match l with
  | [] => [(k, v)]
  | (k', v') :: l' => if String.eqb k k' then (k, v) :: l' else (k', v') :: put k v l'
  end.
Fixpoint assoc (k : string) (l : list (string * tree)) : option tree :=
  match l with
  | [] => None
  | (k', v') :: l' => if String.eqb k k' then Some v' else assoc k l'
  end.
Lemma assoc_put k k' v l : assoc k (put k' v l) = if String.eqb k k' then Some v else assoc k l.
Proof.
  induction l as [|[a b] l IH]; simpl; [done|].
  destruct (String.eqb_spec k' a) as [->|Hne]; simpl; [by destruct (String.eqb k a)|].
  rewrite IH. destruct (String.eqb_spec k a) as [->|]; [|done].
  destruct (String.eqb_spec a k') as [->|]; [done|done].
Qed.

Fixpoint tree_depth (n : tree) : nat :=
  match n with
  | Branch l => S (foldr (λ x m, Nat.max (tree_depth (snd x)) m) 0 l)
  | _ => 0
  end%nat.

#[export] Instance tree_yaml : Yaml tree := {
  null := Nil;
  of_string := Leaf;
  assign := λ k v n, Branch (put k v (match n with Branch l => l | _ => [] end));
  push_back := λ n v, Seq ((match n with Seq l => l | _ => [] end) ++ [v]);
  IsMap := λ n, match n with Branch _ => true | _ => false end;
  IsScalar := λ n, match n with Leaf _ => true | _ => false end;
  Scalar := λ n, match n with Leaf s => s | _ => ""%string end;
  as_string := λ n, match n with Leaf s => Some s | _ => None end;
  subscript := λ k n, match n with Leaf _ => None | Branch l => Some (assoc k l) | _ => Some None end;
  at_index := λ x n, match n with Seq l => l !! x | _ => None end;
  size := λ n, match n with Seq l => Datatypes.length l | Branch l => Datatypes.length l | _ => 0%nat end;
  iterate := λ n, match n with Seq l => l | _ => [] end;
  members := λ n, match n with Branch l => map (λ x, (Leaf (fst x), snd x)) l | _ => [] end;
  emit := tree_emit;
  Load := tree_load;
  depth := tree_depth;
}.

Definition is_mapping (n : tree) : Prop := match n with Nil | Branch _ => True | _ => False end.
Definition is_sequence (n : tree) : Prop := match n with Nil | Seq _ => True | _ => False end.

Lemma tree_subscript k k' v n : is_mapping n →
  subscript k (assign k' v n) = if String.eqb k k' then Some (Some v) else subscript k n.
Proof.
  destruct n as [|s|l|l]; try done; intros _; simpl; [by destruct (String.eqb k k')|].
  rewrite assoc_put. by destruct (String.eqb k k').
Qed.
Lemma tree_member_depth (n k v : tree) : (k, v) ∈ members n → (depth v < depth n)%nat.
Proof.
  destruct n as [|s|l|l]; simpl; intros H; try by apply not_elem_of_nil in H.
  apply list_elem_of_In, in_map_iff in H as ([key m] & [= <- ->] & H).
  induction l as [|[key' m'] l IH]; [done|]. destruct H as [[= -> ->]|H]; simpl in *; [lia|].
  specialize (IH H). lia.
Qed.

#[export] Instance tree_laws : YamlLaws tree.
Proof.
  refine {| mapping := is_mapping; sequence := is_sequence; text := λ _, True; plain := λ _, True;
            subscript_assign := tree_subscript; member_depth := tree_member_depth |};
    try done; try (by intros [|s|l|l]); try (by intros x [|s|l|l]).
  intros n _. apply tree_load_emit.
Defined.
End YamlTree.
