(* ===== verification/LogYamls.v ===== *)
(** * The log configuration as YAML (log.cc)

    The conversions of a set of log definitions from and to text, and [toYamlString] of
    appenders, loggers and the manager.  A [std::set] of definitions is ordered by name
    (StdSet.v).  [None] is an exception of yaml-cpp. *)
From stdpp Require Import base option gmap list strings.
From Stdlib Require Import ZArith Lia String.
From S2P Require Import Prelude StdSet Yamls LogFormats Loggers.
Open Scope Z_scope.

Module LogYaml.
Import Yaml LogFormat Log.

(** [LogDefine::operator<] *)
Definition define_lt (a b : LogDefine) : bool := String.ltb (d_name a) (d_name b).

Section conversions.
Context {Node : Type} `{!Yaml Node}.

(** ** [LexicalCast<std::string, std::set<LogDefine>>] *)

(** [n[k].IsDefined()], and [n[k].as<std::string>()] if it is. *)
Definition text_field (k : string) (n : Node) : option (option string) :=
  o ← subscript k n;
  match o with
  | None => Some None
  | Some v => t ← as_string v; Some (Some t)
  end.

(** The body of the loop over [n["appenders"]]: [Some None] is [continue]. *)
Definition read_appender (a : option Node) : option (option LogAppenderDefine) :=
  match a with
  | None => Some None
  | Some a =>
      o ← text_field "type" a;
      match o with
      | None => Some None
      | Some type =>
          if String.eqb type "FileLogAppender" then
            f ← text_field "file" a;
            match f with
            | None => Some None
            | Some file =>
                fm ← text_field "formatter" a;
                Some (Some (MkAppenderDefine 1 UNKNOWN (default "" fm) file))
            end
          else if String.eqb type "StdoutLogAppender" then Some (Some (MkAppenderDefine 2 UNKNOWN "" ""))
          else Some None
      end
  end.
Fixpoint read_appenders (l : Node) (xs : list nat) (appenders : list LogAppenderDefine)
    : option (list LogAppenderDefine) :=
  match xs with
  | [] => Some appenders
  | x :: xs =>
      a ← read_appender (at_index x l);
      read_appenders l xs (appenders ++ option_list a)
  end.

(** The body of the loop over the document. *)
Definition read_define (n : Node) : option (option LogDefine) :=
  name ← text_field "name" n;
  match name with
  | None => Some None
  | Some name =>
      level ← text_field "level" n;
      formatter ← text_field "formatter" n;
      l ← subscript "appenders" n;
      appenders ← match l with
                  | None => Some []
                  | Some l => read_appenders l (seq 0 (size l)) []
                  end;
      Some (Some (MkDefine name (level_fromString (default "" level)) (default "" formatter) appenders))
  end.
Fixpoint read_defines (ns : list Node) (vec : list LogDefine) : option (list LogDefine) :=
  match ns with
  | [] => Some vec
  | n :: ns =>
      ld ← read_define n;
      read_defines ns (match ld with None => vec | Some ld => fst (StdSet.insert define_lt ld vec) end)
  end.
Definition defines_of_string (v : string) : option (list LogDefine) :=
  node ← Load v;
  read_defines (iterate node) [].

(** ** [LexicalCast<std::set<LogDefine>, std::string>] *)
Definition appender_node (a : LogAppenderDefine) : Node :=
  let na :=
    if ad_type a =? 1 then
      assign "file" (of_string (ad_file a)) (assign "type" (of_string "FileLogAppender") null)
    else if ad_type a =? 2 then assign "type" (of_string "StdoutLogAppender") null
    else null in
  let na := if String.eqb (ad_formatter a) "" then na
            else assign "formatter" (of_string (ad_formatter a)) na in
  assign "level" (of_string (level_toString (ad_level a))) na.
Definition define_node (i : LogDefine) : Node :=
  let n := assign "level" (of_string (level_toString (d_level i))) (assign "name" (of_string (d_name i)) null) in
  let n := if String.eqb (d_formatter i) "" then n
           else assign "formatter" (of_string (d_formatter i)) n in
  foldl (λ n a, push_at "appenders" (appender_node a) n) n (d_appenders i).
Definition string_of_defines (v : list LogDefine) : string := emit (seq_node (map define_node v)).

(** ** [toYamlString] *)

(** [YAML::Load], whose exception nobody catches. *)
Definition load (s : string) : M Logs Node := λ st,
  match Load s with
  | Some n => Ok (n, st)
  | None => Fault (Uncaught "YAML::Exception")
  end.

(** [StdoutLogAppender::toYamlString], [FileLogAppender::toYamlString] *)
Definition appender_toYamlString (a : Z) : M Logs string :=
  let* ap := appender_at a in
  let node := assign "type" (of_string "StdoutLogAppender") null in
  let node := match a_sink ap with
              | StdoutLogAppender => node
              | FileLogAppender filename => assign "file" (of_string filename) node
              end in
  let node := assign "level" (of_string (level_toString (a_level ap))) node in
  let node := match a_formatter ap with
              | Some f => assign "formatter" (of_string (m_pattern f)) node
              | None => node
              end in
  ret (emit node).

Fixpoint push_appenders (as_ : list Z) (node : Node) : M Logs Node :=
  match as_ with
  | [] => ret node
  | a :: rest =>
      let* s := appender_toYamlString a in
      let* n := load s in
      push_appenders rest (push_at "appenders" n node)
  end.
Definition logger_toYamlString (l : Z) : M Logs string :=
  let* x := logger_at l in
  let node := assign "level" (of_string (level_toString (l_level x))) (assign "name" (of_string (m_name x)) null) in
  let node := match m_formatter x with
              | Some f => assign "formatter" (of_string (m_pattern f)) node
              | None => node
              end in
  let* node := push_appenders (m_appenders x) node in
  ret (emit node).

(** [LoggerManager::toYamlString]; the [unordered_map] is visited in the order of
    [map_to_list]. *)
Fixpoint push_loggers (ls : list Z) (node : Node) : M Logs Node :=
  match ls with
  | [] => ret node
  | l :: rest =>
      let* s := logger_toYamlString l in
      let* n := load s in
      push_loggers rest (push_back node n)
  end.
Definition manager_toYamlString : M Logs string :=
  let* names := gets m_loggers in
  let* node := push_loggers (map snd (map_to_list names)) null in
  ret (emit node).
End conversions.
End LogYaml.
