(* ===== verification/LogYamlFacts.v ===== *)
(** * Theorems about the log configuration as YAML

    What survives when definitions are written and read again, and what reading any
    text gives. *)
From stdpp Require Import base option gmap list strings.
From Stdlib Require Import ZArith NArith Lia Ascii String.
From S2P Require Import Prelude StdSet Yamls YamlTrees LogFormats Loggers LoggerFacts LogYamls.
Open Scope Z_scope.

Module LogYamlFacts.
Import Yaml LogFormat Log LoggerFacts LogYaml.

(** ** The order on definitions *)
Lemma compare_trans a : ∀ b c,
  String.compare a b = Lt → String.compare b c = Lt → String.compare a c = Lt.
Proof.
  induction a as [|x a IH]; intros [|y b] [|z c]; simpl; try done.
  unfold Ascii.compare.
  destruct (N.compare_spec (N_of_ascii x) (N_of_ascii y)), (N.compare_spec (N_of_ascii y) (N_of_ascii z));
    intros H1 H2; try discriminate.
  - rewrite H, H0, N.compare_refl. by eapply IH.
  - rewrite (proj2 (N.compare_lt_iff _ _)); [done|lia].
  - rewrite (proj2 (N.compare_lt_iff _ _)); [done|lia].
  - rewrite (proj2 (N.compare_lt_iff _ _)); [done|lia].
Qed.
Lemma compare_refl a : String.compare a a = Eq.
Proof. induction a as [|x a IH]; [done|]. simpl. unfold Ascii.compare. by rewrite N.compare_refl. Qed.
Lemma ltb_compare a b : String.ltb a b = true ↔ String.compare a b = Lt.
Proof. unfold String.ltb. by destruct (String.compare a b). Qed.

#[export] Instance define_lt_order : StdSet.StrictWeakOrder define_lt.
Proof.
  split; unfold define_lt.
  - intros x. unfold String.ltb. by rewrite compare_refl.
  - intros x y z. rewrite !ltb_compare. apply compare_trans.
  - intros x y z. rewrite !ltb_compare. intros H.
    destruct (String.compare (d_name x) (d_name y)) eqn:E; [|by left|].
    + apply String.compare_eq_iff in E. rewrite <- E. by right.
    + right. eapply compare_trans; [|exact H]. by rewrite String.compare_antisym, E.
Qed.
Lemma define_lt_total a b : d_name a ≠ d_name b → define_lt a b = true ∨ define_lt b a = true.
Proof.
  unfold define_lt. intros Hne. rewrite !ltb_compare, (String.compare_antisym (d_name b)).
  destruct (String.compare (d_name a) (d_name b)) eqn:E; simpl; auto. by apply String.compare_eq_iff in E.
Qed.

(** ** What reading gives, whatever the text *)
Section reading.
Context {Node : Type} `{!Yaml Node}.

Definition level_ok (l : Z) : Prop := 0 <= l <= 5.
Record define_ok (i : LogDefine) : Prop := {
  do_level : level_ok (d_level i);
  do_types : Forall appender_type (d_appenders i);
}.

Lemma fromString_ok s : level_ok (level_fromString s).
Proof. unfold level_fromString, level_ok. repeat case_match; vm_compute; split; discriminate. Qed.

Lemma read_appender_type a r : read_appender a = Some (Some r) → appender_type r.
Proof.
  unfold read_appender. intros H. repeat (case_match || simplify_option_eq); unfold appender_type; simpl; auto.
Qed.
Lemma read_appenders_type l xs : ∀ acc r,
  Forall appender_type acc → read_appenders l xs acc = Some r → Forall appender_type r.
Proof.
  induction xs as [|x xs IH]; intros acc r Hacc; simpl; [by intros [= <-]|].
  destruct (read_appender (at_index x l)) as [o|] eqn:E; [|done]. simpl. apply IH.
  apply Forall_app. split; [done|]. destruct o as [a|]; [|constructor].
  apply Forall_singleton. by eapply read_appender_type.
Qed.
Lemma read_define_ok n i : read_define n = Some (Some i) → define_ok i.
Proof.
  unfold read_define. intros H. simplify_option_eq. case_match; simplify_option_eq.
  split; simpl; [apply fromString_ok|]. case_match; simplify_option_eq; [|constructor].
  eapply read_appenders_type; [|done]. constructor.
Qed.
Lemma read_defines_ok ns : ∀ vec r,
  StdSet.sorted define_lt vec → Forall define_ok vec → read_defines ns vec = Some r →
  StdSet.sorted define_lt r ∧ Forall define_ok r.
Proof.
  induction ns as [|n ns IH]; intros vec r Hs Hv; simpl; [by intros [= <-]|].
  destruct (read_define n) as [[i|]|] eqn:E; simpl; [|by apply IH|done]. apply IH.
  - by apply StdSet.insert_any_sorted; [apply _|].
  - rewrite Forall_forall in *. intros j Hj. apply StdSet.insert_elem in Hj as [->|Hj]; [|auto].
    by eapply read_define_ok.
Qed.
Lemma defines_of_string_ok t v :
  defines_of_string t = Some v → StdSet.sorted define_lt v ∧ Forall define_ok v.
Proof.
  unfold defines_of_string. destruct (Load t) as [n|]; [|done]. simpl. apply read_defines_ok; constructor.
Qed.
Lemma sorted_names v : StdSet.sorted define_lt v → NoDup (map d_name v).
Proof.
  induction 1 as [|i v Hs IH Hi]; simpl; constructor; [|done].
  rewrite list_elem_of_In, in_map_iff. intros (j & E & Hj%list_elem_of_In).
  rewrite Forall_forall in Hi. specialize (Hi j Hj). unfold define_lt in Hi. rewrite E in Hi.
  apply ltb_compare in Hi. by rewrite compare_refl in Hi.
Qed.
End reading.

(** ** What survives *)

(** What is read back of an appender, if anything, of a level and of a definition. *)
Definition reread_appender (a : LogAppenderDefine) : option LogAppenderDefine :=
  if ad_type a =? 1 then Some (MkAppenderDefine 1 UNKNOWN (ad_formatter a) (ad_file a))
  else if ad_type a =? 2 then Some (MkAppenderDefine 2 UNKNOWN "" "")
  else None.
Definition reread_level (l : Z) : Z := if (1 <=? l) && (l <=? 5) then l else UNKNOWN.
Definition reread (i : LogDefine) : LogDefine :=
  MkDefine (d_name i) (reread_level (d_level i)) (d_formatter i) (omap reread_appender (d_appenders i)).

Lemma reread_level_ok l : level_fromString (level_toString l) = reread_level l.
Proof.
  unfold reread_level, level_toString, DEBUG, INFO, WARN, ERROR, FATAL.
  destruct (Z.eqb_spec l 1) as [->|]; [done|]. destruct (Z.eqb_spec l 2) as [->|]; [done|].
  destruct (Z.eqb_spec l 3) as [->|]; [done|]. destruct (Z.eqb_spec l 4) as [->|]; [done|].
  destruct (Z.eqb_spec l 5) as [->|]; [done|].
  destruct (Z.leb_spec 1 l), (Z.leb_spec l 5); try done. lia.
Qed.
Lemma level_word l : word (level_toString l) = true.
Proof. unfold level_toString. by repeat case_match. Qed.

Section fields.
Context {Node : Type} `{!Yaml Node} `{!YamlLaws Node}.
Lemma text_field_null k : text_field k null = Some None.
Proof. unfold text_field. by rewrite subscript_null. Qed.
Lemma text_field_assign k k' v n : mapping n →
  text_field k (assign k' (of_string v) n) = if String.eqb k k' then Some (Some v) else text_field k n.
Proof.
  intros Hn. unfold text_field. rewrite subscript_assign by done.
  destruct (String.eqb k k'); [|done]. simpl. by rewrite as_string_of.
Qed.
Lemma text_field_push k k' vs n l : mapping n → k ≠ k' →
  subscript k' n = Some (match l with [] => None | _ => Some (seq_node l) end) →
  text_field k (push_all k' vs n) = text_field k n.
Proof.
  intros Hn Hne Hl. unfold text_field. destruct (push_all_ok k' vs n l Hn Hl) as (_ & _ & H & _).
  by rewrite H.
Qed.
End fields.

(** The fields of a node that has been built are looked up by their names. *)
Ltac fields :=
  repeat (rewrite text_field_assign by auto 10 with sylar; simpl);
  rewrite ?text_field_null; simpl.
Ltac plains :=
  repeat first [ apply plain_assign | apply plain_null | apply plain_string | assumption
               | apply text_word; first [done | apply level_word] ].

Section roundtrip.
Context {Node : Type} `{!Yaml Node} `{!YamlLaws Node}.

Definition appender_text (a : LogAppenderDefine) : Prop := text (ad_formatter a) ∧ text (ad_file a).
Definition define_text (i : LogDefine) : Prop :=
  text (d_name i) ∧ text (d_formatter i) ∧ Forall appender_text (d_appenders i).

Lemma read_appender_node a : read_appender (Some (appender_node a)) = Some (reread_appender a).
Proof.
  unfold appender_node, reread_appender. cbv zeta.
  destruct (ad_type a =? 1); [|destruct (ad_type a =? 2)];
    (destruct (String.eqb_spec (ad_formatter a) "") as [E|E]; unfold read_appender; fields; [rewrite ?E; done|done]).
Qed.
Lemma appender_node_plain a : appender_text a → plain (appender_node a).
Proof.
  intros [Hf Hp]. unfold appender_node. cbv zeta.
  destruct (ad_type a =? 1); [|destruct (ad_type a =? 2)]; destruct (String.eqb (ad_formatter a) ""); plains.
Qed.

Lemma read_appenders_seq l : ∀ pre acc rs,
  Forall2 (λ n r, read_appender (Some n) = Some r) l rs →
  read_appenders (seq_node (pre ++ l)) (seq (Datatypes.length pre) (Datatypes.length l)) acc =
    Some (acc ++ omap id rs).
Proof.
  induction l as [|n l IH]; intros pre acc rs Hl; inversion Hl as [|? r ? rs' Hr Hrs]; subst; simpl.
  { by rewrite app_nil_r. }
  rewrite sequence_index, (list_lookup_middle pre l n _ eq_refl), Hr. simpl.
  specialize (IH (pre ++ [n]) (acc ++ option_list r) rs' Hrs).
  rewrite <- (assoc_L (++) pre [n] l), length_app, Nat.add_1_r in IH. simpl in IH. rewrite IH.
  rewrite <- (assoc_L (++)). by destruct r.
Qed.

Lemma omap_map_id {A B} (f : A → option B) l : omap id (map f l) = omap f l.
Proof.
  induction l as [|a l IH]; [done|]. cbn. unfold id at 1. destruct (f a); [f_equal|]; exact IH.
Qed.

(** The node of a definition before its appenders are pushed. *)
Definition define_head (i : LogDefine) : Node :=
  let n := assign "level" (of_string (level_toString (d_level i))) (assign "name" (of_string (d_name i)) null) in
  if String.eqb (d_formatter i) "" then n else assign "formatter" (of_string (d_formatter i)) n.
Lemma define_node_eq i :
  define_node i = push_all "appenders" (map appender_node (d_appenders i)) (define_head i).
Proof.
  unfold define_node, push_all, define_head. cbv zeta.
  set (n := if String.eqb _ _ then _ else _). generalize n. clear n.
  induction (d_appenders i) as [|a l IH]; intros n; [done|]. simpl. apply IH.
Qed.
Lemma define_head_ok i :
  mapping (define_head i) ∧ subscript "appenders" (define_head i) = Some None ∧
  text_field "name" (define_head i) = Some (Some (d_name i)) ∧
  text_field "level" (define_head i) = Some (Some (level_toString (d_level i))) ∧
  (f ← text_field "formatter" (define_head i); Some (default ""%string f)) = Some (d_formatter i).
Proof.
  unfold define_head. cbv zeta. destruct (String.eqb_spec (d_formatter i) "") as [E|E].
  all: split; [auto 10 with sylar|split; [|repeat (split; [by fields|]); fields; by rewrite ?E]].
  all: repeat (rewrite subscript_assign by auto 10 with sylar; simpl); apply subscript_null.
Qed.

Lemma read_define_pushed h name lv fm ns rs :
  mapping h → subscript "appenders" h = Some None → text_field "name" h = Some (Some name) →
  text_field "level" h = Some (Some lv) →
  (f ← text_field "formatter" h; Some (default ""%string f)) = Some fm →
  Forall2 (λ n r, read_appender (Some n) = Some r) ns rs →
  read_define (push_all "appenders" ns h) = Some (Some (MkDefine name (level_fromString lv) fm (omap id rs))).
Proof.
  intros Hm Ha Hn Hl Hf Hns. unfold read_define. rewrite !(text_field_push _ _ _ _ []) by done. rewrite Hn, Hl. simpl.
  destruct (text_field "formatter" h) as [f|]; [|done]. simpl in Hf |- *. injection Hf as ->.
  destruct (push_all_ok "appenders" ns h [] Hm Ha) as (_ & -> & _). simpl.
  pose proof (read_appenders_seq ns [] [] rs Hns) as Hall. simpl in Hall.
  destruct ns as [|n ns]; [by inversion Hns|]. simpl. by rewrite sequence_size, Hall.
Qed.
Lemma read_define_node i : read_define (define_node i) = Some (Some (reread i)).
Proof.
  destruct (define_head_ok i) as (Hm & Ha & Hn & Hl & Hf). rewrite define_node_eq.
  rewrite (read_define_pushed _ _ _ _ _ (map reread_appender (d_appenders i)) Hm Ha Hn Hl Hf).
  - by rewrite reread_level_ok, omap_map_id.
  - clear -YamlLaws0. induction (d_appenders i) as [|b l IH]; [constructor|]. constructor; [apply read_appender_node|done].
Qed.
Lemma define_node_plain i : define_text i → plain (define_node i).
Proof.
  intros (Hn & Hf & Has). destruct (define_head_ok i) as (Hm & Ha & _). rewrite define_node_eq.
  destruct (push_all_ok "appenders" (map appender_node (d_appenders i)) (define_head i) [] Hm Ha) as (_ & _ & _ & Hp).
  apply Hp; [|by apply text_word|].
  - unfold define_head. cbv zeta. destruct (String.eqb (d_formatter i) ""); plains.
  - simpl. apply Forall_map. eapply Forall_impl; [exact Has|]. apply appender_node_plain.
Qed.

(** ** Inserting definitions one after the other *)
Definition insert_all (vec ds : list LogDefine) : list LogDefine :=
  foldl (λ v i, fst (StdSet.insert define_lt i v)) vec ds.

Lemma read_defines_map ns ds : ∀ vec,
  Forall2 (λ n i, read_define n = Some (Some i)) ns ds → read_defines ns vec = Some (insert_all vec ds).
Proof.
  revert ds. induction ns as [|n ns IH]; intros ds vec H; inversion H as [|? i ? ds' Hi His]; subst; [done|].
  simpl. rewrite Hi. simpl. by apply IH.
Qed.
Lemma insert_all_sorted ds : ∀ vec, StdSet.sorted define_lt (vec ++ ds) → insert_all vec ds = vec ++ ds.
Proof.
  induction ds as [|i ds IH]; intros vec Hs; simpl; [by rewrite app_nil_r|].
  rewrite StdSet.insert_last.
  - rewrite (IH (vec ++ [i])); rewrite <- (assoc_L (++)); done.
  - intros y Hy. apply StdSet.sorted_app in Hs as (_ & _ & H). apply H; [done|by left].
Qed.
Lemma insert_all_perm ds : ∀ vec,
  StdSet.sorted define_lt vec → NoDup (map d_name (vec ++ ds)) →
  StdSet.sorted define_lt (insert_all vec ds) ∧ insert_all vec ds ≡ₚ vec ++ ds.
Proof.
  induction ds as [|i ds IH]; intros vec Hs Hnd; simpl; [by rewrite app_nil_r|].
  assert (Hlt : ∀ y, y ∈ vec → define_lt i y = true ∨ define_lt y i = true).
  { intros y Hy. apply define_lt_total. intros E. rewrite map_app in Hnd.
    apply NoDup_app in Hnd as (_ & H & _). apply (H (d_name y)); [|rewrite <- E; by left].
    by apply list_elem_of_In, in_map, list_elem_of_In. }
  pose proof (StdSet.insert_perm define_lt i vec Hs Hlt) as Hp.
  destruct (IH (fst (StdSet.insert define_lt i vec))) as [Hs' Hp'].
  - by apply StdSet.insert_any_sorted; [apply _|].
  - rewrite Hp. simpl. rewrite map_app in *. simpl in *.
    rewrite (Permutation_middle (map d_name vec) (map d_name ds) (d_name i)). done.
  - split; [exact Hs'|]. rewrite Hp', Hp. simpl. apply Permutation_middle.
Qed.

Lemma defines_of_nodes ns ds :
  Forall plain ns → Forall2 (λ n i, read_define n = Some (Some i)) ns ds →
  defines_of_string (emit (seq_node ns)) = Some (insert_all [] ds).
Proof.
  intros Hp H. unfold defines_of_string. rewrite load_emit by by apply plain_seq. simpl.
  rewrite iterate_seq. by apply read_defines_map.
Qed.
Lemma reread_sorted v : StdSet.sorted define_lt v → StdSet.sorted define_lt (map reread v).
Proof.
  induction 1 as [|i v Hs IH Hi]; simpl; constructor; [done|]. by apply Forall_map.
Qed.
Lemma reread_text i : define_text i → define_text (reread i).
Proof.
  intros (Hn & Hf & Ha). do 2 (split; [done|]). simpl. induction Ha as [|a l [Haf Hap] _ IH]; [constructor|].
  cbn. destruct (reread_appender a) as [r|] eqn:E; [|exact IH]. constructor; [|exact IH].
  unfold reread_appender in E. destruct (ad_type a =? 1); [by injection E as <-|].
  destruct (ad_type a =? 2); [|done]. injection E as <-. split; by apply text_word.
Qed.
Lemma reread_reread i : reread (reread i) = reread i.
Proof.
  unfold reread. simpl. f_equal.
  - unfold reread_level. by destruct ((1 <=? d_level i) && (d_level i <=? 5)) eqn:E; rewrite ?E.
  - assert (H : ∀ a r, reread_appender a = Some r → reread_appender r = Some r).
    { intros a r. unfold reread_appender. destruct (ad_type a =? 1); [by intros [= <-]|].
      destruct (ad_type a =? 2); [by intros [= <-]|done]. }
    induction (d_appenders i) as [|a l IH]; [done|]. cbn. destruct (reread_appender a) as [r|] eqn:E; [|exact IH].
    cbn. rewrite (H a r E). by f_equal.
Qed.

(** A definition that YAML keeps as it is. *)
Definition kept_appender (a : LogAppenderDefine) : Prop :=
  ad_level a = UNKNOWN ∧ (ad_type a = 1 ∨ ad_type a = 2 ∧ ad_formatter a = ""%string ∧ ad_file a = ""%string).
Definition kept_define (i : LogDefine) : Prop := level_ok (d_level i) ∧ Forall kept_appender (d_appenders i).
Lemma kept_reread i : kept_define i → reread i = i.
Proof.
  destruct i as [n lv f as_]. unfold kept_define, reread, level_ok, reread_level. simpl. intros [Hl Has]. f_equal.
  - destruct (Z.leb_spec 1 lv), (Z.leb_spec lv 5); simpl; try done; unfold UNKNOWN; lia.
  - induction Has as [|a l Ha _ IH]; [done|]. destruct a as [ty al af ap]. unfold kept_appender in Ha. simpl in Ha.
    destruct Ha as [-> [->|(-> & -> & ->)]]; cbn; f_equal; exact IH.
Qed.

Lemma roundtrip_ok v :
  StdSet.sorted define_lt v → Forall define_text v →
  defines_of_string (string_of_defines v) = Some (map reread v).
Proof.
  intros Hs Ht. unfold string_of_defines. rewrite (defines_of_nodes _ (map reread v)).
  - by rewrite insert_all_sorted by by apply reread_sorted.
  - apply Forall_map. eapply Forall_impl; [exact Ht|]. apply define_node_plain.
  - clear -YamlLaws0. induction v as [|i v IH]; constructor; [apply read_define_node|done].
Qed.
End roundtrip.

(** ** Writing the loggers *)
Section writing.
Context {Node : Type} `{!Yaml Node} `{!YamlLaws Node}.

Definition written_appender (ap : LogAppender) : Node :=
  let node := assign "type" (of_string "StdoutLogAppender") null in
  let node := match a_sink ap with
              | StdoutLogAppender => node
              | FileLogAppender filename => assign "file" (of_string filename) node
              end in
  let node := assign "level" (of_string (level_toString (a_level ap))) node in
  match a_formatter ap with
  | Some f => assign "formatter" (of_string (m_pattern f)) node
  | None => node
  end.
Definition written_head (x : Logger) : Node :=
  let node := assign "level" (of_string (level_toString (l_level x))) (assign "name" (of_string (m_name x)) null) in
  match m_formatter x with
  | Some f => assign "formatter" (of_string (m_pattern f)) node
  | None => node
  end.
Definition written_logger (aps : list LogAppender) (x : Logger) : Node :=
  push_all "appenders" (map written_appender aps) (written_head x).

Definition formatter_text (f : option LogFormatter) : Prop := ∀ g, f = Some g → text (m_pattern g).
Definition appender_representable (ap : LogAppender) : Prop :=
  formatter_text (a_formatter ap) ∧ ∀ name, a_sink ap = FileLogAppender name → text name.
Definition logger_representable (x : Logger) : Prop := text (m_name x) ∧ formatter_text (m_formatter x).

(** The definition read from what a logger has written: every appender is one for
    standard output, without formatter and level. *)
Definition described (x : Logger) : LogDefine :=
  MkDefine (m_name x) (reread_level (l_level x))
    (match m_formatter x with Some f => m_pattern f | None => "" end)
    (map (λ _, MkAppenderDefine 2 UNKNOWN "" "") (m_appenders x)).

Lemma written_appender_plain ap : appender_representable ap → plain (written_appender ap).
Proof.
  intros [Hf Hs]. unfold written_appender. cbv zeta.
  destruct (a_sink ap) as [|name], (a_formatter ap) as [f|];
    repeat first [ apply plain_assign | apply plain_null | apply plain_string | by apply Hf | by apply Hs
                 | apply text_word; first [done | apply level_word] ].
Qed.
Lemma read_written_appender ap :
  read_appender (Some (written_appender ap)) = Some (Some (MkAppenderDefine 2 UNKNOWN "" "")).
Proof.
  unfold written_appender. cbv zeta. destruct (a_sink ap) as [|name], (a_formatter ap) as [f|];
    unfold read_appender; repeat (rewrite text_field_assign by auto 10 with sylar; simpl); done.
Qed.
Lemma written_head_ok x :
  mapping (written_head x) ∧ subscript "appenders" (written_head x) = Some None ∧
  text_field "name" (written_head x) = Some (Some (m_name x)) ∧
  text_field "level" (written_head x) = Some (Some (level_toString (l_level x))) ∧
  (f ← text_field "formatter" (written_head x); Some (default ""%string f)) = Some (d_formatter (described x)) ∧
  (logger_representable x → plain (written_head x)).
Proof.
  unfold written_head, logger_representable, formatter_text, described. cbv zeta. simpl.
  destruct (m_formatter x) as [f|].
  all: split; [auto 10 with sylar|split; [|repeat (split; [by fields|])]].
  1,3: repeat (rewrite subscript_assign by auto 10 with sylar; simpl); apply subscript_null.
  all: intros [Hn Hf]; try specialize (Hf _ eq_refl); plains.
Qed.

Lemma read_written_logger aps x :
  Datatypes.length aps = Datatypes.length (m_appenders x) →
  read_define (written_logger aps x) = Some (Some (described x)).
Proof.
  intros Hlen. destruct (written_head_ok x) as (Hm & Ha & Hn & Hl & Hf & _). unfold written_logger.
  rewrite (read_define_pushed _ _ _ _ _ (map (λ _, Some (MkAppenderDefine 2 UNKNOWN "" "")) aps) Hm Ha Hn Hl Hf).
  - rewrite reread_level_ok, omap_map_id. unfold described. do 3 f_equal.
    revert Hlen. generalize (m_appenders x). clear.
    induction aps as [|ap aps IH]; intros [|a l] [=]; [done|]. cbn. f_equal. by apply IH.
  - clear -YamlLaws0. induction aps as [|ap aps IH]; [constructor|]. constructor; [apply read_written_appender|done].
Qed.
Lemma written_logger_plain aps x :
  Forall appender_representable aps → logger_representable x → plain (written_logger aps x).
Proof.
  intros Haps Hx. destruct (written_head_ok x) as (Hm & Ha & _ & _ & _ & Hp). unfold written_logger.
  destruct (push_all_ok "appenders" (map written_appender aps) (written_head x) [] Hm Ha) as (_ & _ & _ & H).
  apply H; [by apply Hp|by apply text_word|]. simpl. apply Forall_map. eapply Forall_impl; [exact Haps|].
  apply written_appender_plain.
Qed.

(** Everything the loggers hold can be written. *)
Record representable (s : Logs) : Prop := {
  re_logger : ∀ l x, loggers s !! l = Some x → logger_representable x;
  re_appender : ∀ a ap, appenders s !! a = Some ap → appender_representable ap;
}.

Lemma load_ok n s : plain n → load (emit n) s = Ok (n, s).
Proof. intros Hn. unfold load. by rewrite load_emit. Qed.

Lemma push_appenders_ok s as_ : ∀ node,
  representable s → Forall (appender_ok s) as_ →
  ∃ aps, push_appenders as_ node s = Ok (push_all "appenders" (map written_appender aps) node, s) ∧
    Datatypes.length aps = Datatypes.length as_ ∧ Forall appender_representable aps.
Proof.
  induction as_ as [|a as_ IH]; intros node Hre Has; [by exists []|].
  apply Forall_cons in Has as [(ap & f & Ha & _) Has]. pose proof (re_appender _ Hre _ _ Ha) as Hap.
  destruct (IH (push_at "appenders" (written_appender ap) node) Hre Has) as (aps & H & Hlen & Haps).
  exists (ap :: aps). split; [|split; [simpl; by f_equal|by constructor]].
  simpl. rewrite (bind_step _ _ s (emit (written_appender ap)) s).
  - by rewrite (bind_step _ _ _ _ _ (load_ok _ s (written_appender_plain ap Hap))).
  - unfold appender_toYamlString. by rewrite (bind_step _ _ _ _ _ (appender_at_ok a ap s Ha)).
Qed.
Lemma logger_toYamlString_ok l x s :
  logs_ok s → representable s → loggers s !! l = Some x →
  ∃ n, logger_toYamlString l s = Ok (emit n, s) ∧ plain n ∧ read_define n = Some (Some (described x)).
Proof.
  intros Hok Hre Hx. destruct (ok_logger _ Hok l x Hx) as [_ [Has _ _]].
  destruct (push_appenders_ok s (m_appenders x) (written_head x) Hre Has) as (aps & H & Hlen & Haps).
  exists (written_logger aps x). split; [|split; [|by apply read_written_logger]].
  - unfold logger_toYamlString. rewrite (bind_step _ _ _ _ _ (logger_at_ok l x s Hx)).
    by rewrite (bind_step _ _ _ _ _ H).
  - apply written_logger_plain; [done|]. by apply (re_logger _ Hre l).
Qed.
Lemma push_loggers_ok s ls : ∀ node, logs_ok s → representable s →
  Forall (λ l, is_Some (loggers s !! l)) ls →
  ∃ ns, push_loggers ls node s = Ok (foldl push_back node ns, s) ∧ Forall plain ns ∧
    Forall2 (λ n l, ∃ x, loggers s !! l = Some x ∧ read_define n = Some (Some (described x))) ns ls.
Proof.
  induction ls as [|l ls IH]; intros node Hok Hre Hls; [by exists []|].
  apply Forall_cons in Hls as [[x Hx] Hls].
  destruct (logger_toYamlString_ok l x s Hok Hre Hx) as (n & Hn & Hp & Hr).
  destruct (IH (push_back node n) Hok Hre Hls) as (ns & H & Hps & Hrs).
  exists (n :: ns). split; [|split; [by constructor|constructor; [by exists x|done]]].
  simpl. rewrite (bind_step _ _ _ _ _ Hn). by rewrite (bind_step _ _ _ _ _ (load_ok n s Hp)).
Qed.

(** The loggers the manager knows. *)
Definition known (s : Logs) : list Logger := omap (λ l, loggers s !! l) (map snd (map_to_list (m_loggers s))).
Lemma known_ok s : logs_ok s →
  Forall (λ l, is_Some (loggers s !! l)) (map snd (map_to_list (m_loggers s))) ∧
  map m_name (known s) = map fst (map_to_list (m_loggers s)).
Proof.
  intros Hok. unfold known.
  assert (H : ∀ n l, (n, l) ∈ map_to_list (m_loggers s) → ∃ x, loggers s !! l = Some x ∧ m_name x = n).
  { intros n l Hl. apply elem_of_map_to_list in Hl. by apply (ok_name _ Hok). }
  induction (map_to_list (m_loggers s)) as [|[n l] L IH]; [by split; [constructor|]|].
  destruct (H n l) as (x & Hx & Hn); [by left|]. destruct IH as [IH1 IH2]; [intros n' l' Hl; apply H; by right|].
  split; [by constructor|]. cbn. rewrite Hx. cbn. rewrite Hn. by f_equal.
Qed.
Lemma described_known ns s ls :
  Forall2 (λ n l, ∃ x, loggers s !! l = Some x ∧ read_define n = Some (Some (described x))) ns ls →
  Forall2 (λ n i, read_define n = Some (Some i)) ns (map described (omap (λ l, loggers s !! l) ls)).
Proof.
  induction 1 as [|n l ns ls (x & Hx & Hn) _ IH]; [constructor|]. cbn. rewrite Hx. cbn. by constructor.
Qed.
End writing.

(** ** Properties *)
Section properties.
Context {Node : Type} `{!Yaml Node} `{!YamlLaws Node}.

(** C32: a set of log definitions written to YAML can be read again.  What comes back has
    the same names, levels, formatters and appenders, but for the level of an appender
    and the formatter of one for standard output, which are written and never read;
    a level that has no name becomes UNKNOWN.  What has come back once comes back
    unchanged from then on, and so does a set that has none of these. *)
Theorem log_defines_roundtrip v :
  StdSet.sorted define_lt v → Forall define_text v →
  defines_of_string (string_of_defines v) = Some (map reread v) ∧
  defines_of_string (string_of_defines (map reread v)) = Some (map reread v) ∧
  (Forall kept_define v → map reread v = v).
Proof.
  intros Hs Ht. split; [by apply roundtrip_ok|]. split.
  - rewrite roundtrip_ok.
    + rewrite map_map. f_equal. apply map_ext. apply reread_reread.
    + by apply reread_sorted.
    + apply Forall_map. eapply Forall_impl; [exact Ht|]. apply reread_text.
  - clear. induction 1 as [|i v Hi _ IH]; [done|]. simpl. by rewrite kept_reread, IH.
Qed.

(** The manager's [toYamlString] always returns and what it has written is read back
    as one definition for each logger it knows, with its name, level and formatter;
    but every appender, also one that writes to a file, has become one for standard
    output without a formatter. *)
Theorem loggers_dump_reread s :
  logs_ok s → representable s →
  ∃ str v, manager_toYamlString s = Ok (str, s) ∧ defines_of_string str = Some v ∧
    StdSet.sorted define_lt v ∧ v ≡ₚ map described (known s).
Proof.
  intros Hok Hre. destruct (known_ok s Hok) as [Hls Hnames].
  destruct (push_loggers_ok s (map snd (map_to_list (m_loggers s))) null Hok Hre Hls) as (ns & H & Hp & Hr).
  exists (emit (seq_node ns)), (insert_all [] (map described (known s))).
  split; [unfold manager_toYamlString; step_in; by rewrite (bind_step _ _ _ _ _ H)|].
  split; [apply defines_of_nodes; [done|by apply described_known]|].
  apply (insert_all_perm (map described (known s)) []); [constructor|].
  simpl. rewrite map_map. change (NoDup (map m_name (known s))). rewrite Hnames. apply NoDup_fst_map_to_list.
Qed.

(** C33: whatever text is read, if reading does not throw it gives a set ordered by name
    without two definitions of a name, each with one of the six levels and appenders of
    the two types only.  So the listener, called with two sets that have been read,
    returns unless a definition is unchanged, and leaves the loggers well formed and
    configured as the new set says. *)
Theorem read_defines_are_usable strftime can_open announce e told tnew old new s :
  defines_of_string told = Some old → defines_of_string tnew = Some new →
  logs_ok s → loggers s !! m_logger announce = Some e →
  StdSet.sorted define_lt new ∧ Forall define_ok new ∧
  ((∀ d, d ∈ new → d ∉ old) →
   ∃ s', logs_changed strftime can_open announce old new s = Ok (tt, s') ∧ logs_ok s' ∧
     ∀ d, d ∈ new → ∃ x, named s' (d_name d) = Some x ∧ configured (starting old d s) d x s').
Proof.
  intros Hold Hnew Hok He.
  destruct (defines_of_string_ok told old Hold) as [Hsold _].
  destruct (defines_of_string_ok tnew new Hnew) as [Hsnew Hall].
  split; [done|]. split; [done|]. intros Hchanged.
  destruct (logs_listener_ok strftime can_open announce e old new s Hok He) as [_ H];
    [eapply Forall_impl; [exact Hall|]; by intros i []|by apply sorted_names..|].
  destruct (H Hchanged) as (s' & Hrun & Hok' & _ & Hconf & _). by exists s'.
Qed.
End properties.

(** ** The configuration file config/logger.yaml *)
Import YamlTree.

Definition logger_yaml : tree :=
  Seq [Branch [("name", Leaf "root"); ("level", Leaf "info"); ("formatter", Leaf "%d%T%m%n");
               ("appenders", Seq [Branch [("type", Leaf "FileLogAppender"); ("level", Leaf "error"); ("file", Leaf "root.txt")];
                                  Branch [("type", Leaf "StdoutLogAppender"); ("level", Leaf "warn")]])];
       Branch [("name", Leaf "system"); ("level", Leaf "debug"); ("formatter", Leaf "%d%T%m%n");
               ("appenders", Seq [Branch [("type", Leaf "FileLogAppender"); ("file", Leaf "system.txt")];
                                  Branch [("type", Leaf "StdoutLogAppender")]])]]%string.
Definition logger_defines : list LogDefine :=
  [MkDefine "root" INFO "%d%T%m%n" [MkAppenderDefine 1 UNKNOWN "" "root.txt"; MkAppenderDefine 2 UNKNOWN "" ""];
   MkDefine "system" DEBUG "%d%T%m%n" [MkAppenderDefine 1 UNKNOWN "" "system.txt"; MkAppenderDefine 2 UNKNOWN "" ""]].

Example logger_yaml_read : defines_of_string (emit logger_yaml) = Some logger_defines.
Proof. unfold defines_of_string. rewrite load_emit by done. reflexivity. Qed.

Lemma read_defines_are_usable_witness :
  ∃ s', logs_changed (λ f _, f) (λ _, true) (sample_event 1 INFO) [] logger_defines sample = Ok (tt, s') ∧
    ∃ x, named s' "system" = Some x ∧ l_level x = DEBUG.
Proof.
  destruct (read_defines_are_usable (λ f _, f) (λ _, true) (sample_event 1 INFO) root_logger
              "" (emit logger_yaml) [] logger_defines sample) as (_ & _ & H).
  - reflexivity.
  - exact logger_yaml_read.
  - apply sample_ok.
  - reflexivity.
  - destruct H as (s' & H & _ & Hconf).
    + intros d _ Hd. by apply not_elem_of_nil in Hd.
    + exists s'. split; [exact H|].
      destruct (Hconf (MkDefine "system" DEBUG "%d%T%m%n"
        [MkAppenderDefine 1 UNKNOWN "" "system.txt"; MkAppenderDefine 2 UNKNOWN "" ""])) as (x & Hx & Hl & _);
        [right; left|]. exists x. by split.
Defined.

Definition levelled_define : LogDefine :=
  MkDefine "app" WARN "%m" [MkAppenderDefine 1 ERROR "%p" "a.txt"; MkAppenderDefine 2 WARN "%p" ""].
Lemma levelled_sorted : StdSet.sorted define_lt [levelled_define].
Proof. repeat constructor. Qed.
Lemma levelled_text : Forall define_text [levelled_define].
Proof. repeat constructor. Qed.

Lemma log_defines_roundtrip_witness :
  defines_of_string (string_of_defines [levelled_define]) =
    Some [MkDefine "app" WARN "%m" [MkAppenderDefine 1 UNKNOWN "%p" "a.txt"; MkAppenderDefine 2 UNKNOWN "" ""]].
Proof. exact (proj1 (log_defines_roundtrip [levelled_define] levelled_sorted levelled_text)). Defined.

Lemma sample_representable : representable sample.
Proof. by split. Qed.

Lemma loggers_dump_reread_witness :
  ∃ str v, manager_toYamlString sample = Ok (str, sample) ∧ defines_of_string str = Some v ∧
    MkDefine "system" INFO "%p %m" [MkAppenderDefine 2 UNKNOWN "" ""] ∈ v.
Proof.
  destruct (loggers_dump_reread sample sample_ok sample_representable) as (str & v & H1 & H2 & _ & Hp).
  exists str, v. split; [exact H1|]. split; [exact H2|]. rewrite Hp. apply list_elem_of_In. vm_compute. auto.
Defined.
End LogYamlFacts.
