(* ===== verification/Casts.v ===== *)
(** * Conversions of containers (config.h)

    [LexicalCast] between text and vectors, lists and maps, on top of the conversion of an
    element, the class [Cast]; for a plain type that is boost's, for a nested container
    one of those here.  The conversion from text to an [unordered_map] is left out: it
    cannot be compiled, since it declares and returns a vector. *)
From stdpp Require Import base option list strings.
From Stdlib Require Import ZArith Ascii String.
From S2P Require Import Prelude Yamls YamlTrees.

Module Cast.
Import Yaml.

(** [LexicalCast<std::string, T>] and [LexicalCast<T, std::string>]; [None] is an
    exception. *)
Class Cast (T : Type) := {
  from_text : string → option T;
  to_text : T → option string;
}.

Section containers.
Context {Node : Type} `{!Yaml Node} {T : Type} `{!Cast T}.

(** The loop over the nodes of a sequence. *)
Fixpoint read_elements (ns : list Node) (vec : list T) : option (list T) :=
  match ns with
  | [] => Some vec
  | i :: ns =>
      x ← from_text (emit i);
      read_elements ns (vec ++ [x])
  end.
Definition sequence_of_string (v : string) : option (list T) :=
  node ← Load v;
  read_elements (iterate node) [].

(** The loop over the elements. *)
Fixpoint push_elements (v : list T) (node : Node) : option Node :=
  match v with
  | [] => Some node
  | i :: v =>
      s ← to_text i;
      n ← Load s;
      push_elements v (push_back node n)
  end.
Definition string_of_sequence (v : list T) : option string :=
  node ← push_elements v null;
  Some (emit node).

(** The same for the pairs of an [unordered_map], in the order they are visited. *)
Fixpoint assign_elements (v : list (string * T)) (node : Node) : option Node :=
  match v with
  | [] => Some node
  | (k, i) :: v =>
      s ← to_text i;
      n ← Load s;
      assign_elements v (assign k n node)
  end.
Definition string_of_map (v : list (string * T)) : option string :=
  node ← assign_elements v null;
  Some (emit node).
End containers.

#[export] Instance sequence_cast {Node T : Type} `{!Yaml Node, !Cast T} : Cast (list T) := {
  from_text := sequence_of_string;
  to_text := string_of_sequence;
}.

(** ** Theorems *)
Section facts.
Context {Node : Type} `{!Yaml Node} `{!YamlLaws Node} {T : Type} `{!Cast T}.

(** The conversion of a value gives a text that YAML reads as one node, whose text is
    converted to the value. *)
Definition survives {U : Type} `{!Cast U} (x : U) (n : Node) : Prop :=
  ∃ s, to_text x = Some s ∧ Load s = Some n ∧ plain n ∧ from_text (emit n) = Some x.

Lemma push_elements_ok v ns : ∀ node,
  Forall2 survives v ns → push_elements v node = Some (foldl push_back node ns).
Proof.
  revert ns. induction v as [|x v IH]; intros ns node H; inversion H as [|? n ? ns' (s & Hs & Hn & _) Hns]; subst; [done|].
  simpl. rewrite Hs. simpl. rewrite Hn. simpl. by apply IH.
Qed.
Lemma read_elements_ok v ns : ∀ vec,
  Forall2 survives v ns → read_elements ns vec = Some (vec ++ v).
Proof.
  revert ns. induction v as [|x v IH]; intros ns vec H; inversion H as [|? n ? ns' (s & _ & _ & _ & Hx) Hns]; subst;
    simpl; [by rewrite app_nil_r|].
  rewrite Hx. simpl. rewrite (IH ns') by done. by rewrite <- (assoc_L (++)).
Qed.

(** A vector or list whose elements survive the conversion to text and back
    survives it, in order and empty or not; so do vectors of vectors, to any depth,
    since the conversion of a vector is that of an element of the outer one. *)
Theorem sequence_cast_roundtrip (v : list T) ns :
  Forall2 survives v ns →
  survives v (seq_node ns) ∧
  ∃ s, string_of_sequence v = Some s ∧ sequence_of_string s = Some v.
Proof.
  intros H. assert (Hp : plain (seq_node ns)).
  { apply plain_seq. clear -H. induction H as [|x n v ns (s & _ & _ & Hn & _) _ IH]; by constructor. }
  assert (Hs : string_of_sequence v = Some (emit (seq_node ns))).
  { unfold string_of_sequence. by rewrite (push_elements_ok _ _ _ H). }
  assert (Hv : sequence_of_string (emit (seq_node ns)) = Some v).
  { unfold sequence_of_string. rewrite load_emit by done. simpl.
    rewrite iterate_seq. exact (read_elements_ok v ns [] H). }
  split; [|by eexists]. exists (emit (seq_node ns)). split; [exact Hs|].
  split; [by apply load_emit|]. by split.
Qed.

(** A map is written with one entry for each key. *)
Lemma assign_elements_ok v ns : ∀ node,
  mapping node → NoDup (map fst v) → Forall2 (λ p n, survives (snd p) n) v ns →
  ∃ node', assign_elements v node = Some node' ∧ mapping node' ∧
    (∀ k x, (k, x) ∈ v → ∃ n, subscript k node' = Some (Some n) ∧ survives x n) ∧
    (∀ k, k ∉ map fst v → subscript k node' = subscript k node).
Proof.
  revert ns. induction v as [|[k x] v IH]; intros ns node Hm Hnd H;
    inversion H as [|? n ? ns' Hx Hns]; subst; simpl in *.
  { exists node. split; [done|]. split; [done|]. split; [|done]. intros k x Hk. by apply not_elem_of_nil in Hk. }
  apply NoDup_cons in Hnd as [Hk Hnd]. destruct Hx as (s & Hs & Hn & Hrest).
  destruct (IH ns' (assign k n node) (mapping_assign k n node Hm) Hnd Hns) as (node' & E & Hm' & Hin & Hout).
  rewrite Hs. simpl. rewrite Hn. simpl. rewrite E. exists node'. split; [done|]. split; [done|]. split.
  - intros k' x' Hk'. apply elem_of_cons in Hk' as [[= -> ->]|Hk']; [|by apply Hin].
    exists n. rewrite Hout, subscript_assign, String.eqb_refl by done. split; [done|]. by exists s.
  - intros k' Hk'. apply not_elem_of_cons in Hk' as [Hne Hk'].
    rewrite Hout, subscript_assign by done. by rewrite (proj2 (String.eqb_neq k' k)).
Qed.
End facts.

(** ** Vectors of vectors of words *)
Import YamlTree.
#[export] Instance word_cast : Cast string := { from_text := Some; to_text := Some }.

Lemma word_survives c s : Ascii.eqb c "&"%char = false → survives (String c s) (Leaf (String c s)).
Proof. intros Hc. exists (String c s). simpl. by rewrite Hc. Qed.

Lemma sequence_cast_roundtrip_witness :
  ∃ s, string_of_sequence [["20"; "40"]; []; ["80"]]%string = Some s ∧
    sequence_of_string s = Some [["20"; "40"]; []; ["80"]]%string.
Proof.
  destruct (sequence_cast_roundtrip (T := list string) [["20"; "40"]; []; ["80"]]%string
    [seq_node [Leaf "20"; Leaf "40"]; seq_node []; seq_node [Leaf "80"]]%string) as [_ H]; [|exact H].
  repeat constructor; apply sequence_cast_roundtrip; repeat constructor; by apply word_survives.
Defined.
End Cast.
