(* ===== verification/Configs.v ===== *)
(** * Configuration variables (config.h, config.cc)

    [ConfigVar<T>] objects live in a store indexed by address, with the type [T] as a
    tag; [s_datas] maps names to addresses.  The conversions [LexicalCast] (boost and
    yaml-cpp) and the values are parameters, and so is [YAML::Node] (Yamls.v).  A listener
    is a function on what lies outside the variables, the [world], which is a parameter;
    it may return, throw an exception or fault.  It is taken not to touch the variables,
    as the program's own listeners do not; one that set the variable it listens to would
    wait for the lock that [setValue] holds while it calls it.  An [unordered_map] is
    visited in the order of [map_to_list]. *)
From stdpp Require Import base gmap list strings.
From Stdlib Require Import ZArith Lia Ascii String.
From S2P Require Import Prelude Yamls.
Open Scope Z_scope.

Module Config.
Import Yaml.

(** The types of variables, their values and conversions, which throw where they are
    [None]. *)
Class Values (T V : Type) := {
  types_eq :: EqDecision T;
  values_eq :: EqDecision V;
  FromStr : T → string → option V;
  ToStr : T → V → option string;
}.

Section config.
Context {T V W Node : Type} `{!Values T V} `{!Yaml Node}.

(** [on_change_cb], called with the old and the new value: [false] is an exception, and
    what the listener did before it stays done. *)
Definition on_change_cb : Type := V → V → M W bool.

Record ConfigVar := MkConfigVar {
  m_name : string;
  m_description : string;
  m_type : T;
  m_val : V;
  m_cbs : gmap Z on_change_cb;
}.

(** [fun_ids] is the static [s_fun_id] of [addListener], one for each type. *)
Record ConfigState := MkConfigState {
  vars : gmap Z ConfigVar;
  next_var : Z;
  s_datas : gmap string Z;
  fun_ids : T → Z;
  world : W;
}.

Definition set_vars (h : gmap Z ConfigVar) (s : ConfigState) : ConfigState :=
  MkConfigState h (next_var s) (s_datas s) (fun_ids s) (world s).
Definition var_at (a : Z) : M ConfigState ConfigVar := let* h := gets vars in deref (h !! a) "ConfigVar".
Definition update_var (f : ConfigVar → ConfigVar) (a : Z) : M ConfigState unit :=
  modify (λ s, set_vars (alter f a (vars s)) s).

Definition with_val (v : V) (x : ConfigVar) : ConfigVar :=
  MkConfigVar (m_name x) (m_description x) (m_type x) v (m_cbs x).
Definition with_cbs (c : gmap Z on_change_cb) (x : ConfigVar) : ConfigVar :=
  MkConfigVar (m_name x) (m_description x) (m_type x) (m_val x) c.

(** [ConfigVar::toString], where an exception is caught, and [getValue] *)
Definition toString (a : Z) : M ConfigState string :=
  let* x := var_at a in ret (default ""%string (ToStr (m_type x) (m_val x))).
Definition getValue (a : Z) : M ConfigState V := let* x := var_at a in ret (m_val x).

(** The loop over the listeners; the first one that throws ends it. *)
Fixpoint call_listeners (cbs : list (Z * on_change_cb)) (old_value new_value : V) : M W bool :=
  match cbs with
  | [] => ret true
  | i :: rest =>
      let* returned := snd i old_value new_value in
      if returned then call_listeners rest old_value new_value else ret false
  end.
Definition in_world {A} (m : M W A) : M ConfigState A := λ s,
  match m (world s) with
  | Ok (a, w) => Ok (a, MkConfigState (vars s) (next_var s) (s_datas s) (fun_ids s) w)
  | Fault e => Fault e
  end.

(** [setValue]: [false] is the exception of a listener, which leaves the value as it was. *)
Definition setValue (new_val : V) (a : Z) : M ConfigState bool :=
  let* x := var_at a in
  if decide (new_val = m_val x) then ret true
  else
    let* returned := in_world (call_listeners (map_to_list (m_cbs x)) (m_val x) new_val) in
    if returned then update_var (with_val new_val) a ;;; ret true else ret false.

(** [fromString]: an exception of the conversion or of a listener is caught. *)
Definition fromString (val : string) (a : Z) : M ConfigState bool :=
  let* x := var_at a in
  match FromStr (m_type x) val with
  | Some v => setValue v a
  | None => ret false
  end.

(** Listeners; the caller of [addListener] is not told the key. *)
Definition addListener (cb : on_change_cb) (a : Z) : M ConfigState unit :=
  let* x := var_at a in
  let* ids := gets fun_ids in
  let key := u64 (ids (m_type x) + 1) in
  modify (λ s, MkConfigState (vars s) (next_var s) (s_datas s)
    (λ t, if decide (t = m_type x) then key else fun_ids s t) (world s)) ;;;
  update_var (λ x, with_cbs (<[key := cb]> (m_cbs x)) x) a.
Definition delListener (key a : Z) : M ConfigState unit :=
  var_at a ;;; update_var (λ x, with_cbs (base.delete key (m_cbs x)) x) a.
Definition getListener (key a : Z) : M ConfigState (option on_change_cb) :=
  let* x := var_at a in ret (m_cbs x !! key).
Definition clearListener (a : Z) : M ConfigState unit := var_at a ;;; update_var (with_cbs ∅) a.

(** ** [Config] *)

(** The characters [Lookup] and [ListAllMember] accept in names. *)
Definition is_lower (c : ascii) : bool := let n := nat_of_ascii c in ((97 <=? n) && (n <=? 122))%nat.
Definition is_upper (c : ascii) : bool := let n := nat_of_ascii c in ((65 <=? n) && (n <=? 90))%nat.
Definition is_digit (c : ascii) : bool := let n := nat_of_ascii c in ((48 <=? n) && (n <=? 57))%nat.
Definition member_char (c : ascii) : bool := is_lower c || Ascii.eqb c "." || Ascii.eqb c "_" || is_digit c.
Definition name_char (c : ascii) : bool := member_char c || is_upper c.
(** [s.find_first_not_of(...) == npos] *)
Fixpoint only (f : ascii → bool) (s : string) : bool :=
  match s with EmptyString => true | String c s' => f c && only f s' end.

Definition create (t : T) (name : string) (default_value : V) (description : string) : M ConfigState Z :=
  if only name_char name then
    let* a := gets next_var in
    modify (λ s, MkConfigState (<[a := MkConfigVar name description t default_value ∅]> (vars s)) (a + 1)
                   (<[name := a]> (s_datas s)) (fun_ids s) (world s)) ;;;
    ret a
  else fail (Uncaught "std::invalid_argument").

(** [Config::Lookup<T>(name, default_value, description)] *)
Definition Lookup (t : T) (name : string) (default_value : V) (description : string) : M ConfigState Z :=
  let* datas := gets s_datas in
  match datas !! name with
  | Some a =>
      let* x := var_at a in
      if decide (m_type x = t) then ret a else create t name default_value description
  | None => create t name default_value description
  end.

(** [Config::Lookup<T>(name)]; [None] is a null handle. *)
Definition Lookup_only (t : T) (name : string) : M ConfigState (option Z) :=
  let* datas := gets s_datas in
  match datas !! name with
  | Some a => let* x := var_at a in ret (if decide (m_type x = t) then Some a else None)
  | None => ret None
  end.
Definition LookupBase (name : string) : M ConfigState (option Z) :=
  let* datas := gets s_datas in ret (datas !! name).
(** [Visit]: the variables its callback is given. *)
Definition Visit : M ConfigState (list Z) :=
  let* datas := gets s_datas in ret (map snd (map_to_list datas)).

(** [ListAllMember]: what it appends to [output]. *)
Definition join (prefix key : string) : string :=
  if String.eqb prefix "" then key else prefix +:+ "." +:+ key.
Fixpoint ListAllMember (fuel : nat) (prefix : string) (node : Node) : outcome (list (string * Node)) :=
  match fuel with
  | O => Fault StillRunning
  | S fuel' =>
      if negb (only member_char prefix) then Ok []
      else if IsMap node then
        let fix each (l : list (Node * Node)) : outcome (list (string * Node)) :=
          match l with
          | [] => Ok []
          | it :: rest =>
              match ListAllMember fuel' (join prefix (Scalar (fst it))) (snd it), each rest with
              | Ok a, Ok b => Ok (a ++ b)
              | Fault e, _ => Fault e
              | _, Fault e => Fault e
              end
          end in
        match each (members node) with
        | Ok l => Ok ((prefix, node) :: l)
        | Fault e => Fault e
        end
      else Ok [(prefix, node)]
  end.

Definition tolower (c : ascii) : ascii := if is_upper c then ascii_of_nat (nat_of_ascii c + 32) else c.
Fixpoint transform_tolower (s : string) : string :=
  match s with EmptyString => EmptyString | String c s' => String (tolower c) (transform_tolower s') end.

(** The body of the loop of [LoadFromYaml]. *)
Definition node_text (n : Node) : string := if IsScalar n then Scalar n else emit n.
Definition load_one (i : string * Node) : M ConfigState unit :=
  if String.eqb (fst i) "" then ret tt
  else
    let* var := LookupBase (transform_tolower (fst i)) in
    match var with
    | Some a => fromString (node_text (snd i)) a ;;; ret tt
    | None => ret tt
    end.
Fixpoint load_all (l : list (string * Node)) : M ConfigState unit :=
  match l with
  | [] => ret tt
  | i :: rest => load_one i ;;; load_all rest
  end.
Definition LoadFromYaml (root : Node) : M ConfigState unit := λ s,
  match ListAllMember (S (depth root)) "" root with
  | Ok all_nodes => load_all all_nodes s
  | Fault e => Fault e
  end.
End config.
Arguments on_change_cb : clear implicits.
Arguments ConfigVar : clear implicits.
Arguments ConfigState : clear implicits.
End Config.
