(* ===== verification/ConfigFacts.v ===== *)
(** * Theorems about configuration variables

    What loading a document sets, and what a lookup finds. *)
From stdpp Require Import base gmap list strings.
From Stdlib Require Import ZArith Lia Ascii String.
From S2P Require Import Prelude Yamls YamlTrees Configs.
Open Scope Z_scope.

Module ConfigFacts.
Import Yaml Config.

(** ** Names *)
Lemma upper_not_member c : is_upper c = true → member_char c = false.
Proof.
  intros H. assert (Hdot : Ascii.eqb c "." = false) by (apply Ascii.eqb_neq; intros ->; discriminate H).
  assert (Hlow : Ascii.eqb c "_" = false) by (apply Ascii.eqb_neq; intros ->; discriminate H).
  unfold member_char, is_upper, is_lower, is_digit in *. rewrite Hdot, Hlow.
  apply andb_prop in H as [H1 H2]. apply Nat.leb_le in H1, H2.
  destruct (Nat.leb_spec 97 (nat_of_ascii c)), (Nat.leb_spec 48 (nat_of_ascii c)), (Nat.leb_spec (nat_of_ascii c) 57); simpl;
    try done; lia.
Qed.
Lemma tolower_member k : only member_char k = true → transform_tolower k = k.
Proof.
  induction k as [|c k IH]; [done|]. simpl. intros [Hc Hk]%andb_prop. rewrite IH by done. f_equal.
  unfold tolower. destruct (is_upper c) eqn:E; [|done]. apply upper_not_member in E. congruence.
Qed.

Section facts.
Context {T V W Node : Type} `{!Values T V} `{!Yaml Node} `{!YamlLaws Node}.
Local Abbreviation state := (ConfigState T V W).
Local Abbreviation callback := (on_change_cb V W).
Implicit Types (s : state) (x : ConfigVar T V W) (w : W) (cb : callback).

Record config_ok s : Prop := {
  ok_name : ∀ n a, s_datas s !! n = Some a → ∃ x, vars s !! a = Some x ∧ m_name x = n;
  ok_fresh : ∀ a x, vars s !! a = Some x → a < next_var s;
}.

Lemma var_at_ok a x s : vars s !! a = Some x → var_at a s = Ok (x, s).
Proof. intros H. unfold var_at. step_ok. unfold deref. by rewrite H. Qed.

(** ** Setting a variable *)

(** The state with variable [a] changed and the world where the listeners left it. *)
Definition with_world w s : state := MkConfigState (vars s) (next_var s) (s_datas s) (fun_ids s) w.
Definition put (a : Z) x w s : state := with_world w (set_vars (<[a := x]> (vars s)) s).

Lemma with_val_same x : with_val (m_val x) x = x.
Proof. by destruct x. Qed.
Lemma put_same a x s : vars s !! a = Some x → put a x (world s) s = s.
Proof. intros Hx. unfold put, with_world, set_vars. simpl. rewrite insert_id by done. by destruct s. Qed.

(** Every branch of [setValue]: the value is there already; the listeners all return, and
    it is assigned; one of them throws, and it is not; or one of them faults. *)
Lemma setValue_ok v a x s :
  vars s !! a = Some x →
  setValue v a s =
    if decide (v = m_val x) then Ok (true, s)
    else match call_listeners (map_to_list (m_cbs x)) (m_val x) v (world s) with
         | Ok (true, w) => Ok (true, put a (with_val v x) w s)
         | Ok (false, w) => Ok (false, put a x w s)
         | Fault e => Fault e
         end.
Proof.
  intros Hx. unfold setValue. rewrite (bind_step _ _ _ _ _ (var_at_ok a x s Hx)).
  destruct (decide (v = m_val x)) as [->|Hne]; [done|]. unfold bind at 1, in_world.
  destruct (call_listeners _ _ _ (world s)) as [[[] w]|]; [| |done].
  - unfold update_var, bind, modify, ret, put, with_world, set_vars. simpl. do 3 f_equal. f_equal.
    apply map_eq. intros b. destruct (decide (a = b)) as [->|Hb].
    + by rewrite lookup_alter_eq, lookup_insert_eq, Hx.
    + by rewrite lookup_alter_ne, lookup_insert_ne.
  - unfold ret, put, with_world, set_vars. simpl. by rewrite insert_id.
Qed.

(** Listeners that return or throw but never fault, that all return, or that never do. *)
Definition tame x : Prop := ∀ i cb, m_cbs x !! i = Some cb → ∀ o n w, ∃ b w', cb o n w = Ok (b, w').
Definition obedient x : Prop := ∀ i cb, m_cbs x !! i = Some cb → ∀ o n w, ∃ w', cb o n w = Ok (true, w').

Lemma obedient_tame x : obedient x → tame x.
Proof. intros H i cb Hi o n w. destruct (H i cb Hi o n w) as [w' ?]. by exists true, w'. Qed.

(** ** The nodes of a document *)



(** ** Loading *)

(** The values the nodes named [k] convert to, in order. *)
Definition settings (t : T) (k : string) (nodes : list (string * Node)) : list V :=
  omap (λ i, if decide (fst i = k ∧ k ≠ ""%string) then FromStr t (node_text (snd i)) else None) nodes.

Lemma settings_cons t k i nodes : settings t k (i :: nodes) = settings t k [i] ++ settings t k nodes.
Proof. unfold settings. by rewrite <- (omap_app _ [i] nodes). Qed.

(** What a node does: nothing when it sets no variable, and else what [setValue] does, whose
    exceptions are caught. *)
Lemma load_one_ok i s :
  config_ok s → only member_char (fst i) = true →
  (load_one i s = Ok (tt, s) ∧
   ∀ k a x, s_datas s !! k = Some a → vars s !! a = Some x → settings (m_type x) k [i] = []) ∨
  ∃ k a x v, s_datas s !! k = Some a ∧ vars s !! a = Some x ∧ settings (m_type x) k [i] = [v] ∧
    (∀ k' a' x', s_datas s !! k' = Some a' → vars s !! a' = Some x' → k' ≠ k →
       a' ≠ a ∧ settings (m_type x') k' [i] = []) ∧
    load_one i s = (setValue v a ;;; ret tt) s.
Proof.
  intros Hok Hi. destruct i as [key n]. unfold load_one, settings. simpl in *.
  destruct (String.eqb key "") eqn:Ek.
  { apply String.eqb_eq in Ek as ->. left. split; [done|]. intros k a x _ Hx. by rewrite decide_False by (intros [<- ?]; done). }
  apply String.eqb_neq in Ek. rewrite tolower_member by done. unfold LookupBase.
  rewrite (bind_step _ _ s (s_datas s !! key) s) by done.
  destruct (s_datas s !! key) as [a|] eqn:Ea.
  2: { left. split; [done|]. intros k a x Hk Hx. by rewrite decide_False by (intros [<- ?]; congruence). }
  destruct (ok_name _ Hok key a Ea) as (x & Hx & Hname).
  unfold fromString. rewrite bind_assoc, (bind_step _ _ _ _ _ (var_at_ok a x s Hx)).
  destruct (FromStr (m_type x) (node_text n)) as [v|] eqn:Ev.
  - right. exists key, a, x, v. split; [done|]. split; [done|]. rewrite decide_True by done. simpl. rewrite Ev.
    split; [done|]. split; [|done]. intros k b y Hk Hy Hne. split.
    + intros ->. destruct (ok_name _ Hok k a Hk) as (z & Hz & Hzn). congruence.
    + by rewrite decide_False by (intros [<- _]; done).
  - left. split; [done|]. intros k b y Hk Hy. destruct (decide (key = k)) as [<-|Hne].
    + assert (b = a) as -> by congruence. assert (y = x) as -> by congruence.
      rewrite decide_True by done. simpl. by rewrite Ev.
    + by rewrite decide_False by (intros [? _]; congruence).
Qed.

Lemma put_ok k a x v w s : config_ok s → s_datas s !! k = Some a → vars s !! a = Some x → config_ok (put a (with_val v x) w s).
Proof.
  intros [Hn Hf] Hk Hx. split; simpl.
  - intros n b Hb. destruct (Hn n b Hb) as (y & Hy & Hname). destruct (decide (b = a)) as [->|Hne].
    + assert (y = x) as -> by congruence. exists (with_val v x). by rewrite lookup_insert_eq.
    + exists y. by rewrite lookup_insert_ne.
  - intros b y. rewrite lookup_insert_Some. intros [[<- <-]|[_ Hy]]; [by eapply Hf|by eapply Hf].
Qed.






(** *** A single setting *)

(** A variable whose value one node sets and that has the only listeners, any number. *)
Definition only_listeners s (k : string) : Prop :=
  ∀ k' a x, s_datas s !! k' = Some a → vars s !! a = Some x → k' ≠ k → m_cbs x = ∅.

Lemma quiet_put a x v s : vars s !! a = Some x → m_cbs x = ∅ →
  ∃ u, (setValue v a ;;; ret tt) s = Ok (tt, put a (with_val u x) (world s) s).
Proof.
  intros Hx Hc. unfold bind. rewrite (setValue_ok v a x s Hx), Hc, map_to_list_empty.
  destruct (decide (v = m_val x)); [exists (m_val x)|by exists v]. by rewrite with_val_same, put_same.
Qed.

(** Nodes that do not set variable [k] leave it and the world alone. *)
Lemma load_others k nodes : ∀ s a x,
  config_ok s → Forall (λ i, only member_char (fst i) = true) nodes → only_listeners s k →
  s_datas s !! k = Some a → vars s !! a = Some x → settings (m_type x) k nodes = [] →
  ∃ s', load_all nodes s = Ok (tt, s') ∧ config_ok s' ∧ only_listeners s' k ∧ s_datas s' = s_datas s ∧
    vars s' !! a = Some x ∧ world s' = world s.
Proof.
  induction nodes as [|i nodes IH]; intros s a x Hok Hn Hl Hk Hx Hset; cbn [load_all]; [by exists s|].
  apply Forall_cons in Hn as [Hi Hn]. rewrite settings_cons in Hset. apply app_eq_nil in Hset as [Hs1 Hs2].
  destruct (load_one_ok i s Hok Hi) as [[H _]|(k' & b & y & v & Hk' & Hy & Hv & Hother & H)].
  { rewrite (bind_step _ _ _ _ _ H). by apply (IH s a x). }
  assert (Hne : k' ≠ k) by (intros ->; congruence).
  destruct (Hother k a x Hk Hx (not_eq_sym Hne)) as [Hab _].
  destruct (quiet_put b y v s Hy (Hl k' b y Hk' Hy Hne)) as [u Hu]. rewrite <- H in Hu.
  rewrite (bind_step _ _ _ _ _ Hu). destruct (IH (put b (with_val u y) (world s) s) a x) as (s' & Hs').
  - by eapply put_ok.
  - done.
  - intros k2 c z Hk2 Hz. simpl in Hk2, Hz. apply lookup_insert_Some in Hz as [[<- <-]|[_ Hz]]; [|by eapply Hl].
    intros _. by apply (Hl k' b y).
  - done.
  - simpl. by rewrite lookup_insert_ne.
  - done.
  - by exists s'.
Qed.

Lemma settings_split t k v nodes : settings t k nodes = [v] →
  ∃ l1 i l2, nodes = l1 ++ i :: l2 ∧ settings t k l1 = [] ∧ settings t k [i] = [v] ∧ settings t k l2 = [].
Proof.
  induction nodes as [|i nodes IH]; [done|]. rewrite settings_cons. destruct (settings t k [i]) as [|u us] eqn:E.
  - intros (l1 & j & l2 & -> & H1 & H2 & H3)%IH. exists (i :: l1), j, l2. split; [done|]. by rewrite settings_cons, E.
  - intros [= -> Hnil]. apply app_eq_nil in Hnil as [-> ?]. by exists [], i, nodes.
Qed.

Lemma load_single k nodes s a x v :
  config_ok s → Forall (λ i, only member_char (fst i) = true) nodes → only_listeners s k →
  s_datas s !! k = Some a → vars s !! a = Some x → settings (m_type x) k nodes = [v] →
  match setValue v a s with
  | Ok (_, s1) => ∃ s', load_all nodes s = Ok (tt, s') ∧ config_ok s' ∧ only_listeners s' k ∧
      s_datas s' = s_datas s ∧ vars s' !! a = vars s1 !! a ∧ world s' = world s1
  | Fault e => load_all nodes s = Fault e
  end.
Proof.
  intros Hok Hn Hl Hk Hx (l1 & i & l2 & -> & H1 & H2 & H3)%settings_split.
  apply Forall_app in Hn as [Hn1 Hn]. apply Forall_cons in Hn as [Hi Hn2].
  destruct (load_others k l1 s a x Hok Hn1 Hl Hk Hx H1) as (s1 & Hl1 & Hok1 & Hone1 & Hd1 & Hv1 & Hw1).
  assert (Happ : ∀ l l' s, load_all (l ++ l') s = (load_all l ;;; load_all l') s).
  { induction l as [|j l IH]; intros l' s0; [done|]. simpl. rewrite bind_assoc. apply bind_cong. intros _ s2 _. apply IH. }
  rewrite Happ, (bind_step _ _ _ _ _ Hl1). cbn [load_all].
  rewrite <- Hd1 in Hk.
  destruct (load_one_ok i s1 Hok1 Hi) as [[_ Hnone]|(k' & b & y & u & Hk' & Hy & Hu & Hother & H)].
  { specialize (Hnone k a x Hk Hv1). congruence. }
  destruct (decide (k' = k)) as [->|Hne]; cycle 1.
  { destruct (Hother k a x Hk Hv1 (not_eq_sym Hne)). congruence. }
  assert (b = a) as -> by congruence. assert (y = x) as -> by congruence. assert (u = v) as -> by congruence.
  assert (Hrun : (load_one i ;;; load_all l2) s1 =
    match setValue v a s1 with Ok (_, s2) => load_all l2 s2 | Fault e => Fault e end).
  { unfold bind. rewrite H. unfold bind. by destruct (setValue v a s1) as [[]|]. }
  rewrite Hrun, (setValue_ok v a x s1 Hv1), (setValue_ok v a x s Hx), Hw1.
  assert (Hrest : ∀ u w, let s2 := put a (with_val u x) w s1 in
    ∃ s', load_all l2 s2 = Ok (tt, s') ∧ config_ok s' ∧ only_listeners s' k ∧ s_datas s' = s_datas s ∧
      vars s' !! a = Some (with_val u x) ∧ world s' = w).
  { intros u w s2. destruct (load_others k l2 s2 a (with_val u x)) as (s' & Hl2 & Hok2 & Hone2 & Hd2 & Hv2 & Hw2); try done.
    - by eapply put_ok.
    - intros k2 c z Hk2 Hz. simpl in Hk2, Hz. apply lookup_insert_Some in Hz as [[<- <-]|[_ Hz]]; [|by eapply Hone1].
      intros Hne. destruct (ok_name _ Hok1 k2 a Hk2) as (z & Hz & Hn2'). destruct (ok_name _ Hok1 k a Hk) as (z' & Hz' & Hn'). congruence.
    - simpl. apply lookup_insert_eq.
    - exists s'. split; [done|]. split; [done|]. split; [done|]. split; [by rewrite Hd2|done]. }
  destruct (decide (v = m_val x)) as [->|_].
  - specialize (Hrest (m_val x) (world s1)). rewrite with_val_same, put_same in Hrest by done. simpl. by rewrite Hx, <- Hw1.
  - destruct (call_listeners _ _ _ _) as [[[] w]|]; [| |done].
    + destruct (Hrest v w) as (s' & ?). exists s'. simpl. by rewrite lookup_insert_eq.
    + destruct (Hrest (m_val x) w) as (s' & Hs'). rewrite with_val_same in Hs'. exists s'. simpl. by rewrite lookup_insert_eq.
Qed.


(** ** Looking up *)

(** A name that stands for a variable of the type. *)
Lemma lookup_found t name s a x :
  s_datas s !! name = Some a → vars s !! a = Some x → m_type x = t →
  (∀ v d, Lookup t name v d s = Ok (a, s)) ∧ ∀ t', t' ≠ t → Lookup_only t' name s = Ok (None, s).
Proof.
  intros Ha Hx Ht. split.
  - intros v d. unfold Lookup. step_ok. rewrite Ha, (bind_step _ _ _ _ _ (var_at_ok a x s Hx)).
    by rewrite decide_True by done.
  - intros t' Hne. unfold Lookup_only. step_ok. rewrite Ha, (bind_step _ _ _ _ _ (var_at_ok a x s Hx)).
    by rewrite decide_False by congruence.
Qed.

(** The variable [Lookup] finds by a name. *)
Definition registered s (t : T) (name : string) : option Z :=
  match s_datas s !! name with
  | Some a => if decide (m_type <$> vars s !! a = Some t) then Some a else None
  | None => None
  end.
(** The state with a new variable known by the name. *)
Definition with_new t (name : string) (v : V) (description : string) s : state :=
  MkConfigState (<[next_var s := MkConfigVar name description t v ∅]> (vars s)) (next_var s + 1)
    (<[name := next_var s]> (s_datas s)) (fun_ids s) (world s).

Lemma with_new_ok t name v d s : config_ok s → config_ok (with_new t name v d s).
Proof.
  intros Hok. split; simpl.
  - intros n b. destruct (decide (n = name)) as [->|Hne].
    + rewrite lookup_insert_eq. intros [= <-]. eexists. by rewrite lookup_insert_eq.
    + rewrite lookup_insert_ne by done. intros H. destruct (ok_name _ Hok n b H) as (y & Hy & Hyn).
      exists y. split; [|done]. rewrite lookup_insert_ne; [done|]. pose proof (ok_fresh _ Hok b y Hy). lia.
  - intros b y. destruct (decide (b = next_var s)) as [->|Hne]; [lia|].
    rewrite lookup_insert_ne by done. intros H. pose proof (ok_fresh _ Hok b y H). lia.
Qed.

(** C36: [Lookup] with a default.  When the name stands for a variable of the type asked
    for, that is the result and nothing changes, whatever the name.  Otherwise, when
    the name holds letters, digits, dots and underscores only, a variable with the
    default and without listeners is made, and the name stands for it from then on; a
    variable of another type that had the name is no longer found.  Otherwise it throws
    [std::invalid_argument].  Looking up again returns the same variable. *)
Theorem lookup_finds_or_creates t name default_value description s :
  config_ok s →
  Lookup t name default_value description s =
    (match registered s t name with
     | Some a => Ok (a, s)
     | None =>
         if only name_char name then Ok (next_var s, with_new t name default_value description s)
         else Fault (Uncaught "std::invalid_argument")
     end) ∧
  ∀ a s', Lookup t name default_value description s = Ok (a, s') →
    config_ok s' ∧ (∀ v d, Lookup t name v d s' = Ok (a, s')) ∧
    ∀ t', t' ≠ t → Lookup_only t' name s' = Ok (None, s').
Proof.
  intros Hok.
  assert (E : Lookup t name default_value description s =
    match registered s t name with
    | Some a => Ok (a, s)
    | None =>
        if only name_char name then Ok (next_var s, with_new t name default_value description s)
        else Fault (Uncaught "std::invalid_argument")
    end).
  { assert (Hcreate : create t name default_value description s =
      if only name_char name then Ok (next_var s, with_new t name default_value description s)
      else Fault (Uncaught "std::invalid_argument")) by (unfold create; by destruct (only name_char name)).
    unfold Lookup, registered. step_ok. destruct (s_datas s !! name) as [a|] eqn:Ea; [|exact Hcreate].
    destruct (ok_name _ Hok name a Ea) as (x & Hx & _). rewrite (bind_step _ _ _ _ _ (var_at_ok a x s Hx)), Hx. simpl.
    destruct (decide (m_type x = t)) as [->|Hne]; [by rewrite decide_True|]. by rewrite decide_False by congruence. }
  split; [exact E|]. intros a s'. rewrite E. unfold registered.
  assert (Hnew : (if only name_char name then Ok (next_var s, with_new t name default_value description s)
      else Fault (Uncaught "std::invalid_argument")) = Ok (a, s') →
    config_ok s' ∧ (∀ v d, Lookup t name v d s' = Ok (a, s')) ∧ ∀ t', t' ≠ t → Lookup_only t' name s' = Ok (None, s')).
  { destruct (only name_char name); [|done]. intros [= <- <-]. split; [by apply with_new_ok|].
    eapply lookup_found; simpl; [apply lookup_insert_eq..|done]. }
  destruct (s_datas s !! name) as [b|] eqn:Eb; [|exact Hnew]. destruct (decide _) as [Ht|]; [|exact Hnew].
  intros [= <- <-]. apply fmap_Some in Ht as (x & Hx & ->). split; [done|]. by eapply lookup_found.
Qed.
End facts.
(** ** A concrete document *)
Import YamlTree.
(** Two types of variables: strings, and strings of digits. *)
#[export] Instance digit_values : Values bool string := {
  FromStr := λ t s, if t then Some s else if only is_digit s then Some s else None;
  ToStr := λ _ v, Some v;
}.

(** The world is a list of what the listeners have heard; a listener of [system.port] refuses
    port 1. *)
Definition heard : Type := list (string * string).
Definition port_listener : on_change_cb string heard := λ old new,
  modify (λ w, w ++ [(old, new)]) ;;; ret (negb (String.eqb new "1")).
Definition sample_config : ConfigState bool string heard :=
  MkConfigState {[1 := MkConfigVar "system.port" "" false "80" {[1 := port_listener]};
                  2 := MkConfigVar "name" "" true "x" ∅]} 3
    {["system.port" := 1; "name" := 2]} (λ _, 1) [].

Lemma sample_config_ok : config_ok sample_config.
Proof.
  split; simpl.
  - intros n a H. apply lookup_insert_Some in H as [[<- <-]|[_ H]]; [eexists; split; [apply lookup_insert_eq|done]|].
    apply lookup_singleton_Some in H as [<- <-]. eexists. split; [by rewrite lookup_insert_ne|done].
  - intros a x H. apply lookup_insert_Some in H as [[<- _]|[_ H]]; [lia|]. apply lookup_singleton_Some in H as [<- _]. lia.
Qed.



Lemma lookup_finds_or_creates_witness :
  Lookup true "system.port" "x" "" sample_config =
    Ok (3, with_new true "system.port" "x" "" sample_config) ∧
  Lookup true "bad name" "x" "" sample_config = Fault (Uncaught "std::invalid_argument").
Proof.
  destruct (lookup_finds_or_creates true "system.port" "x" "" sample_config sample_config_ok) as [H _].
  destruct (lookup_finds_or_creates true "bad name" "x" "" sample_config sample_config_ok) as [Hbad _].
  split; [exact H|exact Hbad].
Defined.
End ConfigFacts.
