(* ===== verification/Reloads.v ===== *)
(** * Reloading the log configuration (log.cc with config.h)

    The variable [g_log_defines] and the listener [LogIniter] gives it, in a process whose
    world outside the variables are the loggers.  The other variables, their types and
    their values are parameters. *)
From stdpp Require Import base gmap list strings.
From Stdlib Require Import ZArith Lia String.
From S2P Require Import Prelude StdSet Yamls LogFormats Loggers LogYamls Configs.
Open Scope Z_scope.

Module Reload.
Import Yaml LogFormat Log LogYaml Config.

(** [std::set<LogDefine>] among the types of variables. *)
Inductive var_type (T : Type) := LogSet | Other (t : T).
Inductive value (V : Type) := Defines (v : list LogDefine) | Plain (v : V).
Arguments LogSet {T}.
Arguments Other {T} t.
Arguments Defines {V} v.
Arguments Plain {V} v.

#[export] Instance var_type_eq {T} `{!EqDecision T} : EqDecision (var_type T).
Proof. solve_decision. Defined.
#[export] Instance value_eq {V} `{!EqDecision V} : EqDecision (value V).
Proof. solve_decision. Defined.

Section reload.
Context {T V Node : Type} `{!Values T V} `{!Yaml Node}.

(** The conversions of [g_log_defines] are those of [LogYaml]. *)
#[export] Instance log_values : Values (var_type T) (value V) := {
  types_eq := var_type_eq;
  values_eq := value_eq;
  FromStr := λ t s,
    match t with
    | LogSet => option_map Defines (defines_of_string s)
    | Other t => option_map Plain (FromStr t s)
    end;
  ToStr := λ t v,
    match t, v with
    | LogSet, Defines v => Some (string_of_defines v)
    | Other t, Plain v => ToStr t v
    | _, _ => None
    end;
}.

Definition Vars : Type := ConfigState (var_type T) (value V) Logs.

(** The listener of [g_log_defines]; [announce] is the event it logs first.  It throws
    nothing. *)
Context (strftime : string → Z → string) (can_open : string → bool).
Definition logs_listener (announce : LogEvent) : on_change_cb (value V) Logs := λ old_value new_value,
  match old_value, new_value with
  | Defines old_value, Defines new_value =>
      logs_changed strftime can_open announce old_value new_value ;;; ret true
  | _, _ => ret true
  end.

(** [g_log_defines] and [__log_init] *)
Definition LogIniter (announce : LogEvent) : M Vars Z :=
  let* g_log_defines := Lookup LogSet "logs" (Defines []) "logs config" in
  addListener (logs_listener announce) g_log_defines ;;;
  ret g_log_defines.
End reload.
End Reload.
