(* ===== verification/ReloadFacts.v ===== *)
(** * Theorems about reloading the log configuration

    From a document to the loggers: the variable, its listener and the loggers together. *)
From stdpp Require Import base gmap list strings.
From Stdlib Require Import ZArith Lia String.
From S2P Require Import Prelude StdSet Yamls YamlTrees LogFormats LogFormatFacts Loggers LoggerFacts LogYamls LogYamlFacts.
From S2P Require Import Configs ConfigFacts Reloads.
Open Scope Z_scope.

Module ReloadFacts.
Import Yaml LogFormat Log LoggerFacts LogYaml LogYamlFacts Config ConfigFacts Reload.

Section facts.
Context {T V Node : Type} `{!Values T V} `{!Yaml Node} `{!YamlLaws Node}.
Context (strftime : string → Z → string) (can_open : string → bool).
Local Abbreviation vars_state := (@Vars T V).
Implicit Types (c : vars_state) (s : Logs).
Variable announce : LogEvent.
Local Abbreviation listener := (logs_listener (V := V) strftime can_open announce).




End facts.

(** ** The program's own configuration file *)
Import YamlTree.
Local Abbreviation state := (@Vars bool string).




End ReloadFacts.
