(* ===== verification/HookInits.v ===== *)
(** * The start-up of the hooks (hook.cc)

    [hook_init] and the static object that calls it before [main]; [dlsym] is an
    argument. *)
From stdpp Require Import base gmap list strings.
From Stdlib Require Import ZArith String.
From S2P Require Import Prelude Yamls YamlTrees Configs ConfigFacts.
Open Scope Z_scope.

Module HookInit.
Import Config.

(** [HOOK_FUN] *)
Definition HOOK_FUN : list string :=
  ["sleep"; "usleep"; "nanosleep"; "socket"; "accept"; "connect"; "read"; "readv"; "recv"; "recvfrom"; "recvmsg";
   "write"; "writev"; "send"; "sendto"; "sendmsg"; "close"; "fcntl"; "ioctl"; "getsockopt"; "setsockopt"]%string.

Section init.
Context {F : Type} (dlsym : string → option F).

(** The static [is_inited] of [hook_init] and the pointers [sleep_f], [usleep_f], ... *)
Record Symbols := MkSymbols { is_inited : bool; functions : gmap string (option F) }.

Definition hook_init (s : Symbols) : Symbols :=
  if is_inited s then s
  else MkSymbols (is_inited s) (foldl (λ m name, <[name := dlsym name]> m) (functions s) HOOK_FUN).

Lemma resolved_lookup l (m : gmap string (option F)) name :
  foldl (λ m name, <[name := dlsym name]> m) m l !! name =
    if bool_decide (name ∈ l) then Some (dlsym name) else m !! name.
Proof.
  revert m. induction l as [|x l IH]; intros m; [done|]. simpl. rewrite IH.
  destruct (decide (name = x)) as [->|Hne].
  - rewrite lookup_insert_eq, (bool_decide_true (x ∈ x :: l)) by left. by case_bool_decide.
  - rewrite lookup_insert_ne by done. rewrite (bool_decide_ext (name ∈ x :: l) (name ∈ l)); [done|].
    rewrite elem_of_cons. naive_solver.
Qed.

(** Every function is looked up, however often [hook_init] has been called; that it has
    been called is never recorded. *)
Lemma hook_init_resolves s name :
  is_inited s = false →
  functions (hook_init s) !! name =
    (if bool_decide (name ∈ HOOK_FUN) then Some (dlsym name) else functions s !! name) ∧
  is_inited (hook_init s) = false ∧ hook_init (hook_init s) = hook_init s.
Proof.
  intros Hs. unfold hook_init. generalize HOOK_FUN. intros fs. rewrite Hs. simpl. split; [apply resolved_lookup|]. split; [done|].
  f_equal. apply map_eq. intros n. rewrite !resolved_lookup. by case_bool_decide.
Qed.
End init.

(** ** The connect timeout *)
Section timeout.
Context {T V W : Type} `{!Values T V}.
(** The type [int] among the types of variables, and its values. *)
Variables (int_type : T) (of_int : Z → V) (to_int : V → Z).

(** [g_tcp_connect_timeout] *)
Definition g_tcp_connect_timeout : M (ConfigState T V W) Z :=
  Lookup int_type "tcp_connect_timeout" (of_int 5000) "tcp connect timeout".

(** [_Hook_initer] after [hook_init]: what it stores in [s_connect_timeout].  The listener
    prints a message. *)
Definition Hook_initer (listener : on_change_cb V W) (var : Z) : M (ConfigState T V W) Z :=
  let* v := getValue var in
  addListener listener var ;;;
  ret (u64 (to_int v)).
End timeout.
End HookInit.
