(* ===== verification/EntryPoints.v ===== *)
(** * The hooked functions (hook.h, hook.cc)

    The functions that replace those of the C library, with the arguments of their
    prototypes, over the pointers [hook_init] fills in.  [Hooks] has what they do; here is
    which original, event and option each of them gives it, and what a thread without the
    hooks gets. *)
From stdpp Require Import base gmap list strings.
From Stdlib Require Import ZArith Lia.
From S2P Require Import Prelude StdSet Timers Fibers Schedulers FdManagers IOManagers IOManagerSim Hooks HookFacts HookSim HookInits.
Open Scope Z_scope.

Module EntryPoint.
Import Fiber Scheduler IOManager IOManagerSim Hook HookFacts HookSim HookInit.

(** A call of one of the functions; a pointer is an address.  The third argument of [fcntl]
    need not be there. *)
Inductive call :=
  | c_sleep (seconds : Z)
  | c_usleep (useconds : Z)
  | c_nanosleep (req rem : Z)
  | c_socket (domain type protocol : Z)
  | c_accept (sockfd addr addrlen : Z)
  | c_connect (sockfd addr addrlen : Z)
  | c_read (fd buf count : Z)
  | c_readv (fd iov iovcnt : Z)
  | c_recv (sockfd buf len flags : Z)
  | c_recvfrom (sockfd buf len flags src_addr addrlen : Z)
  | c_recvmsg (sockfd msg flags : Z)
  | c_write (fd buf count : Z)
  | c_writev (fd iov iovcnt : Z)
  | c_send (sockfd buf len flags : Z)
  | c_sendto (sockfd buf len flags dest_addr addrlen : Z)
  | c_sendmsg (sockfd msg flags : Z)
  | c_close (fd : Z)
  | c_fcntl (fd cmd : Z) (arg : option Z)
  | c_ioctl (fd request arg : Z)
  | c_getsockopt (sockfd level optname optval optlen : Z)
  | c_setsockopt (sockfd level optname optval optlen : Z).

(** The name under which [hook_init] looks the function up. *)
Definition name_of (c : call) : string :=
  match c with
  | c_sleep _ => "sleep" | c_usleep _ => "usleep" | c_nanosleep _ _ => "nanosleep"
  | c_socket _ _ _ => "socket" | c_accept _ _ _ => "accept" | c_connect _ _ _ => "connect"
  | c_read _ _ _ => "read" | c_readv _ _ _ => "readv" | c_recv _ _ _ _ => "recv"
  | c_recvfrom _ _ _ _ _ _ => "recvfrom" | c_recvmsg _ _ _ => "recvmsg"
  | c_write _ _ _ => "write" | c_writev _ _ _ => "writev" | c_send _ _ _ _ => "send"
  | c_sendto _ _ _ _ _ _ => "sendto" | c_sendmsg _ _ _ => "sendmsg"
  | c_close _ => "close" | c_fcntl _ _ _ => "fcntl" | c_ioctl _ _ _ => "ioctl"
  | c_getsockopt _ _ _ _ _ => "getsockopt" | c_setsockopt _ _ _ _ _ => "setsockopt"
  end.

(** The pointers [sleep_f], [usleep_f], ... before [hook_init] has been called. *)
Definition null_functions {F} : Symbols (F := F) :=
  MkSymbols false (list_to_map (map (λ name, (name, None)) HOOK_FUN)).

(** The memory of the caller, as far as the functions look at it. *)
Class Memory (K : Type) := {
  int_at : Z → K → Z;
  timespec_at : Z → K → Z * Z;
  timeval_at : Z → K → Z * Z;
  store_int : Z → Z → K → K;
}.

Section functions.
Context {B K : Type} `{!Kernel K} `{!Bodies B} `{!HookBodies B} `{!Memory K}.
Local Abbreviation P := (Process B K).
(** What the pointers point to, applied to the arguments of a call. *)
Variable original : call → libc K.
(** [s_connect_timeout], and where [connect] keeps its variables [error] and [len]. *)
Variables (s_connect_timeout error_at len_at : Z).

(** [getsockopt(fd, SOL_SOCKET, SO_ERROR, &error, &len)]: its result, and [error]. *)
Definition SO_ERROR : Z := 4.
Definition so_error (fd : Z) : libc K := λ k,
  let '(r, k) := original (c_getsockopt fd SOL_SOCKET SO_ERROR error_at len_at)
                   (store_int len_at 4 (store_int error_at 0 k)) in
  (MkResult (rv r) (int_at error_at k), k).

Definition at_once (m : M P returned) : M P (hook_step returned * Z) := let* r := m in ret (Done r, 0).
Definition sleeping (m : M P (hook_step returned)) : M P (hook_step returned * Z) := let* r := m in ret (r, 0).
(** [va_arg], for a command with an argument. *)
Definition fcntl_argument (cmd : Z) (arg : option Z) : M P Z :=
  if (cmd =? F_SETFL) || fcntl_with_argument cmd then deref arg "va_arg" else ret 0.

(** A hooked function called on thread [t]. *)
Definition call_hooked (fuel : nat) (t : Z) (c : call) : M P (hook_step returned * Z) :=
  match c with
  | c_sleep seconds => sleeping (sleep t seconds (original c))
  | c_usleep useconds => sleeping (usleep t useconds (original c))
  | c_nanosleep req _ =>
      let* ts := gets (λ s, timespec_at req (kernel s)) in
      sleeping (nanosleep t (fst ts) (snd ts) (original c))
  | c_socket _ _ _ => at_once (socket t (original c))
  | c_accept sockfd _ _ => accept fuel t sockfd (original c)
  | c_connect sockfd _ _ => connect t sockfd s_connect_timeout (original c) (so_error sockfd)
  | c_read fd _ _ | c_readv fd _ _ | c_recv fd _ _ _ | c_recvfrom fd _ _ _ _ _ | c_recvmsg fd _ _ =>
      read_like fuel t fd (original c)
  | c_write fd _ _ | c_writev fd _ _ | c_send fd _ _ _ | c_sendto fd _ _ _ _ _ | c_sendmsg fd _ _ =>
      write_like fuel t fd (original c)
  | c_close fd => at_once (close t fd (original c))
  | c_fcntl fd cmd arg =>
      let* a := fcntl_argument cmd arg in
      at_once (fcntl fd cmd a (λ cmd arg, original (c_fcntl fd cmd arg)))
  | c_ioctl fd request arg =>
      let* i := gets (λ s, int_at arg (kernel s)) in
      at_once (ioctl fd request i (original c))
  | c_getsockopt _ _ _ _ _ => at_once (getsockopt (original c))
  | c_setsockopt sockfd level optname optval _ =>
      let* tv := gets (λ s, timeval_at optval (kernel s)) in
      at_once (setsockopt t sockfd level optname (fst tv) (snd tv) (original c))
  end.

(** ** Without the hooks *)

(** The functions that go through [do_io]. *)
Definition does_io (c : call) : bool :=
  match c with
  | c_accept _ _ _ | c_read _ _ _ | c_readv _ _ _ | c_recv _ _ _ _ | c_recvfrom _ _ _ _ _ _ | c_recvmsg _ _ _
  | c_write _ _ _ | c_writev _ _ _ | c_send _ _ _ _ | c_sendto _ _ _ _ _ _ | c_sendmsg _ _ _ => true
  | _ => false
  end.
Definition accepts (c : call) : bool := match c with c_accept _ _ _ => true | _ => false end.
(** The descriptor the function looks up. *)
Definition descriptor (c : call) : option Z :=
  match c with
  | c_accept fd _ _ | c_read fd _ _ | c_readv fd _ _ | c_recv fd _ _ _ | c_recvfrom fd _ _ _ _ _ | c_recvmsg fd _ _
  | c_write fd _ _ | c_writev fd _ _ | c_send fd _ _ _ | c_sendto fd _ _ _ _ _ | c_sendmsg fd _ _
  | c_fcntl fd _ _ | c_ioctl fd _ _ => Some fd
  | _ => None
  end.
(** A call with the arguments it needs, and no others that reach the C library. *)
Definition well_called (c : call) : Prop :=
  match c with
  | c_fcntl _ cmd arg => is_Some arg ↔ ((cmd =? F_SETFL) || fcntl_with_argument cmd) = true
  | _ => True
  end.

(** What the C library is asked to do. *)
Definition library_calls (c : call) (k : K) : result * K :=
  if does_io c then original c (snd (original c k)) else original c k.

Implicit Types (s : P) (f : libc K).

Lemma sys_call f s : sys f s = Ok (fst (f (kernel s)), with_kernel (snd (f (kernel s))) s).
Proof. unfold sys. by destruct (f (kernel s)). Qed.
Lemma with_kernel_again k k' s : with_kernel k' (with_kernel k s) = with_kernel k' s.
Proof. done. Qed.
Lemma socket_context_none fd s :
  rtc fd_step FdManager.no_contexts (p_fds s) → FdManager.is_fd fd → socket_context fd s = Ok (None, s).
Proof.
  intros Hreach Hfd. pose proof (reachable_ok _ Hreach) as [Hp Hl]. unfold socket_context.
  rewrite (bind_step _ _ _ _ _ (lookup_ok fd s Hfd)). destruct (FdManager.lookup_fd (p_fds s) fd) as [a|] eqn:E; [|done].
  destruct (Hl fd a Hfd E) as [c Hc]. destruct (Hp a c Hc) as [Hsock Hclosed].
  rewrite (bind_step _ _ _ _ _ (fd_context_ok a c s Hc)), Hclosed, Hsock. done.
Qed.

(** [do_io] without the hooks makes its call twice. *)
Lemma do_io_off fuel t fd f so s :
  ¬ hooked t s → rtc fd_step FdManager.no_contexts (p_fds s) → FdManager.is_fd fd →
  let r := f (snd (f (kernel s))) in
  do_io fuel t fd f so s = Ok ((Done (of_libc (fst r)), 0), with_kernel (snd r) s).
Proof.
  intros Hh Hreach Hfd. pose proof (reachable_ok _ Hreach) as [Hp Hl]. simpl.
  unfold do_io. rewrite (bind_step _ _ _ _ _ (hook_enabled t s)), bool_decide_false by done.
  simpl. erewrite bind_step by (erewrite bind_step by apply sys_call; reflexivity).
  set (s1 := with_kernel _ s). rewrite (bind_step _ _ _ _ _ (lookup_ok fd s1 Hfd)).
  change (p_fds s1) with (p_fds s). destruct (FdManager.lookup_fd (p_fds s) fd) as [a|] eqn:E.
  - destruct (Hl fd a Hfd E) as [c Hc]. destruct (Hp a c Hc) as [Hsock Hclosed].
    rewrite (bind_step _ _ _ _ _ (fd_context_ok a c s1 Hc)), Hclosed, Hsock. simpl.
    by erewrite bind_step by apply sys_call.
  - by erewrite bind_step by apply sys_call.
Qed.

Lemma hook_off t s : ¬ hooked t s → is_hook_enable t s = Ok (false, s).
Proof. intros H. by rewrite hook_enabled, bool_decide_false. Qed.
(** The functions that only ask whether the hooks are on. *)
Definition asks_only (c : call) : bool :=
  match c with
  | c_sleep _ | c_usleep _ | c_nanosleep _ _ | c_socket _ _ _ | c_connect _ _ _ | c_close _
  | c_getsockopt _ _ _ _ _ | c_setsockopt _ _ _ _ _ => true
  | _ => false
  end.
Definition once c s : outcome (hook_step returned * Z * P) :=
  Ok ((Done (of_libc (fst (original c (kernel s)))), 0), with_kernel (snd (original c (kernel s))) s).
Lemma asks_only_off fuel t c s : ¬ hooked t s → asks_only c = true → call_hooked fuel t c s = once c s.
Proof.
  intros Hh%hook_off Hc. unfold once.
  destruct c; try done; unfold call_hooked, sleeping, at_once, sleep, usleep, nanosleep, sleep_for, socket, connect,
    connect_with_timeout, close, getsockopt, setsockopt, bind, gets, ret; rewrite ?Hh; simpl; by rewrite sys_call.
Qed.
Lemma fcntl_off fuel t fd cmd arg s :
  rtc fd_step FdManager.no_contexts (p_fds s) → FdManager.is_fd fd → well_called (c_fcntl fd cmd arg) →
  call_hooked fuel t (c_fcntl fd cmd arg) s = once (c_fcntl fd cmd arg) s.
Proof.
  intros Hreach Hfd Hwell. unfold once. simpl in *. unfold fcntl_argument, at_once, fcntl.
  destruct (cmd =? F_SETFL) eqn:E1; simpl in *.
  - destruct Hwell as [_ Hwell]. destruct (Hwell eq_refl) as [a ->]. step_ok.
    unfold bind. rewrite socket_context_none by done. by rewrite sys_call.
  - destruct (fcntl_with_argument cmd) eqn:E2.
    + destruct Hwell as [_ Hwell]. destruct (Hwell eq_refl) as [a ->]. step_ok.
      assert ((cmd =? F_GETFL) = false) as -> by (apply Z.eqb_neq; by intros ->). unfold bind. by rewrite sys_call.
    + assert (arg = None) as -> by (destruct arg; [destruct Hwell as [Hwell _]; by specialize (Hwell (mk_is_Some _ _ eq_refl))|done]).
      step_ok. destruct (cmd =? F_GETFL) eqn:E3; unfold bind; rewrite sys_call; [|done].
      by rewrite socket_context_none.
Qed.
Lemma ioctl_off fuel t fd request arg s :
  rtc fd_step FdManager.no_contexts (p_fds s) → FdManager.is_fd fd →
  call_hooked fuel t (c_ioctl fd request arg) s = once (c_ioctl fd request arg) s.
Proof.
  intros Hreach Hfd. unfold once. simpl. unfold at_once, ioctl, bind, gets.
  destruct (request =? FIONBIO); [rewrite socket_context_none by done|]; simpl; by rewrite sys_call.
Qed.
(** [accept] enters the new descriptor, hooks or not. *)
Lemma accept_off fuel t fd f s :
  ¬ hooked t s → rtc fd_step FdManager.no_contexts (p_fds s) → FdManager.is_fd fd →
  let r := f (snd (f (kernel s))) in
  rv (fst r) < 2 ^ 31 - 1 →
  ∃ d, accept fuel t fd f s = Ok ((Done (of_libc (fst r)), 0), with_fds d (with_kernel (snd r) s)) ∧
    (∀ fd, FdManager.is_fd fd → fd ≠ rv (fst r) → FdManager.lookup_fd d fd = FdManager.lookup_fd (p_fds s) fd) ∧
    (0 <= rv (fst r) → is_Some (FdManager.lookup_fd d (rv (fst r)))).
Proof.
  intros Hh Hreach Hfd. pose proof (do_io_off fuel t fd f FdManager.SO_RCVTIMEO s Hh Hreach Hfd) as Hio.
  simpl in *. set (r := f (snd (f (kernel s)))) in *. intros Hr. unfold accept.
  rewrite (bind_step _ _ _ _ _ Hio). simpl. unfold accept_finish. simpl.
  destruct (rv (fst r) >=? 0) eqn:E; simpl.
  - assert (Hnew : FdManager.is_fd (rv (fst r))) by (unfold FdManager.is_fd; lia).
    destruct (FdManager.fd_map_ok (rv (fst r)) true (p_fds s) Hnew) as [(x & d & H & Hx & Hl & _) _].
    exists d. split; [|split].
    + erewrite bind_step; [done|]. erewrite bind_step; [done|]. erewrite bind_step; [done|]. by apply on_fds_ok.
    + intros u Hu Hne. rewrite Hl by done. by rewrite decide_False.
    + intros _. rewrite Hl, decide_True by done. subst x. destruct (FdManager.lookup_fd _ _); by eexists.
  - exists (p_fds s). split; [done|]. split; [done|]. intros ?. lia.
Qed.

(** C38: a thread without the hooks gets the C library.  On a thread that has not switched
    the hooks on, each of the 21 functions returns what the original returns for the same
    arguments and leaves timers, events, fibers and the run queue alone; but those that
    read, write or accept make the call twice and return the second result, and [accept]
    enters the descriptor it returns in the table.  The descriptor is not negative, no
    socket context exists ([init] is never called), and the commands of [fcntl] come with an
    argument exactly when [fcntl] lists them with one: it would drop any other. *)
Theorem hooks_off_call_libc fuel t c s r k :
  ¬ hooked t s → rtc fd_step FdManager.no_contexts (p_fds s) →
  (∀ fd, descriptor c = Some fd → FdManager.is_fd fd) → well_called c →
  library_calls c (kernel s) = (r, k) → (accepts c = true → rv r < 2 ^ 31 - 1) →
  ∃ d, call_hooked fuel t c s = Ok ((Done (of_libc r), 0), with_fds d (with_kernel k s)) ∧
    (accepts c = false → d = p_fds s) ∧
    (∀ fd, FdManager.is_fd fd → fd ≠ rv r → FdManager.lookup_fd d fd = FdManager.lookup_fd (p_fds s) fd) ∧
    (accepts c = true → 0 <= rv r → is_Some (FdManager.lookup_fd d (rv r))).
Proof.
  intros Hh Hreach Hfd Hwell Hlib Hr.
  assert (Hr' : r = fst (library_calls c (kernel s)) ∧ k = snd (library_calls c (kernel s))) by by rewrite Hlib.
  destruct Hr' as [-> ->]. clear Hlib. unfold library_calls in *. destruct (accepts c) eqn:Ea.
  - destruct c; try done. simpl in *.
    destruct (accept_off fuel t sockfd (original (c_accept sockfd addr addrlen)) s) as (d & H & Hl & Hn); eauto.
    exists d. split; [exact H|]. split; [done|]. by split.
  - exists (p_fds s). split; [|done]. destruct (does_io c) eqn:Eio.
    + destruct c; try done; apply do_io_off; by eauto.
    + destruct (asks_only c) eqn:Eask; [by apply asks_only_off|].
      destruct c; try done; [apply fcntl_off|apply ioctl_off]; by eauto.
Qed.
End functions.

(** [hook_init] fills in the pointer behind each of the functions. *)
Lemma pointers_filled {F} (dlsym : string → option F) c :
  functions (hook_init dlsym null_functions) !! name_of c = Some (dlsym (name_of c)).
Proof.
  assert (H : name_of c ∈ HOOK_FUN) by (apply list_elem_of_In; destruct c; simpl; tauto).
  destruct (hook_init_resolves dlsym null_functions (name_of c) eq_refl) as [Hf _]. by rewrite Hf, bool_decide_true.
Qed.

(** ** An instance

    A memory of zeros, and originals that count their calls and return 5. *)
#[export] Instance blank_memory : Memory sim := {
  int_at := λ _ _, 0; timespec_at := λ _ _, (0, 0); timeval_at := λ _ _, (0, 0); store_int := λ _ _ k, k;
}.

Lemma hooks_off_call_libc_witness :
  ∃ d, call_hooked (λ _, counts 5) 5000 0 0 1 2 (c_accept 3 0 0) (sim_ready []) =
      Ok ((Done (MkReturned 5 (Some 0)), 0), with_fds d (with_kernel (sim_with_pipe 2 (kernel (sim_ready []))) (sim_ready []))) ∧
    is_Some (FdManager.lookup_fd d 5).
Proof.
  destruct (hooks_off_call_libc (λ _, counts 5) 5000 0 0 1 2 (c_accept 3 0 0) (sim_ready []) (MkResult 5 0)
    (sim_with_pipe 2 (kernel (sim_ready [])))) as (d & H & _ & _ & Hn).
  - unfold hooked. simpl. set_solver.
  - apply rtc_refl.
  - intros fd [= <-]. apply fd_3.
  - done.
  - reflexivity.
  - simpl. lia.
  - exists d. split; [exact H|]. apply Hn; [done|]. simpl. lia.
Defined.
End EntryPoint.
