(* ===== verification/Threads.v ===== *)
(** * Locks and threads (thread.h, thread.cc)

    The scoped locks here are the calls they make of a mutex ([lock], [rdlock], [wrlock]
    and [unlock]); the mutexes themselves are in Locks.v.  Starting a thread is modelled
    as the interleaving of the constructor with [Thread::run] on the new thread, step by
    step; the semaphore is its count, as in sem_overview(7), and every call on it can
    fail, [sem_wait] also because a signal interrupts it. *)
From stdpp Require Import base list strings.
From Stdlib Require Import ZArith Lia.
From S2P Require Import Prelude.
Open Scope Z_scope.

Module Thread.

(** ** [ScopedLockImpl], [ReadScopedLockImpl], [WriteScopedLockImpl] *)

(** The calls a scoped lock makes on its mutex; the three templates differ in the call
    that acquires it. *)
Inductive call := Lock | Rdlock | Wrlock | Unlock.

(** The lock with the calls made so far. *)
Record ScopedLock := MkScoped { m_locked : bool; trace : list call }.

Definition scoped_ctor (acquire : call) : ScopedLock := MkScoped true [acquire].
Definition scoped_lock (acquire : call) (l : ScopedLock) : ScopedLock :=
  if m_locked l then l else MkScoped true (trace l ++ [acquire]).
Definition scoped_unlock (l : ScopedLock) : ScopedLock :=
  if m_locked l then MkScoped false (trace l ++ [Unlock]) else l.
Definition scoped_dtor (l : ScopedLock) : ScopedLock := scoped_unlock l.

(** What the owner of the lock does between its construction and its destruction. *)
Inductive scoped_op := DoLock | DoUnlock.
Definition scoped_do (acquire : call) (l : ScopedLock) (o : scoped_op) : ScopedLock :=
  match o with DoLock => scoped_lock acquire l | DoUnlock => scoped_unlock l end.
Definition scoped_use (acquire : call) (ops : list scoped_op) : ScopedLock :=
  scoped_dtor (foldl (scoped_do acquire) (scoped_ctor acquire) ops).

Definition ScopedLockImpl : list scoped_op → ScopedLock := scoped_use Lock.
Definition ReadScopedLockImpl : list scoped_op → ScopedLock := scoped_use Rdlock.
Definition WriteScopedLockImpl : list scoped_op → ScopedLock := scoped_use Wrlock.

(** ** [Thread] *)
Section thread.
Context {B : Type}.

(** A [Thread] object with its semaphore, and what belongs to the new thread: its
    [t_thread], [t_thread_name] and name for the system, and the callback it has run. *)
Record Thread := MkThread {
  m_id : Z;
  m_cb : option B;
  m_name : string;
  m_semaphore : nat;
  t_thread : bool;
  t_thread_name : string;
  system_name : string;
  local_cb : option B;
  called : option B;
}.

(** The constructor's initialisers and body up to [pthread_create]. *)
Definition Thread_init (cb : B) (name : string) : Thread :=
  MkThread 0 (Some cb) (if String.eqb name "" then "UNKNOWN" else name)%string 0 false "UNKNOWN" "" None None.

(** [Semaphore::Semaphore], where [rt] is what [sem_init] returns. *)
Definition Semaphore_ctor (rt : Z) (count : nat) : outcome nat :=
  if rt =? 0 then Ok count else Fault (Uncaught "Sem_init error.").
Definition set_semaphore (n : nat) (s : Thread) : Thread :=
  MkThread (m_id s) (m_cb s) (m_name s) n (t_thread s) (t_thread_name s) (system_name s) (local_cb s) (called s).
(** [Semaphore::notify], where [rt] is what [sem_post] returns. *)
Definition notify (rt : Z) (s : Thread) : outcome Thread :=
  if rt =? 0 then Ok (set_semaphore (S (m_semaphore s)) s) else Fault (Uncaught "Sem_post error.").
(** [Semaphore::wait], where [rt] is what [sem_wait] returns; it returns zero only when the
    count is positive, and until then blocks ([None]). *)
Definition wait (rt : Z) (s : Thread) : option (outcome Thread) :=
  if rt =? 0 then
    match m_semaphore s with
    | O => None
    | S n => Some (Ok (set_semaphore n s))
    end
  else Some (Fault (Uncaught "Sem_wait error.")).

(** [Thread::run] on a thread whose id is [tid], statement by statement; [rt] is what
    [sem_post] returns. *)
Definition run (tid rt : Z) : list (Thread → outcome Thread) :=
  [ λ s, Ok (MkThread (m_id s) (m_cb s) (m_name s) (m_semaphore s) true (t_thread_name s) (system_name s)
           (local_cb s) (called s));
    λ s, Ok (MkThread (m_id s) (m_cb s) (m_name s) (m_semaphore s) (t_thread s) (m_name s) (system_name s)
           (local_cb s) (called s));
    λ s, Ok (MkThread tid (m_cb s) (m_name s) (m_semaphore s) (t_thread s) (t_thread_name s) (system_name s)
           (local_cb s) (called s));
    λ s, Ok (MkThread (m_id s) (m_cb s) (m_name s) (m_semaphore s) (t_thread s) (t_thread_name s)
           (String.substring 0 15 (m_name s)) (local_cb s) (called s));
    λ s, Ok (MkThread (m_id s) (local_cb s) (m_name s) (m_semaphore s) (t_thread s) (t_thread_name s) (system_name s)
           (m_cb s) (called s));
    notify rt;
    λ s, Ok (MkThread (m_id s) (m_cb s) (m_name s) (m_semaphore s) (t_thread s) (t_thread_name s) (system_name s)
           (local_cb s) (local_cb s)) ].
(** The statements that use the object: not the first, which only keeps its address, nor
    the call of the local [cb]. *)
Definition uses_object (n : nat) : bool := (1 <=? n)%nat && (n <=? 5)%nat.

(** [GetThis], [GetName] and [SetName] on the new thread; [GetThis] is null until [run] has
    set [t_thread]. *)
Definition GetThis (s : Thread) : option Thread := if t_thread s then Some s else None.
Definition GetName (s : Thread) : string := t_thread_name s.
Definition SetName (name : string) (s : Thread) : Thread :=
  MkThread (m_id s) (m_cb s) (if t_thread s then name else m_name s) (m_semaphore s) (t_thread s) name
    (system_name s) (local_cb s) (called s).

(** Where the constructor is, or what it has thrown, which destroys the members that are
    made (the destructor of [Thread] is not run). *)
Inductive creator := Creating | Waiting | Returned | Threw (what : string).
(** The new thread: how many statements of [run] it has executed; or it has let an
    exception out of [run], which terminates the process; or it has used the object when
    that was gone. *)
Inductive newborn := At (n : nat) | Terminated | Dangling.

(** The two threads and the object. *)
Record config := MkConfig { ctor : creator; child : option newborn; object : Thread }.

Definition gone (k : creator) : bool := match k with Threw _ => true | _ => false end.

Inductive step (tid : Z) : config → config → Prop :=
  | step_init_fails rt e s : Semaphore_ctor rt 0 = Fault (Uncaught e) →
      step tid (MkConfig Creating None s) (MkConfig (Threw e) None s)
  | step_create s : step tid (MkConfig Creating None s) (MkConfig Waiting (Some (At 0)) s)
  | step_create_fails s : step tid (MkConfig Creating None s) (MkConfig (Threw "pthread_create error") None s)
  | step_wait rt n s s' : wait rt s = Some (Ok s') →
      step tid (MkConfig Waiting (Some (At n)) s) (MkConfig Returned (Some (At n)) s')
  | step_wait_throws rt e n s : wait rt s = Some (Fault (Uncaught e)) →
      step tid (MkConfig Waiting (Some (At n)) s) (MkConfig (Threw e) (Some (At n)) s)
  | step_run rt k f n s s' : run tid rt !! n = Some f → uses_object n && gone k = false → f s = Ok s' →
      step tid (MkConfig k (Some (At n)) s) (MkConfig k (Some (At (S n))) s')
  | step_run_throws rt k f e n s : run tid rt !! n = Some f → uses_object n && gone k = false → f s = Fault e →
      step tid (MkConfig k (Some (At n)) s) (MkConfig k (Some Terminated) s)
  | step_dangles k n s : uses_object n && gone k = true →
      step tid (MkConfig k (Some (At n)) s) (MkConfig k (Some Dangling) s).

(** [Thread(cb, name)] *)
Definition Thread_ctor (cb : B) (name : string) : config := MkConfig Creating None (Thread_init cb name).
End thread.
Arguments Thread : clear implicits.
Arguments config : clear implicits.

(** ** [join] and the destructor *)

(** The handle of a thread ([m_thread], zero when there is none) and the calls made for
    it, a join with its result. *)
Inductive pthread_call := Joined (thread rt : Z) | Detached (thread : Z).
Record Handle := MkHandle { m_thread : Z; pthread_calls : list pthread_call }.

(** [Thread::join], where [rt] is what [pthread_join] returns: whether it throws. *)
Definition join (rt : Z) (h : Handle) : bool * Handle :=
  if m_thread h =? 0 then (false, h)
  else
    let calls := pthread_calls h ++ [Joined (m_thread h) rt] in
    if negb (rt =? 0) then (true, MkHandle (m_thread h) calls) else (false, MkHandle 0 calls).
(** [Thread::~Thread] *)
Definition Thread_dtor (h : Handle) : Handle :=
  if m_thread h =? 0 then h
  else MkHandle (m_thread h) (pthread_calls h ++ [Detached (m_thread h)]).
(** Calls of [join], and then the destructor. *)
Definition thread_use (rts : list Z) (h : Handle) : Handle :=
  Thread_dtor (foldl (λ h rt, snd (join rt h)) h rts).
End Thread.
