(* ===== verification/ThreadFacts.v ===== *)
(** * Theorems about locks and threads *)
From stdpp Require Import base list strings relations.
From Stdlib Require Import ZArith Lia.
From S2P Require Import Prelude Threads.
Open Scope Z_scope.

Module ThreadFacts.
Import Thread.

(** ** Scoped locks *)
Section scoped.
Variable acquire : call.

Definition rounds (n : nat) : list call := concat (repeat [acquire; Unlock] n).

(** The lock is held, after [n] complete rounds; it is free after [n] of them. *)
Definition lock_ok (l : ScopedLock) : Prop :=
  ∃ n, trace l = rounds n ++ (if m_locked l then [acquire] else []).

Lemma rounds_snoc n : rounds (S n) = (rounds n ++ [acquire]) ++ [Unlock].
Proof.
  unfold rounds. replace (S n) with (n + 1)%nat by lia.
  by rewrite repeat_app, concat_app, <- (assoc_L (++)).
Qed.
Lemma scoped_do_ok l o : lock_ok l → lock_ok (scoped_do acquire l o).
Proof.
  intros [n Hn]. destruct l as [[] t]; simpl in Hn; destruct o; unfold lock_ok, scoped_do, scoped_lock, scoped_unlock; simpl.
  - by exists n.
  - exists (S n). by rewrite app_nil_r, Hn, rounds_snoc.
  - exists n. by rewrite Hn, app_nil_r.
  - by exists n.
Qed.

(** Whatever its owner does with it, a scoped lock, for reading or writing or neither,
    acquires and unlocks its mutex strictly in turn, starting with acquiring it; the mutex is locked exactly while
    [m_locked] is set, and once the lock is destroyed it has been unlocked as
    often as it was locked. *)
Theorem scoped_lock_is_balanced ops :
  (∃ n, trace (foldl (scoped_do acquire) (scoped_ctor acquire) ops) =
        rounds n ++ (if m_locked (foldl (scoped_do acquire) (scoped_ctor acquire) ops) then [acquire] else [])) ∧
  ∃ n, trace (scoped_use acquire ops) = rounds (S n) ∧ m_locked (scoped_use acquire ops) = false.
Proof.
  assert (H : ∀ l, lock_ok l → lock_ok (foldl (scoped_do acquire) l ops)).
  { induction ops as [|o ops IH]; [done|]. intros l Hl. by apply IH, scoped_do_ok. }
  assert (Hstart : ∀ ops l, (∃ t, trace l = acquire :: t) → ∃ t, trace (foldl (scoped_do acquire) l ops) = acquire :: t).
  { clear. induction ops as [|o ops IH]; [done|]. intros l [t Ht]. apply IH.
    destruct l as [[] tr], o; simpl in *; subst tr; eexists; reflexivity. }
  assert (Hok : lock_ok (foldl (scoped_do acquire) (scoped_ctor acquire) ops)) by (apply H; by exists 0%nat).
  split; [exact Hok|]. apply (scoped_do_ok _ DoUnlock) in Hok as [n Hn]. unfold scoped_use, scoped_dtor.
  destruct (Hstart ops (scoped_ctor acquire)) as [t Ht]; [by exists []|].
  simpl in Hn. set (l := foldl (scoped_do acquire) (scoped_ctor acquire) ops) in *.
  assert (Hfree : m_locked (scoped_unlock l) = false) by (unfold scoped_unlock; by destruct (m_locked l) eqn:E).
  rewrite Hfree, app_nil_r in Hn. destruct n as [|n]; [|by exists n].
  exfalso. unfold scoped_unlock in Hn. destruct (m_locked l); simpl in Hn; rewrite Ht in Hn; discriminate Hn.
Qed.
End scoped.

(** ** Starting a thread *)
Section start.
Context {B : Type}.
Implicit Types (c : config B) (s : Thread B).
Variables (tid : Z) (cb : B) (name : string).

(** The object after the first [n] statements of [run], before the constructor has
    returned. *)
Definition after (s : Thread B) (f : Thread B → outcome (Thread B)) : Thread B :=
  match f s with Ok s' => s' | Fault _ => s end.
Definition progress (n : nat) : Thread B := foldl after (Thread_init cb name) (take n (run tid 0)).
(** ... and after it has: the semaphore is down again. *)
Definition after_wait (s : Thread B) : Thread B := set_semaphore (pred (m_semaphore s)) s.

(** Where the two threads can be. *)
Inductive reached : config B → Prop :=
  | at_start : reached (Thread_ctor cb name)
  | at_refusal e : e = "Sem_init error." ∨ e = "pthread_create error" →
      reached (MkConfig (Threw e) None (Thread_init cb name))
  | at_wait n : (n <= 7)%nat → reached (MkConfig Waiting (Some (At n)) (progress n))
  | at_return n : (6 <= n <= 7)%nat → reached (MkConfig Returned (Some (At n)) (after_wait (progress n)))
  | at_throw n : (n <= 7)%nat → reached (MkConfig (Threw "Sem_wait error.") (Some (At n)) (progress n))
  | at_terminate : reached (MkConfig Waiting (Some Terminated) (progress 5))
  | at_dangle n : (1 <= n <= 5)%nat → reached (MkConfig (Threw "Sem_wait error.") (Some Dangling) (progress n)).

Lemma progress_semaphore n : (n <= 7)%nat → m_semaphore (progress n) = if (n <? 6)%nat then 0%nat else 1%nat.
Proof. intros Hn. do 8 (destruct n as [|n]; [reflexivity|]). lia. Qed.
Lemma wait_result rt n r : (n <= 7)%nat → wait rt (progress n) = Some r →
  r = Ok (after_wait (progress n)) ∧ (6 <= n)%nat ∨ r = Fault (Uncaught "Sem_wait error.").
Proof.
  intros Hn. unfold wait, after_wait. destruct (rt =? 0); [|intros [= <-]; by right].
  rewrite progress_semaphore by done. destruct (Nat.ltb_spec n 6); [done|]. intros [= <-]. by left.
Qed.

(** A statement that does not fail is one of a run without failures. *)
Lemma progress_run rt n f s' : run tid rt !! n = Some f → f (progress n) = Ok s' → s' = progress (S n).
Proof.
  intros Hf H. do 7 (destruct n as [|n]; [injection Hf as <-; simpl in H; unfold notify in H;
    try (destruct (rt =? 0); [|done]); by injection H as <-|]). done.
Qed.
Lemma run_bound rt n f : run (B := B) tid rt !! n = Some f → (n <= 6)%nat.
Proof. intros H%lookup_lt_Some. simpl in H. lia. Qed.
(** Only the notification can fail. *)
Lemma run_throws rt n f e s : run tid rt !! n = Some f → f s = Fault e → n = 5%nat.
Proof. do 7 (destruct n as [|n]; [by intros [= <-] H|]). done. Qed.

Lemma step_reached c c' : reached c → step tid c c' → reached c'.
Proof.
  intros Hc Hstep. destruct Hstep as [rt e s Hi|s|s|rt n s s' Hw|rt e n s Hw|rt k f n s s' Hf Hu Hs|rt k f e n s Hf Hu Hs|k n s Hu];
    inversion Hc; subst.
  - apply at_refusal. left. unfold Semaphore_ctor in Hi. destruct (rt =? 0); [done|]. by injection Hi as <-.
  - apply (at_wait 0). lia.
  - apply at_refusal. by right.
  - apply wait_result in Hw as [[[= ->] ?]|?]; [|done..]. by apply at_return.
  - apply wait_result in Hw as [[? _]|[= ->]]; [done| |done]. by apply at_throw.
  - rewrite (progress_run rt n f s' Hf Hs). apply at_wait. apply run_bound in Hf. lia.
  - apply run_bound in Hf as Hle. assert (n = 6%nat) as -> by lia. injection Hf as <-. injection Hs as <-.
    apply (at_return 7). lia.
  - rewrite (progress_run rt n f s' Hf Hs). apply at_throw. apply run_bound in Hf. lia.
  - rewrite (run_throws rt n f e _ Hf Hs). apply at_terminate.
  - apply (run_throws rt n f e _ Hf) in Hs. lia.
  - rewrite (run_throws rt n f e _ Hf Hs) in Hu. done.
  - by rewrite andb_false_r in Hu.
  - by rewrite andb_false_r in Hu.
  - apply at_dangle. unfold uses_object in Hu.
    apply andb_true_iff in Hu as [[?%Nat.leb_le ?%Nat.leb_le]%andb_true_iff _]. lia.
Qed.
Lemma reachable_reached c : rtc (step tid) (Thread_ctor cb name) c → reached c.
Proof.
  intros H. remember (Thread_ctor cb name) as c0 eqn:E. assert (H0 : reached c0) by (subst; apply at_start).
  clear E. induction H as [|c0 c1 c2 H01 _ IH]; [done|]. apply IH. by eapply step_reached.
Qed.

Definition given_name : string := if String.eqb name "" then "UNKNOWN" else name.
Lemma after_notify (called_now : bool) :
  after_wait (progress (if called_now then 7 else 6)) =
    MkThread tid None given_name 0 true given_name (String.substring 0 15 given_name) (Some cb)
      (if called_now then Some cb else None).
Proof. by destruct called_now. Qed.

(** What is left to do, an upper bound of the steps that can follow. *)
Definition remaining c : nat :=
  match ctor c, child c with
  | Creating, _ => 10
  | _, (None | Some Terminated | Some Dangling) => 0
  | Waiting, Some (At n) => 9 - n
  | _, Some (At n) => 8 - n
  end.
Lemma step_nearer c c' : reached c → step tid c c' → (remaining c' < remaining c)%nat.
Proof.
  intros Hc Hs. pose proof (step_reached c c' Hc Hs) as Hc'. destruct Hs; inversion Hc; subst; inversion Hc'; subst;
    unfold remaining; simpl; lia.
Qed.

(** The ends: the constructor has returned and the callback has been called; or one of the
    four calls it depends on has failed. *)
Inductive ended : config B → Prop :=
  | ended_well s : called s = Some cb → ended (MkConfig Returned (Some (At 7)) s)
  | ended_refused e s : e = "Sem_init error." ∨ e = "pthread_create error" → ended (MkConfig (Threw e) None s)
  | ended_interrupted s : called s = Some cb → ended (MkConfig (Threw "Sem_wait error.") (Some (At 7)) s)
  | ended_dangling s : ended (MkConfig (Threw "Sem_wait error.") (Some Dangling) s)
  | ended_terminated k s : ended (MkConfig k (Some Terminated) s).

Lemma statement n : (n <= 6)%nat → ∃ f, run (B := B) tid 0 !! n = Some f ∧ ∀ s, ∃ s', f s = Ok s'.
Proof.
  intros Hn. do 7 (destruct n as [|n]; [by eexists; split; [reflexivity|]; intros s; eexists|]). lia.
Qed.
Lemma at_next k n s : (n <= 6)%nat → ∃ c', step tid (MkConfig k (Some (At n)) s) c'.
Proof.
  intros Hn. destruct (uses_object n && gone k) eqn:Hu; [eexists; by apply step_dangles|].
  destruct (statement n Hn) as (f & Hf & Hok). destruct (Hok s) as [s' Hs']. eexists. by eapply step_run.
Qed.

(** C34: the constructor of [Thread], however its steps and those of the new thread
    interleave and whichever of [sem_init], [pthread_create], [sem_wait] and [sem_post]
    fail.  When it returns, the new thread has set its thread-local pointer and name and
    the object's id, and has taken the callback over into a local variable, so that the
    object is not needed any more.  Neither thread blocks for good: every step brings
    them nearer to an end, and while there is no next step the constructor has returned
    and exactly the callback it was given has been called; or it has thrown because there
    is no semaphore or no thread; or it has thrown because [sem_wait] failed, for
    instance interrupted by a signal, while the new thread went on, to its end or to a use
    of the object that is gone; or [sem_post] failed and the process was terminated. *)
Theorem thread_ctor_waits_for_start c :
  rtc (step tid) (Thread_ctor cb name) c →
  (ctor c = Returned →
     m_id (object c) = tid ∧ m_cb (object c) = None ∧ local_cb (object c) = Some cb ∧ t_thread (object c) = true ∧
     t_thread_name (object c) = m_name (object c) ∧ m_semaphore (object c) = 0%nat) ∧
  ((∃ c', step tid c c') ∨ ended c) ∧
  (∀ c', step tid c c' → (remaining c' < remaining c)%nat).
Proof.
  intros Hc%reachable_reached. split; [|split; [|intros c'; by apply step_nearer]].
  - intros Hr. destruct Hc as [| |n Hn|n Hn|n Hn| |n Hn]; try done.
    assert (n = 6%nat ∨ n = 7%nat) as [->| ->] by lia; [rewrite (after_notify false)|rewrite (after_notify true)]; done.
  - assert (Hat : ∀ k n s, (n <= 7)%nat → ended (MkConfig k (Some (At 7)) s) →
      (∃ c', step tid (MkConfig k (Some (At n)) s) c') ∨ ended (MkConfig k (Some (At n)) s)).
    { intros k n s Hn He. destruct (decide (n = 7%nat)) as [->|]; [by right|left; apply at_next; lia]. }
    destruct Hc as [|e He|n Hn|n Hn|n Hn| |n Hn].
    + left. eexists. apply step_create.
    + right. by apply ended_refused.
    + left. destruct (decide (n = 7%nat)) as [->|]; [|apply at_next; lia].
      eexists. by apply (step_wait tid 0).
    + destruct (decide (n = 7%nat)) as [->|]; [right; by apply ended_well|left; apply at_next; lia].
    + destruct (decide (n = 7%nat)) as [->|]; [right; by apply ended_interrupted|left; apply at_next; lia].
    + right. apply ended_terminated.
    + right. apply ended_dangling.
Qed.
End start.

(** Once the thread has registered itself, a new name is the object's and the thread's. *)
Lemma set_name_ok {B} (name : string) (s : Thread B) :
  GetName (SetName name s) = name ∧ m_name (SetName name s) = if GetThis s then name else m_name s.
Proof. unfold SetName, GetThis, GetName. by destruct (t_thread s). Qed.

(** ** Joining and detaching *)

(** The joins that fail, and what follows them. *)
Definition failing (rts : list Z) : list Z := take (default (length rts) (fst <$> list_find (λ rt, rt = 0) rts)) rts.
Definition last_call (thread : Z) (rts : list Z) : pthread_call :=
  if decide (0 ∈ rts) then Joined thread 0 else Detached thread.

Lemma failing_cons rt rts : failing (rt :: rts) = if decide (rt = 0) then [] else rt :: failing rts.
Proof.
  unfold failing. simpl. destruct (decide (rt = 0)) as [->|Hne]; [done|].
  by destruct (list_find (λ rt, rt = 0) rts) as [[i x]|].
Qed.
Lemma last_call_cons thread rt rts :
  last_call thread (rt :: rts) = if decide (rt = 0) then Joined thread 0 else last_call thread rts.
Proof.
  unfold last_call. destruct (decide (rt = 0)) as [->|Hne]; [by rewrite decide_True by left|].
  destruct (decide (0 ∈ rts)) as [Hin|Hin]; [by rewrite decide_True by by right|].
  rewrite decide_False; [done|]. rewrite elem_of_cons. naive_solver.
Qed.

(** A thread that has been joined is left alone. *)
Lemma joined_stays rts calls : thread_use rts (MkHandle 0 calls) = MkHandle 0 calls.
Proof. unfold thread_use. by induction rts. Qed.
Lemma thread_use_ok thread rts : thread ≠ 0 → ∀ calls,
  pthread_calls (thread_use rts (MkHandle thread calls)) =
    calls ++ map (Joined thread) (failing rts) ++ [last_call thread rts].
Proof.
  intros Ht. induction rts as [|rt rts IH]; intros calls.
  - unfold thread_use, Thread_dtor. simpl. by rewrite (proj2 (Z.eqb_neq thread 0) Ht).
  - rewrite failing_cons, last_call_cons. unfold thread_use. simpl. unfold join at 2. simpl.
    rewrite (proj2 (Z.eqb_neq thread 0) Ht). destruct (decide (rt = 0)) as [->|Hne]; simpl.
    + change (pthread_calls (thread_use rts (MkHandle 0 (calls ++ [Joined thread 0]))) = calls ++ [Joined thread 0]).
      by rewrite joined_stays.
    + rewrite (proj2 (Z.eqb_neq rt 0) Hne). simpl.
      change (pthread_calls (thread_use rts (MkHandle thread (calls ++ [Joined thread rt]))) =
        calls ++ Joined thread rt :: map (Joined thread) (failing rts) ++ [last_call thread rts]).
      rewrite IH. by rewrite <- (assoc_L (++)).
Qed.
Lemma failing_fail rts : Forall (λ rt, rt ≠ 0) (failing rts).
Proof. induction rts as [|rt rts IH]; [constructor|]. rewrite failing_cons. case_decide; by constructor. Qed.

(** However often [join] is called on a thread and whatever [pthread_join] returns,
    once the object has been destroyed the thread has been released exactly once, and
    no call has been made for it after that: there are the joins that failed, each
    throwing, and then the first one that succeeded or, if none did, a detach by the
    destructor. *)
Theorem thread_released_once thread rts :
  thread ≠ 0 →
  pthread_calls (thread_use rts (MkHandle thread [])) =
    map (Joined thread) (failing rts) ++ [if decide (0 ∈ rts) then Joined thread 0 else Detached thread] ∧
  Forall (λ rt, rt ≠ 0) (failing rts) ∧ failing rts `prefix_of` rts ∧
  ∀ rt h, fst (join rt h) = true ↔ m_thread h ≠ 0 ∧ rt ≠ 0.
Proof.
  intros Ht. split; [exact (thread_use_ok thread rts Ht [])|]. split; [apply failing_fail|].
  split; [eexists; symmetry; apply take_drop|].
  intros rt h. unfold join. destruct (Z.eqb_spec (m_thread h) 0), (Z.eqb_spec rt 0); simpl; naive_solver.
Qed.
Lemma thread_released_once_witness :
  pthread_calls (thread_use [35; 0; 0] (MkHandle 7 [])) = [Joined 7 35; Joined 7 0].
Proof. exact (proj1 (thread_released_once 7 [35; 0; 0] ltac:(lia))). Defined.

(** The constructor of a thread [worker] has returned before its callback runs. *)
Definition worker : config nat :=
  MkConfig Returned (Some (At 6)) (MkThread 42 None "worker" 0 true "worker" "worker" (Some 5%nat) None).
Lemma worker_reached : rtc (step 42) (Thread_ctor 5%nat "worker") worker.
Proof.
  eapply rtc_l; [apply step_create|].
  do 6 (eapply rtc_l; [by eapply (step_run _ 0)|]; simpl).
  eapply rtc_l; [by apply (step_wait _ 0)|]. apply rtc_refl.
Qed.

(** A signal interrupts the constructor at once; the new thread then uses the object. *)
Lemma interrupted_start_dangles : ∃ s,
  rtc (step 42) (Thread_ctor 5%nat "worker") (MkConfig (Threw "Sem_wait error.") (Some Dangling) s).
Proof.
  eexists. eapply rtc_l; [apply step_create|]. eapply rtc_l; [by apply (step_wait_throws _ (-1))|].
  eapply rtc_l; [by eapply (step_run _ 0)|]. eapply rtc_l; [by apply step_dangles|]. apply rtc_refl.
Qed.

Lemma thread_ctor_waits_for_start_witness :
  ctor worker = Returned ∧ m_id (object worker) = 42 ∧ local_cb (object worker) = Some 5%nat ∧
  ∃ c', step 42 worker c'.
Proof.
  destruct (thread_ctor_waits_for_start 42 5%nat "worker" worker worker_reached) as [H [Hn _]].
  destruct (H eq_refl) as (Hid & _ & Hcb & _). split; [done|]. split; [done|]. split; [done|].
  destruct Hn as [Hn|Hn]; [exact Hn|inversion Hn].
Defined.
End ThreadFacts.
