(* ===== verification/Locks.v ===== *)
(** * Mutexes and the sections they guard (thread.h)

    [RWMutex], [Mutex] and [Spin_Mutex] over the objects of pthreads, the scoped locks on
    them, and threads whose critical sections run step by step between the constructor and
    the destructor of a scoped lock.  A call that blocks returns [None]; its result code
    is dropped, as in the code. *)
From stdpp Require Import base gmap list.
From Stdlib Require Import ZArith.
From S2P Require Import Prelude.
Open Scope Z_scope.

Module Lock.

(** How a lock is held. *)
Inductive kind := Reading | Writing.
#[global] Instance kind_eq_dec : EqDecision kind.
Proof. solve_decision. Defined.

(** ** pthreads

    The calls of the three kinds of object by a thread. *)
Class PthreadRwlock (R : Type) := {
  pthread_rwlock_init : R;
  pthread_rwlock_rdlock : Z → R → option R;
  pthread_rwlock_wrlock : Z → R → option R;
  pthread_rwlock_unlock : Z → R → R;
}.
Class PthreadMutex (X : Type) := {
  pthread_mutex_init : X;
  pthread_mutex_lock : Z → X → option X;
  pthread_mutex_unlock : Z → X → X;
}.
Class PthreadSpin (X : Type) := {
  pthread_spin_init : X;
  pthread_spin_lock : Z → X → option X;
  pthread_spin_unlock : Z → X → X;
}.

(** ** The mutex classes *)
Section rwmutex.
Context {R : Type} `{!PthreadRwlock R}.
Record RWMutex := MkRWMutex { m_lock : R }.
Definition RWMutex_ctor : RWMutex := MkRWMutex pthread_rwlock_init.
Definition rdlock (t : Z) (m : RWMutex) : option RWMutex := MkRWMutex <$> pthread_rwlock_rdlock t (m_lock m).
Definition wrlock (t : Z) (m : RWMutex) : option RWMutex := MkRWMutex <$> pthread_rwlock_wrlock t (m_lock m).
Definition RWMutex_unlock (t : Z) (m : RWMutex) : RWMutex := MkRWMutex (pthread_rwlock_unlock t (m_lock m)).
End rwmutex.
Arguments RWMutex : clear implicits.

Section mutex.
Context {X : Type} `{!PthreadMutex X}.
Record Mutex := MkMutex { m_mutex : X }.
Definition Mutex_ctor : Mutex := MkMutex pthread_mutex_init.
Definition Mutex_lock (t : Z) (m : Mutex) : option Mutex := MkMutex <$> pthread_mutex_lock t (m_mutex m).
Definition Mutex_unlock (t : Z) (m : Mutex) : Mutex := MkMutex (pthread_mutex_unlock t (m_mutex m)).
End mutex.
Arguments Mutex : clear implicits.

Section spin.
Context {X : Type} `{!PthreadSpin X}.
Record Spin_Mutex := MkSpin { spin_mutex : X }.
Definition Spin_Mutex_ctor : Spin_Mutex := MkSpin pthread_spin_init.
Definition Spin_Mutex_lock (t : Z) (m : Spin_Mutex) : option Spin_Mutex := MkSpin <$> pthread_spin_lock t (spin_mutex m).
Definition Spin_Mutex_unlock (t : Z) (m : Spin_Mutex) : Spin_Mutex := MkSpin (pthread_spin_unlock t (spin_mutex m)).
End spin.
Arguments Spin_Mutex : clear implicits.

(** ** Scoped locks

    What the scoped locks need of a mutex: [acquire] is [lock], or [rdlock] and [wrlock]. *)
Class Lockable (M : Type) := {
  free : M;
  acquire : kind → Z → M → option M;
  release : Z → M → M;
}.
(** [ReadScopedLockImpl] and [WriteScopedLockImpl]. *)
#[export] Instance RWMutex_lockable {R} `{!PthreadRwlock R} : Lockable (RWMutex R) := {
  free := RWMutex_ctor;
  acquire := λ k, match k with Reading => rdlock | Writing => wrlock end;
  release := RWMutex_unlock;
}.
(** [ScopedLockImpl]: there is one way to hold these. *)
#[export] Instance Mutex_lockable {X} `{!PthreadMutex X} : Lockable (Mutex X) := {
  free := Mutex_ctor;
  acquire := λ _, Mutex_lock;
  release := Mutex_unlock;
}.
#[export] Instance Spin_Mutex_lockable {X} `{!PthreadSpin X} : Lockable (Spin_Mutex X) := {
  free := Spin_Mutex_ctor;
  acquire := λ _, Spin_Mutex_lock;
  release := Spin_Mutex_unlock;
}.

Section scoped.
Context {M : Type} `{!Lockable M}.

(** The constructor of a scoped lock on thread [t] ([m_locked] and the mutex), and its
    destructor. *)
Definition scoped_ctor (k : kind) (t : Z) (m : M) : option (bool * M) :=
  (λ m', (true, m')) <$> acquire k t m.
Definition scoped_dtor (t : Z) (m_locked : bool) (m : M) : M :=
  if m_locked then release t m else m.

(** ** Threads

    A section works on the thread's local variables and on the object the mutex guards, a
    step at a time. *)
Context {L S : Type}.
Definition action : Type := L → S → L * S.
Record section := MkSection { held_as : kind; actions : list action }.

(** A thread: its local variables, the sections it has not finished, and if it is in the
    first of them what is left of it, with [m_locked]. *)
Record thread := MkThread { local : L; todo : list section; inside : option (bool * list action) }.
Record config := MkConfig { shared : S; mutex : M; threads : gmap Z thread }.

(** A thread enters a section, makes a step in it, or leaves it, which the label says. *)
Inductive step : option Z → config → config → Prop :=
  | step_enter t x sec rest b s m m' ts :
      ts !! t = Some x → inside x = None → todo x = sec :: rest →
      scoped_ctor (held_as sec) t m = Some (b, m') →
      step None (MkConfig s m ts)
        (MkConfig s m' (<[t := MkThread (local x) (todo x) (Some (b, actions sec))]> ts))
  | step_action t x b f fs s m ts :
      ts !! t = Some x → inside x = Some (b, f :: fs) →
      step None (MkConfig s m ts)
        (MkConfig (f (local x) s).2 m (<[t := MkThread (f (local x) s).1 (todo x) (Some (b, fs))]> ts))
  | step_leave t x b s m ts :
      ts !! t = Some x → inside x = Some (b, []) →
      step (Some t) (MkConfig s m ts)
        (MkConfig s (scoped_dtor t b m) (<[t := MkThread (local x) (tail (todo x)) None]> ts)).

Inductive steps : list Z → config → config → Prop :=
  | steps_nil c : steps [] c c
  | steps_cons o l c c1 c' : step o c c1 → steps l c1 c' → steps (option_list o ++ l) c c'.
End scoped.
Arguments action : clear implicits.
Arguments section : clear implicits.
Arguments thread : clear implicits.
Arguments config : clear implicits.
End Lock.
