(* ===== verification/LockFacts.v ===== *)
(** * Critical sections are atomic

    A mutex that pthreads keep their promise on makes threads whose sections run step by
    step do what they would do if each section were one step.  This is what allows the
    other files to take an operation under a lock as one step. *)
From stdpp Require Import base gmap list.
From Stdlib Require Import ZArith Lia.
From S2P Require Import Prelude Locks.
Open Scope Z_scope.

Module LockFacts.
Import Lock.

(** ** What pthreads promise

    For a thread that does not hold the lock: pthread_rwlock_rdlock(3),
    pthread_mutex_lock(3), pthread_spin_lock(3). *)
Class PthreadRwlockLaws (R : Type) `{!PthreadRwlock R} := {
  rw_held : R → list (Z * kind);
  rw_init_held : rw_held pthread_rwlock_init = [];
  rw_rdlock : ∀ t (r r' : R), t ∉ (rw_held r).*1 → pthread_rwlock_rdlock t r = Some r' →
    (∀ p, p ∈ rw_held r → p.2 = Reading) ∧ rw_held r' ≡ₚ (t, Reading) :: rw_held r;
  rw_wrlock : ∀ t (r r' : R), t ∉ (rw_held r).*1 → pthread_rwlock_wrlock t r = Some r' →
    rw_held r = [] ∧ rw_held r' ≡ₚ [(t, Writing)];
  rw_unheld : ∀ t (r : R), rw_held r = [] → is_Some (pthread_rwlock_rdlock t r) ∧ is_Some (pthread_rwlock_wrlock t r);
  rw_unlock : ∀ t k (r : R), NoDup (rw_held r).*1 → (t, k) ∈ rw_held r → rw_held r ≡ₚ (t, k) :: rw_held (pthread_rwlock_unlock t r);
}.
Class PthreadMutexLaws (X : Type) `{!PthreadMutex X} := {
  mx_held : X → option Z;
  mx_init_held : mx_held pthread_mutex_init = None;
  mx_lock : ∀ t (x x' : X), mx_held x ≠ Some t → pthread_mutex_lock t x = Some x' → mx_held x = None ∧ mx_held x' = Some t;
  mx_unheld : ∀ t (x : X), mx_held x = None → is_Some (pthread_mutex_lock t x);
  mx_unlock : ∀ t (x : X), mx_held x = Some t → mx_held (pthread_mutex_unlock t x) = None;
}.
Class PthreadSpinLaws (X : Type) `{!PthreadSpin X} := {
  sp_held : X → option Z;
  sp_init_held : sp_held pthread_spin_init = None;
  sp_lock : ∀ t (x x' : X), sp_held x ≠ Some t → pthread_spin_lock t x = Some x' → sp_held x = None ∧ sp_held x' = Some t;
  sp_unheld : ∀ t (x : X), sp_held x = None → is_Some (pthread_spin_lock t x);
  sp_unlock : ∀ t (x : X), sp_held x = Some t → sp_held (pthread_spin_unlock t x) = None;
}.

(** ** What a mutex promises to the scoped locks

    Who holds it, and how; a mutex that cannot be held for reading is held for writing. *)
Class LockableLaws (M : Type) `{!Lockable M} := {
  holders : M → list (Z * kind);
  free_holders : holders free = [];
  acquire_ok : ∀ k t (m m' : M), t ∉ (holders m).*1 → acquire k t m = Some m' →
    ∃ k', (k' = Reading → k = Reading ∧ ∀ p, p ∈ holders m → p.2 = Reading) ∧
      (k' = Writing → holders m = []) ∧ holders m' ≡ₚ (t, k') :: holders m;
  acquire_free : ∀ k t (m : M), holders m = [] → is_Some (acquire k t m);
  release_ok : ∀ t k (m : M), NoDup (holders m).*1 → (t, k) ∈ holders m → holders m ≡ₚ (t, k) :: holders (release t m);
}.
#[export] Instance RWMutex_laws {R} `{!PthreadRwlock R} `{!PthreadRwlockLaws R} : LockableLaws (RWMutex R).
Proof.
  apply (Build_LockableLaws _ _ (λ m, rw_held (m_lock m))).
  - apply rw_init_held.
  - intros k t m m' Ht H. destruct k; simpl in H; apply fmap_Some in H as (r & H & ->).
    + destruct (rw_rdlock _ _ _ Ht H) as [Hr Hh]. by exists Reading.
    + destruct (rw_wrlock _ _ _ Ht H) as [Hr Hh]. exists Writing. simpl. by rewrite Hr.
  - intros k t m Hm. destruct (rw_unheld t (m_lock m) Hm) as [[r Hr] [w Hw]].
    destruct k; simpl; unfold rdlock, wrlock; rewrite ?Hr, ?Hw; by eexists.
  - intros t k m Hnd H. by apply rw_unlock.
Defined.
Definition only (o : option Z) : list (Z * kind) := match o with Some t => [(t, Writing)] | None => [] end.
Lemma only_unheld o t : t ∉ (only o).*1 → o ≠ Some t.
Proof. intros H ->. apply H. by left. Qed.
#[export] Instance Mutex_laws {X} `{!PthreadMutex X} `{!PthreadMutexLaws X} : LockableLaws (Mutex X).
Proof.
  apply (Build_LockableLaws _ _ (λ m, only (mx_held (m_mutex m)))).
  - simpl. by rewrite mx_init_held.
  - intros k t m m' Ht%only_unheld (x & H & ->)%fmap_Some. destruct (mx_lock _ _ _ Ht H) as [H1 H2].
    exists Writing. simpl. by rewrite H1, H2.
  - intros k t m Hm. destruct (mx_held (m_mutex m)) eqn:E; [done|]. destruct (mx_unheld t _ E) as [x Hx].
    simpl. unfold Mutex_lock. rewrite Hx. by eexists.
  - intros t k m _ H. destruct (mx_held (m_mutex m)) as [u|] eqn:E; [|by apply not_elem_of_nil in H].
    apply list_elem_of_singleton in H as [= -> ->]. simpl. by rewrite (mx_unlock _ _ E).
Defined.
#[export] Instance Spin_Mutex_laws {X} `{!PthreadSpin X} `{!PthreadSpinLaws X} : LockableLaws (Spin_Mutex X).
Proof.
  apply (Build_LockableLaws _ _ (λ m, only (sp_held (spin_mutex m)))).
  - simpl. by rewrite sp_init_held.
  - intros k t m m' Ht%only_unheld (x & H & ->)%fmap_Some. destruct (sp_lock _ _ _ Ht H) as [H1 H2].
    exists Writing. simpl. by rewrite H1, H2.
  - intros k t m Hm. destruct (sp_held (spin_mutex m)) eqn:E; [done|]. destruct (sp_unheld t _ E) as [x Hx].
    simpl. unfold Spin_Mutex_lock. rewrite Hx. by eexists.
  - intros t k m _ H. destruct (sp_held (spin_mutex m)) as [u|] eqn:E; [|by apply not_elem_of_nil in H].
    apply list_elem_of_singleton in H as [= -> ->]. simpl. by rewrite (sp_unlock _ _ E).
Defined.

(** ** Sections as single steps *)
Section atomic.
Context {M : Type} `{!Lockable M} `{!LockableLaws M} {L S : Type}.
Local Abbreviation section := (section L S).
Implicit Types (c : config M L S) (sec : section) (x : thread L S) (fs gs : list (action L S)).

Fixpoint run fs (l : L) (s : S) : L * S :=
  match fs with [] => (l, s) | f :: fs => run fs (f l s).1 (f l s).2 end.
(** The object and the threads, each between two sections. *)
Definition state : Type := S * gmap Z (L * list section).
Definition start (a : state) : config M L S := MkConfig a.1 free ((λ p, MkThread p.1 p.2 None) <$> a.2).
(** Thread [t] executes its next section, all at once. *)
Definition atomically (a : state) (t : Z) : state :=
  match a.2 !! t with
  | Some (l, sec :: rest) => let r := run (actions sec) l a.1 in (r.2, <[t := (r.1, rest)]> a.2)
  | _ => a
  end.

(** A section held for reading does not change the object. *)
Definition reads_only sec : Prop :=
  held_as sec = Reading → ∀ f, f ∈ actions sec → ∀ l s, (f l s).2 = s.

(** A thread with respect to the atomic one: outside, they agree; inside, it has done part
    of the section from where the atomic one stands. *)
Definition follows c (a : state) (t : Z) x (p : L * list section) : Prop :=
  todo x = p.2 ∧
  match inside x with
  | None => local x = p.1 ∧ t ∉ (holders (mutex c)).*1
  | Some (b, fs) => b = true ∧ ∃ sec rest pre k, p.2 = sec :: rest ∧ actions sec = pre ++ fs ∧
      (t, k) ∈ holders (mutex c) ∧ (k = Reading → held_as sec = Reading) ∧ run pre p.1 a.1 = (local x, shared c)
  end.
Record simulates c (a : state) : Prop := {
  si_threads : ∀ t x, threads c !! t = Some x → ∃ p, a.2 !! t = Some p ∧ follows c a t x p;
  si_same : ∀ t, is_Some (a.2 !! t) → is_Some (threads c !! t);
  si_shared : (∀ p, p ∈ holders (mutex c) → p.2 = Reading) → shared c = a.1;
  si_writer : ∀ t, (t, Writing) ∈ holders (mutex c) → holders (mutex c) = [(t, Writing)];
  si_nodup : NoDup (holders (mutex c)).*1;
  si_held : ∀ t, t ∈ (holders (mutex c)).*1 → ∃ x, threads c !! t = Some x ∧ is_Some (inside x);
  si_reads : ∀ t p, a.2 !! t = Some p → Forall reads_only p.2;
}.

Lemma run_app fs gs l s : run (fs ++ gs) l s = run gs (run fs l s).1 (run fs l s).2.
Proof. revert l s. induction fs as [|f fs IH]; intros l s; [done|]. simpl. apply IH. Qed.
Lemma run_reads fs l s : (∀ f, f ∈ fs → ∀ l s, (f l s).2 = s) → (run fs l s).2 = s.
Proof.
  revert l. induction fs as [|f fs IH]; intros l H; [done|]. simpl. rewrite (H f) by by left. apply IH.
  intros g Hg. apply H. by right.
Qed.

(** While one thread writes, no other is inside; otherwise all readers see the same. *)
Lemma held_cases c a t k : simulates c a → (t, k) ∈ holders (mutex c) →
  (k = Writing ∧ holders (mutex c) = [(t, Writing)]) ∨
  (k = Reading ∧ (∀ p, p ∈ holders (mutex c) → p.2 = Reading) ∧ shared c = a.1).
Proof.
  intros H Hk. destruct k; [right|left; split; [done|by apply (si_writer _ _ H)]].
  assert (Hall : ∀ p, p ∈ holders (mutex c) → p.2 = Reading).
  { intros [u [|]] Hu; [done|]. rewrite (si_writer _ _ H u Hu) in Hk. by apply list_elem_of_singleton in Hk. }
  split; [done|]. split; [done|]. by apply (si_shared _ _ H).
Qed.
Lemma start_simulates a : (∀ t p, a.2 !! t = Some p → Forall reads_only p.2) → simulates (start a) a.
Proof.
  intros Hr. unfold start. split; simpl; rewrite ?free_holders; try done.
  - intros t x. rewrite lookup_fmap. intros ([l td] & Hp & ->)%fmap_Some. exists (l, td). split; [done|].
    split; [done|]. simpl. split; [done|]. rewrite free_holders. by apply not_elem_of_nil.
  - intros t [p Hp]. rewrite lookup_fmap, Hp. by eexists.
  - intros t Ht. by apply not_elem_of_nil in Ht.
  - constructor.
  - intros t Ht. by apply not_elem_of_nil in Ht.
Qed.

Lemma enter_simulates t x sec rest b s m m1 ts a :
  ts !! t = Some x → inside x = None → todo x = sec :: rest → scoped_ctor (held_as sec) t m = Some (b, m1) →
  simulates (MkConfig s m ts) a →
  simulates (MkConfig s m1 (<[t := MkThread (local x) (todo x) (Some (b, actions sec))]> ts)) a.
Proof.
  intros Hx Hin Htd Hctor H.
  destruct (si_threads _ _ H t x Hx) as (p & Hp & Htd' & Hout). simpl in Hout. rewrite Hin in Hout. destruct Hout as [Hl Ht].
  apply fmap_Some in Hctor as (m2 & Hacq & [= -> <-]).
  destruct (acquire_ok _ _ _ _ Ht Hacq) as (k & Hr & Hw & Hh).
  assert (Hs : s = a.1).
  { apply (si_shared _ _ H). destruct k; [by apply Hr|]. simpl. rewrite Hw by done. by intros q ?%not_elem_of_nil. }
  assert (Hmono : ∀ q, q ∈ holders m → q ∈ holders m1) by (intros q; rewrite Hh; by right).
  split; simpl.
  - intros u y. rewrite lookup_insert_Some. intros [[<- <-]|[Hne Hy]].
    + exists p. split; [done|]. split; [done|]. simpl. split; [done|]. rewrite Htd in Htd'.
      exists sec, rest, [], k. rewrite <- Htd'. split; [done|]. split; [done|]. split; [rewrite Hh; by left|].
      split; [apply Hr|]. simpl. by rewrite Hl, Hs.
    + destruct (si_threads _ _ H u y Hy) as (q & Hq & Hqt & Hyq). exists q. split; [done|]. split; [done|].
      simpl in *. destruct (inside y) as [[b gs]|].
      * destruct Hyq as (-> & sec' & rest' & pre & k' & ? & ? & Hk' & ? & ?). split; [done|].
         exists sec', rest', pre, k'. split_and!; try done. by apply Hmono.
      * destruct Hyq as [? Hu]. split; [done|]. rewrite Hh. simpl. rewrite elem_of_cons. naive_solver.
  - intros u Hu. apply lookup_insert_is_Some'. right. by apply (si_same _ _ H).
  - intros _. done.
  - intros u Hu. rewrite Hh in Hu. apply elem_of_cons in Hu as [[= -> <-]|Hu].
    + rewrite (Hw eq_refl) in Hh. by apply Permutation_singleton_r in Hh.
    + exfalso. destruct k; [by destruct (Hr eq_refl) as [_ Hall]; specialize (Hall _ Hu)|].
      rewrite (Hw eq_refl) in Hu. by apply not_elem_of_nil in Hu.
  - rewrite Hh. simpl. constructor; [exact Ht|apply (si_nodup _ _ H)].
  - intros u. rewrite Hh. simpl. intros [->|Hu]%elem_of_cons.
    + rewrite lookup_insert_eq. by eexists.
    + destruct (decide (u = t)) as [->|Hne]; [done|]. rewrite lookup_insert_ne by done. by apply (si_held _ _ H).
  - apply H.
Qed.
Lemma action_simulates t x b f fs s m ts a :
  ts !! t = Some x → inside x = Some (b, f :: fs) → simulates (MkConfig s m ts) a →
  simulates (MkConfig (f (local x) s).2 m (<[t := MkThread (f (local x) s).1 (todo x) (Some (b, fs))]> ts)) a.
Proof.
  intros Hx Hin H.
  destruct (si_threads _ _ H t x Hx) as (p & Hp & Htd' & Hrun). simpl in Hrun. rewrite Hin in Hrun.
  destruct Hrun as (-> & sec & rest & pre & k & Hpt & Hacts & Hk & Hread & Hrun).
  assert (Hsec : reads_only sec).
  { pose proof (si_reads _ _ H t p Hp) as Hall. rewrite Hpt in Hall. by inversion Hall. }
  assert (Hsame : k = Reading → (f (local x) s).2 = s).
  { intros E. apply Hsec; [by apply Hread|]. rewrite Hacts. apply elem_of_app. right. by left. }
  pose proof (held_cases _ _ t k H Hk) as Hcase. simpl in Hcase.
  split; simpl; try apply H.
  - intros u y. rewrite lookup_insert_Some. intros [[<- <-]|[Hne Hy]].
    + exists p. split; [done|]. split; [done|]. simpl. split; [done|]. exists sec, rest, (pre ++ [f]), k.
      split; [done|]. split; [by rewrite <- (assoc_L (++))|]. split; [done|]. split; [done|].
      rewrite run_app, Hrun. simpl. by destruct (f (local x) s).
    + destruct (si_threads _ _ H u y Hy) as (q & Hq & Hqt & Hyq). exists q. split; [done|]. split; [done|]. simpl in *.
      destruct (inside y) as [[b gs]|]; [|done].
      destruct Hyq as (-> & sec' & rest' & pre' & k' & H1 & H2 & Hk' & H3 & H4). split; [done|].
      exists sec', rest', pre', k'. split_and!; try done. destruct Hcase as [[-> Hone]|[-> _]].
      * rewrite Hone in Hk'. apply list_elem_of_singleton in Hk'. congruence.
      * by rewrite Hsame.
  - intros u Hu. apply lookup_insert_is_Some'. right. by apply (si_same _ _ H).
  - intros Hall. destruct Hcase as [[-> _]|(-> & _ & Hs)]; [by specialize (Hall _ Hk)|]. by rewrite Hsame.
  - intros u Hu. destruct (decide (u = t)) as [->|Hne]; [rewrite lookup_insert_eq; by eexists|].
    rewrite lookup_insert_ne by done. by apply (si_held _ _ H).
Qed.
Lemma leave_simulates t x b s m ts a :
  ts !! t = Some x → inside x = Some (b, []) → simulates (MkConfig s m ts) a →
  simulates (MkConfig s (scoped_dtor t b m) (<[t := MkThread (local x) (tail (todo x)) None]> ts)) (atomically a t).
Proof.
  intros Hx Hin H.
  destruct (si_threads _ _ H t x Hx) as ([l td] & Hp & Htd' & Hrun). simpl in Htd', Hrun. rewrite Hin in Hrun.
  destruct Hrun as (-> & sec & rest & pre & k & -> & Hacts & Hk & Hread & Hrun). rewrite app_nil_r in Hacts. subst pre.
  pose proof (held_cases _ _ t k H Hk) as Hcase. simpl in Hcase, Hk.
  pose proof (si_nodup _ _ H) as Hnd. simpl in Hnd. pose proof (release_ok t k m Hnd Hk) as Hh. rewrite Hh in Hnd.
  simpl in Hnd. apply NoDup_cons in Hnd as [Htout Hnd].
  assert (Hmono : ∀ q, q ∈ holders (release t m) → q ∈ holders m) by (intros q Hq; rewrite Hh; by right).
  unfold atomically. rewrite Hp, Hrun. simpl. split; simpl; try done.
  - intros u y. rewrite lookup_insert_Some. intros [[<- <-]|[Hne Hy]].
    + eexists. rewrite lookup_insert_eq. split; [done|]. split; [by rewrite Htd'|]. done.
    + destruct (si_threads _ _ H u y Hy) as (q & Hq & Hqt & Hyq). exists q. rewrite lookup_insert_ne by done. split; [done|]. split; [done|]. simpl in *.
      destruct (inside y) as [[b gs]|].
      * destruct Hyq as (-> & sec' & rest' & pre' & k' & H1 & H2 & Hk' & H3 & H4). split; [done|].
         exists sec', rest', pre', k'. split_and!; try done.
         -- rewrite Hh in Hk'. apply elem_of_cons in Hk' as [[= -> ->]|?]; [congruence|done].
         -- destruct Hcase as [[-> Hone]|(_ & _ & ->)]; [|done].
            rewrite Hone in Hk'. apply list_elem_of_singleton in Hk'. congruence.
      * destruct Hyq as [? Hu]. split; [done|]. intros Hin'. apply Hu.
         apply list_elem_of_fmap in Hin' as (q' & -> & Hq'). apply list_elem_of_fmap. eauto.
  - intros u. rewrite !lookup_insert_is_Some'. intros [->|Hu]; [by left|right]. by apply (si_same _ _ H).
  - intros u Hu. destruct Hcase as [[-> Hone]|(_ & Hall & _)].
    + apply Hmono in Hu as Hu'. rewrite Hone in Hu'. apply list_elem_of_singleton in Hu' as [= ->].
      exfalso. apply Htout. apply list_elem_of_fmap. by exists (t, Writing).
    + by specialize (Hall _ (Hmono _ Hu)).
  - intros u Hu. assert (Hne : u ≠ t) by (by intros ->). rewrite lookup_insert_ne by done. apply (si_held _ _ H). simpl.
    apply list_elem_of_fmap in Hu as (q' & -> & Hq'). apply list_elem_of_fmap. eauto.
  - intros u q. rewrite lookup_insert_Some. intros [[<- <-]|[_ Hq]]; [|by apply (si_reads _ _ H u)].
    simpl. pose proof (si_reads _ _ H t _ Hp) as Hall. by inversion Hall.
Qed.
Lemma step_simulates o c c' a : step o c c' → simulates c a → simulates c' (foldl atomically a (option_list o)).
Proof.
  destruct 1; [by eapply enter_simulates|by apply action_simulates|by apply leave_simulates].
Qed.
Lemma steps_simulates order c c' : steps order c c' → ∀ a, simulates c a → simulates c' (foldl atomically a order).
Proof.
  induction 1 as [|o l c c1 c' Hstep _ IH]; intros a H; [done|]. rewrite foldl_app. apply IH. by eapply step_simulates.
Qed.

(** There is always a step, until every thread has done all it had to do. *)
Lemma simulates_progress c a : simulates c a →
  (∃ o c', step o c c') ∨ ∀ t x, threads c !! t = Some x → inside x = None ∧ todo x = [].
Proof.
  intros H. destruct c as [s m ts]. destruct (holders m) as [|[t k] q] eqn:Eh.
  - assert (Hout : ∀ t x, ts !! t = Some x → inside x = None).
    { intros t x Hx. destruct (si_threads _ _ H t x Hx) as (p & _ & _ & Hin). simpl in Hin.
      destruct (inside x) as [[b fs]|]; [|done]. destruct Hin as (_ & sec & rest & pre & k & _ & _ & Hk & _).
      rewrite Eh in Hk. by apply not_elem_of_nil in Hk. }
    destruct (decide (map_Forall (λ _ x, length (todo x) = 0%nat) ts)) as [Hall|Hex].
    + right. intros t x Hx. split; [by eapply Hout|]. by apply nil_length_inv, (Hall t).
    + left. apply map_not_Forall in Hex as (t & x & Hx & Hne); [|intros ? ?; apply _].
      destruct (todo x) as [|sec rest] eqn:Etd; [done|]. destruct (acquire_free (held_as sec) t m Eh) as [m' Hm].
      do 2 eexists. apply (step_enter t x sec rest true s m m'); [done|by eapply Hout|done|].
      unfold scoped_ctor. by rewrite Hm.
  - left. destruct (si_held _ _ H t) as (x & Hx & [[b fs] Hin]); [simpl; rewrite Eh; by left|]. simpl in Hx.
    destruct fs as [|f fs]; do 2 eexists; [by eapply step_leave|by eapply step_action].
Qed.
End atomic.

(** ** Read-write locks *)
Section rwlock.
Context {R : Type} `{!PthreadRwlock R} `{!PthreadRwlockLaws R} {L S : Type}.

(** C9: sections under a [RWMutex] are atomic.  Threads enter sections with the scoped
    locks, change the object they guard a step at a time while other threads run, and
    leave them; then in every order of steps the threads that are not in a section have
    the local variables, and once none is the object has the contents, that come about
    when whole sections are executed one after the other, in the order in which they were
    left.  Two threads are inside at once only if both read, and no order of steps
    blocks: some thread can make a step until all have done all their sections. *)
Theorem critical_sections_are_atomic order (a : state (L := L) (S := S)) (c : config (RWMutex R) L S) :
  (∀ t p, a.2 !! t = Some p → Forall reads_only p.2) → steps order (start a) c →
  (∀ t x, threads c !! t = Some x → inside x = None → (foldl atomically a order).2 !! t = Some (local x, todo x)) ∧
  ((∀ t x, threads c !! t = Some x → inside x = None) → shared c = (foldl atomically a order).1) ∧
  (∀ t u x y, threads c !! t = Some x → threads c !! u = Some y → t ≠ u →
     is_Some (inside x) → is_Some (inside y) → ∃ sec rest, todo x = sec :: rest ∧ held_as sec = Reading) ∧
  ((∃ o c', step o c c') ∨ ∀ t x, threads c !! t = Some x → inside x = None ∧ todo x = []).
Proof.
  intros Hr Hsteps. pose proof (steps_simulates _ _ _ Hsteps a (start_simulates a Hr)) as H.
  split; [|split; [|split; [|by eapply simulates_progress]]].
  - intros t x Hx Hin. destruct (si_threads _ _ H t x Hx) as ([l td] & Hp & Htd & Hl). rewrite Hin in Hl.
    destruct Hl as [Hl _]. simpl in *. by rewrite Hl, Htd.
  - intros Hout. apply (si_shared _ _ H). intros p Hp. exfalso.
    destruct (si_held _ _ H p.1) as (x & Hx & Hin); [apply list_elem_of_fmap; by exists p|].
    rewrite (Hout _ _ Hx) in Hin. by destruct Hin.
  - intros t u x y Hx Hy Hne [[b fs] Hix] [[b' fs'] Hiy].
    destruct (si_threads _ _ H t x Hx) as (p & _ & Htd & Hin). rewrite Hix in Hin.
    destruct Hin as (_ & sec & rest & pre & k & Hp & _ & Hk & Hread & _).
    destruct (si_threads _ _ H u y Hy) as (q & _ & _ & Hiu). rewrite Hiy in Hiu.
    destruct Hiu as (_ & sec' & rest' & pre' & k' & _ & _ & Hk' & _).
    exists sec, rest. split; [congruence|]. apply Hread.
    destruct (held_cases _ _ t k H Hk) as [[-> Hone]|[-> _]]; [|done].
    rewrite Hone in Hk'. apply list_elem_of_singleton in Hk'. congruence.
Qed.
End rwlock.

(** ** An instance

    A read-write lock that is the list of its holders. *)
#[export] Instance listed_rwlock : PthreadRwlock (list (Z * kind)) := {
  pthread_rwlock_init := [];
  pthread_rwlock_rdlock := λ t r, if decide (Forall (λ p, p.2 = Reading) r) then Some ((t, Reading) :: r) else None;
  pthread_rwlock_wrlock := λ t r, match r with [] => Some [(t, Writing)] | _ => None end;
  pthread_rwlock_unlock := λ t r, base.filter (λ p, p.1 ≠ t) r;
}.
Lemma unlist_none t (r : list (Z * kind)) : t ∉ r.*1 → base.filter (λ p, p.1 ≠ t) r = r.
Proof.
  induction r as [|[u j] r IH]; [done|]. simpl. rewrite not_elem_of_cons. intros [Hne Hr].
  rewrite filter_cons, decide_True by (simpl; congruence). by rewrite IH.
Qed.
Lemma unlist t k (r : list (Z * kind)) : NoDup r.*1 → (t, k) ∈ r → r ≡ₚ (t, k) :: base.filter (λ p, p.1 ≠ t) r.
Proof.
  induction r as [|[u j] r IH]; [by intros _ ?%not_elem_of_nil|]. simpl. intros [Hu Hnd]%NoDup_cons.
  rewrite filter_cons. intros [[= -> ->]|Hin]%elem_of_cons.
  - rewrite decide_False by (simpl; tauto). by rewrite unlist_none.
  - rewrite decide_True; [rewrite (IH Hnd Hin) at 1; constructor|]. simpl. intros ->.
    apply Hu, list_elem_of_fmap. by exists (t, k).
Qed.
#[export] Instance listed_laws : PthreadRwlockLaws (list (Z * kind)).
Proof.
  apply (Build_PthreadRwlockLaws _ _ id); unfold id; simpl.
  - done.
  - intros t r r' _ H. case_decide as Hall; [|done]. injection H as <-. by rewrite Forall_forall in Hall.
  - intros t [|p r] r' _ H; [|done]. by injection H as <-.
  - intros t r ->. by split; eexists.
  - intros t k r Hnd Hin. by apply unlist.
Defined.

(** Thread 1 increments a counter in two steps, thread 2 reads it. *)
Definition increment : section Z Z := MkSection Writing [λ _ s, (s, s); λ l _, (l, l + 1)].
Definition look : section Z Z := MkSection Reading [λ _ s, (s, s)].
Definition counter : state (L := Z) (S := Z) := (41, {[1 := (0, [increment])]} ∪ {[2 := (0, [look])]}).

Lemma counter_reads : ∀ t p, counter.2 !! t = Some p → Forall reads_only p.2.
Proof.
  intros t p. unfold counter. simpl. rewrite lookup_union_Some_raw. intros [H|[_ H]];
    apply lookup_singleton_Some in H as [_ <-]; (repeat constructor); [done|].
  intros _ f Hf l s. by apply list_elem_of_singleton in Hf as ->.
Qed.
Lemma critical_sections_are_atomic_witness :
  ∃ c : config (RWMutex (list (Z * kind))) Z Z, steps [1; 2] (start counter) c ∧
    (local <$> threads c !! 2) = Some 42.
Proof.
  assert (H : ∃ c : config (RWMutex (list (Z * kind))) Z Z, steps [1; 2] (start counter) c ∧
    ∃ x, threads c !! 2 = Some x ∧ inside x = None).
  { eexists. split.
    - apply (steps_cons None [1; 2] _ (MkConfig 41 (MkRWMutex [(1, Writing)])
        (<[1 := MkThread 0 [increment] (Some (true, actions increment))]> (threads (start counter))))).
      { by apply (step_enter 1 (MkThread 0 [increment] None) increment [] true). }
      eapply (steps_cons None [1; 2]); [by eapply (step_action 1)|]. eapply (steps_cons None [1; 2]); [by eapply (step_action 1)|].
      eapply (steps_cons (Some 1) [2]); [by eapply (step_leave 1)|]. eapply (steps_cons None [2]); [by eapply (step_enter 2)|].
      eapply (steps_cons None [2]); [by eapply (step_action 2)|].
      eapply (steps_cons (Some 2) []); [by eapply (step_leave 2)|]. constructor.
    - eexists. by split. }
  destruct H as (c & Hsteps & x & Hx & Hout). exists c. split; [exact Hsteps|].
  destruct (critical_sections_are_atomic [1; 2] counter c counter_reads Hsteps) as (Hlocal & _).
  specialize (Hlocal 2 x Hx Hout).
  assert (E : (foldl atomically counter [1; 2]).2 !! 2 = Some (42, [])) by (vm_compute; reflexivity).
  rewrite E in Hlocal. injection Hlocal as Hl _. rewrite Hx. simpl. by rewrite <- Hl.
Defined.
End LockFacts.
