(* ===== verification/Addresses.v ===== *)
(** * Socket addresses (address.h, address.cc)

    An address is the bytes [getAddr()] points to, [getAddrLen()] of them; both are
    virtual functions of classes that are only declared.  [toString] has no body. *)
From stdpp Require Import base list.
From Stdlib Require Import ZArith Lia.
From S2P Require Import Prelude.
Open Scope Z_scope.

Module Address.

(** [memcmp(a, b, count)] on bytes. *)
Fixpoint memcmp (count : nat) (a b : list Z) : Z :=
  match count, a, b with
  | S n, x :: a', y :: b' => if x =? y then memcmp n a' b' else x - y
  | _, _, _ => 0
  end.

(** [Address::operator<], [operator==], [operator!=] *)
Definition less (a b : list Z) : bool :=
  let count := Nat.min (length a) (length b) in
  let result := memcmp count a b in
  if result <? 0 then true
  else if result >? 0 then false
  else if (length a <? length b)%nat then true
  else false.
Definition equal (a b : list Z) : bool :=
  (length a =? length b)%nat && (memcmp (length a) a b =? 0).
Definition not_equal (a b : list Z) : bool := negb (equal a b).

(** [Address::getFamily]: [sa_family], the two bytes at the front, the low one first; [None]
    for an address that is too short to have it. *)
Definition getFamily (a : list Z) : option Z :=
  match a with lo :: hi :: _ => Some (lo + 256 * hi) | _ => None end.

(** ** The order *)
Fixpoint lex (a b : list Z) : bool :=
  match a, b with
  | x :: a', y :: b' => (x <? y) || ((x =? y) && lex a' b')
  | [], _ :: _ => true
  | _, [] => false
  end.

Lemma less_lex a : ∀ b, less a b = lex a b.
Proof.
  induction a as [|x a IH]; intros [|y b]; try done. unfold less in *. simpl.
  destruct (Z.eqb_spec x y) as [->|Hne].
  - rewrite Z.ltb_irrefl. simpl. apply IH.
  - rewrite orb_false_r. destruct (Z.ltb_spec (x - y) 0), (Z.ltb_spec x y); try done; try lia.
    rewrite Z.gtb_ltb. destruct (Z.ltb_spec 0 (x - y)); [done|lia].
Qed.
Lemma equal_eq a : ∀ b, equal a b = true ↔ a = b.
Proof.
  unfold equal. induction a as [|x a IH]; intros [|y b]; simpl; try done.
  destruct (Z.eqb_spec x y) as [->|Hne].
  - rewrite IH. split; [by intros ->|by intros [= ->]].
  - split; [|by intros [= ? _]]. intros [_ H]%andb_prop. apply Z.eqb_eq in H. lia.
Qed.
Lemma equal_family a b : equal a b = true → getFamily a = getFamily b.
Proof. by intros ->%equal_eq. Qed.
Lemma lex_irrefl a : lex a a = false.
Proof. induction a as [|x a IH]; [done|]. simpl. by rewrite Z.ltb_irrefl, IH, andb_false_r. Qed.
Lemma lex_trans a : ∀ b c, lex a b = true → lex b c = true → lex a c = true.
Proof.
  induction a as [|x a IH]; intros [|y b] [|z c]; simpl; try done.
  intros [H1|[H1 H1']%andb_prop]%orb_prop [H2|[H2 H2']%andb_prop]%orb_prop; apply orb_true_iff;
    rewrite ?Z.ltb_lt, ?Z.eqb_eq, ?andb_true_iff in *; try (left; lia).
  right. split; [lia|]. by apply (IH b).
Qed.
Lemma lex_total a : ∀ b, a = b ∨ lex a b = true ∨ lex b a = true.
Proof.
  induction a as [|x a IH]; intros [|y b]; simpl; auto.
  destruct (Z.lt_total x y) as [H|[->|H]].
  - right. left. apply orb_true_iff. left. by apply Z.ltb_lt.
  - rewrite Z.ltb_irrefl, Z.eqb_refl. simpl. destruct (IH b) as [->|[H|H]]; auto.
  - right. right. apply orb_true_iff. left. by apply Z.ltb_lt.
Qed.

(** Addresses are totally ordered: [==] holds exactly between addresses of the same
    length and bytes, [<] is transitive, and of any two addresses exactly one is less
    than the other or they are equal. *)
Theorem address_order a b :
  (equal a b = true ↔ a = b) ∧ not_equal a b = negb (equal a b) ∧
  (equal a b = true ∧ less a b = false ∧ less b a = false ∨
   equal a b = false ∧ less a b = true ∧ less b a = false ∨
   equal a b = false ∧ less a b = false ∧ less b a = true) ∧
  ∀ c, less a b = true → less b c = true → less a c = true.
Proof.
  rewrite !less_lex. split; [apply equal_eq|]. split; [done|]. split.
  2: { intros c. rewrite !less_lex. apply lex_trans. }
  assert (Heq : a ≠ b → equal a b = false).
  { intros H. destruct (equal a b) eqn:E; [|done]. by apply equal_eq in E. }
  assert (Hasym : ∀ a b, lex a b = true → lex b a = false ∧ a ≠ b).
  { intros a' b' H. split; [|intros ->; by rewrite lex_irrefl in H].
    destruct (lex b' a') eqn:E; [|done]. rewrite <- (lex_irrefl a'). by rewrite (lex_trans a' b' a'). }
  destruct (lex_total a b) as [->|[H|H]].
  - left. rewrite lex_irrefl. split; [by apply equal_eq|done].
  - right. left. destruct (Hasym a b H). rewrite Heq by done. done.
  - right. right. destruct (Hasym b a H). rewrite Heq by done. done.
Qed.
End Address.
