(* ===== verification/Utils.v ===== *)
(** * Clock, fiber id and backtraces (util.h, util.cc)

    [gettimeofday] and the functions of execinfo.h are arguments. *)
From stdpp Require Import base list strings.
From Stdlib Require Import ZArith Lia Ascii String.
From S2P Require Import Prelude Fibers.
Open Scope Z_scope.

Module Util.

(** What [gettimeofday] stores. *)
Record timeval := MkTimeval { tv_sec : Z; tv_usec : Z }.

Definition Get_current_ms (tv : timeval) : Z := u64 (tv_sec tv * 1000 + Z.quot (tv_usec tv) 1000).
Definition Get_current_us (tv : timeval) : Z := u64 (tv_sec tv * 1000 * 1000 + tv_usec tv).

(** [uint32_t GetFiberId()] *)
Definition GetFiberId {B} (t : Z) : M (Fiber.Fibers B) Z :=
  let* id := Fiber.GetFiberId t in ret (u32 id).

(** The loop of [Backtrace] over the symbols, from [size_t i = skip]. *)
Fixpoint copy_from (skip i : Z) (strings : list string) : list string :=
  match strings with
  | [] => []
  | x :: strings =>
      if u64 skip <=? i then x :: copy_from skip (i + 1) strings else copy_from skip (i + 1) strings
  end.
(** [Backtrace]; [strings] is what [backtrace_symbols] returns. *)
Definition Backtrace (strings : option (list string)) (skip : Z) (bt : list string) : list string :=
  match strings with
  | None => bt
  | Some strings => bt ++ copy_from skip 0 strings
  end.
Definition Backtrace_to_string (strings : option (list string)) (skip : Z) (prefix : string) : string :=
  fold_right (λ i ss, prefix +:+ i +:+ String "010"%char ss) ""%string (Backtrace strings skip []).

(** ** The clock *)

(** A time a clock can show until the year 2500. *)
Definition time_ok (tv : timeval) : Prop := 0 <= tv_sec tv < 2 ^ 34 ∧ 0 <= tv_usec tv < 1000000.

(** Milliseconds are microseconds rounded down, and a clock that does not go back in
    microseconds does not go back in milliseconds. *)
Lemma ms_of_us tv : time_ok tv → Get_current_ms tv = Get_current_us tv / 1000.
Proof.
  unfold time_ok. intros [Hs Hu]. unfold Get_current_ms, Get_current_us.
  rewrite Z.quot_div_nonneg by lia. assert (tv_usec tv / 1000 < 1000) by (apply Z.div_lt_upper_bound; lia).
  pose proof (Z.div_pos (tv_usec tv) 1000).
  rewrite !u64_id by (unfold is_u64; lia).
  replace (tv_sec tv * 1000 * 1000 + tv_usec tv) with (tv_usec tv + tv_sec tv * 1000 * 1000) by lia.
  rewrite Z.div_add by lia. lia.
Qed.
Lemma ms_monotone tv tv' :
  time_ok tv → time_ok tv' → Get_current_us tv <= Get_current_us tv' → Get_current_ms tv <= Get_current_ms tv'.
Proof. intros H H' Hle. rewrite !ms_of_us by done. by apply Z.div_le_mono. Qed.

(** ** Backtraces *)
Lemma copy_from_drop skip strings : ∀ i, 0 <= i →
  copy_from skip i strings = drop (Z.to_nat (u64 skip - i)) strings.
Proof.
  induction strings as [|x l IH]; intros i Hi; simpl; [by rewrite drop_nil|].
  destruct (Z.leb_spec (u64 skip) i).
  - replace (Z.to_nat (u64 skip - i)) with 0%nat by lia. rewrite IH by lia.
    by replace (Z.to_nat (u64 skip - (i + 1))) with 0%nat by lia.
  - rewrite IH by lia. by replace (Z.to_nat (u64 skip - i)) with (S (Z.to_nat (u64 skip - (i + 1)))) by lia.
Qed.

(** [Backtrace] appends the symbols but the first [skip], none of them if [skip] is
    negative, since it is converted to [size_t]. *)
Lemma Backtrace_skips strings skip bt : Z.of_nat (List.length strings) < 2 ^ 32 → - 2 ^ 31 <= skip < 2 ^ 31 →
  Backtrace (Some strings) skip bt = bt ++ (if 0 <=? skip then drop (Z.to_nat skip) strings else []).
Proof.
  intros Hlen Hskip. simpl. f_equal. rewrite copy_from_drop, Z.sub_0_r by lia.
  destruct (Z.leb_spec 0 skip); [by rewrite u64_id by (unfold is_u64; lia)|].
  apply drop_ge. rewrite u64_neg by lia. lia.
Qed.
End Util.
