(* ===== verification/Singletons.v ===== *)
(** * Singletons (singleton.h)

    The static object behind [Singleton<T>], made by the first call of [GetInstance], and
    the objects [SingletonPtr<T>] makes.  Addresses are given out in order. *)
From stdpp Require Import base gmap list strings.
From Stdlib Require Import ZArith Lia.
From S2P Require Import Prelude.
Open Scope Z_scope.

Module Singleton.
Section singleton.
Context {T : Type}.

(** The objects of type [T], the address of the static one once it is made, and the address
    of the next object. *)
Record Objects := MkObjects { objects : gmap Z T; v : option Z; next : Z }.
(** [new T] *)
Definition new_object (x : T) : M Objects Z := λ s,
  Ok (next s, MkObjects (<[next s := x]> (objects s)) (v s) (next s + 1)).

(** [Singleton<T>::GetInstance], where [x] is what the constructor of [T] makes. *)
Definition GetInstance (x : T) : M Objects Z :=
  let* o := gets v in
  match o with
  | Some a => ret a
  | None =>
      let* a := new_object x in
      modify (λ s, MkObjects (objects s) (Some a) (next s)) ;;;
      ret a
  end.
(** [SingletonPtr<T>::GetInstance] *)
Definition GetInstance_ptr (x : T) : M Objects Z := let* a := new_object x in ret a.
(** A use of the object at [a]. *)
Definition use (f : T → T) (a : Z) : M Objects unit :=
  modify (λ s, MkObjects (alter f a (objects s)) (v s) (next s)).

(** Objects stand at addresses that have been given out. *)
Definition objects_ok (s : Objects) : Prop :=
  (∀ a, is_Some (objects s !! a) → a < next s) ∧ ∀ a, v s = Some a → is_Some (objects s !! a).

(** Every call finds the object of the first, with what has been done to it since. *)
Lemma one_instance x s f y : objects_ok s →
  ∃ a z s', GetInstance x s = Ok (a, s') ∧ objects_ok s' ∧ objects s' !! a = Some z ∧
    (v s = None → z = x) ∧ (v s = Some a → s' = s) ∧
    ∃ s2, (use f a ;;; GetInstance y) s' = Ok (a, s2) ∧ objects s2 !! a = Some (f z).
Proof.
  intros [Hlt Hv]. unfold GetInstance. step_in. destruct (v s) as [a|] eqn:E.
  - destruct (Hv a eq_refl) as [z Hz]. exists a, z, s. do 3 (split; [done || (by split; rewrite ?E)|]).
    split; [done|]. split; [done|]. unfold use. step_in. unfold bind, gets. simpl. rewrite E. eexists. split; [done|].
    simpl. by rewrite lookup_alter_eq, Hz.
  - unfold new_object. exists (next s), x, (MkObjects (<[next s := x]> (objects s)) (Some (next s)) (next s + 1)).
    split; [done|]. split; [|split; [apply lookup_insert_eq|]].
    + split; simpl.
      * intros a [->|H]%lookup_insert_is_Some'; [lia|]. specialize (Hlt a H). lia.
      * intros a [= <-]. apply lookup_insert_is_Some'. by left.
    + split; [done|]. split; [done|]. eexists. split; [done|]. simpl. by rewrite lookup_alter_eq, lookup_insert_eq.
Qed.

(** Two calls through [SingletonPtr] make two objects. *)
Lemma two_instances x s : ∃ a b s1 s2,
  GetInstance_ptr x s = Ok (a, s1) ∧ GetInstance_ptr x s1 = Ok (b, s2) ∧ a ≠ b.
Proof. eexists _, _, _, _. split; [done|]. split; [done|]. simpl. lia. Qed.
End singleton.
End Singleton.
