(* ===== verification/LogStatements.v ===== *)
(** * Log statements and assertions (log.h, macro.h, util.h)

    The macros through which the framework and its clients log: an event is made where
    the statement stands, the text is written to its stream, and the destructor of
    [LogEventWrap], at the end of the statement, gives it to its logger.  [vasprintf] is
    an argument. *)
From stdpp Require Import base gmap list strings.
From Stdlib Require Import ZArith Lia Ascii String.
From S2P Require Import Prelude LogFormats LogFormatFacts Loggers LoggerFacts Utils.
Open Scope Z_scope.

Module LogStatement.
Import LogFormat Log LoggerFacts.

(** [LogEvent::LogEvent] *)
Definition LogEvent_ctor (logger level : Z) (file : string) (line elapse threadId : Z) (threadName : string)
    (fiberId time : Z) : LogEvent :=
  MkLogEvent file line elapse threadId threadName fiberId time "" logger level.

(** [getSS() << text] *)
Definition stream_into (text : string) (e : LogEvent) : LogEvent :=
  MkLogEvent (m_file e) (m_line e) (m_elapse e) (m_threadId e) (m_threadName e) (m_fiberId e) (m_time e)
    (m_ss e +:+ text) (m_logger e) (m_level e).

(** What a statement finds where it stands: [GetThreadId()], [Thread::GetName()],
    [GetFiberId()] and [time(nullptr)]. *)
Record place := MkPlace { here_thread : Z; here_name : string; here_fiber : Z; here_time : Z }.

Section statements.
Context {A : Type}.
Variable vasprintf : string → list A → option string.
Variable strftime : string → Z → string.
Variable can_open : string → bool.

(** [LogEvent::format]: nothing is written when [vasprintf] fails. *)
Definition event_format (fmt : string) (al : list A) (e : LogEvent) : LogEvent :=
  match vasprintf fmt al with Some buf => stream_into buf e | None => e end.

(** What stands behind the macro: [<< text], or a format with its arguments. *)
Inductive message := Streamed (text : string) | Formatted (fmt : string) (al : list A).
Definition write_message (m : message) (e : LogEvent) : LogEvent :=
  match m with Streamed text => stream_into text e | Formatted fmt al => event_format fmt al e end.

(** [SYLAR_LOG_LEVEL(logger, level)], [SYLAR_LOG_FMT_LEVEL(logger, level, fmt, ...)] in
    line [line] of [file]: the event is made and the message evaluated only if the
    logger's level admits it. *)
Definition new_event (logger level : Z) (file : string) (line : Z) (h : place) : LogEvent :=
  LogEvent_ctor logger level file line 0 (u32 (here_thread h)) (here_name h) (u32 (here_fiber h)) (u64 (here_time h)).
Definition LOG_LEVEL (level : Z) (file : string) (line : Z) (h : place) (m : message) (logger : Z) : M Logs unit :=
  let* x := logger_at logger in
  when (l_level x <=? level)
    (LogEventWrap_dtor strftime can_open (write_message m (new_event logger level file line h))).
Definition SYLAR_LOG_DEBUG := LOG_LEVEL DEBUG.
Definition SYLAR_LOG_INFO := LOG_LEVEL INFO.
Definition SYLAR_LOG_WARN := LOG_LEVEL WARN.
Definition SYLAR_LOG_ERROR := LOG_LEVEL ERROR.
Definition SYLAR_LOG_FATAL := LOG_LEVEL FATAL.

(** [SYLAR_LOGGER_ROOT()], [SYLAR_LOG_NAME(name)] *)
Definition SYLAR_LOGGER_ROOT : M Logs Z := getRoot.
Definition SYLAR_LOG_NAME (name : string) : M Logs Z := getLogger name.

(** ** Assertions

    [SYLAR_ASSERT(x)] and [SYLAR_ASSERT2(x, w)], where [strings] is what
    [backtrace_symbols] returns, [util_cc] the [__FILE__] of util.cc and [g_logger] its
    logger, to which a failed [backtrace_symbols] is reported while the statement is being
    evaluated.  The result says whether [assert] stops the process; what has been logged by
    then is in the state. *)
Definition newline : string := String "010"%char "".
Definition Backtrace_to_string (util_cc : string) (g_logger : Z) (h : place) (strings : option (list string))
    (skip : Z) (prefix : string) : M Logs string :=
  (match strings with
   | None => SYLAR_LOG_ERROR util_cc 29 h (Streamed "backtrace_symbols error!") g_logger
   | Some _ => ret tt
   end) ;;;
  ret (Util.Backtrace_to_string strings skip prefix).
Definition assertion (x : bool) (text : string) (file : string) (line : Z) (h : place)
    (util_cc : string) (g_logger : Z) (strings : option (list string)) : M Logs bool :=
  if x then ret false
  else
    let* root := SYLAR_LOGGER_ROOT in
    let* r := logger_at root in
    when (l_level r <=? ERROR) (
      let* trace := Backtrace_to_string util_cc g_logger h strings 2 "   " in
      LogEventWrap_dtor strftime can_open
        (stream_into ("ASSERTION: " +:+ text +:+ newline +:+ "backtrace:" +:+ newline +:+ trace)
          (new_event root ERROR file line h))) ;;;
    ret true.
Definition SYLAR_ASSERT := assertion.
Definition SYLAR_ASSERT2 (x : bool) (text w : string) := assertion x (text +:+ newline +:+ w).

(** ** Theorems *)
Implicit Types (s : Logs) (h : place).

Lemma write_message_logger m e : m_logger (write_message m e) = m_logger e ∧ m_level (write_message m e) = m_level e.
Proof. destruct m as [text|fmt al]; [done|]. simpl. unfold event_format. by destruct (vasprintf fmt al). Qed.
Lemma targets_below l level s x : loggers s !! l = Some x → level < l_level x → targets l level s = [].
Proof. intros Hx Hl. unfold targets. rewrite Hx. by destruct (Z.geb_spec level (l_level x)); [lia|]. Qed.
Lemma delivered_none name level event s s' : delivered strftime can_open name level event [] s s' → s' = s.
Proof.
  intros (E & Ho & Hf). assert (H : files s' = files s) by (apply map_eq; intros n; by rewrite Hf).
  rewrite E, H, Ho. simpl. rewrite texts_nil. by destruct s.
Qed.

Lemma statement_ok level file line h m l s x :
  logs_ok s → loggers s !! l = Some x →
  ∃ s', LOG_LEVEL level file line h m l s = Ok (tt, s') ∧
    delivered strftime can_open (m_name x) level (write_message m (new_event l level file line h))
      (targets l level s) s s'.
Proof.
  intros Hok Hx. unfold LOG_LEVEL. rewrite (bind_step _ _ _ _ _ (logger_at_ok l x s Hx)).
  destruct (Z.leb_spec (l_level x) level); simpl.
  - unfold LogEventWrap_dtor. destruct (write_message_logger m (new_event l level file line h)) as [-> ->].
    apply log_ok; [done| |by eexists]. by destruct (write_message_logger m (new_event l level file line h)) as [-> _].
  - exists s. split; [done|]. rewrite (targets_below _ _ _ x) by done. apply delivered_nil.
Qed.

(** What a message adds to the event's stream. *)
Definition message_text (m : message) : string :=
  match m with Streamed text => text | Formatted fmt al => default ""%string (vasprintf fmt al) end.

Lemma statement_event level file line h m l s x :
  logs_ok s → loggers s !! l = Some x →
  ∃ s', LOG_LEVEL level file line h m l s = Ok (tt, s') ∧
    delivered strftime can_open (m_name x) level
      {| m_file := file; m_line := line; m_elapse := 0; m_threadId := u32 (here_thread h);
         m_threadName := here_name h; m_fiberId := u32 (here_fiber h); m_time := u64 (here_time h);
         m_ss := message_text m; m_logger := l; m_level := level |}
      (targets l level s) s s'.
Proof.
  intros Hok Hx. destruct (statement_ok level file line h m l s x Hok Hx) as (s' & H & Hd). exists s'. split; [done|].
  replace (MkLogEvent _ _ _ _ _ _ _ _ _ _) with (write_message m (new_event l level file line h)); [done|].
  destruct m as [text|fmt al]; [done|]. simpl. unfold event_format. by destruct (vasprintf fmt al).
Qed.

(** What [backtrace_symbols] failing adds before an assertion that is [admitted]. *)
Definition reported (util_cc : string) (g_logger : Z) (y : Logger) h (frames : option (list string)) (admitted : bool)
    s s1 : Prop :=
  match frames with
  | Some _ => s1 = s
  | None => delivered strftime can_open (m_name y) ERROR
      {| m_file := util_cc; m_line := 29; m_elapse := 0; m_threadId := u32 (here_thread h);
         m_threadName := here_name h; m_fiberId := u32 (here_fiber h); m_time := u64 (here_time h);
         m_ss := "backtrace_symbols error!"; m_logger := g_logger; m_level := ERROR |}
      (if admitted then targets g_logger ERROR s else []) s s1
  end.

Lemma assertion_ok text file line h util_cc g y frames s :
  logs_ok s → loggers s !! g = Some y →
  ∃ r s1 s', assertion false text file line h util_cc g frames s = Ok (true, s') ∧
    loggers s !! manager_root s = Some r ∧ reported util_cc g y h frames (l_level r <=? ERROR) s s1 ∧
    delivered strftime can_open (m_name r) ERROR
      (stream_into ("ASSERTION: " +:+ text +:+ newline +:+ "backtrace:" +:+ newline +:+
         Util.Backtrace_to_string frames 2 "   ") (new_event (manager_root s) ERROR file line h))
      (targets (manager_root s) ERROR s) s1 s'.
Proof.
  intros Hok Hy. destruct (ok_root _ Hok) as (r & Hr & _). exists r. unfold assertion, SYLAR_LOGGER_ROOT, getRoot. step_in.
  rewrite (bind_step _ _ _ _ _ (logger_at_ok _ r s Hr)).
  destruct (Z.leb_spec (l_level r) ERROR) as [Hl|Hl]; simpl.
  - assert (Hrep : ∃ s1, Backtrace_to_string util_cc g h frames 2 "   " s =
        Ok (Util.Backtrace_to_string frames 2 "   ", s1) ∧ reported util_cc g y h frames true s s1 ∧
        s1 = set_output (out s1) (files s1) s).
    { unfold Backtrace_to_string. destruct frames as [l|]; [exists s; split; [done|split; [done|by destruct s]]|].
      destruct (statement_event ERROR util_cc 29 h (Streamed "backtrace_symbols error!") g s y Hok Hy) as (s1 & H & Hd).
      exists s1. unfold SYLAR_LOG_ERROR. rewrite (bind_step _ _ _ _ _ H). split; [done|]. split; [exact Hd|]. apply Hd. }
    destruct Hrep as (s1 & H & Hrep & E).
    assert (Hok1 : logs_ok s1) by (rewrite E; by apply output_ok).
    set (e := stream_into _ _).
    destruct (log_ok strftime can_open (manager_root s) ERROR e r s1 Hok1) as (s' & Hlog & Hd);
      [by rewrite E|rewrite E; by eexists|].
    exists s1, s'. split; [|split; [done|split; [done|]]].
    + rewrite bind_assoc, (bind_step _ _ _ _ _ H). fold e. unfold LogEventWrap_dtor. by rewrite (bind_step _ _ _ _ _ Hlog).
    + rewrite E in Hd at 1. exact Hd.
  - exists s, s. split; [done|]. split; [done|]. rewrite (targets_below _ _ _ r) by done.
    split; [|apply delivered_nil]. destruct frames; [done|]. apply delivered_nil.
Qed.

(** The lines of a trace. *)
Lemma trace_lines frames :
  Util.Backtrace_to_string frames 2 "   " = texts (map (λ frame, "   " +:+ frame +:+ newline) (drop 2 (default [] frames))).
Proof.
  assert (Hcopy : ∀ l i, 2 <= i → Util.copy_from 2 i l = l).
  { induction l as [|x l IH]; intros i Hi; [done|]. simpl. change (u64 2) with 2.
    destruct (Z.leb_spec 2 i); [|lia]. by rewrite IH by lia. }
  assert (E : Util.Backtrace frames 2 [] = drop 2 (default [] frames)).
  { destruct frames as [[|x [|y l]]|]; try done. simpl. change (u64 2) with 2. simpl. by apply Hcopy. }
  unfold Util.Backtrace_to_string. rewrite E. clear E. induction (drop 2 _) as [|x l IH]; [done|]. cbn [fold_right map texts foldr].
  rewrite IH, !texts_assoc. done.
Qed.

(** C29: a log statement reaches the appenders it should.  Whatever is logged, in
    whatever way, at whatever level, the statement returns; the event carries the file
    and line of the statement, the identifier and name of the thread and the identifier of
    the fiber that made it, the time, and the text (none when [vasprintf] fails); the
    appenders of the logger, or of the root, whose levels admit it write it in order; below
    the logger's level nothing happens.  An assertion that holds does nothing; one that
    fails is such a statement on the root at level [ERROR], with the text of the condition,
    the words of [SYLAR_ASSERT2], and the frames of the trace but the first two, a line
    for each, and then stops the process. *)
Theorem log_statement_is_delivered level file line h m l s x :
  logs_ok s → loggers s !! l = Some x →
  (∃ s', LOG_LEVEL level file line h m l s = Ok (tt, s') ∧
     delivered strftime can_open (m_name x) level
       {| m_file := file; m_line := line; m_elapse := 0; m_threadId := u32 (here_thread h);
          m_threadName := here_name h; m_fiberId := u32 (here_fiber h); m_time := u64 (here_time h);
          m_ss := message_text m; m_logger := l; m_level := level |}
       (targets l level s) s s' ∧
     (level < l_level x → s' = s)) ∧
  (∀ b text w frames util_cc g y, loggers s !! g = Some y → ∃ s', (match w with
       | None => SYLAR_ASSERT b text file line h util_cc g frames
       | Some w => SYLAR_ASSERT2 b text w file line h util_cc g frames
       end) s = Ok (negb b, s') ∧
     if b then s' = s else ∃ r s1, loggers s !! manager_root s = Some r ∧
       reported util_cc g y h frames (l_level r <=? ERROR) s s1 ∧
       delivered strftime can_open (m_name r) ERROR
         {| m_file := file; m_line := line; m_elapse := 0; m_threadId := u32 (here_thread h);
            m_threadName := here_name h; m_fiberId := u32 (here_fiber h); m_time := u64 (here_time h);
            m_ss := "ASSERTION: " +:+ text +:+ newline +:+ (match w with Some w => w +:+ newline | None => "" end) +:+
                    "backtrace:" +:+ newline +:+
                    texts (map (λ frame, "   " +:+ frame +:+ newline) (drop 2 (default [] frames)));
            m_logger := manager_root s; m_level := ERROR |}
         (targets (manager_root s) ERROR s) s1 s').
Proof.
  intros Hok Hx. split.
  - destruct (statement_event level file line h m l s x Hok Hx) as (s' & H & Hd). exists s'. split; [done|]. split; [done|].
    intros Hl. rewrite (targets_below _ _ _ x) in Hd by done. by apply delivered_none in Hd.
  - intros b text w frames util_cc g y Hy. unfold SYLAR_ASSERT2, SYLAR_ASSERT.
    destruct b; [exists s; by destruct w|].
    destruct w as [w|];
      [destruct (assertion_ok (text +:+ newline +:+ w) file line h util_cc g y frames s Hok Hy) as (r & s1 & s' & H & Hr & Hrep & Hd)
      |destruct (assertion_ok text file line h util_cc g y frames s Hok Hy) as (r & s1 & s' & H & Hr & Hrep & Hd)];
      (exists s'; split; [exact H|]; exists r, s1; split; [done|]; split; [done|]);
      rewrite trace_lines in Hd; [|exact Hd].
    rewrite !texts_assoc in Hd. rewrite !texts_assoc. exact Hd.
Qed.
End statements.

(** The sample with a logger [app] that shows every field, and a statement of it. *)
Definition app_define : LogDefine :=
  MkDefine "app" INFO "%f:%l %r %t %N %F %d %p %c %m%n" [MkAppenderDefine 2 DEBUG "" ""].
Definition with_app : Logs :=
  match logs_changed (λ f _, f) (λ _, true) (sample_event 1 INFO) [] [app_define] sample with
  | Ok (_, s) => s
  | Fault _ => sample
  end.
Definition app_logger : Logger := MkLogger "app" INFO [6] (Some (LogFormatter_ctor (d_formatter app_define))) None.
Lemma with_app_ok : logs_ok with_app.
Proof.
  destruct (logs_listener_ok (λ f _, f) (λ _, true) (sample_event 1 INFO) root_logger [] [app_define] sample) as [_ H].
  - apply sample_ok.
  - reflexivity.
  - apply Forall_singleton, Forall_singleton. by right.
  - constructor.
  - apply NoDup_singleton.
  - destruct H as (s' & H & Hok & _); [by intros d _ ?%not_elem_of_nil|]. unfold with_app. by rewrite H.
Qed.

Lemma log_statement_is_delivered_witness :
  ∃ s', SYLAR_LOG_WARN (A := Z) (λ _ _, None) (λ _ _, "noon"%string) (λ _, true) "a.cc" 7 (MkPlace 3 "main" 4 5)
      (Streamed "hello") 5 with_app = Ok (tt, s') ∧
    out s' = out with_app +:+ "a.cc:7 0 3 main 4 noon WARN app hello" +:+ newline.
Proof.
  destruct (log_statement_is_delivered (A := Z) (λ _ _, None) (λ _ _, "noon"%string) (λ _, true) WARN "a.cc" 7
    (MkPlace 3 "main" 4 5) (Streamed "hello") 5 with_app app_logger) as [(s' & H & (_ & Hout & _) & _) _].
  - apply with_app_ok.
  - vm_compute. reflexivity.
  - exists s'. split; [exact H|]. rewrite Hout. vm_compute. reflexivity.
Defined.
End LogStatement.
